(** * kgcnn: ragged casting, adjacency utilities, scalers and dataset loaders

    A shallow embedding of the pure cores of

      - [kgcnn/layers/ragged/casting.py]   (module [Casting]),
      - [kgcnn/utils/adj.py]               (module [Adj]),
      - [kgcnn/scaler/scaler.py]           (module [Scaler]),
      - [kgcnn/data/moleculenet.py]        (module [MoleculeNet]),
      - [kgcnn/data/datasets/mutagenicity.py] (module [Mutagenicity]),
      - [training/train_lipop.py] with [training/hyper/hyper_lipop.py]
        (module [TrainLipop]),

    together with the properties the repository's description states about
    them.  Python exceptions are results of an error monad; tensors and
    numpy arrays are lists with the shape bookkeeping the libraries do. *)

From Stdlib Require Import ZArith QArith Lia.
From Stdlib Require Reals Lra Lqa.
From Stdlib Require Import Ascii String.
From stdpp Require Import base tactics option list strings gmap.

Open Scope Z_scope.

(** ** Python results: a value or a raised exception *)

Module Py.

Inductive exn : Type :=
  | TypeError (msg : string)
  | ValueError (msg : string)
  | KeyError (key : string)
  | IndexError
  | AttributeError (name : string)
  | FileNotFoundError (path : string)
  | InvalidArgumentError.

Inductive result (A : Type) : Type :=
  | Ok (a : A)
  | Raise (e : exn).
Arguments Ok {A} a.
Arguments Raise {A} e.

#[global] Instance result_ret : MRet result := fun A a => Ok a.
#[global] Instance result_bind : MBind result :=
  fun A B f m => match m with Ok a => f a | Raise e => Raise e end.
#[global] Instance result_fmap : FMap result :=
  fun A B f m => match m with Ok a => Ok (f a) | Raise e => Raise e end.

(** [mapM]: a comprehension whose body may raise; the first exception wins. *)
Fixpoint mapM {A B : Type} (f : A -> result B) (l : list A) : result (list B) :=
  match l with
  | [] => Ok []
  | x :: l' => y ← f x; ys ← mapM f l'; Ok (y :: ys)
  end.

(** [l[:-1]] *)
Definition drop_last {A : Type} (l : list A) : list A := removelast l.

(** Python's slice [l[st:en]] with the clamping of out-of-range and the
    wrap-around of negative bounds. *)
Definition clamp_index (i : Z) (n : nat) : nat :=
  if i <? 0 then Z.to_nat (Z.max 0 (i + Z.of_nat n))
  else Z.to_nat (Z.min i (Z.of_nat n)).

Definition slice {A : Type} (st en : Z) (l : list A) : list A :=
  let s := clamp_index st (length l) in
  let e := clamp_index en (length l) in
  take (e - s)%nat (drop s l).

(** Inversion of the error monad: a sequence that returned was made of
    steps that returned. *)

Lemma bind_Ok {A B} (m : result A) (f : A -> result B) (r : B) :
  m ≫= f = Ok r -> exists a, m = Ok a /\ f a = Ok r.
Proof. destruct m as [a|e]; simpl; [eauto|discriminate]. Qed.

Ltac inv_bind H :=
  let a := fresh "v" in
  let Ha := fresh "Hv" in
  apply bind_Ok in H as (a & Ha & H).

Lemma mapM_Ok_Forall2 {A B} (f : A -> result B) (l : list A) (r : list B) :
  mapM f l = Ok r -> Forall2 (fun x y => f x = Ok y) l r.
Proof.
  revert r. induction l as [|x l IH]; intros r H; simpl in H.
  - inversion H. constructor.
  - inv_bind H. inv_bind H. inversion H; subst. constructor; auto.
Qed.

End Py.
Import Py.


Lemma mapM_length {A B} (f : A -> result B) (l : list A) (r : list B) :
  mapM f l = Ok r -> length r = length l.
Proof. intros H. apply mapM_Ok_Forall2 in H. symmetry. by eapply Forall2_length. Qed.
(** ** [kgcnn/layers/ragged/casting.py] *)

Module Casting.

(** A [tf.RaggedTensor] with one ragged dimension: the flat [values] (one
    entry per node or edge) and the [row_splits] partition. *)
Record RaggedTensor (V : Type) : Type := mkRagged {
  values : list V;
  row_splits : list Z
}.
Arguments mkRagged {V} _ _.
Arguments values {V} _.
Arguments row_splits {V} _.

(** [RaggedTensor.row_lengths()] is [row_splits[1:] - row_splits[:-1]]. *)
Definition row_lengths {V} (t : RaggedTensor V) : list Z :=
  zip_with Z.sub (tail (row_splits t)) (drop_last (row_splits t)).

Definition nrows {V} (t : RaggedTensor V) : nat := length (row_lengths t).

(** [tf.repeat(input, repeats)] on 1-D tensors: [repeats] has one entry per
    element of [input], or a single entry that is broadcast; any other shape
    is rejected.  A repeat count below one contributes nothing. *)
Definition tf_repeat {A} (input : list A) (repeats : list Z) : result (list A) :=
  if decide (length repeats = length input) then
    Ok (concat (zip_with (fun x r => replicate (Z.to_nat r) x) input repeats))
  else
    match repeats with
    | [r] => Ok (concat (map (replicate (Z.to_nat r)) input))
    | _ => Raise InvalidArgumentError
    end.

(** [RaggedTensor.value_rowids()]: the row number of every value. *)
Definition value_rowids {V} (t : RaggedTensor V) : list Z :=
  concat (zip_with (fun i r => replicate (Z.to_nat r) i)
            (map Z.of_nat (seq 0 (nrows t))) (row_lengths t)).

(** The rows of a ragged tensor as a nested list ([to_list()]). *)
Definition rows {V} (t : RaggedTensor V) : list (list V) :=
  zip_with (fun a b => slice a b (values t))
    (drop_last (row_splits t)) (tail (row_splits t)).

(** What the [RaggedTensor] factories validate: [row_splits] starts at 0, is
    non-decreasing and ends at the number of values. *)
Fixpoint splits_ok (start : Z) (rs : list Z) (n : Z) : Prop :=
  match rs with
  | [] => start = n
  | r :: rs' => start <= r /\ splits_ok r rs' n
  end.

Definition valid_ragged {V} (t : RaggedTensor V) : Prop :=
  match row_splits t with
  | [] => False
  | r0 :: rs => r0 = 0 /\ splits_ok 0 rs (Z.of_nat (length (values t)))
  end.

(** *** [CastRaggedToValues] *)

Definition CastRaggedToValues_call {V} (partition_type : string)
    (inputs : RaggedTensor V) : result (list V * list Z) :=
  let tens := inputs in
  let flat_tens := values tens in
  outpart ←
    (if String.eqb partition_type "row_length" then Ok (row_lengths tens)
     else if String.eqb partition_type "row_splits" then Ok (row_splits tens)
     else if String.eqb partition_type "value_rowids" then Ok (value_rowids tens)
     else Raise (TypeError "Unknown partition scheme, use: 'row_length', 'row_splits', ..."));
  Ok (flat_tens, outpart).

(** *** [ChangeIndexing] *)

(** Edge indices are [int64] tensors (the [dtype] of the [edge_indices]
    model input) and so are the row splits of a ragged tensor: sums and
    differences wrap around in two's complement. *)
Definition int64_min : Z := - 2 ^ 63.
Definition int64_max : Z := 2 ^ 63 - 1.
Definition wrap64 (z : Z) : Z := (z + 2 ^ 63) mod 2 ^ 64 - 2 ^ 63.
Definition in_int64 (z : Z) : Prop := int64_min <= z <= int64_max.
Definition add64 (x y : Z) : Z := wrap64 (x + y).
Definition sub64 (x y : Z) : Z := wrap64 (x - y).
(** [tf.cast(_, dtype=int64)] of an [int64] tensor. *)
Definition cast64 (z : Z) : Z := wrap64 z.

(** Broadcasting of a binary operation along one axis: equal sizes pair up,
    a size-one operand is stretched, anything else is a shape error. *)
Definition broadcast {A B C} (f : A -> B -> result C)
    (xs : list A) (ys : list B) : result (list C) :=
  if decide (length xs = length ys) then
    mapM (fun p => f p.1 p.2) (zip xs ys)
  else
    match xs, ys with
    | _, [y] => mapM (fun x => f x y) xs
    | [x], _ => mapM (fun y => f x y) ys
    | _, _ => Raise InvalidArgumentError
    end.

(** Element-wise operation on two rank-2 tensors. *)
Definition tensor2_op (f : Z -> Z -> Z) (a b : list (list Z)) : result (list (list Z)) :=
  broadcast (broadcast (fun x y => Ok (f x y))) a b.

(** [tf.expand_dims(_, axis=1)] *)
Definition expand_dims1 {A} (l : list A) : list (list A) := map (fun x => [x]) l.

Definition ChangeIndexing_call {F} (to_indexing from_indexing : string)
    (inputs : RaggedTensor F * RaggedTensor (list Z)) : result (RaggedTensor (list Z)) :=
  let '(nod, edgeind) := inputs in
  let shift1 := values edgeind in
  rep ← tf_repeat (drop_last (row_splits nod)) (row_lengths edgeind);
  let shift2 := expand_dims1 rep in
  shiftind ←
    (if String.eqb to_indexing "batch" && String.eqb from_indexing "sample" then
       tensor2_op add64 shift1 (map (map cast64) shift2)
     else if String.eqb to_indexing "sample" && String.eqb from_indexing "batch" then
       tensor2_op sub64 shift1 (map (map cast64) shift2)
     else if String.eqb to_indexing "sample" && String.eqb from_indexing "sample" then
       Ok shift1
     else if String.eqb to_indexing "batch" && String.eqb from_indexing "batch" then
       Ok shift1
     else Raise (TypeError "Unknown index change, use: 'sample', 'batch', ..."));
  (* tf.RaggedTensor.from_row_splits(shiftind, edgeind.row_splits, validate=False) *)
  Ok (mkRagged shiftind (row_splits edgeind)).

(** The nested-list view used to state the properties: a batch of rows and
    the ragged tensor that stores it. *)
Fixpoint splits_from (start : Z) (lens : list nat) : list Z :=
  match lens with
  | [] => []
  | n :: lens' => (start + Z.of_nat n) :: splits_from (start + Z.of_nat n) lens'
  end.

Definition from_rows {V} (rws : list (list V)) : RaggedTensor V :=
  mkRagged (concat rws) (0 :: splits_from 0 (map length rws)).

(** Example of the class docstring: two graphs, the second one shifted by
    the five nodes of the first. *)
Example ChangeIndexing_docstring :
  ChangeIndexing_call "batch" "sample"
    (from_rows [[1;2;3;4;5]; [1;2;3]],
     from_rows [[[0;1]; [1;0]]; [[0;2]; [1;2]]])
  = Ok (from_rows [[[0;1]; [1;0]]; [[5;7]; [6;7]]]).
Proof. vm_compute. reflexivity. Qed.

(** *** Lemmas on the error monad and on slices *)

Lemma mapM_app {A B} (f : A -> result B) (l1 l2 : list A) (r1 r2 : list B) :
  mapM f l1 = Ok r1 -> mapM f l2 = Ok r2 -> mapM f (l1 ++ l2) = Ok (r1 ++ r2).
Proof.
  revert r1. induction l1 as [|x l1 IH]; intros r1 H1 H2; simpl in *.
  - by inversion H1.
  - destruct (f x) as [y|e]; simpl in *; [|discriminate].
    destruct (mapM f l1) as [ys|e]; simpl in *; [|discriminate].
    inversion H1; subst. by rewrite (IH ys eq_refl H2).
Qed.

Lemma mapM_pure {A B} (g : A -> B) (l : list A) :
  mapM (fun x => Ok (g x)) l = Ok (map g l).
Proof. induction l as [|x l IH]; simpl; [done|]. by rewrite IH. Qed.

Lemma mapM_ext {A B} (f g : A -> result B) (l : list A) :
  (forall x, f x = g x) -> mapM f l = mapM g l.
Proof. intros E. induction l as [|x l IH]; simpl; [done|]. by rewrite E, IH. Qed.

Lemma clamp_index_nonneg (i : nat) (n : nat) :
  clamp_index (Z.of_nat i) n = Nat.min i n.
Proof.
  unfold clamp_index. destruct (Z.ltb_spec (Z.of_nat i) 0); lia.
Qed.

Lemma slice_middle {A} (pre r post : list A) :
  slice (Z.of_nat (length pre)) (Z.of_nat (length pre) + Z.of_nat (length r))
    (pre ++ r ++ post) = r.
Proof.
  unfold slice. rewrite <- Nat2Z.inj_add, !clamp_index_nonneg.
  rewrite !length_app.
  replace (Nat.min (length pre) _) with (length pre) by lia.
  replace (Nat.min (length pre + length r) _) with (length pre + length r)%nat by lia.
  rewrite drop_app_length.
  replace (length pre + length r - length pre)%nat with (length r) by lia.
  by rewrite take_app_length.
Qed.

(** *** Ragged tensors and their rows *)

Definition offsets (start : Z) (lens : list nat) : list Z :=
  drop_last (start :: splits_from start lens).

Lemma offsets_nil start : offsets start [] = [].
Proof. done. Qed.

Lemma offsets_cons start n lens :
  offsets start (n :: lens) = start :: offsets (start + Z.of_nat n) lens.
Proof. done. Qed.

Lemma length_offsets start lens : length (offsets start lens) = length lens.
Proof.
  revert start. induction lens as [|n lens IH]; intros start; [done|].
  rewrite offsets_cons. simpl. by rewrite IH.
Qed.

Lemma length_splits_from start lens : length (splits_from start lens) = length lens.
Proof.
  revert start. induction lens as [|n lens IH]; intros start; simpl; [done|].
  by rewrite IH.
Qed.

Lemma row_splits_from_rows {V} (rws : list (list V)) :
  row_splits (from_rows rws) = 0 :: splits_from 0 (map length rws).
Proof. done. Qed.

Lemma drop_last_row_splits_from_rows {V} (rws : list (list V)) :
  drop_last (row_splits (from_rows rws)) = offsets 0 (map length rws).
Proof. done. Qed.

Lemma zip_with_sub_splits start lens :
  zip_with Z.sub (splits_from start lens) (offsets start lens)
  = map Z.of_nat lens.
Proof.
  revert start. induction lens as [|n lens IH]; intros start; [done|].
  rewrite offsets_cons. simpl splits_from. simpl zip_with.
  rewrite IH. simpl. f_equal. lia.
Qed.

Lemma row_lengths_from_rows {V} (rws : list (list V)) :
  row_lengths (from_rows rws) = map (fun r => Z.of_nat (length r)) rws.
Proof.
  unfold row_lengths. rewrite drop_last_row_splits_from_rows.
  rewrite row_splits_from_rows. simpl tail.
  rewrite zip_with_sub_splits. by rewrite map_map.
Qed.

Lemma nrows_from_rows {V} (rws : list (list V)) : nrows (from_rows rws) = length rws.
Proof. unfold nrows. by rewrite row_lengths_from_rows, length_map. Qed.

Lemma rows_from_rows_aux {V} (pre : list V) (rws : list (list V)) :
  zip_with (fun a b => slice a b (pre ++ concat rws))
    (offsets (Z.of_nat (length pre)) (map length rws))
    (splits_from (Z.of_nat (length pre)) (map length rws)) = rws.
Proof.
  revert pre. induction rws as [|r rws IH]; intros pre; [done|].
  simpl map. rewrite offsets_cons. simpl splits_from. simpl zip_with.
  simpl concat. f_equal.
  - apply slice_middle.
  - specialize (IH (pre ++ r)). rewrite length_app, Nat2Z.inj_add in IH.
    rewrite <- app_assoc in IH. exact IH.
Qed.

Lemma rows_from_rows {V} (rws : list (list V)) : rows (from_rows rws) = rws.
Proof.
  unfold rows. rewrite drop_last_row_splits_from_rows, row_splits_from_rows.
  simpl tail. apply (rows_from_rows_aux [] rws).
Qed.

Lemma splits_ok_le start rs n : splits_ok start rs n -> start <= n.
Proof.
  revert start. induction rs as [|r rs IH]; intros start; simpl.
  - lia.
  - intros [H1 H2]. specialize (IH _ H2). lia.
Qed.

Lemma splits_ok_from_rows {V} (rs : list Z) (start : Z) (vs : list V) :
  splits_ok start rs (start + Z.of_nat (length vs)) ->
  exists rws, vs = concat rws /\ rs = splits_from start (map length rws).
Proof.
  revert start vs. induction rs as [|r rs IH]; intros start vs; simpl.
  - intros H. exists []. split; [|done].
    destruct vs; [done|]. simpl in H. lia.
  - intros [H1 H2]. pose proof (splits_ok_le _ _ _ H2) as Hle.
    set (k := Z.to_nat (r - start)).
    assert (Hk : (k <= length vs)%nat) by lia.
    destruct (IH r (drop k vs)) as (rws & Hc & Hs).
    { rewrite length_drop. replace (r + Z.of_nat (length vs - k)) with
        (start + Z.of_nat (length vs)) by lia. exact H2. }
    exists (take k vs :: rws). split.
    + simpl. by rewrite <- Hc, take_drop.
    + simpl. rewrite length_take.
      replace (start + Z.of_nat (Nat.min k (length vs))) with r by lia.
      by rewrite <- Hs.
Qed.

(** A valid ragged tensor is the storage of its nested rows. *)
Lemma valid_ragged_from_rows {V} (t : RaggedTensor V) :
  valid_ragged t -> t = from_rows (rows t).
Proof.
  destruct t as [vs rs]. unfold valid_ragged. simpl.
  destruct rs as [|r0 rs]; [done|]. intros [-> H].
  destruct (splits_ok_from_rows rs 0 vs H) as (rws & -> & ->).
  change (mkRagged (concat rws) (0 :: splits_from 0 (map length rws)))
    with (from_rows rws).
  by rewrite rows_from_rows.
Qed.

Lemma from_rows_valid {V} (rws : list (list V)) : valid_ragged (from_rows rws).
Proof.
  unfold valid_ragged. simpl. split; [done|].
  assert (G : forall start (l : list (list V)),
    splits_ok start (splits_from start (map length l))
      (start + Z.of_nat (length (concat l)))).
  { intros start l. revert start. induction l as [|r l IH]; intros start; simpl.
    - lia.
    - split; [lia|]. rewrite length_app, Nat2Z.inj_add, Z.add_assoc. apply IH. }
  apply (G 0 rws).
Qed.

(** *** The index shift of [ChangeIndexing] on nested rows *)

(** Every index of the i-th row is combined with the i-th offset. *)
Definition shift_rows (f : Z -> Z -> Z) (offs : list Z)
    (rws : list (list (list Z))) : list (list (list Z)) :=
  zip_with (fun o r => map (map (fun x => f x (cast64 o))) r) offs rws.

Lemma map_length_shift_rows f offs rws :
  length offs = length rws ->
  map length (shift_rows f offs rws) = map length rws.
Proof.
  revert offs. induction rws as [|r rws IH]; intros [|o offs] H; try done.
  simpl in *. rewrite length_map. f_equal. apply IH. lia.
Qed.

Lemma tf_repeat_rows {A V} (offs : list A) (rws : list (list V)) :
  length offs = length rws ->
  tf_repeat offs (map (fun r => Z.of_nat (length r)) rws)
  = Ok (concat (zip_with (fun o r => replicate (length r) o) offs rws)).
Proof.
  intros H. unfold tf_repeat. rewrite length_map.
  destruct (decide (length rws = length offs)) as [_|]; [|lia].
  f_equal. f_equal. clear H. revert offs.
  induction rws as [|r rws IH]; intros [|o offs]; simpl; try done.
  by rewrite Nat2Z.id, IH.
Qed.

Lemma broadcast_row_scalar (f : Z -> Z -> Z) (row : list Z) (c : Z) :
  broadcast (fun x y => Ok (f x y)) row [c] = Ok (map (fun x => f x c) row).
Proof.
  unfold broadcast. destruct (decide (length row = length [c])) as [E|N].
  - destruct row as [|x [|? ?]]; simpl in E; try lia. done.
  - destruct row as [|x [|x' row]]; [done|simpl in N; lia|].
    apply (mapM_pure (fun x => f x c)).
Qed.

Lemma mapM_shift_rows (f : Z -> Z -> Z) (offs : list Z) (rws : list (list (list Z))) :
  length offs = length rws ->
  mapM (fun p => broadcast (fun x y => Ok (f x y)) p.1 p.2)
    (zip (concat rws)
       (map (map cast64)
          (expand_dims1 (concat (zip_with (fun o r => replicate (length r) o) offs rws)))))
  = Ok (concat (shift_rows f offs rws)).
Proof.
  revert offs. induction rws as [|r rws IH]; intros [|o offs] H; try done.
  simpl in H. simpl concat. unfold expand_dims1 in *.
  rewrite !map_app. rewrite zip_with_app.
  2:{ by rewrite !length_map, length_replicate. }
  apply mapM_app.
  - clear. induction r as [|e r IH]; [done|].
    simpl. rewrite broadcast_row_scalar. simpl.
    simpl in IH. by rewrite IH.
  - apply IH. lia.
Qed.

Lemma length_concat_shift_rows f offs (rws : list (list (list Z))) :
  length offs = length rws ->
  length (concat (shift_rows f offs rws)) = length (concat rws).
Proof.
  revert offs. induction rws as [|r rws IH]; intros [|o offs] H; try done.
  simpl in *. rewrite !length_app, length_map. f_equal. apply IH. lia.
Qed.

Lemma tensor2_op_shift_rows (f : Z -> Z -> Z) (offs : list Z) (rws : list (list (list Z))) :
  length offs = length rws ->
  tensor2_op f (concat rws)
    (map (map cast64)
       (expand_dims1 (concat (zip_with (fun o r => replicate (length r) o) offs rws))))
  = Ok (concat (shift_rows f offs rws)).
Proof.
  intros H. unfold tensor2_op, broadcast at 1.
  assert (L : length (concat rws) =
    length (map (map cast64) (expand_dims1
      (concat (zip_with (fun o r => replicate (length r) o) offs rws))))).
  { unfold expand_dims1. rewrite !length_map. clear -H. revert offs H.
    induction rws as [|r rws IH]; intros [|o offs] H; try done.
    simpl in *. rewrite !length_app, length_replicate. f_equal. apply IH. lia. }
  destruct (decide _) as [_|N]; [|done].
  by apply mapM_shift_rows.
Qed.

(** The layer on a batch of nested rows, for both shifting directions. *)
Lemma ChangeIndexing_shift_from_rows {F} (to_i from_i : string) (f : Z -> Z -> Z)
    (nr : list (list F)) (er : list (list (list Z))) :
  length nr = length er ->
  (to_i = "batch" /\ from_i = "sample" /\ f = add64) \/
  (to_i = "sample" /\ from_i = "batch" /\ f = sub64) ->
  ChangeIndexing_call to_i from_i (from_rows nr, from_rows er)
  = Ok (from_rows (shift_rows f (offsets 0 (map length nr)) er)).
Proof.
  intros H Hdir. unfold ChangeIndexing_call.
  rewrite drop_last_row_splits_from_rows, row_lengths_from_rows.
  assert (L : length (offsets 0 (map length nr)) = length er)
    by (by rewrite length_offsets, length_map).
  rewrite (tf_repeat_rows _ _ L). simpl mbind at 1.
  change (values (from_rows er)) with (concat er).
  assert (E : forall g, tensor2_op g (concat er)
    (map (map cast64) (expand_dims1 (concat
      (zip_with (fun o r => replicate (length r) o) (offsets 0 (map length nr)) er))))
     = Ok (concat (shift_rows g (offsets 0 (map length nr)) er)))
    by (intros g; by apply tensor2_op_shift_rows).
  unfold mbind, result_bind.
  destruct Hdir as [(-> & -> & ->)|(-> & -> & ->)]; simpl andb; cbv iota;
    rewrite E; unfold from_rows; by rewrite map_length_shift_rows.
Qed.

Lemma ChangeIndexing_same_from_rows {F} (ix : string)
    (nr : list (list F)) (er : list (list (list Z))) :
  length nr = length er ->
  ix = "sample" \/ ix = "batch" ->
  ChangeIndexing_call ix ix (from_rows nr, from_rows er) = Ok (from_rows er).
Proof.
  intros H Hix. unfold ChangeIndexing_call.
  rewrite drop_last_row_splits_from_rows, row_lengths_from_rows.
  assert (L : length (offsets 0 (map length nr)) = length er)
    by (by rewrite length_offsets, length_map).
  rewrite (tf_repeat_rows _ _ L).
  destruct Hix as [-> | ->]; reflexivity.
Qed.

(** *** Two's-complement arithmetic *)

Lemma wrap64_id z : in_int64 z -> wrap64 z = z.
Proof.
  unfold in_int64, int64_min, int64_max, wrap64. intros H.
  rewrite Z.mod_small; lia.
Qed.

Lemma wrap64_add_sub x y : in_int64 x -> sub64 (add64 x (cast64 y)) (cast64 y) = x.
Proof.
  unfold in_int64, int64_min, int64_max, sub64, add64, cast64, wrap64. intros H.
  pose proof (Z.div_mod (y + 2 ^ 63) (2 ^ 64) ltac:(lia)) as Ey.
  set (a := (y + 2 ^ 63) mod 2 ^ 64) in *.
  replace (x + (a - 2 ^ 63) + 2 ^ 63) with (x + a) by lia.
  pose proof (Z.div_mod (x + a) (2 ^ 64) ltac:(lia)) as Eb.
  set (b := (x + a) mod 2 ^ 64) in *.
  replace (b - 2 ^ 63 - (a - 2 ^ 63) + 2 ^ 63)
    with (x + 2 ^ 63 + (- ((x + a) / 2 ^ 64)) * 2 ^ 64) by lia.
  rewrite Z_mod_plus_full. rewrite Z.mod_small; lia.
Qed.

(** *** Offsets are the node counts of the preceding graphs *)

Lemma offsets_lookup {V} (nr : list (list V)) (start : Z) (i : nat) (r : list V) :
  nr !! i = Some r ->
  offsets start (map length nr) !! i
    = Some (start + Z.of_nat (length (concat (take i nr))))
  /\ splits_from start (map length nr) !! i
    = Some (start + Z.of_nat (length (concat (take i nr))) + Z.of_nat (length r)).
Proof.
  revert start i. induction nr as [|r0 nr IH]; intros start i H; [done|].
  simpl map. rewrite offsets_cons. destruct i as [|i]; simpl in *.
  - inversion H; subst. split; f_equal; lia.
  - destruct (IH (start + Z.of_nat (length r0)) i H) as [-> ->].
    rewrite length_app, Nat2Z.inj_add. split; f_equal; lia.
Qed.

Lemma row_splits_lookup {V} (nr : list (list V)) (i : nat) (r : list V) :
  nr !! i = Some r ->
  row_splits (from_rows nr) !! i = Some (Z.of_nat (length (concat (take i nr))))
  /\ row_splits (from_rows nr) !! S i
     = Some (Z.of_nat (length (concat (take i nr))) + Z.of_nat (length r)).
Proof.
  intros H. rewrite row_splits_from_rows.
  destruct (offsets_lookup nr 0 i r H) as [Ho Hs]. split.
  - destruct i as [|i]; [done|]. simpl.
    assert (is_Some (nr !! i)) as [r' Hr'].
    { apply lookup_lt_is_Some. apply lookup_lt_Some in H. lia. }
    destruct (offsets_lookup nr 0 i r' Hr') as [_ ->]. f_equal.
    rewrite (take_S_r _ _ _ Hr'), concat_app, length_app. simpl.
    rewrite length_app. simpl. lia.
  - simpl. rewrite Hs. f_equal.
Qed.

Lemma shift_rows_lookup f offs rws i o es :
  offs !! i = Some o -> rws !! i = Some es ->
  shift_rows f offs rws !! i = Some (map (map (fun x => f x (cast64 o))) es).
Proof.
  intros Ho He. unfold shift_rows. rewrite lookup_zip_with, Ho. simpl. by rewrite He.
Qed.

(** Per-sample addressing: an index of the i-th graph names one of the
    nodes of the i-th graph. *)
Definition sample_indexed {F} (nod : RaggedTensor F)
    (edgeind : RaggedTensor (list Z)) : Prop :=
  forall i n es, row_lengths nod !! i = Some n -> rows edgeind !! i = Some es ->
    Forall (Forall (fun x => 0 <= x < n)) es.

(** C1. For a batch given as a ragged node tensor and a ragged edge-index
    tensor in per-sample addressing, [ChangeIndexing] with
    [to_indexing='batch'] and [from_indexing='sample'] returns edge indices
    in which every index of the i-th graph is increased by exactly the total
    number of nodes of the graphs 0..i-1, which is the i-th row split of the
    node tensor, and the result keeps the row splits of the input edge-index
    tensor. *)
Theorem ChangeIndexing_sample_to_batch {F} (nod : RaggedTensor F)
    (edgeind : RaggedTensor (list Z)) :
  valid_ragged nod -> valid_ragged edgeind -> nrows nod = nrows edgeind ->
  Forall in_int64 (row_splits nod) ->
  sample_indexed nod edgeind ->
  exists out,
    ChangeIndexing_call "batch" "sample" (nod, edgeind) = Ok out
    /\ row_splits out = row_splits edgeind
    /\ forall i es, rows edgeind !! i = Some es ->
       let s := Z.of_nat (length (concat (take i (rows nod)))) in
       row_splits nod !! i = Some s
       /\ rows out !! i = Some (map (map (fun x => x + s)) es).
Proof.
  intros Hn He Hrows H64 Hsample.
  rewrite (valid_ragged_from_rows _ Hn), (valid_ragged_from_rows _ He) in *.
  rewrite !rows_from_rows in *. rewrite !nrows_from_rows in Hrows.
  set (nr := rows nod) in *. set (er := rows edgeind) in *.
  eexists. split; [|split].
  - apply (ChangeIndexing_shift_from_rows _ _ add64); [done|]. by left.
  - simpl. rewrite map_length_shift_rows; [done|].
    by rewrite length_offsets, length_map.
  - intros i es Hes s.
    assert (is_Some (nr !! i)) as [r Hr].
    { apply lookup_lt_is_Some. apply lookup_lt_Some in Hes. lia. }
    destruct (row_splits_lookup nr i r Hr) as [Hs Hs'].
    split; [exact Hs|].
    rewrite rows_from_rows.
    destruct (offsets_lookup nr 0 i r Hr) as [Ho _]. rewrite Z.add_0_l in Ho.
    rewrite (shift_rows_lookup _ _ _ _ _ _ Ho Hes). f_equal.
    fold s in Hs, Hs'.
    assert (Hin : in_int64 s).
    { rewrite Forall_forall in H64. apply H64.
      apply list_elem_of_lookup. eauto. }
    assert (Hin' : in_int64 (s + Z.of_nat (length r))).
    { rewrite Forall_forall in H64. apply H64.
      apply list_elem_of_lookup. eauto. }
    assert (Hrange : Forall (Forall (fun x => 0 <= x < Z.of_nat (length r))) es).
    { apply (Hsample i); [|by rewrite rows_from_rows].
      rewrite row_lengths_from_rows, list_lookup_fmap, Hr. done. }
    apply map_ext_Forall. eapply Forall_impl; [exact Hrange|].
    intros pair Hpair. apply map_ext_Forall. eapply Forall_impl; [exact Hpair|].
    intros x Hx. simpl. unfold add64, cast64. fold s. rewrite (wrap64_id s Hin).
    apply wrap64_id. unfold in_int64, int64_min, int64_max in *. subst s. lia.
Qed.

(** A batch of two graphs with five and three nodes. *)
Lemma ChangeIndexing_sample_to_batch_witness :
  exists out,
    ChangeIndexing_call "batch" "sample"
      (from_rows [[1;2;3;4;5]; [1;2;3]],
       from_rows [[[0;1]; [1;0]]; [[0;2]; [1;2]]]) = Ok out
    /\ row_splits out = [0; 2; 4]
    /\ rows out !! 1%nat = Some [[5;7]; [6;7]].
Proof.
  destruct (ChangeIndexing_sample_to_batch
              (from_rows [[1;2;3;4;5]; [1;2;3]])
              (from_rows [[[0;1]; [1;0]]; [[0;2]; [1;2]]]))
    as (out & Hcall & Hsplits & Hrows).
  - apply from_rows_valid.
  - apply from_rows_valid.
  - reflexivity.
  - repeat constructor; vm_compute; intros ?; discriminate.
  - intros i n es. destruct i as [|[|i]]; vm_compute; intros Hn Hes;
      inversion Hn; inversion Hes; subst;
      repeat constructor; discriminate.
  - exists out. split; [exact Hcall|]. split; [exact Hsplits|].
    exact (proj2 (Hrows 1%nat [[0;2]; [1;2]] eq_refl)).
Defined.

Lemma shift_rows_sub_add offs (er : list (list (list Z))) :
  length offs = length er ->
  Forall (Forall in_int64) (concat er) ->
  shift_rows sub64 offs (shift_rows add64 offs er) = er.
Proof.
  revert offs. induction er as [|r er IH]; intros [|o offs] H Hin; try done.
  simpl in *. apply Forall_app in Hin as [Hr Her]. f_equal.
  - rewrite <- (map_id r) at 2. rewrite map_map. apply map_ext_Forall.
    eapply Forall_impl; [exact Hr|]. intros pair Hpair. simpl.
    rewrite <- (map_id pair) at 2. rewrite map_map. apply map_ext_Forall.
    eapply Forall_impl; [exact Hpair|]. intros x Hx. simpl.
    by apply wrap64_add_sub.
  - apply IH; [lia|done].
Qed.

(** C2. The index shift is invertible: [ChangeIndexing] from 'sample' to
    'batch' followed by [ChangeIndexing] from 'batch' to 'sample' with the
    same node tensor gives back the original edge indices, and with equal
    [to_indexing] and [from_indexing] the layer returns its input edge
    indices unchanged. *)
Theorem ChangeIndexing_roundtrip {F} (nod : RaggedTensor F)
    (edgeind : RaggedTensor (list Z)) :
  valid_ragged nod -> valid_ragged edgeind -> nrows nod = nrows edgeind ->
  Forall (Forall in_int64) (values edgeind) ->
  (exists mid,
     ChangeIndexing_call "batch" "sample" (nod, edgeind) = Ok mid
     /\ ChangeIndexing_call "sample" "batch" (nod, mid) = Ok edgeind)
  /\ ChangeIndexing_call "sample" "sample" (nod, edgeind) = Ok edgeind
  /\ ChangeIndexing_call "batch" "batch" (nod, edgeind) = Ok edgeind.
Proof.
  intros Hn He Hrows H64.
  rewrite (valid_ragged_from_rows _ Hn), (valid_ragged_from_rows _ He) in *.
  rewrite !nrows_from_rows in Hrows.
  set (nr := rows nod) in *. set (er := rows edgeind) in *.
  assert (L : length (offsets 0 (map length nr)) = length er)
    by (by rewrite length_offsets, length_map).
  split; [|split].
  - eexists. split.
    + apply (ChangeIndexing_shift_from_rows _ _ add64); [done|]. by left.
    + rewrite (ChangeIndexing_shift_from_rows _ _ sub64).
      * by rewrite shift_rows_sub_add.
      * unfold shift_rows. rewrite length_zip_with. lia.
      * by right.
  - apply ChangeIndexing_same_from_rows; [done|by left].
  - apply ChangeIndexing_same_from_rows; [done|by right].
Qed.

(** The round trip on two graphs, one index at the top of the [int64] range. *)
Lemma ChangeIndexing_roundtrip_witness :
  let nod := from_rows [[1;2;3;4;5]; [1;2;3]] in
  let edgeind := from_rows [[[0;1]; [1;0]]; [[0;2]; [1; 2 ^ 63 - 1]]] in
  (exists mid,
     ChangeIndexing_call "batch" "sample" (nod, edgeind) = Ok mid
     /\ ChangeIndexing_call "sample" "batch" (nod, mid) = Ok edgeind)
  /\ ChangeIndexing_call "sample" "sample" (nod, edgeind) = Ok edgeind
  /\ ChangeIndexing_call "batch" "batch" (nod, edgeind) = Ok edgeind.
Proof.
  intros nod edgeind. apply ChangeIndexing_roundtrip.
  - apply from_rows_valid.
  - apply from_rows_valid.
  - reflexivity.
  - repeat constructor; vm_compute; intros ?; discriminate.
Defined.

(** *** [CastRaggedToValues] returns the flat values and the partition *)

Lemma value_rowids_from_rows {V} (rws : list (list V)) :
  value_rowids (from_rows rws)
  = concat (imap (fun i r => replicate (length r) (Z.of_nat i)) rws).
Proof.
  unfold value_rowids. rewrite nrows_from_rows, row_lengths_from_rows.
  assert (G : forall (f : nat -> nat) (l : list (list V)),
    concat (zip_with (fun i r => replicate (Z.to_nat r) i)
              (map Z.of_nat (map f (seq 0 (length l))))
              (map (fun r => Z.of_nat (length r)) l))
    = concat (imap (fun i r => replicate (length r) (Z.of_nat (f i))) l)).
  { intros f l. revert f. induction l as [|r l IH]; intros f; [done|].
    simpl. rewrite Nat2Z.id. f_equal.
    rewrite <- seq_shift, (map_map S f). rewrite (IH (fun i => f (S i))). done. }
  specialize (G id rws). rewrite map_id in G. exact G.
Qed.

(** C4. [CastRaggedToValues] returns the pair of the flat values and the
    partition selected by [partition_type]: the row lengths for
    'row_length', the row splits for 'row_splits', the value row-ids for
    'value_rowids'; every other [partition_type] string raises [TypeError]. *)
Theorem CastRaggedToValues_partition {V} (partition_type : string)
    (inputs : RaggedTensor V) :
  (partition_type = "row_length" ->
     CastRaggedToValues_call partition_type inputs
     = Ok (values inputs, row_lengths inputs))
  /\ (partition_type = "row_splits" ->
     CastRaggedToValues_call partition_type inputs
     = Ok (values inputs, row_splits inputs))
  /\ (partition_type = "value_rowids" ->
     CastRaggedToValues_call partition_type inputs
     = Ok (values inputs, value_rowids inputs))
  /\ (partition_type <> "row_length" -> partition_type <> "row_splits" ->
      partition_type <> "value_rowids" ->
      exists msg, CastRaggedToValues_call partition_type inputs = Raise (TypeError msg)).
Proof.
  repeat split.
  - by intros ->.
  - by intros ->.
  - by intros ->.
  - intros H1 H2 H3. unfold CastRaggedToValues_call.
    apply String.eqb_neq in H1, H2, H3. rewrite H1, H2, H3. simpl. eauto.
Qed.

(** For a valid ragged tensor the three partitions describe its rows: the
    lengths of the rows, the running totals, and the row of each value. *)
Lemma CastRaggedToValues_partition_meaning {V} (inputs : RaggedTensor V) :
  valid_ragged inputs ->
  values inputs = concat (rows inputs)
  /\ row_lengths inputs = map (fun r => Z.of_nat (length r)) (rows inputs)
  /\ value_rowids inputs
     = concat (imap (fun i r => replicate (length r) (Z.of_nat i)) (rows inputs)).
Proof.
  intros H. pose proof (valid_ragged_from_rows _ H) as E.
  set (rws := rows inputs) in *. clearbody rws. subst inputs.
  rewrite row_lengths_from_rows, value_rowids_from_rows. done.
Qed.

(** One known and one unknown partition name on a batch of two rows. *)
Lemma CastRaggedToValues_partition_witness :
  CastRaggedToValues_call "row_length" (from_rows [[7; 8]; [9]])
    = Ok ([7; 8; 9], [2; 1])
  /\ CastRaggedToValues_call "value_rowids" (from_rows [[7; 8]; [9]])
    = Ok ([7; 8; 9], [0; 0; 1])
  /\ exists msg,
      CastRaggedToValues_call "row_limits" (from_rows [[7; 8]; [9]])
      = Raise (TypeError msg).
Proof.
  pose proof (CastRaggedToValues_partition "row_length" (from_rows [[7; 8]; [9]]))
    as (H1 & _).
  pose proof (CastRaggedToValues_partition "value_rowids" (from_rows [[7; 8]; [9]]))
    as (_ & _ & H3 & _).
  pose proof (CastRaggedToValues_partition "row_limits" (from_rows [[7; 8]; [9]]))
    as (_ & _ & _ & H4).
  split; [exact (H1 eq_refl)|]. split; [exact (H3 eq_refl)|].
  apply H4; discriminate.
Defined.

(** *** [CastRaggedToDense] *)

(** [RaggedTensor.to_tensor()]: one dense row per ragged row, each filled up
    with the zero entry [pad] to the length of the longest row. *)
Definition to_tensor {V} (pad : V) (t : RaggedTensor V) : list (list V) :=
  let rws := rows t in
  let width := foldr Nat.max 0%nat (map length rws) in
  map (fun r => r ++ replicate (width - length r) pad) rws.

Definition CastRaggedToDense_call {V} (pad : V) (inputs : RaggedTensor V)
    : list (list V) :=
  to_tensor pad inputs.

Example CastRaggedToDense_example :
  CastRaggedToDense_call 0 (from_rows [[7; 8]; []; [9]]) = [[7; 8]; [0; 0]; [9; 0]].
Proof. reflexivity. Qed.

Lemma length_le_width {V} (rws : list (list V)) (r : list V) :
  r ∈ rws -> (length r <= foldr Nat.max 0%nat (map length rws))%nat.
Proof.
  induction rws as [|r0 rws IH]; intros Hin.
  - by apply elem_of_nil in Hin.
  - simpl. apply elem_of_cons in Hin as [->|Hin]; [lia|].
    specialize (IH Hin). lia.
Qed.

(** X1. The dense tensor is rectangular, and cutting its rows at the row lengths
    that [CastRaggedToValues] returns gives the ragged rows back; what is cut
    off is padding. *)
Theorem CastRaggedToDense_rows {V} (pad : V) (inputs : RaggedTensor V)
    (vals : list V) (lens : list Z) :
  valid_ragged inputs ->
  CastRaggedToValues_call "row_length" inputs = Ok (vals, lens) ->
  let dense := CastRaggedToDense_call pad inputs in
  let width := foldr Nat.max 0%nat (map length (rows inputs)) in
  length dense = nrows inputs
  /\ Forall (fun r => length r = width) dense
  /\ concat (zip_with (fun n r => take (Z.to_nat n) r) lens dense) = vals
  /\ Forall2 (fun n r => drop (Z.to_nat n) r = replicate (width - Z.to_nat n) pad)
       lens dense.
Proof.
  intros Hv Hcall dense width.
  assert (Hvals : vals = values inputs /\ lens = row_lengths inputs)
    by (by inversion Hcall).
  destruct Hvals as [-> ->].
  pose proof (valid_ragged_from_rows _ Hv) as E.
  unfold dense, CastRaggedToDense_call, to_tensor. fold width.
  assert (Hw : forall r, r ∈ rows inputs -> (length r <= width)%nat)
    by (intros r; apply length_le_width).
  clearbody width. clear dense Hcall Hv.
  set (rws := rows inputs) in *. clearbody rws. subst inputs.
  rewrite nrows_from_rows, row_lengths_from_rows.
  change (values (from_rows rws)) with (concat rws).
  split; [by rewrite length_map|]. split; [|split].
  - apply Forall_fmap, Forall_forall. intros r Hr. simpl.
    rewrite length_app, length_replicate. specialize (Hw r Hr). lia.
  - clear Hw. induction rws as [|r rws IH]; [done|].
    simpl. rewrite Nat2Z.id, take_app_length. by rewrite IH.
  - induction rws as [|r rws IH]; [constructor|].
    simpl. constructor.
    + by rewrite Nat2Z.id, drop_app_length.
    + apply IH. intros r' Hr'. apply Hw. by right.
Qed.

Lemma CastRaggedToDense_rows_witness :
  let dense := CastRaggedToDense_call 0 (from_rows [[7; 8]; []; [9]]) in
  length dense = 3%nat
  /\ Forall (fun r => length r = 2%nat) dense
  /\ concat (zip_with (fun n r => take (Z.to_nat n) r) [2; 0; 1] dense) = [7; 8; 9].
Proof.
  destruct (CastRaggedToDense_rows 0 (from_rows [[7; 8]; []; [9]]) [7; 8; 9] [2; 0; 1])
    as (H1 & H2 & H3 & _).
  - apply from_rows_valid.
  - reflexivity.
  - split; [exact H1|]. split; [exact H2|exact H3].
Defined.

(** *** The row ids of the values *)

Lemma zip_replicate_r {A B} (l : list A) (b : B) :
  zip l (replicate (length l) b) = map (fun a => (a, b)) l.
Proof. induction l as [|a l IH]; simpl; [done|]. by rewrite IH. Qed.

Lemma zip_concat_tagged {V} (rws : list (list V)) (k : nat) :
  zip (concat rws)
      (concat (imap (fun i r => replicate (length r) (Z.of_nat (k + i))) rws))
  = concat (imap (fun i r => map (fun v => (v, Z.of_nat (k + i))) r) rws).
Proof.
  revert k. induction rws as [|r rws IH]; intros k; [done|].
  simpl. rewrite zip_with_app by (by rewrite length_replicate).
  f_equal; [apply zip_replicate_r|].
  rewrite (imap_ext (_ ∘ S) (fun i r => replicate (length r) (Z.of_nat (S k + i))))
    by (intros i x _; simpl; do 2 f_equal; lia).
  rewrite (imap_ext (_ ∘ S) (fun i r0 => map (fun v => (v, Z.of_nat (S k + i))) r0))
    by (intros i x _; simpl; apply map_ext; intros v; do 2 f_equal; lia).
  apply IH.
Qed.

Lemma length_concat_row_tags {V B} (g : nat -> B) (rws : list (list V)) :
  length (concat (imap (fun i r => replicate (length r) (g i)) rws))
  = length (concat rws).
Proof.
  revert g. induction rws as [|r rws IH]; intros g; [done|].
  simpl. rewrite !length_app, length_replicate. f_equal. apply (IH (g ∘ S)).
Qed.

(** X2. With [partition_type='value_rowids'] every value comes paired with the
    number of the row it stands in: the pairs of value and row id are the rows
    of the ragged tensor, each tagged with its row number. *)
Theorem CastRaggedToValues_rowids_tag_rows {V} (inputs : RaggedTensor V)
    (vals : list V) (ids : list Z) :
  valid_ragged inputs ->
  CastRaggedToValues_call "value_rowids" inputs = Ok (vals, ids) ->
  length ids = length vals
  /\ zip vals ids
     = concat (imap (fun i r => map (fun v => (v, Z.of_nat i)) r) (rows inputs)).
Proof.
  intros Hv Hcall.
  assert (Hvals : vals = values inputs /\ ids = value_rowids inputs)
    by (by inversion Hcall).
  destruct Hvals as [-> ->].
  destruct (CastRaggedToValues_partition_meaning inputs Hv) as (E1 & _ & E3).
  rewrite E1, E3. assert (Hz := zip_concat_tagged (rows inputs) 0).
  simpl in Hz. split; [|exact Hz].
  apply length_concat_row_tags.
Qed.

Lemma CastRaggedToValues_rowids_tag_rows_witness :
  zip [7; 8; 9] [0; 0; 2] = [(7, 0); (8, 0); (9, 2)].
Proof.
  destruct (CastRaggedToValues_rowids_tag_rows (from_rows [[7; 8]; []; [9]])
              [7; 8; 9] [0; 0; 2]) as [_ H].
  - apply from_rows_valid.
  - reflexivity.
  - exact H.
Defined.

(** *** Batch addressing is disjoint *)

Lemma length_concat_take_le {V} (nr : list (list V)) (i j : nat) :
  (i <= j)%nat -> (length (concat (take i nr)) <= length (concat (take j nr)))%nat.
Proof.
  revert i j. induction nr as [|r nr IH]; intros i j Hij.
  - by rewrite !take_nil.
  - destruct i as [|i]; [simpl; lia|]. destruct j as [|j]; [lia|].
    simpl. rewrite !length_app. specialize (IH i j ltac:(lia)). lia.
Qed.

(** The shifted rows of a batch in per-sample addressing, without
    wrap-around. *)
Lemma sample_to_batch_rows {F} (nr : list (list F)) (er : list (list (list Z)))
    (i : nat) (r : list F) (es : list (list Z)) :
  length nr = length er ->
  Forall in_int64 (row_splits (from_rows nr)) ->
  sample_indexed (from_rows nr) (from_rows er) ->
  nr !! i = Some r -> er !! i = Some es ->
  shift_rows add64 (offsets 0 (map length nr)) er !! i
  = Some (map (map (fun x => x + Z.of_nat (length (concat (take i nr))))) es)
  /\ Forall (Forall (fun x => 0 <= x < Z.of_nat (length r))) es
  /\ Z.of_nat (length (concat (take i nr))) + Z.of_nat (length r)
     = Z.of_nat (length (concat (take (S i) nr))).
Proof.
  intros Hlen H64 Hsample Hr Hes.
  destruct (row_splits_lookup nr i r Hr) as [Hs Hs'].
  destruct (offsets_lookup nr 0 i r Hr) as [Ho _]. rewrite Z.add_0_l in Ho.
  set (s := Z.of_nat (length (concat (take i nr)))) in *.
  assert (Hin : in_int64 s).
  { rewrite Forall_forall in H64. apply H64. apply list_elem_of_lookup. eauto. }
  assert (Hin' : in_int64 (s + Z.of_nat (length r))).
  { rewrite Forall_forall in H64. apply H64. apply list_elem_of_lookup. eauto. }
  assert (Hrange : Forall (Forall (fun x => 0 <= x < Z.of_nat (length r))) es).
  { apply (Hsample i); [|by rewrite rows_from_rows].
    rewrite row_lengths_from_rows, list_lookup_fmap, Hr. done. }
  split; [|split; [done|]].
  - rewrite (shift_rows_lookup _ _ _ _ _ _ Ho Hes). f_equal.
    apply map_ext_Forall. eapply Forall_impl; [exact Hrange|].
    intros pair Hpair. apply map_ext_Forall. eapply Forall_impl; [exact Hpair|].
    intros x Hx. simpl. unfold add64, cast64. rewrite (wrap64_id s Hin).
    apply wrap64_id. unfold in_int64, int64_min, int64_max in *. subst s. lia.
  - subst s. rewrite (take_S_r _ _ _ Hr), concat_app, length_app. simpl.
    rewrite length_app. simpl. lia.
Qed.

(** X3. After the change to batch addressing the indices of the i-th graph lie
    between the i-th and the (i+1)-th row split of the node tensor, so every
    index names a node of the batch and the indices of two different graphs
    never meet. *)
Theorem ChangeIndexing_batch_disjoint {F} (nod : RaggedTensor F)
    (edgeind : RaggedTensor (list Z)) :
  valid_ragged nod -> valid_ragged edgeind -> nrows nod = nrows edgeind ->
  Forall in_int64 (row_splits nod) ->
  sample_indexed nod edgeind ->
  exists out,
    ChangeIndexing_call "batch" "sample" (nod, edgeind) = Ok out
    /\ (forall i es, rows out !! i = Some es ->
          exists lo hi, row_splits nod !! i = Some lo
            /\ row_splits nod !! S i = Some hi
            /\ Forall (Forall (fun x => lo <= x < hi)) es)
    /\ (forall i j es es' pair pair' x,
          i <> j -> rows out !! i = Some es -> rows out !! j = Some es' ->
          pair ∈ es -> pair' ∈ es' -> x ∈ pair -> x ∉ pair')
    /\ Forall (Forall (fun x => 0 <= x < Z.of_nat (length (values nod)))) (values out).
Proof.
  intros Hn He Hrows H64 Hsample.
  rewrite (valid_ragged_from_rows _ Hn), (valid_ragged_from_rows _ He) in *.
  rewrite ?rows_from_rows in *. rewrite !nrows_from_rows in Hrows.
  set (nr := rows nod) in *. set (er := rows edgeind) in *.
  assert (L : length (offsets 0 (map length nr)) = length er)
    by (by rewrite length_offsets, length_map).
  assert (Hrange : forall i es,
    shift_rows add64 (offsets 0 (map length nr)) er !! i = Some es ->
    exists r, nr !! i = Some r
      /\ Forall (Forall (fun x =>
           Z.of_nat (length (concat (take i nr))) <= x
           < Z.of_nat (length (concat (take (S i) nr))))) es).
  { intros i es Hi.
    assert (is_Some (er !! i)) as [es0 Hes0].
    { apply lookup_lt_is_Some. apply lookup_lt_Some in Hi.
      unfold shift_rows in Hi. rewrite length_zip_with in Hi. lia. }
    assert (is_Some (nr !! i)) as [r Hr].
    { apply lookup_lt_is_Some. apply lookup_lt_Some in Hes0. lia. }
    destruct (sample_to_batch_rows nr er i r es0 Hrows H64 Hsample Hr Hes0)
      as (Hshift & Hsmp & Hnext).
    rewrite Hshift in Hi. inversion Hi; subst es. exists r. split; [done|].
    apply Forall_fmap. eapply Forall_impl; [exact Hsmp|]. intros pair Hpair.
    simpl. apply Forall_fmap. eapply Forall_impl; [exact Hpair|].
    intros x Hx. cbv beta in Hx. cbn [compose]. lia. }
  eexists. split; [|split; [|split]].
  - apply (ChangeIndexing_shift_from_rows _ _ add64); [done|]. by left.
  - intros i es Hi. rewrite rows_from_rows in Hi.
    destruct (Hrange i es Hi) as (r & Hr & HF).
    destruct (row_splits_lookup nr i r Hr) as [Hs Hs'].
    eexists _, _. split; [exact Hs|]. split; [exact Hs'|].
    eapply Forall_impl; [exact HF|]. intros pair Hpair.
    eapply Forall_impl; [exact Hpair|]. intros x Hx. simpl in *.
    rewrite (take_S_r _ _ _ Hr), concat_app, length_app in Hx. simpl in Hx.
    rewrite length_app in Hx. simpl in Hx. lia.
  - intros i j es es' pair pair' x Hij Hi Hj Hp Hp' Hx Hx'.
    rewrite rows_from_rows in Hi, Hj.
    destruct (Hrange i es Hi) as (_ & _ & HF).
    destruct (Hrange j es' Hj) as (_ & _ & HF').
    rewrite Forall_forall in HF, HF'.
    specialize (HF pair Hp). specialize (HF' pair' Hp').
    rewrite Forall_forall in HF, HF'.
    specialize (HF x Hx). specialize (HF' x Hx'). simpl in *.
    destruct (decide (i < j)%nat).
    + pose proof (length_concat_take_le nr (S i) j ltac:(lia)). lia.
    + pose proof (length_concat_take_le nr (S j) i ltac:(lia)). lia.
  - change (values (from_rows ?l)) with (concat l).
    apply Forall_concat, Forall_forall. intros es Hes.
    apply list_elem_of_lookup in Hes as [i Hi].
    destruct (Hrange i es Hi) as (r & Hr & HF).
    eapply Forall_impl; [exact HF|]. intros pair Hpair.
    eapply Forall_impl; [exact Hpair|]. intros x Hx. simpl in *.
    pose proof (length_concat_take_le nr (S i) (length nr) ltac:(apply lookup_lt_Some in Hr; lia)).
    rewrite firstn_all in H. lia.
Qed.

Lemma ChangeIndexing_batch_disjoint_witness :
  exists out,
    ChangeIndexing_call "batch" "sample"
      (from_rows [[1;2;3;4;5]; [1;2;3]],
       from_rows [[[0;1]; [1;0]]; [[0;2]; [1;2]]]) = Ok out
    /\ Forall (Forall (fun x => 0 <= x < 8)) (values out).
Proof.
  destruct (ChangeIndexing_batch_disjoint
              (from_rows [[1;2;3;4;5]; [1;2;3]])
              (from_rows [[[0;1]; [1;0]]; [[0;2]; [1;2]]]))
    as (out & Hcall & _ & _ & Hall).
  - apply from_rows_valid.
  - apply from_rows_valid.
  - reflexivity.
  - repeat constructor; vm_compute; intros ?; discriminate.
  - intros i n es. destruct i as [|[|i]]; vm_compute; intros Hn Hes;
      inversion Hn; inversion Hes; subst;
      repeat constructor; discriminate.
  - exists out. split; [exact Hcall|exact Hall].
Defined.

(** *** From batch addressing to sample addressing and back *)

Lemma wrap64_sub_add x y : in_int64 x -> add64 (sub64 x (cast64 y)) (cast64 y) = x.
Proof.
  unfold in_int64, int64_min, int64_max, sub64, add64, cast64, wrap64. intros H.
  assert (H2 : 2 ^ 64 = 2 * 2 ^ 63) by reflexivity.
  pose proof (Z.div_mod (y + 2 ^ 63) (2 ^ 64) ltac:(lia)) as Ey.
  set (a := (y + 2 ^ 63) mod 2 ^ 64) in *.
  replace (x - (a - 2 ^ 63) + 2 ^ 63) with (x - a + 2 ^ 64) by lia.
  pose proof (Z.div_mod (x - a + 2 ^ 64) (2 ^ 64) ltac:(lia)) as Eb.
  set (b := (x - a + 2 ^ 64) mod 2 ^ 64) in *.
  replace (b - 2 ^ 63 + (a - 2 ^ 63) + 2 ^ 63)
    with (x + 2 ^ 63 + (- ((x - a + 2 ^ 64) / 2 ^ 64)) * 2 ^ 64) by lia.
  rewrite Z_mod_plus_full. rewrite Z.mod_small; lia.
Qed.

Lemma shift_rows_add_sub offs (er : list (list (list Z))) :
  length offs = length er ->
  Forall (Forall in_int64) (concat er) ->
  shift_rows add64 offs (shift_rows sub64 offs er) = er.
Proof.
  revert offs. induction er as [|r er IH]; intros [|o offs] H Hin; try done.
  simpl in *. apply Forall_app in Hin as [Hr Her]. f_equal.
  - rewrite <- (map_id r) at 2. rewrite map_map. apply map_ext_Forall.
    eapply Forall_impl; [exact Hr|]. intros pair Hpair. simpl.
    rewrite <- (map_id pair) at 2. rewrite map_map. apply map_ext_Forall.
    eapply Forall_impl; [exact Hpair|]. intros x Hx. simpl.
    by apply wrap64_sub_add.
  - apply IH; [lia|done].
Qed.

(** X4. The other direction of the round trip: batch to sample addressing and
    back to batch addressing, with the same node tensor, returns the input;
    an indexing name other than 'sample' and 'batch' is a [TypeError]. *)
Theorem ChangeIndexing_batch_sample_batch {F} (nod : RaggedTensor F)
    (edgeind : RaggedTensor (list Z)) :
  valid_ragged nod -> valid_ragged edgeind -> nrows nod = nrows edgeind ->
  Forall (Forall in_int64) (values edgeind) ->
  (exists mid,
     ChangeIndexing_call "sample" "batch" (nod, edgeind) = Ok mid
     /\ row_splits mid = row_splits edgeind
     /\ ChangeIndexing_call "batch" "sample" (nod, mid) = Ok edgeind)
  /\ (forall to_indexing from_indexing,
        to_indexing ∉ ["sample"; "batch"] \/ from_indexing ∉ ["sample"; "batch"] ->
        exists msg,
          ChangeIndexing_call to_indexing from_indexing (nod, edgeind)
          = Raise (TypeError msg)).
Proof.
  intros Hn He Hrows H64.
  rewrite (valid_ragged_from_rows _ Hn), (valid_ragged_from_rows _ He) in *.
  rewrite !nrows_from_rows in Hrows.
  set (nr := rows nod) in *. set (er := rows edgeind) in *.
  assert (L : length (offsets 0 (map length nr)) = length er)
    by (by rewrite length_offsets, length_map).
  split.
  - eexists. split; [|split].
    + apply (ChangeIndexing_shift_from_rows _ _ sub64); [done|]. by right.
    + simpl. by rewrite map_length_shift_rows.
    + rewrite (ChangeIndexing_shift_from_rows _ _ add64).
      * by rewrite shift_rows_add_sub.
      * unfold shift_rows. rewrite length_zip_with. lia.
      * by left.
  - intros to_i from_i Hbad. unfold ChangeIndexing_call.
    rewrite drop_last_row_splits_from_rows, row_lengths_from_rows.
    rewrite (tf_repeat_rows _ _ L). simpl mbind.
    assert (Hnames : forall s : string, s ∉ ["sample"; "batch"] ->
              String.eqb s "sample" = false /\ String.eqb s "batch" = false).
    { intros s Hs. split; apply String.eqb_neq; intros ->; apply Hs;
        rewrite !elem_of_cons; auto. }
    assert (Hcases :
      (String.eqb to_i "batch" && String.eqb from_i "sample" = false)
      /\ (String.eqb to_i "sample" && String.eqb from_i "batch" = false)
      /\ (String.eqb to_i "sample" && String.eqb from_i "sample" = false)
      /\ (String.eqb to_i "batch" && String.eqb from_i "batch" = false)).
    { destruct Hbad as [Hb|Hb]; destruct (Hnames _ Hb) as [E1 E2]; rewrite E1, E2;
        rewrite ?andb_false_r; done. }
    destruct Hcases as (-> & -> & -> & ->). simpl. eauto.
Qed.

Lemma ChangeIndexing_batch_sample_batch_witness :
  let nod := from_rows [[1;2;3;4;5]; [1;2;3]] in
  let edgeind := from_rows [[[0;1]; [1;0]]; [[5;7]; [6;7]]] in
  (exists mid,
     ChangeIndexing_call "sample" "batch" (nod, edgeind) = Ok mid
     /\ row_splits mid = row_splits edgeind
     /\ ChangeIndexing_call "batch" "sample" (nod, mid) = Ok edgeind)
  /\ exists msg,
       ChangeIndexing_call "disjoint" "sample" (nod, edgeind) = Raise (TypeError msg).
Proof.
  intros nod edgeind.
  destruct (ChangeIndexing_batch_sample_batch nod edgeind) as [H1 H2].
  - apply from_rows_valid.
  - apply from_rows_valid.
  - reflexivity.
  - repeat constructor; vm_compute; intros ?; discriminate.
  - split; [exact H1|]. apply H2. left.
    rewrite !elem_of_cons, elem_of_nil. intros [?|[?|?]]; done.
Defined.

End Casting.
(** ** [kgcnn/utils/adj.py] *)

Module Adj.

(** *** Two-dimensional numpy arrays *)

(** A rank-2 [np.ndarray]: its shape and its rows. *)
Record ndarray (T : Type) : Type := mkArray {
  shape0 : nat;
  shape1 : nat;
  items : list (list T)
}.
Arguments mkArray {T} _ _ _.
Arguments shape0 {T} _.
Arguments shape1 {T} _.
Arguments items {T} _.

Definition wf_array {T} (A : ndarray T) : Prop :=
  length (items A) = shape0 A /\ Forall (fun r => length r = shape1 A) (items A).

(** The array of shape [(n, m)] whose entry [(i, j)] is [f i j]. *)
Definition build {T} (n m : nat) (f : nat -> nat -> T) : ndarray T :=
  mkArray n m (map (fun i => map (fun j => f i j) (seq 0 m)) (seq 0 n)).

(** [A[i, j]] for indices inside the shape. *)
Definition get {T} `{Inhabited T} (A : ndarray T) (i j : nat) : T :=
  default inhabitant (items A !! i ≫= fun r => r !! j).

(** Broadcasting: two axis lengths are compatible when they agree or one of
    them is 1; an axis of length 1 is read at index 0. *)
Definition broadcast_dim (a b : nat) : option nat :=
  if (a =? b)%nat then Some a
  else if (a =? 1)%nat then Some b
  else if (b =? 1)%nat then Some a
  else None.

Definition bget {T} `{Inhabited T} (A : ndarray T) (i j : nat) : T :=
  get A (if (shape0 A =? 1)%nat then 0%nat else i)
        (if (shape1 A =? 1)%nat then 0%nat else j).

(** An element-wise binary operator of numpy ([+], [*], [>], [>=]). *)
Definition elementwise {T1 T2 T3} `{Inhabited T1} `{Inhabited T2}
    (f : T1 -> T2 -> T3) (A : ndarray T1) (B : ndarray T2) : result (ndarray T3) :=
  match broadcast_dim (shape0 A) (shape0 B), broadcast_dim (shape1 A) (shape1 B) with
  | Some n, Some m => Ok (build n m (fun i j => f (bget A i j) (bget B i j)))
  | _, _ => Raise (ValueError "operands could not be broadcast together")
  end.

(** [np.transpose] *)
Definition transpose {T} `{Inhabited T} (A : ndarray T) : ndarray T :=
  build (shape1 A) (shape0 A) (fun i j => get A j i).

(** The arithmetic and the comparisons of an array [dtype]. *)
Class Dtype (T : Type) : Type := {
  zero : T;
  one : T;
  add : T -> T -> T;
  mul : T -> T -> T;
  gtb : T -> T -> bool;
  geb : T -> T -> bool
}.

(** The laws of an exact numeric [dtype] (the integers, the reals): 0 and 1
    are neutral and absorbing as usual and [>], [>=] come from a total order. *)
Class DtypeLaws (T : Type) `{Dtype T} : Prop := {
  mul_one_l : forall x : T, mul one x = x;
  mul_zero_l : forall x : T, mul zero x = zero;
  add_zero_l : forall x : T, add zero x = x;
  add_zero_r : forall x : T, add x zero = x;
  geb_gtb : forall x y : T, geb x y = negb (gtb y x);
  gtb_asym : forall x y : T, gtb x y = true -> gtb y x = false;
  gtb_total : forall x y : T, gtb x y = false -> gtb y x = false -> x = y
}.

(** A boolean array entering arithmetic counts as 0 and 1. *)
Definition of_bool {T} `{Dtype T} (b : bool) : T := if b then one else zero.

#[global] Instance Z_dtype : Dtype Z :=
  {| zero := 0; one := 1; add := Z.add; mul := Z.mul; gtb := Z.gtb; geb := Z.geb |}.

(** *** What the functions of this module may receive *)

Section AdjFunctions.

(** [scipy.sparse] matrices and the two sparse pipelines are left to scipy:
    [S] is the type of sparse matrices, [sparse_undirected] and
    [sparse_scaled] what the sparse branches compute. *)
Context {T : Type} `{Dtype T} `{Inhabited T}.
Context {S : Type}.
Variable sparse_undirected : S -> S.

Inductive pyobj : Type :=
  | NDArray (A : ndarray T)
  | CsrMatrix (A : S)
  | CooMatrix (A : S)
  | PyNone
  | OtherObject (type_name : string).

(** [make_undirected(A)].  An argument that is neither an array nor a
    csr/coo matrix falls through both branches: the function returns [None]. *)
Definition make_undirected (A : pyobj) : result pyobj :=
  match A with
  | NDArray A =>
      let At := transpose A in
      c1 ← elementwise gtb At A;
      t1 ← elementwise (fun b x => mul (of_bool b) x) c1 At;
      c2 ← elementwise geb A At;
      t2 ← elementwise (fun b x => mul (of_bool b) x) c2 A;
      Aout ← elementwise add t1 t2;
      Ok (NDArray Aout)
  | CsrMatrix A | CooMatrix A => Ok (CooMatrix (sparse_undirected A))
  | PyNone | OtherObject _ => Ok PyNone
  end.

(** The element-wise maximum, [np.maximum]. *)
Definition dmax (x y : T) : T := if gtb y x then y else x.

Definition maximum (A B : ndarray T) : ndarray T :=
  build (shape0 A) (shape1 A) (fun i j => dmax (get A i j) (get B i j)).

End AdjFunctions.

Arguments pyobj : clear implicits.

Example make_undirected_Z :
  make_undirected (S := unit) id (NDArray (mkArray 2 2 [[0; 3]; [1; 0]]))
  = Ok (NDArray (mkArray 2 2 [[0; 3]; [3; 0]])).
Proof. reflexivity. Qed.

(** *** Arrays given by their entries *)

Lemma build_ext {T} (n m : nat) (f g : nat -> nat -> T) :
  (forall i j, (i < n)%nat -> (j < m)%nat -> f i j = g i j) ->
  build n m f = build n m g.
Proof.
  intros E. unfold build. f_equal.
  apply map_ext_in. intros i Hi. apply in_seq in Hi.
  apply map_ext_in. intros j Hj. apply in_seq in Hj.
  apply E; lia.
Qed.

Lemma get_build {T} `{Inhabited T} (n m : nat) (f : nat -> nat -> T) (i j : nat) :
  (i < n)%nat -> (j < m)%nat -> get (build n m f) i j = f i j.
Proof.
  intros Hi Hj. unfold get, build. simpl.
  rewrite list_lookup_fmap, lookup_seq_lt by done. simpl.
  rewrite list_lookup_fmap, lookup_seq_lt by done. done.
Qed.

Lemma wf_build {T} (n m : nat) (f : nat -> nat -> T) : wf_array (build n m f).
Proof.
  split; simpl.
  - by rewrite length_map, length_seq.
  - apply Forall_fmap, Forall_forall. intros i _. simpl.
    by rewrite length_map, length_seq.
Qed.

Lemma broadcast_dim_same n : broadcast_dim n n = Some n.
Proof. unfold broadcast_dim. by rewrite Nat.eqb_refl. Qed.

Lemma bget_get {T} `{Inhabited T} (A : ndarray T) (i j : nat) :
  (i < shape0 A)%nat -> (j < shape1 A)%nat -> bget A i j = get A i j.
Proof.
  intros Hi Hj. unfold bget.
  destruct (Nat.eqb_spec (shape0 A) 1), (Nat.eqb_spec (shape1 A) 1);
    f_equal; lia.
Qed.

(** On operands of one shape an element-wise operator pairs up the entries. *)
Lemma elementwise_same_shape {T1 T2 T3} `{Inhabited T1} `{Inhabited T2}
    (f : T1 -> T2 -> T3) (A : ndarray T1) (B : ndarray T2) :
  shape0 B = shape0 A -> shape1 B = shape1 A ->
  elementwise f A B
  = Ok (build (shape0 A) (shape1 A) (fun i j => f (get A i j) (get B i j))).
Proof.
  intros E0 E1. unfold elementwise. rewrite E0, E1, !broadcast_dim_same.
  f_equal. apply build_ext. intros i j Hi Hj.
  rewrite !bget_get by lia. done.
Qed.

Section Undirected.

Context {T : Type} `{DtypeLaws T} `{Inhabited T}.
Context {S : Type}.
Variable sparse_undirected : S -> S.

Lemma dmax_comm (x y : T) : dmax x y = dmax y x.
Proof.
  unfold dmax. destruct (gtb y x) eqn:E1, (gtb x y) eqn:E2; try done.
  - apply gtb_asym in E1. congruence.
  - by apply gtb_total.
Qed.

Lemma dmax_idem (x : T) : dmax x x = x.
Proof. unfold dmax. by destruct (gtb x x). Qed.

Lemma undirected_entry (a at' : T) :
  add (mul (of_bool (gtb at' a)) at') (mul (of_bool (geb a at')) a) = dmax a at'.
Proof.
  rewrite geb_gtb. unfold dmax, of_bool. destruct (gtb at' a); simpl.
  - by rewrite mul_one_l, mul_zero_l, add_zero_r.
  - by rewrite mul_one_l, mul_zero_l, add_zero_l.
Qed.

Lemma make_undirected_square (A : ndarray T) :
  shape0 A = shape1 A ->
  make_undirected sparse_undirected (NDArray A)
  = Ok (NDArray (maximum A (transpose A))).
Proof.
  intros Hsq. unfold make_undirected, maximum.
  set (n := shape0 A) in *.
  assert (S1 : shape1 A = n) by done.
  rewrite (elementwise_same_shape gtb (transpose A) A) by (simpl; lia).
  simpl mbind.
  rewrite (elementwise_same_shape _ (build _ _ _) (transpose A)) by (simpl; lia).
  simpl mbind.
  rewrite (elementwise_same_shape geb A (transpose A)) by (simpl; lia).
  simpl mbind.
  rewrite (elementwise_same_shape _ (build _ _ _) A) by (simpl; lia).
  simpl mbind.
  rewrite (elementwise_same_shape add (build _ _ _) (build _ _ _)) by (simpl; lia).
  simpl. do 2 f_equal. rewrite S1. fold n. apply build_ext. intros i j Hi Hj.
  rewrite !get_build by lia.
  unfold transpose. rewrite S1. fold n. rewrite !get_build by lia.
  apply undirected_entry.
Qed.

Lemma transpose_maximum (A : ndarray T) :
  shape0 A = shape1 A ->
  transpose (maximum A (transpose A)) = maximum A (transpose A).
Proof.
  intros Hsq. unfold transpose at 1, maximum. simpl. rewrite <- Hsq.
  apply build_ext. intros i j Hi Hj. rewrite get_build by lia.
  unfold transpose. rewrite <- Hsq. rewrite !get_build by lia.
  apply dmax_comm.
Qed.

Lemma get_maximum_transpose (A : ndarray T) (i j : nat) :
  shape0 A = shape1 A -> (i < shape0 A)%nat -> (j < shape1 A)%nat ->
  get (maximum A (transpose A)) i j = dmax (get A i j) (get A j i).
Proof.
  intros Hsq Hi Hj. unfold maximum. rewrite get_build by lia.
  unfold transpose. rewrite get_build by lia. done.
Qed.

(** C9. For a square numpy matrix [A] over an exact numeric dtype,
    [make_undirected(A)] returns the element-wise maximum of [A] and its
    transpose; the result equals its own transpose, and applying
    [make_undirected] to it returns the same matrix. *)
Theorem make_undirected_symmetric_idempotent (A : ndarray T) :
  shape0 A = shape1 A ->
  let R := maximum A (transpose A) in
  make_undirected sparse_undirected (NDArray A) = Ok (NDArray R)
  /\ (forall i j, (i < shape0 A)%nat -> (j < shape1 A)%nat ->
        get R i j = dmax (get A i j) (get A j i))
  /\ transpose R = R
  /\ make_undirected sparse_undirected (NDArray R) = Ok (NDArray R).
Proof.
  intros Hsq R. split; [|split; [|split]].
  - by apply make_undirected_square.
  - intros i j Hi Hj. by apply get_maximum_transpose.
  - by apply transpose_maximum.
  - rewrite make_undirected_square by (unfold R, maximum; simpl; lia).
    do 2 f_equal. pose proof (transpose_maximum A Hsq) as HT. fold R in HT.
    rewrite HT. unfold maximum at 1. apply build_ext. intros i j Hi Hj.
    rewrite dmax_idem. unfold R, maximum. by rewrite get_build by lia.
Qed.

End Undirected.

#[global] Instance Z_dtype_laws : DtypeLaws Z.
Proof.
  split; simpl; intros; rewrite ?Z.geb_leb, ?Z.gtb_ltb in *;
    repeat match goal with
    | |- context [Z.leb ?a ?b] => destruct (Z.leb_spec a b)
    | |- context [Z.ltb ?a ?b] => destruct (Z.ltb_spec a b)
    | H : context [Z.ltb ?a ?b] |- _ => destruct (Z.ltb_spec a b)
    end; simpl in *; try discriminate; try lia.
Qed.

(** A directed triangle with weights, made undirected. *)
Lemma make_undirected_symmetric_idempotent_witness :
  let A := mkArray 3 3 [[0; 2; 0]; [0; 0; 5]; [-1; 7; 0]] in
  let R := mkArray 3 3 [[0; 2; 0]; [2; 0; 7]; [0; 7; 0]] in
  make_undirected (S := unit) id (NDArray A) = Ok (NDArray R)
  /\ transpose R = R
  /\ make_undirected (S := unit) id (NDArray R) = Ok (NDArray R).
Proof.
  intros A R.
  destruct (make_undirected_symmetric_idempotent (S := unit) id A) as (H1 & _ & H3 & H4).
  - reflexivity.
  - change (maximum A (transpose A)) with R in *. auto.
Defined.

(** *** Floating-point entries *)

(** A [float64] entry by its value: a finite number, an infinity or a NaN;
    the two zeros are one value. *)
Inductive npfloat : Type :=
  | Fin (q : Q)
  | PInf
  | NInf
  | NaN.

#[global] Instance npfloat_inhabited : Inhabited npfloat := populate (Fin 0%Q).

Definition Qsign (q : Q) : comparison := (Qnum q ?= 0)%Z.

(** [np.isinf] *)
Definition isinf (x : npfloat) : bool :=
  match x with PInf | NInf => true | _ => false end.

Definition finite (x : npfloat) : Prop :=
  match x with Fin _ => True | _ => False end.

Section Arithmetic.

(** An addition or a multiplication of two finite floats gives the exact
    result rounded: [round q] is the float next to the exact result [q], or
    an infinity when [q] lies beyond the largest float. *)
Variable round : Q -> npfloat.

(** [x + y] *)
Definition fadd (x y : npfloat) : npfloat :=
  match x, y with
  | NaN, _ | _, NaN => NaN
  | PInf, NInf | NInf, PInf => NaN
  | PInf, _ | _, PInf => PInf
  | NInf, _ | _, NInf => NInf
  | Fin a, Fin b => round (a + b)%Q
  end.

(** An infinity times a finite number: its sign, and NaN for zero. *)
Definition inf_times (pos : bool) (q : Q) : npfloat :=
  match Qsign q with
  | Eq => NaN
  | Gt => if pos then PInf else NInf
  | Lt => if pos then NInf else PInf
  end.

(** [x * y] *)
Definition fmul (x y : npfloat) : npfloat :=
  match x, y with
  | NaN, _ | _, NaN => NaN
  | PInf, PInf | NInf, NInf => PInf
  | PInf, NInf | NInf, PInf => NInf
  | PInf, Fin q | Fin q, PInf => inf_times true q
  | NInf, Fin q | Fin q, NInf => inf_times false q
  | Fin a, Fin b => round (a * b)%Q
  end.

End Arithmetic.

(** What numpy computes on [float64] values, as far as this module uses it:
    the rounding of its additions and multiplications, and three functions
    whose order of evaluation is numpy's and its BLAS library's own (numpy
    adds in blocks and pairs, the BLAS in an order of its choice, with
    products fused into the sums).  [sum_axis1 i l] is entry [i] of
    [np.sum(A, axis=-1)] for the row [l] of [A], [sum_axis0 j l] entry [j]
    of [np.sum(A, axis=0)] for the column [l], and [dot i j a b] entry
    [(i, j)] of [np.matmul] for the row [a] of the first and the column [b]
    of the second matrix.  [rsqrt q] is [np.power(q, -0.5)] for a finite [q]
    greater than zero, which is a finite float. *)
Record numpy : Type := mkNumpy {
  round : Q -> npfloat;
  sum_axis1 : nat -> list npfloat -> npfloat;
  sum_axis0 : nat -> list npfloat -> npfloat;
  dot : nat -> nat -> list npfloat -> list npfloat -> npfloat;
  rsqrt : Q -> Q
}.

(** What scipy computes on its sparse matrices of type [S]:
    [sp.coo_matrix(A)], [A.shape[0]], [sp.eye(n)], [A + B], the entries of
    [np.array(A.sum(axis))], [sp.diags(d, format='coo')], [A.dot(B)] and
    [A.tocoo()]. *)
Record scipy (S : Type) : Type := mkScipy {
  coo_matrix : S -> S;
  sp_shape0 : S -> nat;
  sp_eye : nat -> S;
  sp_add : S -> S -> result S;
  sp_sum : nat -> S -> list npfloat;
  sp_diags : list npfloat -> result S;
  sp_dot : S -> S -> result S;
  sp_tocoo : S -> S
}.
Arguments mkScipy {S} _ _ _ _ _ _ _ _.
Arguments coo_matrix {S} _ _.
Arguments sp_shape0 {S} _ _.
Arguments sp_eye {S} _ _.
Arguments sp_add {S} _ _ _.
Arguments sp_sum {S} _ _ _.
Arguments sp_diags {S} _ _.
Arguments sp_dot {S} _ _ _.
Arguments sp_tocoo {S} _ _.

Section Scaled.

Variable np : numpy.
Context {S : Type}.
Variable sp : scipy S.

(** [np.power(x, -0.5)]: a zero gives infinity, a negative finite number
    NaN, an infinity of either sign zero. *)
Definition power_neg_half (x : npfloat) : npfloat :=
  match x with
  | Fin q =>
      match Qsign q with
      | Eq => PInf
      | Gt => Fin (rsqrt np q)
      | Lt => NaN
      end
  | PInf => Fin 0%Q
  | NInf => Fin 0%Q
  | NaN => NaN
  end.

(** [d[np.isinf(d)] = 0.] *)
Definition zero_infinite (d : list npfloat) : list npfloat :=
  map (fun x => if isinf x then Fin 0%Q else x) d.

(** [np.sum(A, axis=-1)] and [np.sum(A, axis=0)] *)
Definition sum_rows (A : ndarray npfloat) : list npfloat :=
  map (fun i => sum_axis1 np i (map (fun j => get A i j) (seq 0 (shape1 A))))
      (seq 0 (shape0 A)).
Definition sum_cols (A : ndarray npfloat) : list npfloat :=
  map (fun j => sum_axis0 np j (map (fun i => get A i j) (seq 0 (shape0 A))))
      (seq 0 (shape1 A)).

(** [np.identity(n)] *)
Definition identity (n : nat) : ndarray npfloat :=
  build n n (fun i j => if (i =? j)%nat then Fin 1%Q else Fin 0%Q).

(** [D = np.zeros((n, n)); D[np.arange(n), np.arange(n)] = d] *)
Definition diagonal (n : nat) (d : list npfloat) : ndarray npfloat :=
  build n n (fun i j => if (i =? j)%nat then d !!! i else Fin 0%Q).

(** [np.matmul] of two rank-2 arrays *)
Definition matmul (A B : ndarray npfloat) : result (ndarray npfloat) :=
  if decide (shape1 A = shape0 B) then
    Ok (build (shape0 A) (shape1 B) (fun i j =>
          dot np i j (map (fun k => get A i k) (seq 0 (shape1 A)))
                     (map (fun k => get B k j) (seq 0 (shape1 A)))))
  else Raise (ValueError "matmul: Input operand 1 has a mismatch in its core dimension 0").

(** [precompute_adjacency_scaled(A, add_identity)].  The array argument is
    given by its float entries, that is after [np.array(A, dtype=float)]. *)
Definition precompute_adjacency_scaled (A : pyobj npfloat S) (add_identity : bool)
    : result (pyobj npfloat S) :=
  match A with
  | NDArray A =>
      A ← (if add_identity then elementwise (fadd (round np)) A (identity (shape0 A))
           else Ok A);
      let rowsum := sum_rows A in
      let colsum := sum_cols A in
      let d_ii := map power_neg_half rowsum in
      let d_jj := map power_neg_half colsum in
      let d_ii := zero_infinite d_ii in
      let d_jj := zero_infinite d_jj in
      let Di := diagonal (shape0 A) d_ii in
      let Dj := diagonal (shape1 A) d_jj in
      ADj ← matmul A Dj;
      NDArray <$> matmul Di ADj
  | CsrMatrix A | CooMatrix A =>
      let adj := coo_matrix sp A in
      adj ← (if add_identity then sp_add sp adj (sp_eye sp (sp_shape0 sp adj))
             else Ok adj);
      let colsum := sp_sum sp 0 adj in
      let rowsum := sp_sum sp 1 adj in
      let d_ii := map power_neg_half rowsum in
      let d_jj := map power_neg_half colsum in
      let d_ii := zero_infinite d_ii in
      let d_jj := zero_infinite d_jj in
      Di ← sp_diags sp d_ii;
      Dj ← sp_diags sp d_jj;
      DiA ← sp_dot sp Di adj;
      DiADj ← sp_dot sp DiA Dj;
      Ok (CooMatrix (sp_tocoo sp DiADj))
  | PyNone => Raise (TypeError "Error: Matrix format not supported: NoneType")
  | OtherObject type_name =>
      Raise (TypeError ("Error: Matrix format not supported: " +:+ type_name))
  end.

End Scaled.

(** *** An arithmetic to compute with *)

(** Exact results up to the threshold of [float64]: a result of magnitude
    [2^1024] or more is an infinity, every other result is kept as it is.
    Sums and inner products are taken from left to right. *)
Definition exact_round (q : Q) : npfloat :=
  if Qle_bool (inject_Z (2 ^ 1024)) q then PInf
  else if Qle_bool q (inject_Z (- 2 ^ 1024)) then NInf
  else Fin (Qred q).

(** The inverse square root by the integer square roots of numerator and
    denominator: exact where both are squares. *)
Definition exact_rsqrt (q : Q) : Q :=
  Qred (inject_Z (Z.sqrt (Zpos (Qden (Qred q)))) / inject_Z (Z.sqrt (Qnum (Qred q)))).

Definition exact_sum (l : list npfloat) : npfloat :=
  foldl (fadd exact_round) (Fin 0%Q) l.

Definition exact_dot (a b : list npfloat) : npfloat :=
  foldl (fadd exact_round) (Fin 0%Q) (zip_with (fmul exact_round) a b).

Definition exact64 : numpy :=
  mkNumpy exact_round (fun _ => exact_sum) (fun _ => exact_sum) (fun _ _ => exact_dot)
    exact_rsqrt.

(** A scipy for examples that use no sparse matrix. *)
Definition no_scipy : scipy unit :=
  mkScipy (fun a => a) (fun _ => 0%nat) (fun _ => tt)
    (fun _ _ => Raise (ValueError "inconsistent shapes")) (fun _ _ => [])
    (fun _ => Raise (ValueError "no diagonal"))
    (fun _ _ => Raise (ValueError "dimension mismatch")) (fun a => a).

(** Two connected nodes and an isolated one, without self-loops: the
    isolated node has degree zero and is scaled by zero. *)
Example precompute_adjacency_scaled_isolated :
  precompute_adjacency_scaled exact64 no_scipy
    (NDArray (mkArray 3 3 [[Fin 0; Fin 1; Fin 0]; [Fin 1; Fin 0; Fin 0];
                            [Fin 0; Fin 0; Fin 0]])) false
  = Ok (NDArray (mkArray 3 3 [[Fin 0; Fin 1; Fin 0]; [Fin 1; Fin 0; Fin 0];
                               [Fin 0; Fin 0; Fin 0]])).
Proof. vm_compute. reflexivity. Qed.

(** *** What the normalisation relies on *)

(** Two facts of [float64] arithmetic.  A result that is exactly zero is the
    float zero.  And an inner product of finite floats in which every product
    but one has a factor zero is the one product that is left: a zero added
    to a float leaves it as it is, whatever the order of the additions and
    whether or not a product is fused into its sum. *)
Record numpy_laws (np : numpy) : Prop := {
  round_zero : forall q, (q == 0)%Q -> round np q = Fin 0%Q;
  dot_single : forall i j a b k x y,
    length a = length b ->
    Forall finite a -> Forall finite b ->
    a !! k = Some x -> b !! k = Some y ->
    (forall l u v, l <> k -> a !! l = Some u -> b !! l = Some v ->
       u = Fin 0%Q \/ v = Fin 0%Q) ->
    dot np i j a b = fmul (round np) x y
}.


(** All entries inside the shape satisfy [P]. *)
Definition all_entries (P : npfloat -> Prop) (A : ndarray npfloat) : Prop :=
  forall i j, (i < shape0 A)%nat -> (j < shape1 A)%nat -> P (get A i j).

Lemma finite_Fin x : finite x -> exists q, x = Fin q.
Proof. destruct x; try done. eauto. Qed.

Lemma diagonal_get n d i j :
  (i < n)%nat -> (j < n)%nat ->
  get (diagonal n d) i j = if (i =? j)%nat then d !!! i else Fin 0%Q.
Proof. intros Hi Hj. unfold diagonal. by rewrite get_build. Qed.

Section ScaledProofs.

Variable np : numpy.
Context {S : Type}.
Variable sp : scipy S.

(** The scaling factor of a sum: its inverse square root, with zero in the
    place of an infinity. *)
Definition scaling (s : npfloat) : npfloat :=
  let d := power_neg_half np s in if isinf d then Fin 0%Q else d.

(** The sums of row [i] and of column [j]. *)
Definition row_sum (A : ndarray npfloat) (i : nat) : npfloat :=
  sum_axis1 np i (map (fun j => get A i j) (seq 0 (shape1 A))).
Definition col_sum (A : ndarray npfloat) (j : nat) : npfloat :=
  sum_axis0 np j (map (fun i => get A i j) (seq 0 (shape0 A))).

(** [A + np.identity(A.shape[0])] when [add_identity] is set. *)
Definition with_identity (A : ndarray npfloat) (add_identity : bool) : ndarray npfloat :=
  if add_identity then
    build (shape0 A) (shape1 A)
      (fun i j => fadd (round np) (get A i j)
                    (if (i =? j)%nat then Fin 1%Q else Fin 0%Q))
  else A.

Lemma zero_infinite_scaling (sums : list npfloat) :
  zero_infinite (map (power_neg_half np) sums) = map scaling sums.
Proof. unfold zero_infinite. by rewrite map_map. Qed.



Lemma with_identity_shape A b :
  shape0 (with_identity A b) = shape0 A /\ shape1 (with_identity A b) = shape1 A.
Proof. by destruct b. Qed.

Lemma elementwise_identity (A : ndarray npfloat) (b : bool) :
  shape0 A = shape1 A ->
  (if b then elementwise (fadd (round np)) A (identity (shape0 A)) else Ok A)
  = Ok (with_identity A b).
Proof.
  intros Hsq. destruct b; [|done].
  rewrite elementwise_same_shape by (simpl; lia). f_equal.
  unfold with_identity. apply build_ext. intros i j Hi Hj.
  unfold identity. by rewrite get_build by lia.
Qed.

Hypothesis laws : numpy_laws np.

(** The two products with the diagonal matrices scale the entries: where
    the entries of [A], the factor [d_i] and the scaled entries of column [j]
    are finite, entry [(i, j)] of [Di . (A . Dj)] is [d_i * (a_ij * e_j)]. *)
Lemma scaled_product (A : ndarray npfloat) (d e : list npfloat) (n : nat) :
  shape0 A = n -> shape1 A = n ->
  exists M R,
    matmul np A (diagonal n e) = Ok M
    /\ matmul np (diagonal n d) M = Ok R
    /\ shape0 R = n /\ shape1 R = n
    /\ forall i j, (i < n)%nat -> (j < n)%nat ->
         all_entries finite A ->
         finite (d !!! i) ->
         (forall k, (k < n)%nat -> finite (fmul (round np) (get A k j) (e !!! j))) ->
         get R i j
         = fmul (round np) (d !!! i) (fmul (round np) (get A i j) (e !!! j)).
Proof.
  intros S0 S1.
  unfold matmul. simpl. rewrite S0, S1.
  destruct (decide (n = n)) as [_|]; [|done].
  do 2 eexists. split; [reflexivity|]. simpl.
  destruct (decide (n = n)) as [_|]; [|done].
  split; [reflexivity|]. split; [done|]. split; [done|].
  intros i j Hi Hj HA Hd Hfin.
  assert (He : finite (e !!! j)).
  { specialize (Hfin j Hj). specialize (HA j j ltac:(lia) ltac:(lia)).
    destruct (get A j j) as [a| | |]; try done.
    destruct (e !!! j) as [q| | |]; try done; simpl in Hfin;
      unfold inf_times in Hfin; by destruct (Qsign a). }
  (* the inner product *)
  assert (HM : forall k, (k < n)%nat ->
            get (build n n (fun i0 j0 =>
                   dot np i0 j0 (map (fun k0 => get A i0 k0) (seq 0 n))
                     (map (fun k0 => get (diagonal n e) k0 j0) (seq 0 n)))) k j
            = fmul (round np) (get A k j) (e !!! j)).
  { intros k Hk. rewrite get_build by done.
    apply (dot_single np laws k j _ _ j).
    - by rewrite !length_map.
    - apply Forall_fmap, Forall_forall. intros l Hl. apply elem_of_seq in Hl.
      unfold compose. apply HA; lia.
    - apply Forall_fmap, Forall_forall. intros l Hl. apply elem_of_seq in Hl.
      unfold compose. rewrite diagonal_get by lia. by destruct (Nat.eqb_spec l j) as [->|].
    - by rewrite list_lookup_fmap, lookup_seq_lt.
    - rewrite list_lookup_fmap, lookup_seq_lt by done. simpl.
      rewrite diagonal_get by done. by rewrite Nat.eqb_refl.
    - intros l u v Hne Hu Hv. right.
      rewrite list_lookup_fmap in Hv.
      destruct (seq 0 n !! l) as [l'|] eqn:Hl; [|done].
      apply lookup_seq in Hl as [-> Hl]. simpl in Hv.
      inversion Hv; subst v.
      rewrite diagonal_get by done.
      by destruct (Nat.eqb_spec l j). }
  rewrite get_build by done.
  rewrite <- (HM i Hi).
  apply (dot_single np laws i j _ _ i).
  - by rewrite !length_map.
  - apply Forall_fmap, Forall_forall. intros l Hl. apply elem_of_seq in Hl.
    unfold compose. rewrite diagonal_get by lia.
    destruct (Nat.eqb_spec i l) as [<-|]; done.
  - apply Forall_fmap, Forall_forall. intros l Hl. apply elem_of_seq in Hl.
    unfold compose. rewrite HM by lia. apply Hfin; lia.
  - rewrite list_lookup_fmap, lookup_seq_lt by done. simpl.
    rewrite diagonal_get by done. by rewrite Nat.eqb_refl.
  - by rewrite list_lookup_fmap, lookup_seq_lt.
  - intros l u v Hne Hu Hv. left.
    rewrite list_lookup_fmap in Hu.
    destruct (seq 0 n !! l) as [l'|] eqn:Hl; [|done].
    apply lookup_seq in Hl as [-> Hl]. simpl in Hu.
    inversion Hu; subst u.
    rewrite diagonal_get by done. by destruct (Nat.eqb_spec i l).
Qed.

Lemma Qsign_zero (q : Q) : (q == 0)%Q -> Qsign q = Eq.
Proof.
  unfold Qeq, Qsign. simpl. intros H. apply Z.compare_eq_iff. lia.
Qed.

Lemma scaling_zero (q : Q) : (q == 0)%Q -> scaling (Fin q) = Fin 0%Q.
Proof. intros Hq. unfold scaling. simpl. by rewrite (Qsign_zero q Hq). Qed.

Lemma scaled_rows (A : ndarray npfloat) :
  map scaling (sum_rows np A) = map (fun i => scaling (row_sum A i)) (seq 0 (shape0 A)).
Proof. unfold sum_rows. by rewrite map_map. Qed.

Lemma scaled_cols (A : ndarray npfloat) :
  map scaling (sum_cols np A) = map (fun j => scaling (col_sum A j)) (seq 0 (shape1 A)).
Proof. unfold sum_cols. by rewrite map_map. Qed.

(** The function on a square array: the two products with the diagonal
    matrices of the scaling factors, and the entries of the result. *)
Lemma precompute_adjacency_scaled_formula (A : ndarray npfloat) (add_identity : bool) :
  shape0 A = shape1 A ->
  let n := shape0 A in
  let A' := with_identity A add_identity in
  exists M R,
    precompute_adjacency_scaled np sp (NDArray A) add_identity = Ok (NDArray R)
    /\ shape0 R = n /\ shape1 R = n
    /\ matmul np A' (diagonal n (map (fun j => scaling (col_sum A' j)) (seq 0 n))) = Ok M
    /\ matmul np (diagonal n (map (fun i => scaling (row_sum A' i)) (seq 0 n))) M = Ok R
    /\ forall i j, (i < n)%nat -> (j < n)%nat ->
         all_entries finite A' ->
         finite (scaling (row_sum A' i)) ->
         (forall k, (k < n)%nat ->
            finite (fmul (round np) (get A' k j) (scaling (col_sum A' j)))) ->
         get R i j
         = fmul (round np) (scaling (row_sum A' i))
             (fmul (round np) (get A' i j) (scaling (col_sum A' j))).
Proof.
  intros Hsq n A'.
  destruct (with_identity_shape A add_identity) as [S0 S1]. fold A' in S0, S1.
  assert (S1' : shape1 A' = n) by (unfold n; lia).
  unfold precompute_adjacency_scaled.
  rewrite (elementwise_identity A add_identity Hsq). fold A'. simpl mbind.
  rewrite !zero_infinite_scaling, scaled_rows, scaled_cols, S0, S1'. fold n.
  destruct (scaled_product A'
              (map (fun i => scaling (row_sum A' i)) (seq 0 n))
              (map (fun j => scaling (col_sum A' j)) (seq 0 n)) n S0 S1')
    as (M & R & HM & HR & R0 & R1 & Hent).
  exists M, R. rewrite HM. simpl mbind. rewrite HR.
  split; [done|]. split; [done|]. split; [done|]. split; [done|]. split; [done|].
  assert (Hlk : forall (f : nat -> npfloat) k, (k < n)%nat -> map f (seq 0 n) !!! k = f k).
  { intros f k Hk. apply list_lookup_total_correct.
    by rewrite list_lookup_fmap, lookup_seq_lt. }
  intros i j Hi Hj HA Hd Hfin.
  specialize (Hent i j Hi Hj HA). rewrite !Hlk in Hent by done.
  by apply Hent.
Qed.


End ScaledProofs.

(** *** The arithmetic to compute with satisfies the laws *)

Lemma exact_round_proper (q q' : Q) : (q == q')%Q -> exact_round q = exact_round q'.
Proof.
  intros Hq. unfold exact_round.
  rewrite (Qred_complete q q' Hq).
  assert (E1 : Qle_bool (inject_Z (2 ^ 1024)) q = Qle_bool (inject_Z (2 ^ 1024)) q').
  { apply eq_true_iff_eq. rewrite !Qle_bool_iff. by rewrite Hq. }
  assert (E2 : Qle_bool q (inject_Z (- 2 ^ 1024)) = Qle_bool q' (inject_Z (- 2 ^ 1024))).
  { apply eq_true_iff_eq. rewrite !Qle_bool_iff. by rewrite Hq. }
  by rewrite E1, E2.
Qed.

Lemma exact_round_cases (q : Q) :
  exact_round q = PInf \/ exact_round q = NInf \/ exact_round q = Fin (Qred q).
Proof.
  unfold exact_round.
  destruct (Qle_bool (inject_Z (2 ^ 1024)) q); [by left|].
  destruct (Qle_bool q (inject_Z (- 2 ^ 1024))); [by right; left|by right; right].
Qed.

Lemma exact_round_zero (q : Q) : (q == 0)%Q -> exact_round q = Fin 0%Q.
Proof. intros Hq. rewrite (exact_round_proper q 0 Hq). by vm_compute. Qed.

Lemma exact_fadd_zero_l (q : Q) :
  fadd exact_round (Fin 0%Q) (exact_round q) = exact_round q.
Proof.
  destruct (exact_round_cases q) as [E|[E|E]]; rewrite E; try done. simpl.
  rewrite (exact_round_proper (0 + Qred q) q); [done|].
  rewrite Qred_correct. ring.
Qed.

Lemma exact_fadd_zero_r (q : Q) :
  fadd exact_round (exact_round q) (Fin 0%Q) = exact_round q.
Proof.
  destruct (exact_round_cases q) as [E|[E|E]]; rewrite E; try done. simpl.
  rewrite (exact_round_proper (Qred q + 0) q); [done|].
  rewrite Qred_correct. ring.
Qed.

Lemma exact_sum_zeros (q : Q) (l : list npfloat) :
  Forall (fun x => x = Fin 0%Q) l ->
  foldl (fadd exact_round) (exact_round q) l = exact_round q.
Proof.
  induction 1 as [|x l -> _ IH]; [done|]. cbn [foldl]. by rewrite exact_fadd_zero_r.
Qed.

Lemma exact_sum_single (l : list npfloat) (k : nat) (q : Q) :
  l !! k = Some (exact_round q) ->
  (forall i x, i <> k -> l !! i = Some x -> x = Fin 0%Q) ->
  foldl (fadd exact_round) (Fin 0%Q) l = exact_round q.
Proof.
  revert k. induction l as [|x l IH]; intros k Hk Hz; [done|].
  destruct k as [|k]; simpl in Hk.
  - inversion Hk; subst x. cbn [foldl]. rewrite exact_fadd_zero_l.
    apply exact_sum_zeros, Forall_lookup. intros i x Hx.
    by apply (Hz (Datatypes.S i) x).
  - rewrite (Hz 0%nat x) by done. cbn [foldl].
    change (fadd exact_round (Fin 0%Q) (Fin 0%Q)) with (exact_round (0 + 0)%Q).
    rewrite (exact_round_zero (0 + 0)%Q) by done.
    apply (IH k Hk). intros i y Hne Hy. apply (Hz (Datatypes.S i) y); [lia|done].
Qed.

Lemma exact64_laws : numpy_laws exact64.
Proof.
  split.
  - apply exact_round_zero.
  - intros i j a b k x y Hlen Ha Hb Hx Hy Hz. simpl. unfold exact_dot.
    destruct (finite_Fin x (proj1 (Forall_lookup _ _) Ha k x Hx)) as [p ->].
    destruct (finite_Fin y (proj1 (Forall_lookup _ _) Hb k y Hy)) as [q ->].
    simpl. apply (exact_sum_single _ k).
    + by rewrite lookup_zip_with, Hx, Hy.
    + intros l w Hne Hw. apply lookup_zip_with_Some in Hw as (u & v & -> & Hu & Hv).
      destruct (finite_Fin u (proj1 (Forall_lookup _ _) Ha l u Hu)) as [u' ->].
      destruct (finite_Fin v (proj1 (Forall_lookup _ _) Hb l v Hv)) as [v' ->].
      simpl. apply exact_round_zero.
      destruct (Hz l _ _ Hne Hu Hv) as [[= ->]|[= ->]]; ring.
Qed.



(** *** Real matrices *)

Module RealMatrices.
Import Reals Lra.
#[local] Open Scope R_scope.
#[local] Open Scope Z_scope.

(** The real numbers are an exact dtype: [make_undirected] on a square real
    matrix is the element-wise maximum with the transpose, symmetric and
    idempotent. *)
#[global] Instance R_inhabited : Inhabited R := populate 0%R.

#[global] Instance R_dtype : Dtype R :=
  {| zero := 0%R; one := 1%R; add := Rplus; mul := Rmult;
     gtb := fun x y => if Rlt_dec y x then true else false;
     geb := fun x y => if Rle_dec y x then true else false |}.

#[global] Instance R_dtype_laws : DtypeLaws R.
Proof.
  split; simpl; intros;
    repeat match goal with
    | |- context [Rlt_dec ?a ?b] => destruct (Rlt_dec a b)
    | |- context [Rle_dec ?a ?b] => destruct (Rle_dec a b)
    | H : context [Rlt_dec ?a ?b] |- _ => destruct (Rlt_dec a b)
    end; simpl in *; try discriminate; try reflexivity; try lra.
Qed.

Corollary make_undirected_real {S : Type} (sparse_undirected : S -> S)
    (A : ndarray R) :
  shape0 A = shape1 A ->
  make_undirected sparse_undirected (NDArray A)
    = Ok (NDArray (maximum A (transpose A)))
  /\ (forall i j, (i < shape0 A)%nat -> (j < shape1 A)%nat ->
        get (maximum A (transpose A)) i j = Rmax (get A i j) (get A j i))
  /\ transpose (maximum A (transpose A)) = maximum A (transpose A).
Proof.
  intros Hsq.
  split; [by apply make_undirected_square|]. split; [|by apply transpose_maximum].
  intros i j Hi Hj. rewrite get_maximum_transpose by done. unfold dmax, Rmax. simpl.
  destruct (Rlt_dec (get A i j) (get A j i)), (Rle_dec (get A i j) (get A j i));
    try reflexivity; lra.
Qed.

End RealMatrices.


(** *** Edge lists *)

(** How a call can end other than by returning: with an exception of the
    libraries, or with the interpreter's [UnboundLocalError] for a local
    variable that is read before it was assigned. *)
Inductive raised : Type :=
  | Exception (e : exn)
  | UnboundLocalError (name : string).

(** [X[M]] for a boolean mask [M] over the two leading axes of [X]: the
    selected entries in row-major order.  numpy refuses a mask of another
    shape. *)
Definition mask_index {V} `{Inhabited V} (X : ndarray V) (M : ndarray bool)
    : result (list V) :=
  if decide (shape0 M = shape0 X /\ shape1 M = shape1 X) then
    Ok (flat_map (fun i =>
          flat_map (fun j => if get M i j then [get X i j] else [])
                   (seq 0 (shape1 X)))
        (seq 0 (shape0 X)))
  else Raise IndexError.

Section EdgeList.

Context {T : Type} `{Dtype T} `{Inhabited T}.
Context {S : Type}.

(** [Ascaled.tocoo()] with its [row], [col] and [data], left to scipy. *)
Variable tocoo : S -> list Z * list Z * list T.

(** [scaled_adjacency_to_list(Ascaled)].  [index12] has a third axis of
    length two; its entries are kept as the lists [[i; j]].  The last branch
    reads [type(A)], and [A] is a local variable that only the first branch
    assigns. *)
Definition scaled_adjacency_to_list (Ascaled : pyobj T S)
    : raised + (list (list Z) * list T) :=
  match Ascaled with
  | NDArray Ascaled =>
      let A := build (shape0 Ascaled) (shape1 Ascaled)
                 (fun i j => gtb (get Ascaled i j) zero) in
      match mask_index Ascaled A with
      | Raise e => inl (Exception e)
      | Ok edge_weight =>
          let index1 := build (shape0 A) (shape1 A) (fun i _ => Z.of_nat i) in
          let index2 := build (shape0 A) (shape1 A) (fun _ j => Z.of_nat j) in
          let index12 := build (shape0 A) (shape1 A)
                           (fun i j => [get index1 i j; get index2 i j]) in
          match mask_index index12 A with
          | Raise e => inl (Exception e)
          | Ok edge_index => inr (edge_index, edge_weight)
          end
      end
  | CsrMatrix Ascaled | CooMatrix Ascaled =>
      let '(row, col, data) := tocoo Ascaled in
      let ei1 := row in
      let ei2 := col in
      if decide (length ei1 = length ei2) then
        inr (zip_with (fun r c => [r; c]) ei1 ei2, data)
      else inl (Exception (ValueError
             "all the input array dimensions except for the concatenation axis must match exactly"))
  | PyNone | OtherObject _ => inl (UnboundLocalError "A")
  end.

End EdgeList.

Example scaled_adjacency_to_list_Z :
  scaled_adjacency_to_list (S := unit) (fun _ => ([], [], []))
    (NDArray (mkArray 2 3 [[0; 3; -1]; [4; 0; 5]]))
  = inr ([[0; 1]; [1; 0]; [1; 2]], [3; 4; 5]).
Proof. reflexivity. Qed.

(** The positions of an array of shape [(n, m)] in row-major order. *)
Definition positions (n m : nat) : list (nat * nat) :=
  flat_map (fun i => map (pair i) (seq 0 m)) (seq 0 n).

Definition row_major (p q : nat * nat) : Prop :=
  (p.1 < q.1)%nat \/ (p.1 = q.1 /\ (p.2 < q.2)%nat).

Lemma flat_map_filter_map {A B} (p : A -> bool) (f : A -> B) (l : list A) :
  flat_map (fun x => if p x then [f x] else []) l
  = map f (List.filter p l).
Proof.
  induction l as [|x l IH]; simpl; [done|].
  destruct (p x); simpl; by rewrite IH.
Qed.

Lemma filter_flat_map {A B} (p : B -> bool) (g : A -> list B) (l : list A) :
  List.filter p (flat_map g l) = flat_map (fun x => List.filter p (g x)) l.
Proof.
  induction l as [|x l IH]; simpl; [done|].
  by rewrite List.filter_app, IH.
Qed.

Lemma map_flat_map {A B C} (f : B -> C) (g : A -> list B) (l : list A) :
  map f (flat_map g l) = flat_map (fun x => map f (g x)) l.
Proof.
  induction l as [|x l IH]; simpl; [done|].
  by rewrite map_app, IH.
Qed.

Lemma filter_map_comm {A B} (p : B -> bool) (f : A -> B) (l : list A) :
  List.filter p (map f l) = map f (List.filter (fun x => p (f x)) l).
Proof.
  induction l as [|x l IH]; simpl; [done|].
  destruct (p (f x)); simpl; by rewrite IH.
Qed.

(** A mask selects the entries at the positions where it holds. *)
Lemma mask_index_positions {V} `{Inhabited V} (X : ndarray V) (M : ndarray bool) :
  shape0 M = shape0 X -> shape1 M = shape1 X ->
  mask_index X M
  = Ok (map (fun p => get X p.1 p.2)
          (List.filter (fun p => get M p.1 p.2) (positions (shape0 X) (shape1 X)))).
Proof.
  intros E0 E1. unfold mask_index.
  destruct (decide _) as [_|N]; [|by destruct N].
  f_equal. unfold positions.
  rewrite filter_flat_map, map_flat_map.
  apply flat_map_ext. intros i.
  rewrite flat_map_filter_map. by rewrite filter_map_comm, map_map.
Qed.

Lemma elem_of_positions (n m : nat) (p : nat * nat) :
  p ∈ positions n m <-> (p.1 < n)%nat /\ (p.2 < m)%nat.
Proof.
  unfold positions. rewrite list_elem_of_In, in_flat_map. split.
  - intros (i & Hi & Hp). apply in_seq in Hi. apply in_map_iff in Hp as (j & <- & Hj).
    apply in_seq in Hj. simpl. lia.
  - intros [Hi Hj]. exists p.1. split; [apply in_seq; lia|].
    apply in_map_iff. exists p.2. split; [by destruct p|apply in_seq; lia].
Qed.

(** A list in which every element is before all later ones. *)
Inductive ascending {A} (R : A -> A -> Prop) : list A -> Prop :=
  | ascending_nil : ascending R []
  | ascending_cons x l : ascending R l -> Forall (R x) l -> ascending R (x :: l).

Lemma ascending_app {A} (R : A -> A -> Prop) (l1 l2 : list A) :
  ascending R l1 -> ascending R l2 ->
  (forall x y, x ∈ l1 -> y ∈ l2 -> R x y) ->
  ascending R (l1 ++ l2).
Proof.
  intros H1 H2 H12. induction H1 as [|x l1 H1 IH Hx]; simpl; [done|].
  constructor.
  - apply IH. intros a b Ha Hb. apply H12; [by right|done].
  - apply Forall_app. split; [done|].
    apply Forall_forall. intros y Hy. apply H12; [by left|done].
Qed.

Lemma row_sorted (a b m : nat) : ascending row_major (map (pair a) (seq b m)).
Proof.
  revert b. induction m as [|m IHm]; intros b; simpl; constructor.
  - apply IHm.
  - apply Forall_forall. intros q Hq.
    apply list_elem_of_In, in_map_iff in Hq as (j & <- & Hj).
    apply in_seq in Hj. right. simpl. lia.
Qed.

Lemma positions_sorted_at (a n m : nat) :
  ascending row_major
    (flat_map (fun i => map (pair i) (seq 0 m)) (seq a n)).
Proof.
  revert a. induction n as [|n IH]; intros a; simpl; [constructor|].
  apply ascending_app.
  - apply row_sorted.
  - apply IH.
  - intros x y Hx Hy.
    apply list_elem_of_In, in_map_iff in Hx as (j & <- & _).
    apply list_elem_of_In, in_flat_map in Hy as (i & Hi & Hy).
    apply in_seq in Hi. apply in_map_iff in Hy as (j' & <- & _).
    left. simpl. lia.
Qed.

Lemma positions_sorted (n m : nat) : ascending row_major (positions n m).
Proof. apply positions_sorted_at. Qed.

Lemma ascending_filter {A} (R : A -> A -> Prop) (p : A -> bool) (l : list A) :
  ascending R l -> ascending R (List.filter p l).
Proof.
  induction 1 as [|x l Hl IH Hx]; simpl; [constructor|].
  destruct (p x); [|done]. constructor; [done|].
  apply Forall_forall. intros y Hy. apply list_elem_of_In, filter_In in Hy as [Hy _].
  rewrite Forall_forall in Hx. by apply Hx, list_elem_of_In.
Qed.

Lemma ascending_lookup {A} (R : A -> A -> Prop) (l : list A) (k1 k2 : nat) x y :
  ascending R l -> (k1 < k2)%nat -> l !! k1 = Some x -> l !! k2 = Some y -> R x y.
Proof.
  intros Hs. revert k1 k2. induction Hs as [|a l Hl IH Ha]; intros k1 k2 Hk H1 H2.
  - done.
  - destruct k2 as [|k2]; [lia|]. simpl in H2. destruct k1 as [|k1]; simpl in H1.
    + inversion H1; subst. rewrite Forall_forall in Ha. apply Ha.
      by apply list_elem_of_lookup_2 in H2.
    + apply (IH k1 k2); [lia|done|done].
Qed.

Section EdgeListProofs.

Context {T : Type} `{Dtype T} `{Inhabited T}.
Context {S : Type}.
Variable tocoo : S -> list Z * list Z * list T.

(** The entries of [A] that are greater than zero, as positions. *)
Definition edges_of (A : ndarray T) : list (nat * nat) :=
  List.filter (fun p => gtb (get A p.1 p.2) zero) (positions (shape0 A) (shape1 A)).

Lemma scaled_adjacency_to_list_array (A : ndarray T) :
  scaled_adjacency_to_list tocoo (NDArray A)
  = inr (map (fun p => [Z.of_nat p.1; Z.of_nat p.2]) (edges_of A),
         map (fun p => get A p.1 p.2) (edges_of A)).
Proof.
  unfold scaled_adjacency_to_list.
  rewrite mask_index_positions by done.
  rewrite mask_index_positions by done. simpl.
  assert (E : forall (f : nat * nat -> bool) (g : nat * nat -> bool) l,
            (forall p, p ∈ l -> f p = g p) -> List.filter f l = List.filter g l).
  { intros f g l Hfg. induction l as [|x l IH]; simpl; [done|].
    rewrite Hfg by (by left). rewrite IH; [done|]. intros p Hp. apply Hfg. by right. }
  unfold edges_of.
  rewrite (E _ (fun p => gtb (get A p.1 p.2) zero) (positions (shape0 A) (shape1 A))).
  2:{ intros p Hp. apply elem_of_positions in Hp as [Hi Hj]. by rewrite get_build. }
  do 2 f_equal.
  apply map_ext_in. intros p Hp. apply filter_In in Hp as [Hp _].
  apply list_elem_of_In, elem_of_positions in Hp as [Hi Hj].
  rewrite get_build by done. cbv beta. by rewrite !get_build by done.
Qed.

(** X5. The edge list of an array: [edge_index] and [edge_weight] have one row
    per entry of [Ascaled] that is greater than zero; row [k] of
    [edge_index] is the position [[i; j]] of an entry inside the shape and
    [edge_weight[k]] is that entry; every entry greater than zero has its
    row; and the rows come in row-major order, so none comes twice. *)
Theorem scaled_adjacency_to_list_edges (A : ndarray T) :
  exists edge_index edge_weight,
    scaled_adjacency_to_list tocoo (NDArray A) = inr (edge_index, edge_weight)
    /\ length edge_index = length edge_weight
    /\ (forall k e, edge_index !! k = Some e ->
          exists i j, e = [Z.of_nat i; Z.of_nat j]
            /\ (i < shape0 A)%nat /\ (j < shape1 A)%nat
            /\ gtb (get A i j) zero = true
            /\ edge_weight !! k = Some (get A i j))
    /\ (forall i j, (i < shape0 A)%nat -> (j < shape1 A)%nat ->
          gtb (get A i j) zero = true ->
          exists k, edge_index !! k = Some [Z.of_nat i; Z.of_nat j])
    /\ (forall k1 k2 i1 j1 i2 j2, (k1 < k2)%nat ->
          edge_index !! k1 = Some [Z.of_nat i1; Z.of_nat j1] ->
          edge_index !! k2 = Some [Z.of_nat i2; Z.of_nat j2] ->
          (i1 < i2)%nat \/ (i1 = i2 /\ (j1 < j2)%nat)).
Proof.
  do 2 eexists. split; [apply scaled_adjacency_to_list_array|].
  split; [by rewrite !length_map|]. split; [|split].
  - intros k e Hk. rewrite list_lookup_fmap in Hk.
    destruct (edges_of A !! k) as [[i j]|] eqn:Hp; [|done].
    simpl in Hk. inversion Hk; subst e. exists i, j.
    pose proof (list_elem_of_lookup_2 _ _ _ Hp) as Hin.
    apply list_elem_of_In, filter_In in Hin as [Hin Hgt].
    apply list_elem_of_In, elem_of_positions in Hin as [Hi Hj]. simpl in *.
    repeat split; try done. by rewrite list_lookup_fmap, Hp.
  - intros i j Hi Hj Hgt.
    assert (Hin : (i, j) ∈ edges_of A).
    { apply list_elem_of_In, filter_In. split; [|done].
      apply list_elem_of_In, elem_of_positions. done. }
    apply list_elem_of_lookup in Hin as [k Hk]. exists k.
    by rewrite list_lookup_fmap, Hk.
  - intros k1 k2 i1 j1 i2 j2 Hk H1 H2. rewrite list_lookup_fmap in H1, H2.
    destruct (edges_of A !! k1) as [[a1 b1]|] eqn:Hp1; [|done].
    destruct (edges_of A !! k2) as [[a2 b2]|] eqn:Hp2; [|done].
    simpl in H1, H2. inversion H1. inversion H2.
    assert (a1 = i1 /\ b1 = j1 /\ a2 = i2 /\ b2 = j2) as (-> & -> & -> & ->) by lia.
    apply (ascending_lookup row_major (edges_of A) k1 k2 (i1, j1) (i2, j2));
      try done.
    apply ascending_filter, positions_sorted.
Qed.

(** X6. [scaled_adjacency_to_list] never raises the [TypeError] it was written
    to raise: an array always gives its edge list, and an argument that is
    neither an array nor a csr or coo matrix ends in [UnboundLocalError],
    because the message reads the local variable [A] that only the array
    branch assigns. *)
Theorem scaled_adjacency_to_list_never_TypeError (Ascaled : pyobj T S) :
  (forall msg, scaled_adjacency_to_list tocoo Ascaled <> inl (Exception (TypeError msg)))
  /\ ((forall M, Ascaled <> NDArray M) -> (forall M, Ascaled <> CsrMatrix M) ->
      (forall M, Ascaled <> CooMatrix M) ->
      scaled_adjacency_to_list tocoo Ascaled = inl (UnboundLocalError "A")).
Proof.
  split.
  - intros msg. destruct Ascaled as [M|M|M| |t].
    + by rewrite scaled_adjacency_to_list_array.
    + simpl. destruct (tocoo M) as [[row col] data]. by destruct (decide _).
    + simpl. destruct (tocoo M) as [[row col] data]. by destruct (decide _).
    + done.
    + done.
  - intros H1 H2 H3. destruct Ascaled as [M|M|M| |t]; try done.
    + by destruct (H1 M).
    + by destruct (H2 M).
    + by destruct (H3 M).
Qed.

End EdgeListProofs.

Lemma scaled_adjacency_to_list_never_TypeError_witness :
  scaled_adjacency_to_list (T := Z) (S := unit) (fun _ => ([], [], [])) (OtherObject "list")
  = inl (UnboundLocalError "A").
Proof.
  apply (scaled_adjacency_to_list_never_TypeError (T := Z) (S := unit)
           (fun _ => ([], [], [])) (OtherObject "list")); intros M; discriminate.
Defined.

(** *** [make_undirected] beyond square matrices, and its fixed points *)

(** A well-formed array is given by its entries. *)
Lemma array_eta {T} `{Inhabited T} (A : ndarray T) :
  wf_array A -> A = build (shape0 A) (shape1 A) (get A).
Proof.
  destruct A as [n m its]. unfold wf_array, build. simpl. intros [Hl Hr].
  f_equal. apply list_eq. intros i. rewrite list_lookup_fmap.
  destruct (decide (i < n)%nat) as [Hi|Hi].
  - rewrite lookup_seq_lt by done. simpl.
    destruct (lookup_lt_is_Some_2 its i) as [r Hri]; [lia|].
    rewrite Hri. f_equal.
    assert (Hlr : length r = m).
    { rewrite Forall_forall in Hr. apply Hr. by apply list_elem_of_lookup_2 in Hri. }
    apply list_eq. intros j. rewrite list_lookup_fmap.
    unfold get. simpl. rewrite Hri. simpl.
    destruct (decide (j < m)%nat) as [Hj|Hj].
    + rewrite lookup_seq_lt by done. simpl.
      destruct (lookup_lt_is_Some_2 r j) as [x Hx]; [lia|]. by rewrite Hx.
    + rewrite lookup_seq_ge by lia. simpl. apply lookup_ge_None. lia.
  - rewrite lookup_seq_ge by lia. simpl. apply lookup_ge_None. lia.
Qed.

Lemma broadcast_dim_1_r n : broadcast_dim n 1 = Some n.
Proof.
  unfold broadcast_dim. destruct (Nat.eqb_spec n 1) as [->|]; [done|].
  destruct (n =? 1)%nat eqn:E; [by apply Nat.eqb_eq in E|done].
Qed.

Lemma broadcast_dim_1_l n : broadcast_dim 1 n = Some n.
Proof.
  unfold broadcast_dim. destruct (Nat.eqb_spec 1 n) as [<-|]; done.
Qed.

Lemma broadcast_dim_None a b :
  a <> b -> a <> 1%nat -> b <> 1%nat -> broadcast_dim a b = None.
Proof.
  intros Hab Ha Hb. unfold broadcast_dim.
  destruct (Nat.eqb_spec a b); [done|].
  destruct (Nat.eqb_spec a 1); [done|].
  destruct (Nat.eqb_spec b 1); done.
Qed.

Lemma bget_row {T} `{Inhabited T} (A : ndarray T) (i j : nat) :
  shape0 A = 1%nat -> (j < shape1 A)%nat -> bget A i j = get A 0 j.
Proof.
  intros E Hj. unfold bget. rewrite E. simpl.
  destruct (Nat.eqb_spec (shape1 A) 1); f_equal; lia.
Qed.

Lemma bget_col {T} `{Inhabited T} (A : ndarray T) (i j : nat) :
  shape1 A = 1%nat -> (i < shape0 A)%nat -> bget A i j = get A i 0.
Proof.
  intros E Hi. unfold bget. rewrite E. simpl.
  destruct (Nat.eqb_spec (shape0 A) 1); f_equal; lia.
Qed.

(** An operand of shape [(n, 1)] against one of shape [(1, m)]. *)
Lemma elementwise_col_row {T1 T2 T3} `{Inhabited T1} `{Inhabited T2}
    (f : T1 -> T2 -> T3) (A : ndarray T1) (B : ndarray T2) :
  shape1 A = 1%nat -> shape0 B = 1%nat ->
  elementwise f A B
  = Ok (build (shape0 A) (shape1 B) (fun i j => f (get A i 0) (get B 0 j))).
Proof.
  intros EA EB. unfold elementwise.
  rewrite EA, EB, broadcast_dim_1_r, broadcast_dim_1_l.
  f_equal. apply build_ext. intros i j Hi Hj.
  by rewrite bget_col, bget_row.
Qed.

Lemma elementwise_row_col {T1 T2 T3} `{Inhabited T1} `{Inhabited T2}
    (f : T1 -> T2 -> T3) (A : ndarray T1) (B : ndarray T2) :
  shape0 A = 1%nat -> shape1 B = 1%nat ->
  elementwise f A B
  = Ok (build (shape0 B) (shape1 A) (fun i j => f (get A 0 j) (get B i 0))).
Proof.
  intros EA EB. unfold elementwise.
  rewrite EA, EB, broadcast_dim_1_r, broadcast_dim_1_l.
  f_equal. apply build_ext. intros i j Hi Hj.
  by rewrite (bget_row A), (bget_col B).
Qed.

(** An operand of shape [(n, m)] against one of shape [(n, 1)] or [(1, m)]. *)
Lemma elementwise_full_col {T1 T2 T3} `{Inhabited T1} `{Inhabited T2}
    (f : T1 -> T2 -> T3) (A : ndarray T1) (B : ndarray T2) :
  shape0 B = shape0 A -> shape1 B = 1%nat ->
  elementwise f A B
  = Ok (build (shape0 A) (shape1 A) (fun i j => f (get A i j) (get B i 0))).
Proof.
  intros E0 E1. unfold elementwise.
  rewrite E0, E1, broadcast_dim_same, broadcast_dim_1_r.
  f_equal. apply build_ext. intros i j Hi Hj.
  rewrite bget_get by done. rewrite bget_col by lia. done.
Qed.

Lemma elementwise_full_row {T1 T2 T3} `{Inhabited T1} `{Inhabited T2}
    (f : T1 -> T2 -> T3) (A : ndarray T1) (B : ndarray T2) :
  shape0 B = 1%nat -> shape1 B = shape1 A ->
  elementwise f A B
  = Ok (build (shape0 A) (shape1 A) (fun i j => f (get A i j) (get B 0 j))).
Proof.
  intros E0 E1. unfold elementwise.
  rewrite E0, E1, broadcast_dim_same, broadcast_dim_1_r.
  f_equal. apply build_ext. intros i j Hi Hj.
  rewrite bget_get by done. rewrite bget_row by lia. done.
Qed.

Section UndirectedShapes.

Context {T : Type} `{DtypeLaws T} `{Inhabited T}.
Context {S : Type}.
Variable sparse_undirected : S -> S.

Lemma dmax_upper_l (x y : T) : gtb x (dmax x y) = false.
Proof.
  unfold dmax. destruct (gtb y x) eqn:E.
  - by apply gtb_asym.
  - destruct (gtb x x) eqn:E'; [|done]. pose proof (gtb_asym _ _ E'). congruence.
Qed.

Lemma dmax_upper_r (x y : T) : gtb y (dmax x y) = false.
Proof. rewrite dmax_comm. apply dmax_upper_l. Qed.

Lemma dmax_cases (x y : T) : dmax x y = x \/ dmax x y = y.
Proof. unfold dmax. destruct (gtb y x); auto. Qed.

(** A row vector is broadcast against its transpose: the result is the
    square matrix of the pairwise maxima of its entries. *)
Lemma make_undirected_row (A : ndarray T) :
  shape0 A = 1%nat ->
  make_undirected sparse_undirected (NDArray A)
  = Ok (NDArray (build (shape1 A) (shape1 A)
                   (fun i j => dmax (get A 0 j) (get A 0 i)))).
Proof.
  intros E0. unfold make_undirected.
  rewrite (elementwise_col_row gtb (transpose A) A) by done.
  simpl mbind.
  rewrite (elementwise_full_col _ (build _ _ _) (transpose A)) by done.
  simpl mbind.
  rewrite (elementwise_row_col geb A (transpose A)) by done.
  simpl mbind.
  rewrite (elementwise_full_row _ (build _ _ _) A) by done.
  simpl mbind.
  rewrite (elementwise_same_shape add (build _ _ _) (build _ _ _)) by done.
  simpl. do 2 f_equal. apply build_ext. intros i j Hi Hj.
  rewrite !get_build by lia.
  unfold transpose. rewrite E0. rewrite !get_build by lia.
  apply undirected_entry.
Qed.

Lemma make_undirected_column (A : ndarray T) :
  shape1 A = 1%nat ->
  make_undirected sparse_undirected (NDArray A)
  = Ok (NDArray (build (shape0 A) (shape0 A)
                   (fun i j => dmax (get A i 0) (get A j 0)))).
Proof.
  intros E1. unfold make_undirected.
  rewrite (elementwise_row_col gtb (transpose A) A) by done.
  simpl mbind.
  rewrite (elementwise_full_row _ (build _ _ _) (transpose A)) by done.
  simpl mbind.
  rewrite (elementwise_col_row geb A (transpose A)) by done.
  simpl mbind.
  rewrite (elementwise_full_col _ (build _ _ _) A) by done.
  simpl mbind.
  rewrite (elementwise_same_shape add (build _ _ _) (build _ _ _)) by done.
  simpl. do 2 f_equal. apply build_ext. intros i j Hi Hj.
  rewrite !get_build by lia.
  unfold transpose. rewrite E1. rewrite !get_build by lia.
  apply undirected_entry.
Qed.

(** X7. [make_undirected] on an array of an exact numeric dtype (the laws of
    [DtypeLaws]: integer and boolean arrays, float arrays without
    infinities and NaN) that is not square.  The comparison of [A] with its
    transpose is broadcast: it raises [ValueError] when no axis has length
    one, and otherwise a row or a column vector of [n] entries silently
    becomes the [n] by [n] matrix of the pairwise maxima of its entries. *)
Theorem make_undirected_not_square (A : ndarray T) :
  (shape0 A <> shape1 A -> shape0 A <> 1%nat -> shape1 A <> 1%nat ->
     exists msg, make_undirected sparse_undirected (NDArray A) = Raise (ValueError msg))
  /\ (shape0 A = 1%nat ->
        exists R, make_undirected sparse_undirected (NDArray A) = Ok (NDArray R)
          /\ shape0 R = shape1 A /\ shape1 R = shape1 A
          /\ forall i j, (i < shape1 A)%nat -> (j < shape1 A)%nat ->
               get R i j = dmax (get A 0 i) (get A 0 j))
  /\ (shape1 A = 1%nat ->
        exists R, make_undirected sparse_undirected (NDArray A) = Ok (NDArray R)
          /\ shape0 R = shape0 A /\ shape1 R = shape0 A
          /\ forall i j, (i < shape0 A)%nat -> (j < shape0 A)%nat ->
               get R i j = dmax (get A i 0) (get A j 0)).
Proof.
  split; [|split].
  - intros Hne Hn0 Hn1. unfold make_undirected, elementwise. simpl.
    rewrite (broadcast_dim_None (shape1 A) (shape0 A)) by congruence. simpl. eauto.
  - intros E0. eexists. split; [by apply make_undirected_row|].
    split; [done|]. split; [done|]. intros i j Hi Hj.
    rewrite get_build by done. apply dmax_comm.
  - intros E1. eexists. split; [by apply make_undirected_column|].
    split; [done|]. split; [done|]. intros i j Hi Hj.
    by rewrite get_build by done.
Qed.

(** X8. A square array is returned unchanged exactly when it is symmetric. *)
Theorem make_undirected_fixed_iff_symmetric (A : ndarray T) :
  wf_array A -> shape0 A = shape1 A ->
  make_undirected sparse_undirected (NDArray A) = Ok (NDArray A)
  <-> (forall i j, (i < shape0 A)%nat -> (j < shape0 A)%nat -> get A i j = get A j i).
Proof.
  intros Hwf Hsq. rewrite make_undirected_square by done. split.
  - intros E i j Hi Hj.
    assert (E' : maximum A (transpose A) = A) by congruence.
    pose proof (get_maximum_transpose A i j Hsq Hi ltac:(lia)) as Hij.
    pose proof (get_maximum_transpose A j i Hsq Hj ltac:(lia)) as Hji.
    rewrite E' in Hij, Hji. etrans; [exact Hij|]. rewrite dmax_comm. symmetry. exact Hji.
  - intros Hsym. do 2 f_equal. rewrite (array_eta A Hwf) at 3.
    unfold maximum. apply build_ext. intros i j Hi Hj.
    unfold transpose. rewrite get_build by lia.
    rewrite <- (Hsym i j) by lia. apply dmax_idem.
Qed.

End UndirectedShapes.

(** A 2 by 3 array cannot be compared with its transpose; a row of three
    entries becomes a 3 by 3 matrix. *)
Lemma make_undirected_not_square_witness :
  (exists msg, make_undirected (S := unit) id
                 (NDArray (mkArray 2 3 [[1; 2; 3]; [4; 5; 6]])) = Raise (ValueError msg))
  /\ (exists R, make_undirected (S := unit) id (NDArray (mkArray 1 3 [[1; 5; 2]]))
                = Ok (NDArray R)
        /\ shape0 R = 3%nat /\ shape1 R = 3%nat
        /\ forall i j, (i < 3)%nat -> (j < 3)%nat ->
             get R i j = dmax (get (mkArray 1 3 [[1; 5; 2]]) 0 i)
                              (get (mkArray 1 3 [[1; 5; 2]]) 0 j)).
Proof.
  split.
  - apply (proj1 (make_undirected_not_square (S := unit) id
                    (mkArray 2 3 [[1; 2; 3]; [4; 5; 6]]))); simpl; lia.
  - apply (proj1 (proj2 (make_undirected_not_square (S := unit) id
                           (mkArray 1 3 [[1; 5; 2]])))). reflexivity.
Defined.

(** A symmetric matrix is a fixed point; a directed edge is not. *)
Lemma make_undirected_fixed_iff_symmetric_witness :
  make_undirected (S := unit) id (NDArray (mkArray 2 2 [[0; 3]; [3; 1]]))
  = Ok (NDArray (mkArray 2 2 [[0; 3]; [3; 1]])).
Proof.
  apply (make_undirected_fixed_iff_symmetric (S := unit) id
           (mkArray 2 2 [[0; 3]; [3; 1]])).
  - split; [reflexivity|]. repeat constructor.
  - reflexivity.
  - intros [|[|i]] [|[|j]] Hi Hj; simpl in *; try reflexivity; lia.
Defined.

(** *** The edge list of an undirected matrix *)

Section UndirectedEdgeList.

Context {T : Type} `{DtypeLaws T} `{Inhabited T}.
Context {S : Type}.
Variable sparse_undirected : S -> S.
Variable tocoo : S -> list Z * list Z * list T.

Lemma get_maximum_transpose_sym (A : ndarray T) (i j : nat) :
  shape0 A = shape1 A -> (i < shape0 A)%nat -> (j < shape0 A)%nat ->
  get (maximum A (transpose A)) i j = get (maximum A (transpose A)) j i.
Proof.
  intros Hsq Hi Hj. rewrite !get_maximum_transpose by lia. apply dmax_comm.
Qed.

Lemma elem_of_edges_of (A : ndarray T) (i j : nat) :
  (i, j) ∈ edges_of A
  <-> (i < shape0 A)%nat /\ (j < shape1 A)%nat /\ gtb (get A i j) zero = true.
Proof.
  unfold edges_of. rewrite list_elem_of_In, filter_In, <- list_elem_of_In.
  rewrite elem_of_positions. simpl. tauto.
Qed.

(** The rows of the edge list of [A], looked up. *)
Lemma edge_list_lookup (A : ndarray T) (k : nat) (i j : Z) (w : T) :
  map (fun p => [Z.of_nat p.1; Z.of_nat p.2]) (edges_of A) !! k = Some [i; j] ->
  map (fun p => get A p.1 p.2) (edges_of A) !! k = Some w ->
  exists a b, i = Z.of_nat a /\ j = Z.of_nat b /\ w = get A a b
              /\ edges_of A !! k = Some (a, b).
Proof.
  rewrite !list_lookup_fmap.
  destruct (edges_of A !! k) as [[a b]|]; [|done]. simpl.
  intros Hk Hw. inversion Hk. inversion Hw. by exists a, b.
Qed.

Lemma edge_list_elem (A : ndarray T) (a b : nat) :
  (a, b) ∈ edges_of A ->
  exists k,
    map (fun p => [Z.of_nat p.1; Z.of_nat p.2]) (edges_of A) !! k
      = Some [Z.of_nat a; Z.of_nat b]
    /\ map (fun p => get A p.1 p.2) (edges_of A) !! k = Some (get A a b).
Proof.
  intros Hin. apply list_elem_of_lookup in Hin as [k Hk]. exists k.
  by rewrite !list_lookup_fmap, Hk.
Qed.

(** X9. The edge list of [make_undirected(A)] for a square array [A]: every
    edge is listed in both directions with one weight, and an edge between
    [i] and [j] is listed only if [A] has an entry greater than zero from
    [i] to [j] or from [j] to [i]. *)
Theorem undirected_edge_list_symmetric (A : ndarray T) :
  shape0 A = shape1 A ->
  exists R edge_index edge_weight,
    make_undirected sparse_undirected (NDArray A) = Ok (NDArray R)
    /\ scaled_adjacency_to_list tocoo (NDArray R) = inr (edge_index, edge_weight)
    /\ (forall k i j w,
          edge_index !! k = Some [i; j] -> edge_weight !! k = Some w ->
          exists k', edge_index !! k' = Some [j; i] /\ edge_weight !! k' = Some w)
    /\ (forall k i j,
          edge_index !! k = Some [Z.of_nat i; Z.of_nat j] ->
          gtb (get A i j) zero = true \/ gtb (get A j i) zero = true).
Proof.
  intros Hsq. do 3 eexists.
  split; [by apply make_undirected_square|].
  split; [apply scaled_adjacency_to_list_array|].
  set (R := maximum A (transpose A)).
  assert (R0 : shape0 R = shape0 A) by done.
  assert (R1 : shape1 R = shape0 A) by (simpl; lia).
  split.
  - intros k i j w Hk Hw.
    destruct (edge_list_lookup R k i j w Hk Hw) as (a & b & -> & -> & -> & Hab).
    apply list_elem_of_lookup_2, elem_of_edges_of in Hab as (Ha & Hb & Hgt).
    assert (Hsym : get R a b = get R b a).
    { apply get_maximum_transpose_sym; [done|lia|lia]. }
    destruct (edge_list_elem R b a) as (k' & Hk1 & Hk2).
    { apply elem_of_edges_of. rewrite <- Hsym. repeat split; [lia|lia|done]. }
    exists k'. by rewrite Hsym.
  - intros k i j Hk. rewrite list_lookup_fmap in Hk.
    destruct (edges_of R !! k) as [[a b]|] eqn:Hab; [|done].
    simpl in Hk. inversion Hk.
    assert (a = i /\ b = j) as [-> ->] by lia.
    apply list_elem_of_lookup_2, elem_of_edges_of in Hab as (Ha & Hb & Hgt).
    unfold R in Hgt. rewrite get_maximum_transpose in Hgt by lia.
    destruct (dmax_cases (get A i j) (get A j i)) as [E|E]; rewrite E in Hgt; auto.
Qed.

(** The comparison of the dtype is transitive (as for every number type). *)
Hypothesis gtb_trans :
  forall x y z : T, gtb x y = true -> gtb y z = true -> gtb x z = true.

(** X10. No edge is lost in a square array [A] of an exact numeric dtype
    with a transitive order (the laws of [DtypeLaws]: integer and boolean
    arrays, float arrays without infinities and NaN): an entry that is
    greater than zero is listed in both directions in the edge list of
    [make_undirected(A)]. *)
Theorem undirected_edge_list_keeps_edges (A : ndarray T) (i j : nat) :
  shape0 A = shape1 A ->
  (i < shape0 A)%nat -> (j < shape0 A)%nat ->
  gtb (get A i j) zero = true ->
  exists R edge_index edge_weight,
    make_undirected sparse_undirected (NDArray A) = Ok (NDArray R)
    /\ scaled_adjacency_to_list tocoo (NDArray R) = inr (edge_index, edge_weight)
    /\ (exists k, edge_index !! k = Some [Z.of_nat i; Z.of_nat j])
    /\ (exists k, edge_index !! k = Some [Z.of_nat j; Z.of_nat i]).
Proof.
  intros Hsq Hi Hj Hgt. do 3 eexists.
  split; [by apply make_undirected_square|].
  split; [apply scaled_adjacency_to_list_array|].
  set (R := maximum A (transpose A)).
  assert (Hpos : gtb (get R i j) zero = true).
  { unfold R. rewrite get_maximum_transpose by lia. unfold dmax.
    destruct (gtb (get A j i) (get A i j)) eqn:E; [|done].
    by apply (gtb_trans _ (get A i j)). }
  assert (Hsym : get R i j = get R j i).
  { apply get_maximum_transpose_sym; [done|lia|lia]. }
  split.
  - destruct (edge_list_elem R i j) as (k & Hk & _); [|by exists k].
    apply elem_of_edges_of. simpl. repeat split; [lia|lia|done].
  - destruct (edge_list_elem R j i) as (k & Hk & _); [|by exists k].
    apply elem_of_edges_of. simpl. rewrite <- Hsym. repeat split; [lia|lia|done].
Qed.

End UndirectedEdgeList.

(** A directed triangle, made undirected and listed. *)
Lemma undirected_edge_list_symmetric_witness :
  exists R edge_index edge_weight,
    make_undirected (S := unit) id
      (NDArray (mkArray 3 3 [[0; 2; 0]; [0; 0; 5]; [1; 0; 0]])) = Ok (NDArray R)
    /\ scaled_adjacency_to_list (S := unit) (fun _ => ([], [], [])) (NDArray R)
       = inr (edge_index, edge_weight)
    /\ (forall k i j w,
          edge_index !! k = Some [i; j] -> edge_weight !! k = Some w ->
          exists k', edge_index !! k' = Some [j; i] /\ edge_weight !! k' = Some w).
Proof.
  destruct (undirected_edge_list_symmetric (S := unit) id (fun _ => ([], [], []))
              (mkArray 3 3 [[0; 2; 0]; [0; 0; 5]; [1; 0; 0]]))
    as (R & ei & ew & H1 & H2 & H3 & _).
  - reflexivity.
  - exists R, ei, ew. auto.
Defined.

Lemma Z_gtb_trans (x y z : Z) :
  gtb x y = true -> gtb y z = true -> gtb x z = true.
Proof. simpl. rewrite !Z.gtb_ltb, !Z.ltb_lt. lia. Qed.

(** The edge from node 1 to node 2 of the triangle is listed both ways. *)
Lemma undirected_edge_list_keeps_edges_witness :
  exists R edge_index edge_weight,
    make_undirected (S := unit) id
      (NDArray (mkArray 3 3 [[0; 2; 0]; [0; 0; 5]; [1; 0; 0]])) = Ok (NDArray R)
    /\ scaled_adjacency_to_list (S := unit) (fun _ => ([], [], [])) (NDArray R)
       = inr (edge_index, edge_weight)
    /\ (exists k, edge_index !! k = Some [1; 2])
    /\ (exists k, edge_index !! k = Some [2; 1]).
Proof.
  apply (undirected_edge_list_keeps_edges (S := unit) id (fun _ => ([], [], []))
           Z_gtb_trans
           (mkArray 3 3 [[0; 2; 0]; [0; 0; 5]; [1; 0; 0]]) 1%nat 2%nat).
  - reflexivity.
  - simpl. lia.
  - simpl. lia.
  - reflexivity.
Defined.

(** *** Nodes without edges *)

Section ScaledZeroSum.

Variable np : numpy.
Context {S : Type}.
Variable sp : scipy S.
Hypothesis laws : numpy_laws np.

(** X11. A row or a column of a square array that sums to zero gives zeros
    in the result of [precompute_adjacency_scaled], not infinities.  With
    [A'] for the array after the identity is added (or the array itself),
    all of whose entries are finite: where column [j] sums to zero, entry
    [(i, j)] of the result is zero for every row [i] whose scaling factor is
    finite; where row [i] sums to zero, entry [(i, j)] is zero for every
    column [j] whose scaled entries [a'_kj * e_j] are finite. *)
Theorem precompute_adjacency_scaled_zero_sum (A : ndarray npfloat) (add_identity : bool) :
  shape0 A = shape1 A ->
  let n := shape0 A in
  let A' := with_identity np A add_identity in
  all_entries finite A' ->
  exists R,
    precompute_adjacency_scaled np sp (NDArray A) add_identity = Ok (NDArray R)
    /\ (forall i j q, (i < n)%nat -> (j < n)%nat ->
          col_sum np A' j = Fin q -> (q == 0)%Q ->
          finite (scaling np (row_sum np A' i)) ->
          get R i j = Fin 0%Q)
    /\ (forall i j q, (i < n)%nat -> (j < n)%nat ->
          row_sum np A' i = Fin q -> (q == 0)%Q ->
          (forall k, (k < n)%nat ->
             finite (fmul (round np) (get A' k j) (scaling np (col_sum np A' j)))) ->
          get R i j = Fin 0%Q).
Proof.
  intros Hsq n A' HA.
  destruct (precompute_adjacency_scaled_formula np sp laws A add_identity Hsq)
    as (M & R & HR & R0 & R1 & _ & _ & Hent).
  fold n A' in Hent.
  destruct (with_identity_shape np A add_identity) as [S0 S1]. fold A' in S0, S1.
  exists R. split; [done|]. split.
  - intros i j q Hi Hj Hs Hq Hd.
    assert (He : scaling np (col_sum np A' j) = Fin 0%Q).
    { rewrite Hs. by apply scaling_zero. }
    assert (Hz : forall k, (k < n)%nat ->
              fmul (round np) (get A' k j) (scaling np (col_sum np A' j)) = Fin 0%Q).
    { intros k Hk. rewrite He.
      destruct (finite_Fin _ (HA k j ltac:(lia) ltac:(lia))) as [a ->]. simpl.
      apply (round_zero np laws). ring. }
    rewrite (Hent i j Hi Hj HA Hd).
    + rewrite (Hz i Hi). destruct (finite_Fin _ Hd) as [p ->]. simpl.
      apply (round_zero np laws). ring.
    + intros k Hk. by rewrite (Hz k Hk).
  - intros i j q Hi Hj Hs Hq Hfin.
    assert (Hd : scaling np (row_sum np A' i) = Fin 0%Q).
    { rewrite Hs. by apply scaling_zero. }
    rewrite (Hent i j Hi Hj HA); [|by rewrite Hd|done].
    rewrite Hd. destruct (finite_Fin _ (Hfin i Hi)) as [m ->]. simpl.
    apply (round_zero np laws). ring.
Qed.

End ScaledZeroSum.

(** Two connected nodes and a node without edges: its row and its column
    of the result are zero. *)
Lemma precompute_adjacency_scaled_zero_sum_witness :
  let A := mkArray 3 3 [[Fin 0; Fin 1; Fin 0]; [Fin 1; Fin 0; Fin 0];
                        [Fin 0; Fin 0; Fin 0]] in
  shape0 A = shape1 A
  /\ all_entries finite (with_identity exact64 A false)
  /\ exists R,
       precompute_adjacency_scaled exact64 no_scipy (NDArray A) false = Ok (NDArray R)
       /\ get R 0 2 = Fin 0%Q /\ get R 2 0 = Fin 0%Q.
Proof.
  intros A.
  assert (HA : all_entries finite (with_identity exact64 A false)).
  { intros i j Hi Hj. simpl in Hi, Hj.
    destruct i as [|[|[|i]]]; [| | |lia]; (destruct j as [|[|[|j]]]; [| | |lia]); exact I. }
  split; [reflexivity|]. split; [exact HA|].
  destruct (precompute_adjacency_scaled_zero_sum exact64 no_scipy exact64_laws A false
              eq_refl HA) as (R & HR & Hcol & Hrow).
  exists R. split; [exact HR|]. split.
  - apply (Hcol 0%nat 2%nat 0%Q); [simpl; lia|simpl; lia|reflexivity|reflexivity|].
    vm_compute. exact I.
  - apply (Hrow 2%nat 0%nat 0%Q); [simpl; lia|simpl; lia|reflexivity|reflexivity|].
    intros k Hk. simpl in Hk.
    destruct k as [|[|[|k]]]; [| | |lia]; vm_compute; exact I.
Defined.

(** *** Weights that are not negative, with self-loops *)

(** The order of floats; a NaN is in no relation. *)
Definition fle (x y : npfloat) : Prop :=
  match x, y with
  | NaN, _ | _, NaN => False
  | NInf, _ | _, PInf => True
  | Fin a, Fin b => (a <= b)%Q
  | _, _ => False
  end.

(** A float that is not negative: a finite number that rounding leaves as it
    is. *)
Definition nonneg_float (np : numpy) (x : npfloat) : Prop :=
  exists q, x = Fin q /\ (0 <= q)%Q /\ round np q = Fin q.

(** Facts of [float64] arithmetic on the order.  Rounding is monotone,
    leaves a float as it is, and [1] is a float.  A sum of floats that are
    not negative, one of which is at least [1], is a float that is at least
    [1], or infinite: in whatever order the additions are made, no partial
    sum is below one of its terms.  And [np.power(s, -0.5)] of a float [s]
    that is at least [1] is a float greater than [0] and at most [1]. *)
Record numpy_order_laws (np : numpy) : Prop := {
  round_mono : forall q q', (q <= q')%Q -> fle (round np q) (round np q');
  round_idem : forall q r, round np q = Fin r -> round np r = Fin r;
  round_one : round np 1%Q = Fin 1%Q;
  sum_axis1_ge : forall i l q,
    Forall (nonneg_float np) l -> Fin q ∈ l -> (1 <= q)%Q ->
    sum_axis1 np i l = PInf
    \/ exists s, sum_axis1 np i l = Fin s /\ (1 <= s)%Q /\ round np s = Fin s;
  sum_axis0_ge : forall j l q,
    Forall (nonneg_float np) l -> Fin q ∈ l -> (1 <= q)%Q ->
    sum_axis0 np j l = PInf
    \/ exists s, sum_axis0 np j l = Fin s /\ (1 <= s)%Q /\ round np s = Fin s;
  rsqrt_unit : forall s,
    (1 <= s)%Q -> round np s = Fin s ->
    (0 < rsqrt np s)%Q /\ (rsqrt np s <= 1)%Q
    /\ round np (rsqrt np s) = Fin (rsqrt np s)
}.

Section ScaledSelfLoops.

Variable np : numpy.
Context {S : Type}.
Variable sp : scipy S.
Hypothesis laws : numpy_laws np.
Hypothesis order_laws : numpy_order_laws np.

(** Rounding a number between zero and a float. *)
Lemma round_between (q f : Q) :
  (0 <= q)%Q -> (q <= f)%Q -> round np f = Fin f ->
  exists m, round np q = Fin m /\ (0 <= m)%Q /\ (m <= f)%Q /\ round np m = Fin m.
Proof.
  intros H0 Hf Ef.
  pose proof (round_mono np order_laws 0 q H0) as Hlo.
  pose proof (round_mono np order_laws q f Hf) as Hhi.
  rewrite (round_zero np laws 0%Q) in Hlo by done. rewrite Ef in Hhi.
  destruct (round np q) as [m| | |] eqn:Em; try done.
  exists m. split; [done|]. split; [done|]. split; [done|].
  by apply (round_idem np order_laws q).
Qed.

(** Rounding a number that is at least [1]. *)
Lemma round_ge_one (q : Q) :
  (1 <= q)%Q -> finite (round np q) ->
  exists m, round np q = Fin m /\ (1 <= m)%Q /\ round np m = Fin m.
Proof.
  intros H1 Hfin.
  pose proof (round_mono np order_laws 1 q H1) as Hlo.
  rewrite (round_one np order_laws) in Hlo.
  destruct (round np q) as [m| | |] eqn:Em; try done.
  exists m. split; [done|]. split; [done|].
  by apply (round_idem np order_laws q).
Qed.

(** A scaling factor between [0] and [1]. *)
Definition unit_float (x : npfloat) : Prop :=
  exists p, x = Fin p /\ (0 <= p)%Q /\ (p <= 1)%Q.

Lemma scaling_unit (s : npfloat) :
  s = PInf \/ (exists q, s = Fin q /\ (1 <= q)%Q /\ round np q = Fin q) ->
  unit_float (scaling np s).
Proof.
  intros [->|(q & -> & Hq & Eq)].
  - exists 0%Q. split; [done|]. split; Lqa.lra.
  - destruct (rsqrt_unit np order_laws q Hq Eq) as (Hpos & Hle & _).
    assert (Hs : Qsign q = Gt).
    { unfold Qsign. apply Z.compare_gt_iff.
      assert (Hq0 : (0 < q)%Q) by Lqa.lra. unfold Qlt in Hq0. simpl in Hq0. lia. }
    exists (rsqrt np q). unfold scaling. simpl. rewrite Hs. simpl.
    split; [done|]. split; [Lqa.lra|done].
Qed.

(** X13. With [add_identity=True] and weights that are not negative, every
    entry of the result of [precompute_adjacency_scaled] is a finite number,
    neither NaN nor infinite, between zero and the entry [a_ij + delta_ij] of
    [A + I] that it scales: every sum is at least [1] or has overflowed to
    infinity, so every scaling factor lies between [0] and [1].  ([A] is a
    square array of floats that are not negative, and no entry of [A + I] is
    infinite.) *)
Theorem precompute_adjacency_scaled_self_loops (A : ndarray npfloat) :
  shape0 A = shape1 A ->
  all_entries (nonneg_float np) A ->
  all_entries finite (with_identity np A true) ->
  exists R,
    precompute_adjacency_scaled np sp (NDArray A) true = Ok (NDArray R)
    /\ forall i j, (i < shape0 A)%nat -> (j < shape0 A)%nat ->
         exists a r,
           get (with_identity np A true) i j = Fin a
           /\ get R i j = Fin r
           /\ (0 <= r)%Q /\ (r <= a)%Q.
Proof.
  intros Hsq HA HA'.
  destruct (precompute_adjacency_scaled_formula np sp laws A true Hsq)
    as (M & R & HR & R0 & R1 & _ & _ & Hent).
  set (n := shape0 A) in *. set (A' := with_identity np A true) in *.
  destruct (with_identity_shape np A true) as [S0 S1]. fold A' in S0, S1.
  assert (S0' : shape0 A' = n) by done.
  assert (S1' : shape1 A' = n) by (unfold n; lia).
  (* the entries of A + I *)
  assert (Hget : forall a b, (a < n)%nat -> (b < n)%nat ->
            exists q, (0 <= q)%Q
              /\ get A' a b = round np (q + (if (a =? b)%nat then 1 else 0))%Q).
  { intros a b Ha Hb. unfold A', with_identity.
    rewrite get_build by (unfold n in *; lia).
    destruct (HA a b ltac:(done) ltac:(unfold n in *; lia)) as (q & -> & Hq & _).
    exists q. split; [done|]. by destruct (a =? b)%nat. }
  assert (Hnn : forall a b, (a < n)%nat -> (b < n)%nat -> nonneg_float np (get A' a b)).
  { intros a b Ha Hb. specialize (HA' a b ltac:(lia) ltac:(lia)).
    destruct (Hget a b Ha Hb) as (q & Hq & Eq). rewrite Eq in HA' |- *.
    assert (Hlo : (0 <= q + (if (a =? b)%nat then 1 else 0))%Q).
    { destruct (a =? b)%nat; Lqa.lra. }
    apply (round_mono np order_laws) in Hlo.
    rewrite (round_zero np laws 0%Q) in Hlo by done.
    destruct (round np _) as [m| | |] eqn:Em; try done.
    exists m. split; [done|]. split; [done|].
    by apply (round_idem np order_laws _ m Em). }
  assert (Hdiag : forall a, (a < n)%nat ->
            exists q, get A' a a = Fin q /\ (1 <= q)%Q).
  { intros a Ha. specialize (HA' a a ltac:(lia) ltac:(lia)).
    destruct (Hget a a Ha Ha) as (q & Hq & Eq). rewrite Eq in HA' |- *.
    rewrite Nat.eqb_refl in HA' |- *.
    destruct (round_ge_one (q + 1)%Q ltac:(Lqa.lra) HA') as (m & -> & Hm & _).
    by exists m. }
  (* the scaling factors *)
  assert (Hd : forall i, (i < n)%nat -> unit_float (scaling np (row_sum np A' i))).
  { intros i Hi. apply scaling_unit. destruct (Hdiag i Hi) as (q & Eq & Hq).
    apply (sum_axis1_ge np order_laws i _ q); [| |done].
    - apply Forall_fmap, Forall_forall. intros k Hk. apply elem_of_seq in Hk.
      unfold compose. apply Hnn; lia.
    - rewrite <- Eq. apply list_elem_of_fmap. exists i. split; [done|].
      apply elem_of_seq. lia. }
  assert (He : forall j, (j < n)%nat -> unit_float (scaling np (col_sum np A' j))).
  { intros j Hj. apply scaling_unit. destruct (Hdiag j Hj) as (q & Eq & Hq).
    apply (sum_axis0_ge np order_laws j _ q); [| |done].
    - apply Forall_fmap, Forall_forall. intros k Hk. apply elem_of_seq in Hk.
      unfold compose. apply Hnn; lia.
    - rewrite <- Eq. apply list_elem_of_fmap. exists j. split; [done|].
      apply elem_of_seq. lia. }
  (* the scaled entries *)
  assert (Hm : forall k j, (k < n)%nat -> (j < n)%nat ->
            exists a m,
              get A' k j = Fin a
              /\ fmul (round np) (get A' k j) (scaling np (col_sum np A' j)) = Fin m
              /\ (0 <= m)%Q /\ (m <= a)%Q /\ round np m = Fin m).
  { intros k j Hk Hj.
    destruct (Hnn k j Hk Hj) as (a & Ea & Ha & Ra).
    destruct (He j Hj) as (e & Ee & He0 & He1).
    rewrite Ea, Ee. simpl.
    destruct (round_between (a * e)%Q a ltac:(Lqa.nra) ltac:(Lqa.nra) Ra)
      as (m & Em & Hm0 & Hma & Rm).
    by exists a, m. }
  exists R. split; [done|]. intros i j Hi Hj.
  destruct (Hm i j Hi Hj) as (a & m & Ea & Em & Hm0 & Hma & Rm).
  destruct (Hd i Hi) as (p & Ep & Hp0 & Hp1).
  rewrite (Hent i j Hi Hj).
  - rewrite Ep, Em. simpl.
    destruct (round_between (p * m)%Q m ltac:(Lqa.nra) ltac:(Lqa.nra) Rm)
      as (r & Er & Hr0 & Hrm & _).
    exists a, r. split; [done|]. split; [done|]. split; [done|]. Lqa.lra.
  - intros a' b' Ha' Hb'. rewrite S0' in Ha'. rewrite S1' in Hb'.
    destruct (Hnn a' b' Ha' Hb') as (q & -> & _). done.
  - by rewrite Ep.
  - intros k Hk. destruct (Hm k j Hk Hj) as (a' & m' & _ & -> & _). done.
Qed.

End ScaledSelfLoops.

(** The arithmetic to compute with satisfies the laws of the order. *)

Lemma exact_round_spec (q : Q) :
  ((inject_Z (2 ^ 1024) <= q)%Q /\ exact_round q = PInf)
  \/ ((q <= inject_Z (- 2 ^ 1024))%Q /\ exact_round q = NInf)
  \/ (~ (inject_Z (2 ^ 1024) <= q)%Q /\ ~ (q <= inject_Z (- 2 ^ 1024))%Q
      /\ exact_round q = Fin (Qred q)).
Proof.
  unfold exact_round.
  destruct (Qle_bool (inject_Z (2 ^ 1024)) q) eqn:E1.
  { left. by apply Qle_bool_iff in E1. }
  destruct (Qle_bool q (inject_Z (- 2 ^ 1024))) eqn:E2.
  { right; left. by apply Qle_bool_iff in E2. }
  right; right. split; [|split; [|done]].
  - intros H. apply Qle_bool_iff in H. congruence.
  - intros H. apply Qle_bool_iff in H. congruence.
Qed.

Lemma exact_bounds : (inject_Z (- 2 ^ 1024) < 0)%Q /\ (1 < inject_Z (2 ^ 1024))%Q.
Proof. split; reflexivity. Qed.

Lemma exact_round_mono (q q' : Q) :
  (q <= q')%Q -> fle (exact_round q) (exact_round q').
Proof.
  intros Hq. destruct exact_bounds as [Hlo Hhi].
  pose proof (Qred_correct q) as Rq. pose proof (Qred_correct q') as Rq'.
  destruct (exact_round_spec q) as [[H1 ->]|[[H1 ->]|(H1 & H2 & ->)]];
    destruct (exact_round_spec q') as [[H1' ->]|[[H1' ->]|(H1' & H2' & ->)]];
    simpl; try done; try Lqa.lra.
Qed.

Lemma exact_round_idem (q r : Q) : exact_round q = Fin r -> exact_round r = Fin r.
Proof.
  intros Hq. destruct (exact_round_cases q) as [E|[E|E]]; rewrite E in Hq; try done.
  injection Hq as <-.
  by rewrite (exact_round_proper (Qred q) q (Qred_correct q)).
Qed.

(** A partial sum: infinite, or a number that is at least [lo]. *)
Definition partial_sum (lo : Q) (acc : npfloat) : Prop :=
  acc = PInf \/ exists a, acc = Fin a /\ (lo <= a)%Q /\ exact_round a = Fin a.

Lemma partial_sum_step (lo b : Q) (acc : npfloat) :
  (0 <= lo)%Q -> (0 <= b)%Q -> partial_sum lo acc ->
  partial_sum (lo + b) (fadd exact_round acc (Fin b)).
Proof.
  intros Hlo Hb [->|(a & -> & Ha & _)]; [by left|]. simpl.
  destruct exact_bounds as [Hneg _].
  destruct (exact_round_spec (a + b)) as [[_ E]|[[H _]|(_ & _ & E)]].
  - left. done.
  - Lqa.lra.
  - right. exists (Qred (a + b)). split; [done|]. split.
    + rewrite Qred_correct. Lqa.lra.
    + by apply (exact_round_idem (a + b)).
Qed.

Lemma partial_sum_weaken (lo lo' : Q) (acc : npfloat) :
  (lo' <= lo)%Q -> partial_sum lo acc -> partial_sum lo' acc.
Proof.
  intros Hle [->|(a & -> & Ha & Ea)]; [by left|].
  right. exists a. split; [done|]. split; [Lqa.lra|done].
Qed.

Lemma partial_sum_fold (l : list npfloat) (lo : Q) (acc : npfloat) :
  Forall (nonneg_float exact64) l -> (0 <= lo)%Q -> partial_sum lo acc ->
  partial_sum lo (foldl (fadd exact_round) acc l).
Proof.
  intros Hl. revert acc. induction Hl as [|x l (b & -> & Hb & _) _ IH]; intros acc Hlo Hacc.
  - done.
  - cbn [foldl]. apply IH; [done|].
    apply (partial_sum_weaken (lo + b)); [Lqa.lra|].
    by apply partial_sum_step.
Qed.

Lemma exact_sum_ge (l : list npfloat) (q : Q) (acc : npfloat) :
  Forall (nonneg_float exact64) l -> Fin q ∈ l -> (1 <= q)%Q ->
  partial_sum 0 acc ->
  partial_sum 1 (foldl (fadd exact_round) acc l).
Proof.
  intros Hl. revert acc.
  induction Hl as [|x l (b & -> & Hb & _) Hl IH]; intros acc Hin Hq Hacc.
  - by apply elem_of_nil in Hin.
  - cbn [foldl]. apply elem_of_cons in Hin as [[= <-]|Hin].
    + apply partial_sum_fold; [done|Lqa.lra|].
      apply (partial_sum_weaken (0 + q)); [Lqa.lra|].
      apply partial_sum_step; [Lqa.lra|done|done].
    + apply IH; [done|done|].
      apply (partial_sum_weaken (0 + b)); [Lqa.lra|].
      apply partial_sum_step; [Lqa.lra|done|done].
Qed.

Lemma exact_rsqrt_unit (s : Q) :
  (1 <= s)%Q ->
  (0 < exact_rsqrt s)%Q /\ (exact_rsqrt s <= 1)%Q
  /\ exact_round (exact_rsqrt s) = Fin (exact_rsqrt s).
Proof.
  intros Hs. unfold exact_rsqrt.
  pose proof (Qred_correct s) as Rs.
  set (s' := Qred s) in *.
  assert (Hnd : (Zpos (Qden s') <= Qnum s')%Z).
  { assert (H1 : (1 <= s')%Q) by (rewrite Rs; done).
    unfold Qle in H1. simpl in H1. lia. }
  set (a := Z.sqrt (Zpos (Qden s'))). set (b := Z.sqrt (Qnum s')).
  assert (Ha : (1 <= a)%Z).
  { unfold a. change 1%Z with (Z.sqrt 1). apply Z.sqrt_le_mono. lia. }
  assert (Hab : (a <= b)%Z) by (by apply Z.sqrt_le_mono).
  assert (Hb : (0 < inject_Z b)%Q).
  { change 0%Q with (inject_Z 0). rewrite <- Zlt_Qlt. lia. }
  assert (Hpos : (0 < inject_Z a / inject_Z b)%Q).
  { apply Qlt_shift_div_l; [done|].
    assert (E : (0 * inject_Z b == inject_Z 0)%Q) by ring. rewrite E.
    rewrite <- Zlt_Qlt. lia. }
  assert (Hle : (inject_Z a / inject_Z b <= 1)%Q).
  { apply Qle_shift_div_r; [done|].
    assert (E : (1 * inject_Z b == inject_Z b)%Q) by ring. rewrite E.
    rewrite <- Zle_Qle. done. }
  set (x := (inject_Z a / inject_Z b)%Q) in *.
  pose proof (Qred_correct x) as Rx.
  split; [rewrite Rx; done|]. split; [rewrite Rx; done|].
  destruct exact_bounds as [Hneg Hbig].
  destruct (exact_round_spec (Qred x)) as [[H _]|[[H _]|(_ & _ & E)]].
  - Lqa.lra.
  - Lqa.lra.
  - rewrite E. f_equal. apply Qred_complete. done.
Qed.

Lemma exact64_order_laws : numpy_order_laws exact64.
Proof.
  split.
  - apply exact_round_mono.
  - apply exact_round_idem.
  - reflexivity.
  - intros i l q Hl Hin Hq. simpl. unfold exact_sum.
    destruct (exact_sum_ge l q (Fin 0%Q) Hl Hin Hq) as [E|E]; [|by left|by right].
    right. exists 0%Q. split; [done|]. split; [Lqa.lra|reflexivity].
  - intros i l q Hl Hin Hq. simpl. unfold exact_sum.
    destruct (exact_sum_ge l q (Fin 0%Q) Hl Hin Hq) as [E|E]; [|by left|by right].
    right. exists 0%Q. split; [done|]. split; [Lqa.lra|reflexivity].
  - intros s Hs _. simpl. by apply exact_rsqrt_unit.
Qed.

(** A triangle: with the self-loops every sum is 3. *)
Lemma precompute_adjacency_scaled_self_loops_witness :
  let A := mkArray 3 3 [[Fin 0; Fin 1; Fin 1]; [Fin 1; Fin 0; Fin 1];
                        [Fin 1; Fin 1; Fin 0]] in
  shape0 A = shape1 A
  /\ all_entries (nonneg_float exact64) A
  /\ all_entries finite (with_identity exact64 A true)
  /\ exists R,
       precompute_adjacency_scaled exact64 no_scipy (NDArray A) true = Ok (NDArray R)
       /\ exists a r,
            get (with_identity exact64 A true) 0 1 = Fin a
            /\ get R 0 1 = Fin r /\ (0 <= r)%Q /\ (r <= a)%Q.
Proof.
  intros A.
  assert (HA : all_entries (nonneg_float exact64) A).
  { intros i j Hi Hj. simpl in Hi, Hj.
    destruct i as [|[|[|i]]]; [| | |lia]; (destruct j as [|[|[|j]]]; [| | |lia]);
      eexists; (split; [reflexivity|]); (split; [|reflexivity]); done. }
  assert (HA' : all_entries finite (with_identity exact64 A true)).
  { intros i j Hi Hj. simpl in Hi, Hj.
    destruct i as [|[|[|i]]]; [| | |lia]; (destruct j as [|[|[|j]]]; [| | |lia]); exact I. }
  split; [reflexivity|]. split; [exact HA|]. split; [exact HA'|].
  destruct (precompute_adjacency_scaled_self_loops exact64 no_scipy exact64_laws
              exact64_order_laws A eq_refl HA HA') as (R & HR & Hent).
  exists R. split; [exact HR|].
  apply (Hent 0%nat 1%nat); simpl; lia.
Defined.
End Adj.
(** ** [kgcnn/data/datasets/mutagenicity.py] *)

Module Mutagenicity.

(** *** The numpy operations of [read_in_memory] on integer arrays *)

(** [arr[k]] for one integer [k]: a negative index counts from the end, an
    index outside [[-n, n)] raises [IndexError]. *)
Definition np_index {A} (arr : list A) (k : Z) : result A :=
  let n := Z.of_nat (length arr) in
  if (k <? - n) || (n <=? k) then Raise IndexError
  else
    match arr !! Z.to_nat (if k <? 0 then k + n else k) with
    | Some x => Ok x
    | None => Raise IndexError
    end.

(** [arr[idx]] for an index array of shape [(k,)] and of shape [(k, 2)]. *)
Definition np_take {A} (arr : list A) (idx : list Z) : result (list A) :=
  mapM (np_index arr) idx.

Definition np_take2 {A} (arr : list A) (idx : list (Z * Z)) : result (list (A * A)) :=
  mapM (fun p => a ← np_index arr p.1; b ← np_index arr p.2; Ok (a, b)) idx.

(** [arr[k] = v] *)
Definition np_setitem {A} (arr : list A) (k : Z) (v : A) : result (list A) :=
  let n := Z.of_nat (length arr) in
  if (k <? - n) || (n <=? k) then Raise IndexError
  else Ok (<[Z.to_nat (if k <? 0 then k + n else k) := v]> arr).

(** [arr[idx] = vals] for an index array and as many values, assigned in
    order. *)
Fixpoint np_put {A} (arr : list A) (idx : list Z) (vals : list A) : result (list A) :=
  match idx, vals with
  | [], [] => Ok arr
  | k :: idx', v :: vals' => arr' ← np_setitem arr k v; np_put arr' idx' vals'
  | _, _ => Raise (ValueError "shape mismatch: value array cannot be broadcast to indexing result")
  end.

(** [arr[idx] = v] for an index array and one value. *)
Fixpoint np_put_scalar {A} (arr : list A) (idx : list Z) (v : A) : result (list A) :=
  match idx with
  | [] => Ok arr
  | k :: idx' => arr' ← np_setitem arr k v; np_put_scalar arr' idx' v
  end.

(** [arr[mask] = v] and [arr[mask]] for a boolean mask of the array's shape. *)
Definition mask_set {A} (arr : list A) (mask : list bool) (v : A) : result (list A) :=
  if decide (length mask = length arr) then
    Ok (zip_with (fun (m : bool) x => if m then v else x) mask arr)
  else Raise IndexError.

Definition mask_select {A} (arr : list A) (mask : list bool) : result (list A) :=
  if decide (length mask = length arr) then
    Ok (omap (fun p : bool * A => if p.1 then Some p.2 else None) (zip mask arr))
  else Raise IndexError.

(** [np.unique(l, return_counts=True)]: the sorted distinct values, each
    with the number of its occurrences. *)
Fixpoint insert_count (x : Z) (l : list (Z * Z)) : list (Z * Z) :=
  match l with
  | [] => [(x, 1)]
  | (y, c) :: l' =>
      if x <? y then (x, 1) :: l
      else if x =? y then (y, c + 1) :: l'
      else (y, c) :: insert_count x l'
  end.

Definition np_unique_counts (l : list Z) : list (Z * Z) := foldr insert_count [] l.
Definition np_unique (l : list Z) : list Z := (np_unique_counts l).*1.

(** [np.cumsum] *)
Fixpoint cumsum_from (acc : Z) (l : list Z) : list Z :=
  match l with
  | [] => []
  | x :: l' => (acc + x) :: cumsum_from (acc + x) l'
  end.
Definition np_cumsum (l : list Z) : list Z := cumsum_from 0 l.

(** [np.arange(n)] *)
Definition np_arange (n : Z) : list Z := map Z.of_nat (seq 0 (Z.to_nat n)).

(** [np.split(arr, indices)]: the pieces between consecutive division
    points [0, indices..., len(arr)], each a slice of [arr]. *)
Definition np_split {A} (arr : list A) (indices : list Z) : list (list A) :=
  let div_points := 0 :: indices ++ [Z.of_nat (length arr)] in
  zip_with (fun st en => slice st en arr) (drop_last div_points) (tail div_points).

(** [np.concatenate] of a list of arrays; the empty list is rejected. *)
Definition np_concatenate {A} (l : list (list A)) : result (list A) :=
  match l with
  | [] => Raise (ValueError "need at least one array to concatenate")
  | _ => Ok (concat l)
  end.

(** [np.sum] of a boolean array *)
Definition count_true (l : list bool) : nat := length (filter (fun b => b = true) l).

(** [l[i]] for a list and [i] from a [range]. *)
Definition py_getitem {A} (l : list A) (i : nat) : result A :=
  match l !! i with Some x => Ok x | None => Raise IndexError end.

(** *** The translation tables *)

Definition node_translate : list Z := [6; 8; 17; 1; 7; 9; 35; 16; 15; 53; 11; 19; 3; 20].
Definition atoms_translate : list string :=
  ["C"; "O"; "Cl"; "H"; "N"; "F"; "Br"; "S"; "P"; "I"; "Na"; "ksb"; "Li"; "Ca"].

(** [{node_translate[i]: atoms_translate[i] for i in range(len(node_translate))}] *)
Definition z_translate : gmap Z string :=
  foldl (fun m i =>
           match node_translate !! i, atoms_translate !! i with
           | Some z, Some a => <[z := a]> m
           | _, _ => m
           end) ∅ (seq 0 (length node_translate)).

Definition dict_getitem (d : gmap Z string) (k : Z) : result string :=
  match d !! k with Some v => Ok v | None => Raise (KeyError "z_translate") end.

(** *** The cleaning loop *)

(** The five lists the loop appends to. *)
Record cleaned : Type := mkCleaned {
  labels_clean : list Z;
  nodes_clean : list (list Z);
  edge_indices_clean : list (list (Z * Z));
  edges_clean : list (list Z);
  atoms_clean : list (list string)
}.

Definition flatten (e : list (Z * Z)) : list Z := concat (map (fun p => [p.1; p.2]) e).

Section Loop.

Variable labels : list Z.
Variable nodes : list (list Z).
Variable edge_indices : list (list (Z * Z)).
Variable edges : list (list Z).
Variable atoms : list (list string).

(** The body of [for i in range(len(nodes))]. *)
Definition clean_graph (st : cleaned) (i : nat) : result cleaned :=
  nats ← py_getitem nodes i;
  let cons := np_arange (Z.of_nat (length nats)) in
  ei ← py_getitem edge_indices i;
  let test_cons := np_unique (flatten ei) in
  let is_cons := replicate (length cons) false in
  is_cons ← np_put_scalar is_cons test_cons true;
  is_cons ← mask_set is_cons (map (Z.eqb 20) nats) true;
  is_cons ← mask_set is_cons (map (Z.eqb 3) nats) true;
  is_cons ← mask_set is_cons (map (Z.eqb 19) nats) true;
  is_cons ← mask_set is_cons (map (Z.eqb 11) nats) true;
  st ←
    (if negb (count_true is_cons =? length cons)%nat then
       info_list ← mask_select nats (map negb is_cons);
       _ ← mapM (fun p : Z * Z => dict_getitem z_translate p.1) (np_unique_counts info_list);
       nats_kept ← mask_select nats is_cons;
       atoms_kept ← mapM (fun j => atoms_i ← py_getitem atoms i; py_getitem atoms_i j)
                     (filter (fun j => is_cons !! j = Some true) (seq 0 (length is_cons)));
       indices_used ← mask_select cons is_cons;
       let indices_new := np_arange (Z.of_nat (length indices_used)) in
       indices_old ← np_put (replicate (length nats) 0) indices_used indices_new;
       edge_idx_new ← np_take2 indices_old ei;
       Ok (mkCleaned (labels_clean st) (nodes_clean st ++ [nats_kept])
             (edge_indices_clean st ++ [edge_idx_new]) (edges_clean st)
             (atoms_clean st ++ [atoms_kept]))
     else
       atoms_i ← py_getitem atoms i;
       Ok (mkCleaned (labels_clean st) (nodes_clean st ++ [nats])
             (edge_indices_clean st ++ [ei]) (edges_clean st)
             (atoms_clean st ++ [atoms_i])));
  edges_i ← py_getitem edges i;
  labels_i ← np_index labels (Z.of_nat i);
  Ok (mkCleaned (labels_clean st ++ [labels_i]) (nodes_clean st)
        (edge_indices_clean st) (edges_clean st ++ [edges_i]) (atoms_clean st)).

Fixpoint clean_loop (st : cleaned) (range : list nat) : result cleaned :=
  match range with
  | [] => Ok st
  | i :: range' => st' ← clean_graph st i; clean_loop st' range'
  end.

End Loop.

(** *** [read_in_memory] on the parsed dataset files

    [mutag_a] are the lines of [Mutagenicity_A.txt] (two node numbers each),
    [mutag_e], [mutag_gi], [mutag_gl] and [mutag_n] the lines of the edge
    label, graph indicator, graph label and node label files. *)
Definition read_in_memory (mutag_a : list (Z * Z))
    (mutag_e mutag_gi mutag_gl mutag_n : list Z) : result cleaned :=
  let labels := mutag_gl in
  let n_data := length labels in
  (* shift index *)
  let mutag_a := map (fun p : Z * Z => (p.1 - 1, p.2 - 1)) mutag_a in
  let mutag_gi := map (fun x => x - 1) mutag_gi in
  (* split into separate graphs *)
  let graph_counts := np_unique_counts mutag_gi in
  graphlen ← np_put (replicate n_data 0) graph_counts.*1 graph_counts.*2;
  let nodes0123 := np_split mutag_n (drop_last (np_cumsum graphlen)) in
  nodes ← mapM (np_take node_translate) nodes0123;
  atoms ← mapM (mapM (np_index atoms_translate)) nodes0123;
  (* edge_indicator; [mutag_a[:, 0]] needs a two-dimensional array *)
  first_column ←
    (match mutag_a with [] => Raise IndexError | _ => Ok mutag_a.*1 end);
  graph_id_edge ← np_take mutag_gi first_column;
  let edge_counts := np_unique_counts graph_id_edge in
  edgelen ← np_put (replicate n_data 0) edge_counts.*1 edge_counts.*2;
  let edges :=
    np_split (map (fun e => Casting.wrap64 (e + 1)) mutag_e)
      (drop_last (np_cumsum edgelen)) in
  (* edge_indices *)
  node_index ← np_concatenate (map np_arange graphlen);
  edge_indices ← np_take2 node_index mutag_a;
  let edge_indices := np_split edge_indices (drop_last (np_cumsum edgelen)) in
  (* remove unconnected atoms *)
  clean_loop labels nodes edge_indices edges atoms
    (mkCleaned [] [] [] [] []) (seq 0 (length nodes)).

(** A dataset of two molecules; the hydrogen of the first one has no bond
    and is removed, which renumbers the oxygen from 2 to 1. *)
Example read_in_memory_two_graphs :
  read_in_memory [(1, 3); (3, 1); (4, 5); (5, 4)] [0; 0; 1; 1]
    [1; 1; 1; 2; 2] [1; 0] [0; 3; 1; 0; 0]
  = Ok (mkCleaned [1; 0] [[6; 8]; [6; 6]]
          [[(0, 1); (1, 0)]; [(0, 1); (1, 0)]] [[1; 1]; [2; 2]]
          [["C"; "O"]; ["C"; "C"]]).
Proof. vm_compute. reflexivity. Qed.

(** *** Properties of the array operations *)

Lemma np_index_elem {A} (arr : list A) (k : Z) (x : A) :
  np_index arr k = Ok x -> x ∈ arr.
Proof.
  unfold np_index. destruct (_ || _); [discriminate|].
  destruct (arr !! _) eqn:E; [|discriminate].
  intros [= ->]. apply list_elem_of_lookup. eauto.
Qed.

Lemma np_index_range {A} (arr : list A) (k : Z) (x : A) :
  np_index arr k = Ok x -> - Z.of_nat (length arr) <= k < Z.of_nat (length arr).
Proof.
  unfold np_index.
  destruct (Z.ltb_spec k (- Z.of_nat (length arr))),
           (Z.leb_spec (Z.of_nat (length arr)) k); simpl; try discriminate.
  lia.
Qed.

Lemma np_take2_Forall {A} (P : A -> Prop) (arr : list A) idx r :
  Forall P arr -> np_take2 arr idx = Ok r -> Forall (fun p => P p.1 /\ P p.2) r.
Proof.
  intros HP H. apply mapM_Ok_Forall2 in H.
  induction H as [|p q idx r Hpq _ IH]; constructor; [|done].
  inv_bind Hpq. inv_bind Hpq. inversion Hpq; subst. simpl.
  rewrite Forall_forall in HP. split; apply HP; by eapply np_index_elem.
Qed.

Lemma np_setitem_Ok {A} (arr : list A) (k : Z) (v : A) arr' :
  np_setitem arr k v = Ok arr' ->
  exists j, (j < length arr)%nat /\ arr' = <[j := v]> arr
            /\ - Z.of_nat (length arr) <= k < Z.of_nat (length arr).
Proof.
  unfold np_setitem.
  destruct (Z.ltb_spec k (- Z.of_nat (length arr))),
           (Z.leb_spec (Z.of_nat (length arr)) k); simpl; try discriminate.
  intros [= <-]. eexists. split; [|split; [reflexivity|lia]].
  destruct (Z.ltb_spec k 0); lia.
Qed.

Lemma np_put_Forall {A} (P : A -> Prop) (arr : list A) idx vals arr' :
  Forall P arr -> Forall P vals -> np_put arr idx vals = Ok arr' ->
  Forall P arr' /\ length arr' = length arr.
Proof.
  revert arr vals. induction idx as [|k idx IH]; intros arr [|v vals] Ha Hv H;
    simpl in H; try discriminate.
  - by inversion H; subst.
  - inv_bind H. apply np_setitem_Ok in Hv0 as (j & Hj & -> & _).
    apply Forall_cons in Hv as [Pv Pvals].
    destruct (IH (<[j := v]> arr) vals) as [G1 G2]; [|done|done|].
    + by apply Forall_insert.
    + split; [done|]. by rewrite G2, length_insert.
Qed.

Lemma np_put_scalar_Ok {A} (arr : list A) idx (v : A) arr' :
  np_put_scalar arr idx v = Ok arr' ->
  length arr' = length arr
  /\ Forall (fun k => - Z.of_nat (length arr) <= k < Z.of_nat (length arr)) idx
  /\ (v ∈ arr \/ idx <> [] -> v ∈ arr').
Proof.
  revert arr. induction idx as [|k idx IH]; intros arr H; simpl in H.
  - inversion H; subst. split; [done|]. split; [constructor|].
    intros [?|?]; done.
  - inv_bind H. apply np_setitem_Ok in Hv as (j & Hj & -> & Hk).
    destruct (IH _ H) as (H1 & H2 & H3). rewrite length_insert in H1, H2.
    split; [done|]. split; [by constructor|].
    intros _. apply H3. left.
    apply list_elem_of_lookup. exists j. by apply list_lookup_insert_eq.
Qed.

Lemma mask_set_true (arr : list bool) mask arr' :
  mask_set arr mask true = Ok arr' ->
  length arr' = length arr /\ (true ∈ arr -> true ∈ arr').
Proof.
  unfold mask_set. destruct (decide _) as [E|]; [|discriminate].
  intros [= <-]. split.
  - rewrite length_zip_with. lia.
  - revert mask E. induction arr as [|b arr IH]; intros mask E Hin.
    + by apply elem_of_nil in Hin.
    + destruct mask as [|m mask]; simpl in E; [lia|]. simpl.
      apply elem_of_cons in Hin as [<-|Hin].
      * destruct m; left.
      * right. apply IH; [lia|done].
Qed.

Lemma count_true_pos (l : list bool) : true ∈ l -> (1 <= count_true l)%nat.
Proof.
  unfold count_true. intros Hin.
  assert (Hf : true ∈ filter (fun b => b = true) l) by (by apply list_elem_of_filter).
  destruct (filter _ l); [by apply elem_of_nil in Hf|simpl; lia].
Qed.

Lemma mask_select_length {A} (arr : list A) (mask : list bool) r :
  mask_select arr mask = Ok r -> length r = count_true mask.
Proof.
  unfold mask_select, count_true. destruct (decide _) as [E|]; [|discriminate].
  intros [= <-]. revert arr E. induction mask as [|m mask IH]; intros [|x arr] E;
    simpl in E; try lia; [done|].
  simpl. rewrite filter_cons. destruct m; simpl.
  - destruct (decide (true = true)); [|done]. simpl. f_equal. apply IH. lia.
  - destruct (decide (false = true)); [done|]. apply IH. lia.
Qed.

Lemma np_arange_range (n : Z) : Forall (fun v => 0 <= v < n) (np_arange n).
Proof.
  unfold np_arange. apply Forall_fmap, Forall_forall. intros j Hj.
  apply elem_of_seq in Hj. simpl. lia.
Qed.

Lemma np_arange_nonneg (n : Z) : Forall (fun v => 0 <= v) (np_arange n).
Proof. eapply Forall_impl; [apply np_arange_range|]. simpl. intros; lia. Qed.

Lemma insert_count_elem (y x : Z) (u : list (Z * Z)) :
  y ∈ (insert_count x u).*1 <-> y = x \/ y ∈ u.*1.
Proof.
  induction u as [|[z c] u IH]; simpl.
  - rewrite elem_of_cons, elem_of_nil. tauto.
  - destruct (Z.ltb_spec x z); [|destruct (Z.eqb_spec x z)]; simpl.
    + rewrite !elem_of_cons. simpl. tauto.
    + subst. rewrite !elem_of_cons. tauto.
    + rewrite !elem_of_cons, IH. tauto.
Qed.

Lemma np_unique_elem (x : Z) (l : list Z) : x ∈ l -> x ∈ np_unique l.
Proof.
  unfold np_unique, np_unique_counts. induction l as [|y l IH]; intros Hin.
  - by apply elem_of_nil in Hin.
  - simpl. apply insert_count_elem. apply elem_of_cons in Hin as [->|Hin]; [by left|].
    right. by apply IH.
Qed.

Lemma slice_Forall {A} (P : A -> Prop) (st en : Z) (l : list A) :
  Forall P l -> Forall P (slice st en l).
Proof. intros H. unfold slice. by apply Forall_take, Forall_drop. Qed.

Lemma np_split_Forall {A} (P : A -> Prop) (arr : list A) (indices : list Z) :
  Forall P arr -> Forall (Forall P) (np_split arr indices).
Proof.
  intros H. unfold np_split.
  generalize (drop_last (0 :: indices ++ [Z.of_nat (length arr)])).
  generalize (tail (0 :: indices ++ [Z.of_nat (length arr)])).
  intros l1 l2. revert l1. induction l2 as [|a l2 IH]; intros [|b l1]; simpl;
    try constructor; [by apply slice_Forall|apply IH].
Qed.

(** *** The invariant of the cleaning loop *)

(** Graph-local zero-based addressing of an index pair in a graph of [n]
    nodes. *)
Definition in_graph (n : nat) (p : Z * Z) : Prop :=
  0 <= p.1 < Z.of_nat n /\ 0 <= p.2 < Z.of_nat n.

Definition nonneg_pair (p : Z * Z) : Prop := 0 <= p.1 /\ 0 <= p.2.

Definition clean_inv (st : cleaned) : Prop :=
  length (nodes_clean st) = length (labels_clean st)
  /\ length (edge_indices_clean st) = length (labels_clean st)
  /\ length (edges_clean st) = length (labels_clean st)
  /\ length (atoms_clean st) = length (labels_clean st)
  /\ Forall2 (fun ns eis => Forall (in_graph (length ns)) eis)
       (nodes_clean st) (edge_indices_clean st).

Lemma length_np_arange (n : nat) : length (np_arange (Z.of_nat n)) = n.
Proof. unfold np_arange. by rewrite length_map, length_seq, Nat2Z.id. Qed.

Lemma py_getitem_elem {A} (l : list A) (i : nat) (x : A) :
  py_getitem l i = Ok x -> x ∈ l.
Proof.
  unfold py_getitem. destruct (l !! i) eqn:E; [|discriminate].
  intros [= ->]. apply list_elem_of_lookup. eauto.
Qed.

Lemma flatten_elem (p : Z * Z) (e : list (Z * Z)) :
  p ∈ e -> p.1 ∈ flatten e /\ p.2 ∈ flatten e.
Proof.
  unfold flatten. induction e as [|q e IH]; intros Hp.
  - by apply elem_of_nil in Hp.
  - simpl. apply elem_of_cons in Hp as [->|Hp].
    + split; [left|right; left].
    + destruct (IH Hp). split; do 2 right; done.
Qed.

(** The connectivity mask after the bounds-checked assignment of the bonded
    atoms and the four masks of the atoms allowed to stay unconnected. *)
Lemma connectivity_mask (nats : list Z) (ei : list (Z * Z)) ic0 ic1 ic2 ic3 ic4 :
  Forall nonneg_pair ei ->
  np_put_scalar (replicate (length (np_arange (Z.of_nat (length nats)))) false)
    (np_unique (flatten ei)) true = Ok ic0 ->
  mask_set ic0 (map (Z.eqb 20) nats) true = Ok ic1 ->
  mask_set ic1 (map (Z.eqb 3) nats) true = Ok ic2 ->
  mask_set ic2 (map (Z.eqb 19) nats) true = Ok ic3 ->
  mask_set ic3 (map (Z.eqb 11) nats) true = Ok ic4 ->
  length ic4 = length nats
  /\ Forall (in_graph (length nats)) ei
  /\ (ei <> [] -> (1 <= count_true ic4)%nat).
Proof.
  intros Hnn H0 H1 H2 H3 H4.
  apply np_put_scalar_Ok in H0 as (L0 & R0 & T0).
  rewrite length_replicate, length_np_arange in L0, R0.
  apply mask_set_true in H1 as (L1 & T1), H2 as (L2 & T2),
    H3 as (L3 & T3), H4 as (L4 & T4).
  split; [lia|]. split.
  - rewrite Forall_forall in Hnn. rewrite Forall_forall in R0.
    rewrite Forall_forall. intros p Hp.
    destruct (flatten_elem p ei Hp) as [F1 F2].
    apply np_unique_elem in F1, F2. apply R0 in F1, F2.
    destruct (Hnn p Hp). unfold in_graph. lia.
  - intros Hne. apply count_true_pos, T4, T3, T2, T1, T0. right.
    destruct ei as [|p ei]; [done|].
    assert (Hin : p.1 ∈ np_unique (flatten (p :: ei))).
    { apply np_unique_elem. apply flatten_elem. left. }
    intros E. rewrite E in Hin. by apply elem_of_nil in Hin.
Qed.

Section LoopProofs.

Variable labels : list Z.
Variable nodes : list (list Z).
Variable edge_indices : list (list (Z * Z)).
Variable edges : list (list Z).
Variable atoms : list (list string).

Hypothesis edge_indices_nonneg : Forall (Forall nonneg_pair) edge_indices.

Lemma clean_inv_snoc st l ns eis es ats :
  clean_inv st -> Forall (in_graph (length ns)) eis ->
  clean_inv (mkCleaned (labels_clean st ++ [l]) (nodes_clean st ++ [ns])
               (edge_indices_clean st ++ [eis]) (edges_clean st ++ [es])
               (atoms_clean st ++ [ats])).
Proof.
  intros (I1 & I2 & I3 & I4 & I5) Hnew. unfold clean_inv. simpl.
  rewrite !length_app. simpl. repeat split; try lia.
  apply Forall2_app; [done|]. by constructor.
Qed.

Lemma clean_graph_inv st i st' :
  clean_inv st ->
  clean_graph labels nodes edge_indices edges atoms st i = Ok st' ->
  clean_inv st'.
Proof.
  intros Hinv H. unfold clean_graph in H.
  apply bind_Ok in H as (nats & Hnats & H).
  apply bind_Ok in H as (ei & Hei & H).
  apply bind_Ok in H as (ic0 & H0 & H).
  apply bind_Ok in H as (ic1 & H1 & H).
  apply bind_Ok in H as (ic2 & H2 & H).
  apply bind_Ok in H as (ic3 & H3 & H).
  apply bind_Ok in H as (ic4 & H4 & H).
  apply bind_Ok in H as (st1 & Hst1 & H).
  apply bind_Ok in H as (edges_i & _ & H).
  apply bind_Ok in H as (labels_i & _ & H).
  assert (Hnn : Forall nonneg_pair ei).
  { rewrite Forall_forall in edge_indices_nonneg.
    apply edge_indices_nonneg. by eapply py_getitem_elem. }
  destruct (connectivity_mask nats ei ic0 ic1 ic2 ic3 ic4 Hnn H0 H1 H2 H3 H4)
    as (Lic & Hrange & Hpos).
  inversion H; subst st'; clear H.
  destruct (negb _) in Hst1.
  - (* some unconnected atoms are removed *)
    apply bind_Ok in Hst1 as (info_list & _ & Hst1).
    apply bind_Ok in Hst1 as (info & _ & Hst1).
    apply bind_Ok in Hst1 as (nats_kept & Hkept & Hst1).
    apply bind_Ok in Hst1 as (atoms_kept & _ & Hst1).
    apply bind_Ok in Hst1 as (indices_used & Hused & Hst1).
    apply bind_Ok in Hst1 as (indices_old & Hold & Hst1).
    apply bind_Ok in Hst1 as (edge_idx_new & Hnew & Hst1).
    inversion Hst1; subst st1; clear Hst1. simpl.
    apply clean_inv_snoc; [done|].
    apply mask_select_length in Hkept, Hused. rewrite Hkept.
    destruct ei as [|p ei]; [by inversion Hnew|].
    specialize (Hpos ltac:(done)).
    set (k := count_true ic4) in *.
    assert (Hold' : Forall (fun v => 0 <= v < Z.of_nat k) indices_old).
    { eapply (np_put_Forall _ _ _ _ _ _ _ Hold). }
    apply (np_take2_Forall _ _ _ _ Hold') in Hnew.
    eapply Forall_impl; [exact Hnew|]. by intros q [? ?].
  - (* every atom is connected or allowed to be unconnected *)
    apply bind_Ok in Hst1 as (atoms_i & _ & Hst1).
    inversion Hst1; subst st1; clear Hst1. simpl.
    by apply clean_inv_snoc.
  Unshelve.
  + apply Forall_replicate. lia.
  + rewrite Hused. apply np_arange_range.
Qed.

Lemma clean_loop_inv range st st' :
  clean_inv st ->
  clean_loop labels nodes edge_indices edges atoms st range = Ok st' ->
  clean_inv st'.
Proof.
  revert st. induction range as [|i range IH]; intros st Hinv H; simpl in H.
  - by inversion H; subst.
  - apply bind_Ok in H as (st1 & H1 & H).
    apply (IH st1); [|done]. by eapply clean_graph_inv.
Qed.

End LoopProofs.

(** C8. When [read_in_memory] completes, the five lists it returns have one
    entry per graph, and every edge-index array addresses the nodes kept for
    its graph: each entry is at least 0 and less than the number of nodes of
    that graph, also where unconnected atoms were removed and the indices
    renumbered. *)
Theorem read_in_memory_graph_local (mutag_a : list (Z * Z))
    (mutag_e mutag_gi mutag_gl mutag_n : list Z) (out : cleaned) :
  read_in_memory mutag_a mutag_e mutag_gi mutag_gl mutag_n = Ok out ->
  length (nodes_clean out) = length (labels_clean out)
  /\ length (edge_indices_clean out) = length (labels_clean out)
  /\ length (edges_clean out) = length (labels_clean out)
  /\ length (atoms_clean out) = length (labels_clean out)
  /\ Forall2 (fun ns eis =>
       Forall (fun p : Z * Z => 0 <= p.1 < Z.of_nat (length ns)
                                /\ 0 <= p.2 < Z.of_nat (length ns)) eis)
       (nodes_clean out) (edge_indices_clean out).
Proof.
  intros H. unfold read_in_memory in H.
  apply bind_Ok in H as (graphlen & _ & H).
  apply bind_Ok in H as (nodes & _ & H).
  apply bind_Ok in H as (atoms & _ & H).
  apply bind_Ok in H as (first_column & _ & H).
  apply bind_Ok in H as (graph_id_edge & _ & H).
  apply bind_Ok in H as (edgelen & _ & H).
  apply bind_Ok in H as (node_index & Hni & H).
  apply bind_Ok in H as (edge_indices & Hei & H).
  eapply clean_loop_inv in H.
  - exact H.
  - apply np_split_Forall.
    assert (Hnn : Forall (fun v => 0 <= v) node_index).
    { unfold np_concatenate in Hni.
      assert (node_index = concat (map np_arange graphlen)) as ->
        by (destruct (map np_arange graphlen); [discriminate|by inversion Hni]).
      apply Forall_concat, Forall_fmap, Forall_forall. intros x _.
      apply np_arange_nonneg. }
    exact (np_take2_Forall _ _ _ _ Hnn Hei).
  - unfold clean_inv. simpl. repeat split; constructor.
Qed.

(** Two molecules; the unbonded hydrogen of the first one is removed. *)
Lemma read_in_memory_graph_local_witness :
  let out := mkCleaned [1; 0] [[6; 8]; [6; 6]]
               [[(0, 1); (1, 0)]; [(0, 1); (1, 0)]] [[1; 1]; [2; 2]]
               [["C"; "O"]; ["C"; "C"]] in
  read_in_memory [(1, 3); (3, 1); (4, 5); (5, 4)] [0; 0; 1; 1]
    [1; 1; 1; 2; 2] [1; 0] [0; 3; 1; 0; 0] = Ok out
  /\ length (nodes_clean out) = length (labels_clean out)
  /\ Forall2 (fun ns eis =>
       Forall (fun p : Z * Z => 0 <= p.1 < Z.of_nat (length ns)
                                /\ 0 <= p.2 < Z.of_nat (length ns)) eis)
       (nodes_clean out) (edge_indices_clean out).
Proof.
  intros out.
  assert (Hrun : read_in_memory [(1, 3); (3, 1); (4, 5); (5, 4)] [0; 0; 1; 1]
                   [1; 1; 1; 2; 2] [1; 0] [0; 3; 1; 0; 0] = Ok out)
    by (vm_compute; reflexivity).
  split; [exact Hrun|].
  destruct (read_in_memory_graph_local _ _ _ _ _ _ Hrun) as (H1 & _ & _ & _ & H5).
  split; [exact H1|exact H5].
Defined.


(** *** What the cleaning keeps *)

(** The positions a boolean mask selects. *)
Definition kept (mask : list bool) : list nat :=
  filter (fun j => mask !! j = Some true) (seq 0 (length mask)).

(** The atoms that may stay without a bond: Ca, Li, K and Na. *)
Definition unconnected_allowed : list Z := [20; 3; 19; 11].

(** An atom at position [k] of a graph with the edge indices [eis] has a
    bond. *)
Definition bonded (eis : list (Z * Z)) (k : nat) : Prop :=
  exists p, p ∈ eis /\ (p.1 = Z.of_nat k \/ p.2 = Z.of_nat k).

Definition connected_graph (ns : list Z) (eis : list (Z * Z)) : Prop :=
  forall k z, ns !! k = Some z -> bonded eis k \/ z ∈ unconnected_allowed.

(** The atomic number and the symbol of one node label. *)
Definition same_atom (z : Z) (a : string) : Prop := z_translate !! z = Some a.

Lemma filter_ext_elem {A} (P Q : A -> Prop) `{forall x, Decision (P x)}
    `{forall x, Decision (Q x)} (l : list A) :
  (forall x, x ∈ l -> (P x <-> Q x)) -> filter P l = filter Q l.
Proof.
  induction l as [|x l IH]; intros E; [done|].
  rewrite !filter_cons.
  assert (Hl : filter P l = filter Q l).
  { apply IH. intros y Hy. apply E. by right. }
  destruct (decide (P x)) as [p|np], (decide (Q x)) as [q|nq].
  - by rewrite Hl.
  - destruct nq. apply E; [left|done].
  - destruct np. apply E; [left|done].
  - done.
Qed.

Lemma mask_positions {A} (arr : list A) (mask : list bool) (a : nat) :
  length mask = length arr ->
  Forall2 (fun j x => arr !! (j - a)%nat = Some x /\ mask !! (j - a)%nat = Some true)
    (filter (fun j => mask !! (j - a)%nat = Some true) (seq a (length mask)))
    (omap (fun p : bool * A => if p.1 then Some p.2 else None) (zip mask arr)).
Proof.
  revert arr a. induction mask as [|m mask IH]; intros [|x arr] a E; simpl in E;
    try lia; [constructor|].
  cbn [length seq zip zip_with omap].
  rewrite filter_cons.
  assert (Htail :
    Forall2 (fun j y => (x :: arr) !! (j - a)%nat = Some y
                        /\ (m :: mask) !! (j - a)%nat = Some true)
      (filter (fun j => (m :: mask) !! (j - a)%nat = Some true) (seq (S a) (length mask)))
      (omap (fun p : bool * A => if p.1 then Some p.2 else None) (zip mask arr))).
  { rewrite (filter_ext_elem _ (fun j => mask !! (j - S a)%nat = Some true)).
    2:{ intros j Hj. apply elem_of_seq in Hj.
        replace (j - a)%nat with (S (j - S a)) by lia. done. }
    assert (Hin : Forall (fun j => (S a <= j)%nat)
              (filter (fun j => mask !! (j - S a)%nat = Some true) (seq (S a) (length mask)))).
    { apply Forall_forall. intros j Hj. apply list_elem_of_filter in Hj as [_ Hj].
      apply elem_of_seq in Hj. lia. }
    specialize (IH arr (S a) ltac:(lia)). revert Hin.
    induction IH as [|j y js ys [H1 H2] _ IH']; intros Hin; constructor.
    - apply Forall_cons in Hin as [Hj _].
      replace (j - a)%nat with (S (j - S a)) by lia. done.
    - apply IH'. by apply Forall_cons in Hin as [_ ?]. }
  replace (a - a)%nat with 0%nat by lia. simpl.
  destruct m; simpl.
  - destruct (decide (Some true = Some true)); [|done].
    constructor; [|done]. by replace (a - a)%nat with 0%nat by lia.
  - destruct (decide (Some false = Some true)); [done|]. done.
Qed.

(** A mask selects the entries at the positions it keeps. *)
Lemma mask_select_kept {A} (arr : list A) (mask : list bool) (r : list A) :
  mask_select arr mask = Ok r ->
  Forall2 (fun j x => arr !! j = Some x /\ mask !! j = Some true) (kept mask) r.
Proof.
  unfold mask_select. destruct (decide _) as [E|]; [|discriminate].
  intros [= <-]. pose proof (mask_positions arr mask 0 E) as Hp.
  unfold kept.
  rewrite (filter_ext_elem _ (fun j => mask !! (j - 0)%nat = Some true)).
  2:{ intros j _. by rewrite Nat.sub_0_r. }
  eapply Forall2_impl; [exact Hp|]. intros j x. cbv beta. by rewrite Nat.sub_0_r.
Qed.

Lemma kept_NoDup (mask : list bool) : NoDup (kept mask).
Proof. apply NoDup_filter, NoDup_seq. Qed.

Lemma kept_lt (mask : list bool) (j : nat) : j ∈ kept mask -> (j < length mask)%nat.
Proof.
  unfold kept. intros Hj. apply list_elem_of_filter in Hj as [_ Hj].
  apply elem_of_seq in Hj. lia.
Qed.

Lemma Forall2_common {A B C} (P : A -> B -> Prop) (Q : A -> C -> Prop)
    (R : B -> C -> Prop) (js : list A) (xs : list B) (ys : list C) :
  Forall2 P js xs -> Forall2 Q js ys ->
  (forall j x y, P j x -> Q j y -> R x y) -> Forall2 R xs ys.
Proof.
  intros HP. revert ys. induction HP as [|j x js xs Hjx _ IH]; intros ys HQ HR.
  - inversion HQ. constructor.
  - inversion HQ as [|? y ? ys' Hjy HQ']; subst. constructor; eauto.
Qed.

Lemma np_arange_lookup (n j : nat) (c : Z) :
  np_arange (Z.of_nat n) !! j = Some c -> c = Z.of_nat j.
Proof.
  unfold np_arange. rewrite list_lookup_fmap. intros Hc.
  destruct (seq 0 (Z.to_nat (Z.of_nat n)) !! j) as [i|] eqn:E; [|done].
  apply lookup_seq in E as [-> _]. simpl in Hc. congruence.
Qed.

Lemma np_arange_lookup_lt (n j : nat) :
  (j < n)%nat -> np_arange (Z.of_nat n) !! j = Some (Z.of_nat j).
Proof.
  intros Hj. unfold np_arange. rewrite list_lookup_fmap, Nat2Z.id.
  by rewrite lookup_seq_lt.
Qed.

(** An index that is not negative reads and writes its own position. *)
Lemma np_index_nat {A} (arr : list A) (j : nat) (x : A) :
  np_index arr (Z.of_nat j) = Ok x -> arr !! j = Some x.
Proof.
  unfold np_index. destruct (_ || _); [discriminate|].
  destruct (Z.ltb_spec (Z.of_nat j) 0); [lia|]. rewrite Nat2Z.id.
  destruct (arr !! j); [|discriminate]. by intros [= ->].
Qed.

Lemma np_setitem_nat {A} (arr : list A) (j : nat) (v : A) (arr' : list A) :
  np_setitem arr (Z.of_nat j) v = Ok arr' -> arr' = <[j := v]> arr.
Proof.
  unfold np_setitem. destruct (_ || _); [discriminate|].
  destruct (Z.ltb_spec (Z.of_nat j) 0); [lia|]. rewrite Nat2Z.id. by intros [= <-].
Qed.

Lemma np_put_frame {A} (arr : list A) (js : list nat) (vals : list A) arr' (j : nat) :
  j ∉ js -> np_put arr (map Z.of_nat js) vals = Ok arr' -> arr' !! j = arr !! j.
Proof.
  revert arr vals. induction js as [|j0 js IH]; intros arr [|v vals] Hj H;
    simpl in H; try discriminate.
  - by inversion H.
  - inv_bind H. apply np_setitem_nat in Hv. subst.
    rewrite (IH _ _ ltac:(set_solver) H).
    apply list_lookup_insert_ne. set_solver.
Qed.

(** Distinct positions receive their values. *)
Lemma np_put_lookup {A} (arr : list A) (js : list nat) (vals : list A) arr'
    (k j : nat) (v : A) :
  NoDup js -> np_put arr (map Z.of_nat js) vals = Ok arr' ->
  js !! k = Some j -> vals !! k = Some v -> arr' !! j = Some v.
Proof.
  revert arr vals k. induction js as [|j0 js IH]; intros arr [|v0 vals] k Hnd H Hk Hv;
    simpl in H; try discriminate; try done.
  inv_bind H. pose proof (np_setitem_Ok _ _ _ _ Hv0) as (i & Hi & _ & Hrange).
  apply np_setitem_nat in Hv0. subst.
  apply NoDup_cons in Hnd as [Hj0 Hnd].
  destruct k as [|k]; simpl in Hk, Hv.
  - inversion Hk; inversion Hv; subst.
    rewrite (np_put_frame _ _ _ _ _ Hj0 H).
    apply list_lookup_insert_eq. lia.
  - by apply (IH _ _ k Hnd H).
Qed.

Lemma np_put_scalar_lookup_true (arr : list bool) (idx : list Z) arr' (j : nat) :
  Forall (fun k => 0 <= k) idx ->
  np_put_scalar arr idx true = Ok arr' ->
  arr' !! j = Some true -> arr !! j = Some true \/ Z.of_nat j ∈ idx.
Proof.
  revert arr. induction idx as [|k idx IH]; intros arr Hnn H Hj; simpl in H.
  - inversion H; subst. by left.
  - inv_bind H. apply Forall_cons in Hnn as [Hk Hnn].
    rewrite <- (Z2Nat.id k Hk) in Hv. apply np_setitem_nat in Hv. subst.
    destruct (IH _ Hnn H Hj) as [Hi|Hi]; [|right; by right].
    destruct (decide (Z.to_nat k = j)) as [<-|Hne].
    + right. rewrite Z2Nat.id by done. left.
    + left. by rewrite list_lookup_insert_ne in Hi.
Qed.

Lemma mask_set_lookup_true (arr : list bool) (c : Z) (nats : list Z) arr' (j : nat) :
  mask_set arr (map (Z.eqb c) nats) true = Ok arr' ->
  arr' !! j = Some true -> arr !! j = Some true \/ nats !! j = Some c.
Proof.
  unfold mask_set. destruct (decide _) as [E|]; [|discriminate].
  intros [= <-] Hj. apply lookup_zip_with_Some in Hj as (m & x & Hmx & Hm & Hx).
  rewrite list_lookup_fmap in Hm.
  destruct (nats !! j) as [z|] eqn:Hz; [|done]. simpl in Hm. inversion Hm; subst m.
  destruct (Z.eqb_spec c z) as [->|_]; [by right|]. left. by rewrite Hx, Hmx.
Qed.

Lemma np_unique_elem_inv (x : Z) (l : list Z) : x ∈ np_unique l -> x ∈ l.
Proof.
  unfold np_unique, np_unique_counts. induction l as [|y l IH]; simpl; intros Hin.
  - by apply elem_of_nil in Hin.
  - apply insert_count_elem in Hin as [->|Hin]; [left|right; by apply IH].
Qed.

Lemma flatten_elem_inv (x : Z) (e : list (Z * Z)) :
  x ∈ flatten e -> exists p, p ∈ e /\ (p.1 = x \/ p.2 = x).
Proof.
  unfold flatten. induction e as [|q e IH]; simpl; intros Hx.
  - by apply elem_of_nil in Hx.
  - apply elem_of_cons in Hx as [->|Hx]; [exists q; split; [left|by left]|].
    apply elem_of_cons in Hx as [->|Hx]; [exists q; split; [left|by right]|].
    destruct (IH Hx) as (p & Hp & Hpx). exists p. split; [by right|done].
Qed.

Lemma count_true_all (l : list bool) (j : nat) :
  count_true l = length l -> (j < length l)%nat -> l !! j = Some true.
Proof.
  unfold count_true. revert j. induction l as [|b l IH]; intros j E Hj; simpl in *; [lia|].
  rewrite filter_cons in E.
  pose proof (length_filter (fun b => b = true) l) as Hle.
  destruct (decide (b = true)) as [->|Hb]; simpl in E; [|lia].
  destruct j as [|j]; [done|]. simpl. apply IH; lia.
Qed.

(** The mask after the five assignments holds only at bonded atoms and at
    the atoms allowed to stay unconnected. *)
Lemma connectivity_mask_true (nats : list Z) (ei : list (Z * Z)) ic0 ic1 ic2 ic3 ic4
    (j : nat) :
  Forall nonneg_pair ei ->
  np_put_scalar (replicate (length (np_arange (Z.of_nat (length nats)))) false)
    (np_unique (flatten ei)) true = Ok ic0 ->
  mask_set ic0 (map (Z.eqb 20) nats) true = Ok ic1 ->
  mask_set ic1 (map (Z.eqb 3) nats) true = Ok ic2 ->
  mask_set ic2 (map (Z.eqb 19) nats) true = Ok ic3 ->
  mask_set ic3 (map (Z.eqb 11) nats) true = Ok ic4 ->
  ic4 !! j = Some true ->
  bonded ei j \/ exists z, nats !! j = Some z /\ z ∈ unconnected_allowed.
Proof.
  intros Hnn H0 H1 H2 H3 H4 Hj. unfold unconnected_allowed.
  destruct (mask_set_lookup_true _ _ _ _ _ H4 Hj) as [Hj3|Hz];
    [|right; eexists; split; [done|set_solver]].
  destruct (mask_set_lookup_true _ _ _ _ _ H3 Hj3) as [Hj2|Hz];
    [|right; eexists; split; [done|set_solver]].
  destruct (mask_set_lookup_true _ _ _ _ _ H2 Hj2) as [Hj1|Hz];
    [|right; eexists; split; [done|set_solver]].
  destruct (mask_set_lookup_true _ _ _ _ _ H1 Hj1) as [Hj0|Hz];
    [|right; eexists; split; [done|set_solver]].
  left. apply np_put_scalar_lookup_true with (j := j) in H0; [|  |done].
  - destruct H0 as [Hrep|Hin].
    + apply lookup_replicate in Hrep as [? _]. done.
    + apply np_unique_elem_inv, flatten_elem_inv in Hin. exact Hin.
  - apply Forall_forall. intros x Hx.
    apply np_unique_elem_inv, flatten_elem_inv in Hx as (p & Hp & Hpx).
    rewrite Forall_forall in Hnn. destruct (Hnn p Hp). destruct Hpx; lia.
Qed.

Definition kept_inv (st : cleaned) : Prop :=
  Forall2 connected_graph (nodes_clean st) (edge_indices_clean st)
  /\ Forall2 (Forall2 same_atom) (nodes_clean st) (atoms_clean st).

Section LoopKeeps.

Variable labels : list Z.
Variable nodes : list (list Z).
Variable edge_indices : list (list (Z * Z)).
Variable edges : list (list Z).
Variable atoms : list (list string).

Hypothesis edge_indices_nonneg : Forall (Forall nonneg_pair) edge_indices.
Hypothesis nodes_atoms : Forall2 (Forall2 same_atom) nodes atoms.

Lemma kept_inv_snoc st l ns eis es ats :
  kept_inv st -> connected_graph ns eis -> Forall2 same_atom ns ats ->
  kept_inv (mkCleaned (labels_clean st ++ [l]) (nodes_clean st ++ [ns])
              (edge_indices_clean st ++ [eis]) (edges_clean st ++ [es])
              (atoms_clean st ++ [ats])).
Proof.
  intros [I1 I2] H1 H2. split; simpl; apply Forall2_app; try done; by constructor.
Qed.

Lemma clean_graph_keeps st i st' :
  kept_inv st ->
  clean_graph labels nodes edge_indices edges atoms st i = Ok st' ->
  kept_inv st'.
Proof.
  intros Hinv H. unfold clean_graph in H.
  apply bind_Ok in H as (nats & Hnats & H).
  apply bind_Ok in H as (ei & Hei & H).
  apply bind_Ok in H as (ic0 & H0 & H).
  apply bind_Ok in H as (ic1 & H1 & H).
  apply bind_Ok in H as (ic2 & H2 & H).
  apply bind_Ok in H as (ic3 & H3 & H).
  apply bind_Ok in H as (ic4 & H4 & H).
  apply bind_Ok in H as (st1 & Hst1 & H).
  apply bind_Ok in H as (edges_i & _ & H).
  apply bind_Ok in H as (labels_i & _ & H).
  assert (Hnn : Forall nonneg_pair ei).
  { rewrite Forall_forall in edge_indices_nonneg.
    apply edge_indices_nonneg. by eapply py_getitem_elem. }
  destruct (connectivity_mask nats ei ic0 ic1 ic2 ic3 ic4 Hnn H0 H1 H2 H3 H4)
    as (Lic & Hrange & _).
  pose proof (fun j => connectivity_mask_true nats ei ic0 ic1 ic2 ic3 ic4 j
                         Hnn H0 H1 H2 H3 H4) as Hmask.
  assert (Hnodes_i : nodes !! i = Some nats).
  { unfold py_getitem in Hnats. destruct (nodes !! i); [|done]. by inversion Hnats. }
  inversion H; subst st'; clear H.
  destruct (negb _) eqn:Hcount in Hst1.
  - (* some unconnected atoms are removed *)
    apply bind_Ok in Hst1 as (info_list & _ & Hst1).
    apply bind_Ok in Hst1 as (info & _ & Hst1).
    apply bind_Ok in Hst1 as (nats_kept & Hkept & Hst1).
    apply bind_Ok in Hst1 as (atoms_kept & Hatoms & Hst1).
    apply bind_Ok in Hst1 as (indices_used & Hused & Hst1).
    apply bind_Ok in Hst1 as (indices_old & Hold & Hst1).
    apply bind_Ok in Hst1 as (edge_idx_new & Hnew & Hst1).
    inversion Hst1; subst st1; clear Hst1. simpl.
    apply mask_select_kept in Hkept, Hused.
    fold (kept ic4) in Hatoms. apply mapM_Ok_Forall2 in Hatoms.
    assert (Eused : indices_used = map Z.of_nat (kept ic4)).
    { clear -Hused. induction Hused as [|j c js cs [Hc _] _ IH]; [done|].
      simpl. f_equal; [|done]. by apply np_arange_lookup in Hc. }
    apply kept_inv_snoc; [done| |].
    + (* every kept atom is bonded or allowed *)
      intros k z Hk.
      destruct (Forall2_lookup_r _ _ _ _ _ Hkept Hk) as (j & Hjk & Hz & Hjt).
      destruct (Hmask j Hjt) as [(p & Hp & Hpj)|(z' & Hz' & Hall)].
      2:{ right. congruence. }
      left.
      assert (Hold_j : indices_old !! j = Some (Z.of_nat k)).
      { rewrite Eused in Hold.
        apply (np_put_lookup _ _ _ _ k j _ (kept_NoDup ic4) Hold Hjk).
        rewrite length_map. apply np_arange_lookup_lt.
        by apply lookup_lt_Some in Hjk. }
      apply mapM_Ok_Forall2 in Hnew.
      apply list_elem_of_lookup in Hp as [e He].
      destruct (Forall2_lookup_l _ _ _ _ _ Hnew He) as (q & Hq & Hpq).
      inv_bind Hpq. inv_bind Hpq. inversion Hpq as [Eq].
      exists q. split; [by apply list_elem_of_lookup_2 in Hq|].
      rewrite <- Eq. simpl.
      destruct Hpj as [E|E]; rewrite E in *.
      * left. apply np_index_nat in Hv. congruence.
      * right. apply np_index_nat in Hv0. congruence.
    + (* the symbols of the kept atoms *)
      assert (Hat : exists atoms_i, atoms !! i = Some atoms_i /\ Forall2 same_atom nats atoms_i).
      { destruct (Forall2_lookup_l _ _ _ _ _ nodes_atoms Hnodes_i) as (a & ? & ?). eauto. }
      destruct Hat as (atoms_i & Hai & Hna).
      apply (Forall2_common _ _ _ _ _ _ Hkept Hatoms).
      intros j z a [Hz _] Ha. simpl in Ha. inv_bind Ha.
      unfold py_getitem in Hv, Ha. rewrite Hai in Hv. inversion Hv; subst v.
      destruct (atoms_i !! j) as [a'|] eqn:Ea; [|done]. inversion Ha; subst a'.
      destruct (Forall2_lookup_l _ _ _ _ _ Hna Hz) as (a2 & Ha2 & Hsame). congruence.
  - (* every atom is connected or allowed to be unconnected *)
    apply bind_Ok in Hst1 as (atoms_i & Hai & Hst1).
    inversion Hst1; subst st1; clear Hst1. simpl.
    apply negb_false_iff, Nat.eqb_eq in Hcount.
    rewrite length_np_arange in Hcount.
    apply kept_inv_snoc; [done| |].
    + intros k z Hk.
      assert (Hkt : ic4 !! k = Some true).
      { apply count_true_all; [lia|]. apply lookup_lt_Some in Hk. lia. }
      destruct (Hmask k Hkt) as [?|(z' & Hz' & ?)]; [by left|right; congruence].
    + unfold py_getitem in Hai. destruct (atoms !! i) as [a|] eqn:Ea; [|done].
      inversion Hai; subst a.
      destruct (Forall2_lookup_l _ _ _ _ _ nodes_atoms Hnodes_i) as (a & Ha & ?).
      congruence.
Qed.

Lemma clean_loop_keeps range st st' :
  kept_inv st ->
  clean_loop labels nodes edge_indices edges atoms st range = Ok st' ->
  kept_inv st'.
Proof.
  revert st. induction range as [|i range IH]; intros st Hinv H; simpl in H.
  - by inversion H; subst.
  - apply bind_Ok in H as (st1 & H1 & H).
    apply (IH st1); [|done]. by eapply clean_graph_keeps.
Qed.

End LoopKeeps.

(** The two translation tables and the dictionary built from them agree. *)
Lemma translate_same_atom (x z : Z) (a : string) :
  np_index node_translate x = Ok z -> np_index atoms_translate x = Ok a ->
  same_atom z a.
Proof.
  intros Hz Ha. pose proof (np_index_range _ _ _ Hz) as Hx. simpl in Hx.
  assert (Hcases : exists i, (i < 28)%nat /\ x = -14 + Z.of_nat i).
  { exists (Z.to_nat (x + 14)). lia. }
  destruct Hcases as (i & Hi & ->).
  do 28 (destruct i as [|i];
         [vm_compute in Hz, Ha; inversion Hz; inversion Ha; vm_compute; reflexivity|]).
  lia.
Qed.

Lemma read_in_memory_kept (mutag_a : list (Z * Z))
    (mutag_e mutag_gi mutag_gl mutag_n : list Z) (out : cleaned) :
  read_in_memory mutag_a mutag_e mutag_gi mutag_gl mutag_n = Ok out ->
  kept_inv out.
Proof.
  intros H. unfold read_in_memory in H.
  apply bind_Ok in H as (graphlen & _ & H).
  apply bind_Ok in H as (nodes & Hnodes & H).
  apply bind_Ok in H as (atoms & Hatoms & H).
  apply bind_Ok in H as (first_column & _ & H).
  apply bind_Ok in H as (graph_id_edge & _ & H).
  apply bind_Ok in H as (edgelen & _ & H).
  apply bind_Ok in H as (node_index & Hni & H).
  apply bind_Ok in H as (edge_indices & Hei & H).
  eapply clean_loop_keeps in H.
  - exact H.
  - apply np_split_Forall.
    assert (Hnn : Forall (fun v => 0 <= v) node_index).
    { unfold np_concatenate in Hni.
      assert (node_index = concat (map np_arange graphlen)) as ->
        by (destruct (map np_arange graphlen); [discriminate|by inversion Hni]).
      apply Forall_concat, Forall_fmap, Forall_forall. intros x _.
      apply np_arange_nonneg. }
    exact (np_take2_Forall _ _ _ _ Hnn Hei).
  - apply mapM_Ok_Forall2 in Hnodes, Hatoms.
    apply (Forall2_common _ _ _ _ _ _ Hnodes Hatoms).
    intros piece ns ats Hns Hats. apply mapM_Ok_Forall2 in Hns, Hats.
    apply (Forall2_common _ _ _ _ _ _ Hns Hats).
    intros x z a. apply translate_same_atom.
  - split; constructor.
Qed.

(** X14. When [read_in_memory] completes, no kept atom is left without a bond
    unless it is Ca, Li, K or Na: in every graph each position of the node
    list occurs in one of the graph's edge indices, or the atomic number at
    that position is 20, 3, 19 or 11. *)
Theorem read_in_memory_no_unbonded_atom (mutag_a : list (Z * Z))
    (mutag_e mutag_gi mutag_gl mutag_n : list Z) (out : cleaned) :
  read_in_memory mutag_a mutag_e mutag_gi mutag_gl mutag_n = Ok out ->
  Forall2 (fun ns eis =>
      forall k z, ns !! k = Some z ->
        (exists p, p ∈ eis /\ (p.1 = Z.of_nat k \/ p.2 = Z.of_nat k))
        \/ z ∈ [20; 3; 19; 11])
    (nodes_clean out) (edge_indices_clean out).
Proof. intros H. by destruct (read_in_memory_kept _ _ _ _ _ _ H) as [H1 _]. Qed.

(** X15. When [read_in_memory] completes, the atom symbols stay aligned with the
    atomic numbers, also where atoms were removed: in every graph the two
    lists have the same length and the symbol at each position is the one
    [z_translate] gives for the atomic number at that position. *)
Theorem read_in_memory_atoms_match_nodes (mutag_a : list (Z * Z))
    (mutag_e mutag_gi mutag_gl mutag_n : list Z) (out : cleaned) :
  read_in_memory mutag_a mutag_e mutag_gi mutag_gl mutag_n = Ok out ->
  Forall2 (fun ns ats =>
      length ns = length ats
      /\ forall k z, ns !! k = Some z ->
           exists a, ats !! k = Some a /\ dict_getitem z_translate z = Ok a)
    (nodes_clean out) (atoms_clean out).
Proof.
  intros H. destruct (read_in_memory_kept _ _ _ _ _ _ H) as [_ H2].
  eapply Forall2_impl; [exact H2|]. intros ns ats Hna. split.
  - by eapply Forall2_length.
  - intros k z Hk. destruct (Forall2_lookup_l _ _ _ _ _ Hna Hk) as (a & Ha & Hs).
    exists a. split; [done|]. unfold dict_getitem. unfold same_atom in Hs. by rewrite Hs.
Qed.

(** Two molecules; the first has an unbonded hydrogen, which is removed,
    the second an unbonded sodium, which stays. *)
Lemma read_in_memory_sodium :
  read_in_memory [(1, 3); (3, 1); (4, 5); (5, 4)] [0; 0; 1; 1]
    [1; 1; 1; 2; 2; 2] [1; 0] [0; 3; 1; 0; 0; 10]
  = Ok (mkCleaned [1; 0] [[6; 8]; [6; 6; 11]]
          [[(0, 1); (1, 0)]; [(0, 1); (1, 0)]] [[1; 1]; [2; 2]]
          [["C"; "O"]; ["C"; "C"; "Na"]]).
Proof. vm_compute. reflexivity. Qed.

Lemma read_in_memory_no_unbonded_atom_witness :
  Forall2 (fun ns eis =>
      forall k z, ns !! k = Some z ->
        (exists p, p ∈ eis /\ (p.1 = Z.of_nat k \/ p.2 = Z.of_nat k))
        \/ z ∈ [20; 3; 19; 11])
    [[6; 8]; [6; 6; 11]] [[(0, 1); (1, 0)]; [(0, 1); (1, 0)]].
Proof.
  apply (read_in_memory_no_unbonded_atom [(1, 3); (3, 1); (4, 5); (5, 4)] [0; 0; 1; 1]
           [1; 1; 1; 2; 2; 2] [1; 0] [0; 3; 1; 0; 0; 10]
           (mkCleaned [1; 0] [[6; 8]; [6; 6; 11]]
              [[(0, 1); (1, 0)]; [(0, 1); (1, 0)]] [[1; 1]; [2; 2]]
              [["C"; "O"]; ["C"; "C"; "Na"]])).
  vm_compute. reflexivity.
Defined.

Lemma read_in_memory_atoms_match_nodes_witness :
  Forall2 (fun ns ats =>
      length ns = length ats
      /\ forall k z, ns !! k = Some z ->
           exists a, ats !! k = Some a /\ dict_getitem z_translate z = Ok a)
    [[6; 8]; [6; 6; 11]] [["C"; "O"]; ["C"; "C"; "Na"]].
Proof.
  apply (read_in_memory_atoms_match_nodes [(1, 3); (3, 1); (4, 5); (5, 4)] [0; 0; 1; 1]
           [1; 1; 1; 2; 2; 2] [1; 0] [0; 3; 1; 0; 0; 10]
           (mkCleaned [1; 0] [[6; 8]; [6; 6; 11]]
              [[(0, 1); (1, 0)]; [(0, 1); (1, 0)]] [[1; 1]; [2; 2]]
              [["C"; "O"]; ["C"; "C"; "Na"]])).
  vm_compute. reflexivity.
Defined.

(** *** The labels of the graphs *)

Lemma length_cumsum_from (acc : Z) (l : list Z) : length (cumsum_from acc l) = length l.
Proof. revert acc. induction l as [|x l IH]; intros acc; simpl; [done|]. by rewrite IH. Qed.

Lemma length_drop_last {A} (l : list A) : length (drop_last l) = (length l - 1)%nat.
Proof.
  unfold drop_last. induction l as [|x [|y l] IH]; simpl in *; try done.
  rewrite IH. lia.
Qed.

(** [np.split] at [k] division points gives [k + 1] pieces. *)
Lemma length_np_split {A} (arr : list A) (indices : list Z) :
  length (np_split arr indices) = S (length indices).
Proof.
  unfold np_split. rewrite length_zip_with, length_drop_last. simpl.
  rewrite !length_app. simpl. lia.
Qed.

Section LoopLabels.

Variable labels : list Z.
Variable nodes : list (list Z).
Variable edge_indices : list (list (Z * Z)).
Variable edges : list (list Z).
Variable atoms : list (list string).

Lemma clean_graph_labels st i st' :
  clean_graph labels nodes edge_indices edges atoms st i = Ok st' ->
  exists l, labels !! i = Some l /\ labels_clean st' = labels_clean st ++ [l].
Proof.
  intros H. unfold clean_graph in H.
  apply bind_Ok in H as (nats & _ & H).
  apply bind_Ok in H as (ei & _ & H).
  apply bind_Ok in H as (ic0 & _ & H).
  apply bind_Ok in H as (ic1 & _ & H).
  apply bind_Ok in H as (ic2 & _ & H).
  apply bind_Ok in H as (ic3 & _ & H).
  apply bind_Ok in H as (ic4 & _ & H).
  apply bind_Ok in H as (st1 & Hst1 & H).
  apply bind_Ok in H as (edges_i & _ & H).
  apply bind_Ok in H as (labels_i & Hl & H).
  inversion H; subst st'; clear H. simpl.
  exists labels_i. split; [by apply np_index_nat|].
  f_equal. destruct (negb _) in Hst1.
  - apply bind_Ok in Hst1 as (? & _ & Hst1).
    apply bind_Ok in Hst1 as (? & _ & Hst1).
    apply bind_Ok in Hst1 as (? & _ & Hst1).
    apply bind_Ok in Hst1 as (? & _ & Hst1).
    apply bind_Ok in Hst1 as (? & _ & Hst1).
    apply bind_Ok in Hst1 as (? & _ & Hst1).
    apply bind_Ok in Hst1 as (? & _ & Hst1).
    by inversion Hst1.
  - apply bind_Ok in Hst1 as (? & _ & Hst1). by inversion Hst1.
Qed.

Lemma clean_loop_labels (a n : nat) st st' :
  clean_loop labels nodes edge_indices edges atoms st (seq a n) = Ok st' ->
  labels_clean st' = labels_clean st ++ take n (drop a labels)
  /\ (a + n <= length labels \/ n = 0)%nat.
Proof.
  revert a st. induction n as [|n IH]; intros a st H; simpl in H.
  - inversion H; subst. rewrite take_0, app_nil_r. split; [done|by right].
  - apply bind_Ok in H as (st1 & H1 & H).
    apply clean_graph_labels in H1 as (l & Hl & E1).
    apply IH in H as [E2 Hlen]. rewrite E2, E1, <- app_assoc. simpl.
    pose proof (lookup_lt_Some _ _ _ Hl) as Hlt.
    split.
    + f_equal. rewrite (drop_S _ l a Hl). done.
    + left. destruct Hlen; lia.
Qed.

End LoopLabels.

(** X16. When [read_in_memory] completes, the labels it returns are the lines of
    the graph label file, in their order; an empty label file never gives a
    dataset. *)
Theorem read_in_memory_labels (mutag_a : list (Z * Z))
    (mutag_e mutag_gi mutag_gl mutag_n : list Z) (out : cleaned) :
  read_in_memory mutag_a mutag_e mutag_gi mutag_gl mutag_n = Ok out ->
  labels_clean out = mutag_gl
  /\ mutag_gl <> [].
Proof.
  intros H. pose proof H as Hrun. unfold read_in_memory in H.
  apply bind_Ok in H as (graphlen & Hgl & H).
  apply bind_Ok in H as (nodes & Hnodes & H).
  apply bind_Ok in H as (atoms & _ & H).
  apply bind_Ok in H as (first_column & _ & H).
  apply bind_Ok in H as (graph_id_edge & _ & H).
  apply bind_Ok in H as (edgelen & _ & H).
  apply bind_Ok in H as (node_index & _ & H).
  apply bind_Ok in H as (edge_indices & _ & H).
  assert (Lgl : length graphlen = length mutag_gl).
  { destruct (np_put_Forall (fun _ => True) _ _ _ _
                ltac:(by apply Forall_true) ltac:(by apply Forall_true) Hgl) as [_ L].
    by rewrite L, length_replicate. }
  assert (Ln : length nodes = S (length mutag_gl - 1)).
  { rewrite (mapM_length _ _ _ Hnodes), length_np_split, length_drop_last.
    unfold np_cumsum. by rewrite length_cumsum_from, Lgl. }
  apply clean_loop_labels in H as [E Hlen]. simpl in E, Hlen.
  rewrite drop_0 in E.
  assert (Hpos : (1 <= length mutag_gl)%nat) by lia.
  assert (Elab : labels_clean out = mutag_gl).
  { rewrite E. apply take_ge. lia. }
  split; [done|]. destruct mutag_gl; simpl in *; [lia|done].
Qed.

Lemma read_in_memory_labels_witness :
  labels_clean (mkCleaned [1; 0] [[6; 8]; [6; 6; 11]]
                  [[(0, 1); (1, 0)]; [(0, 1); (1, 0)]] [[1; 1]; [2; 2]]
                  [["C"; "O"]; ["C"; "C"; "Na"]]) = [1; 0]
  /\ [1; 0] <> [].
Proof.
  apply (read_in_memory_labels [(1, 3); (3, 1); (4, 5); (5, 4)] [0; 0; 1; 1]
           [1; 1; 1; 2; 2; 2] [1; 0] [0; 3; 1; 0; 0; 10]
           (mkCleaned [1; 0] [[6; 8]; [6; 6; 11]]
              [[(0, 1); (1, 0)]; [(0, 1); (1, 0)]] [[1; 1]; [2; 2]]
              [["C"; "O"]; ["C"; "C"; "Na"]])).
  vm_compute. reflexivity.
Defined.

(** *** The edge labels of the graphs *)

Lemma length_slice_same {A B} (st en : Z) (l : list A) (l' : list B) :
  length l = length l' -> length (slice st en l) = length (slice st en l').
Proof. intros E. unfold slice. by rewrite !length_take, !length_drop, E. Qed.

(** Two arrays of one length are split into pieces of the same lengths. *)
Lemma np_split_same_lengths {A B} (arr : list A) (arr' : list B) (indices : list Z) :
  length arr = length arr' ->
  Forall2 (fun x y => length x = length y) (np_split arr indices) (np_split arr' indices).
Proof.
  intros E. unfold np_split. rewrite E.
  generalize (drop_last (0 :: indices ++ [Z.of_nat (length arr')])).
  generalize (tail (0 :: indices ++ [Z.of_nat (length arr')])).
  intros l1 l2. revert l1. induction l2 as [|a l2 IH]; intros [|b l1]; simpl;
    try constructor; [by apply length_slice_same|apply IH].
Qed.

Section LoopEdges.

Variable labels : list Z.
Variable nodes : list (list Z).
Variable edge_indices : list (list (Z * Z)).
Variable edges : list (list Z).
Variable atoms : list (list string).

(** One round appends the edge labels of graph [i] and edge indices that are
    as many as the graph had. *)
Lemma clean_graph_edges st i st' :
  clean_graph labels nodes edge_indices edges atoms st i = Ok st' ->
  exists ei ei' es,
    edge_indices !! i = Some ei /\ edges !! i = Some es
    /\ length ei' = length ei
    /\ edge_indices_clean st' = edge_indices_clean st ++ [ei']
    /\ edges_clean st' = edges_clean st ++ [es].
Proof.
  intros H. unfold clean_graph in H.
  apply bind_Ok in H as (nats & _ & H).
  apply bind_Ok in H as (ei & Hei & H).
  apply bind_Ok in H as (ic0 & _ & H).
  apply bind_Ok in H as (ic1 & _ & H).
  apply bind_Ok in H as (ic2 & _ & H).
  apply bind_Ok in H as (ic3 & _ & H).
  apply bind_Ok in H as (ic4 & _ & H).
  apply bind_Ok in H as (st1 & Hst1 & H).
  apply bind_Ok in H as (edges_i & Hes & H).
  apply bind_Ok in H as (labels_i & _ & H).
  inversion H; subst st'; clear H. simpl.
  unfold py_getitem in Hei, Hes.
  destruct (edge_indices !! i) as [ei0|]; [|done]. inversion Hei; subst ei0.
  destruct (edges !! i) as [es|]; [|done]. inversion Hes; subst edges_i.
  destruct (negb _) in Hst1.
  - apply bind_Ok in Hst1 as (? & _ & Hst1).
    apply bind_Ok in Hst1 as (? & _ & Hst1).
    apply bind_Ok in Hst1 as (? & _ & Hst1).
    apply bind_Ok in Hst1 as (? & _ & Hst1).
    apply bind_Ok in Hst1 as (? & _ & Hst1).
    apply bind_Ok in Hst1 as (indices_old & _ & Hst1).
    apply bind_Ok in Hst1 as (edge_idx_new & Hnew & Hst1).
    inversion Hst1; subst st1. simpl.
    exists ei, edge_idx_new, es. repeat split; try done.
    unfold np_take2 in Hnew. by apply mapM_length in Hnew.
  - apply bind_Ok in Hst1 as (? & _ & Hst1). inversion Hst1; subst st1. simpl.
    by exists ei, ei, es.
Qed.

Lemma clean_loop_edges (range : list nat) st st' :
  Forall2 (fun ei es => length ei = length es) edge_indices edges ->
  Forall2 (fun ei es => length ei = length es /\ es ∈ edges)
    (edge_indices_clean st) (edges_clean st) ->
  clean_loop labels nodes edge_indices edges atoms st range = Ok st' ->
  Forall2 (fun ei es => length ei = length es /\ es ∈ edges)
    (edge_indices_clean st') (edges_clean st').
Proof.
  intros Hin. revert st. induction range as [|i range IH]; intros st Hst H; simpl in H.
  - by inversion H; subst.
  - apply bind_Ok in H as (st1 & H1 & H).
    apply clean_graph_edges in H1 as (ei & ei' & es & Hei & Hes & Hlen & E1 & E2).
    apply (IH st1); [|done]. rewrite E1, E2.
    apply Forall2_app; [done|]. constructor; [|constructor]. split.
    + rewrite Hlen. exact (Forall2_lookup_lr _ _ _ _ _ _ Hin Hei Hes).
    + by eapply list_elem_of_lookup_2.
Qed.

End LoopEdges.

(** X30. When the adjacency file and the edge label file have the same number
    of lines, every edge label of the file is an [int64] below the largest
    one (so that adding one does not wrap around) and [read_in_memory]
    completes, every graph has as many edge labels as edge indices, also
    where atoms were removed: the cleaning renumbers the ends of an edge
    and never drops one; and every edge label is a label of the file plus
    one. *)
Theorem read_in_memory_edges_match_indices (mutag_a : list (Z * Z))
    (mutag_e mutag_gi mutag_gl mutag_n : list Z) (out : cleaned) :
  length mutag_a = length mutag_e ->
  Forall (fun x => - 2 ^ 63 <= x < 2 ^ 63 - 1) mutag_e ->
  read_in_memory mutag_a mutag_e mutag_gi mutag_gl mutag_n = Ok out ->
  Forall2 (fun eis es =>
      length eis = length es
      /\ Forall (fun e => exists x, x ∈ mutag_e /\ e = x + 1
                           /\ - 2 ^ 63 < e < 2 ^ 63) es)
    (edge_indices_clean out) (edges_clean out).
Proof.
  intros Hlen Hrange H. unfold read_in_memory in H.
  apply bind_Ok in H as (graphlen & _ & H).
  apply bind_Ok in H as (nodes & _ & H).
  apply bind_Ok in H as (atoms & _ & H).
  apply bind_Ok in H as (first_column & _ & H).
  apply bind_Ok in H as (graph_id_edge & _ & H).
  apply bind_Ok in H as (edgelen & _ & H).
  apply bind_Ok in H as (node_index & _ & H).
  apply bind_Ok in H as (edge_indices & Hei & H).
  apply clean_loop_edges in H; simpl; [| |constructor].
  - eapply Forall2_impl; [exact H|]. intros eis es [Hl Hin]. split; [done|].
    assert (Hall : Forall (Forall (fun e => exists x, x ∈ mutag_e /\ e = x + 1
                                            /\ - 2 ^ 63 < e < 2 ^ 63))
                     (np_split (map (fun e => Casting.wrap64 (e + 1)) mutag_e)
                        (drop_last (np_cumsum edgelen)))).
    { apply np_split_Forall, Forall_forall. intros e He.
      apply list_elem_of_fmap in He as (x & -> & Hx).
      rewrite Forall_forall in Hrange. specialize (Hrange x Hx).
      rewrite Casting.wrap64_id
        by (unfold Casting.in_int64, Casting.int64_min, Casting.int64_max; lia).
      exists x. split; [done|]. split; [done|]. lia. }
    rewrite Forall_forall in Hall. by apply Hall.
  - apply np_split_same_lengths.
    unfold np_take2 in Hei. rewrite (mapM_length _ _ _ Hei).
    by rewrite !length_map.
Qed.

(** Two molecules with two edges each; the first loses an atom. *)
Lemma read_in_memory_edges_match_indices_witness :
  Forall2 (fun eis es =>
      length eis = length es
      /\ Forall (fun e => exists x, x ∈ [0; 0; 1; 1] /\ e = x + 1
                           /\ - 2 ^ 63 < e < 2 ^ 63) es)
    [[(0, 1); (1, 0)]; [(0, 1); (1, 0)]] [[1; 1]; [2; 2]].
Proof.
  apply (read_in_memory_edges_match_indices [(1, 3); (3, 1); (4, 5); (5, 4)]
           [0; 0; 1; 1] [1; 1; 1; 2; 2; 2] [1; 0] [0; 3; 1; 0; 0; 10]
           (mkCleaned [1; 0] [[6; 8]; [6; 6; 11]]
              [[(0, 1); (1, 0)]; [(0, 1); (1, 0)]] [[1; 1]; [2; 2]]
              [["C"; "O"]; ["C"; "C"; "Na"]])).
  - reflexivity.
  - repeat constructor; lia.
  - vm_compute. reflexivity.
Defined.
End Mutagenicity.
(** ** [kgcnn/data/moleculenet.py] *)

Module MoleculeNet.

(** *** The world [prepare_data] acts on *)

(** A file: a csv table (columns by name), a json list of mol-blocks, or
    anything else. *)
Inductive file : Type :=
  | CsvFile (columns : list (string * list string))
  | JsonFile (content : list string)
  | OtherFile.

(** What [prepare_data] does to the outside, in order (console output is
    not recorded). *)
Inductive event : Type :=
  | ReadCsv (path : string)
  | ConvertSmiles (smiles : list string)
  | WriteJson (path : string).

Record world : Type := mkWorld {
  fs : gmap string file;
  log : list event
}.

(** The dataset object: the three attributes [prepare_data] may set and all
    its other attributes. *)
Record dataset : Type := mkDataset {
  file_name : option string;
  data_directory : option string;
  dataset_name : option string;
  other_attributes : gmap string string
}.

(** Computations that read and change the dataset object and the world and
    may raise. *)
Definition M (A : Type) : Type := dataset * world -> result A * (dataset * world).

#[global] Instance M_ret : MRet M := fun A a s => (Ok a, s).
#[global] Instance M_bind : MBind M := fun A B f m s =>
  match m s with
  | (Ok a, s') => f a s'
  | (Raise e, s') => (Raise e, s')
  end.

Definition get_self : M dataset := fun s => (Ok s.1, s).
Definition set_self (d : dataset) : M unit := fun s => (Ok tt, (d, s.2)).
Definition raise {A} (e : exn) : M A := fun s => (Raise e, s).
Definition emit (ev : event) : M unit :=
  fun s => (Ok tt, (s.1, mkWorld (fs s.2) (log s.2 ++ [ev]))).

(** [os.path.join(a, b)] on POSIX paths; [None] as a component is a
    [TypeError]. *)
Definition starts_with_slash (s : string) : bool :=
  match s with String "/"%char _ => true | _ => false end.

Fixpoint ends_with_slash (s : string) : bool :=
  match s with
  | EmptyString => false
  | String c EmptyString => Ascii.eqb c "/"%char
  | String _ s' => ends_with_slash s'
  end.

Definition path_join (a b : string) : string :=
  if starts_with_slash b then b
  else if String.eqb a "" || ends_with_slash a then a +:+ b
  else a +:+ "/" +:+ b.

Definition os_path_join (a b : option string) : M string :=
  match a, b with
  | Some a, Some b => mret (path_join a b)
  | _, _ => raise (TypeError "expected str, bytes or os.PathLike object, not NoneType")
  end.

(** [os.path.exists] *)
Definition os_path_exists (path : string) : M bool :=
  fun s => (Ok (bool_decide (is_Some (fs s.2 !! path))), s).

(** [pd.read_csv(filepath)] followed by [data[column].values] *)
Definition read_csv (path : string) : M (list (string * list string)) :=
  fun s =>
    match fs s.2 !! path with
    | Some (CsvFile columns) =>
        (Ok columns, (s.1, mkWorld (fs s.2) (log s.2 ++ [ReadCsv path])))
    | Some _ => (Raise (ValueError "Error tokenizing data"), s)
    | None => (Raise (FileNotFoundError path), s)
    end.

Definition column_values (data : list (string * list string)) (name : string)
    : M (list string) :=
  match list_find (fun c => c.1 = name) data with
  | Some (_, c) => mret c.2
  | None => raise (KeyError name)
  end.

(** Modelled from the spec: [kgcnn.utils.data.save_json_file] is not among
    the sources; it is taken to write its first argument as a json file at
    the given path, replacing a file that is there. *)
Definition save_json_file (obj : list string) (path : string) : M unit :=
  fun s => (Ok tt, (s.1, mkWorld (<[path := JsonFile obj]> (fs s.2))
                            (log s.2 ++ [WriteJson path]))).

Definition mol_filename : string := "mol.json".

Section PrepareData.

(** The molecule toolkit: [to_mol_block add_hydrogen sanitize make_conformers
    sm] is the mol-block of [MolecularGraphRDKit(add_hydrogen)] after
    [from_smiles(sm, sanitize)], with the conformer generated first when
    [make_conformers] is set; the toolkit may raise. *)
Variable to_mol_block : bool -> bool -> bool -> string -> result string.

Definition _smiles_to_mol_list (smiles : list string)
    (add_hydrogen sanitize make_conformers : bool) : M (list string) :=
  _ ← emit (ConvertSmiles smiles);
  match mapM (to_mol_block add_hydrogen sanitize make_conformers) smiles with
  | Ok molecule_list => mret molecule_list
  | Raise e => raise e
  end.

Definition prepare_data (file_name' data_directory' dataset_name' : option string)
    (overwrite : bool) (smiles_column_name : string)
    (make_conformers add_hydrogen : bool) : M unit :=
  self ← get_self;
  let self := if file_name' is Some _
              then mkDataset file_name' (data_directory self) (dataset_name self)
                     (other_attributes self) else self in
  let self := if data_directory' is Some _
              then mkDataset (file_name self) data_directory' (dataset_name self)
                     (other_attributes self) else self in
  let self := if dataset_name' is Some _
              then mkDataset (file_name self) (data_directory self) dataset_name'
                     (other_attributes self) else self in
  _ ← set_self self;
  mol_path ← os_path_join (data_directory self) (Some mol_filename);
  found ← os_path_exists mol_path;
  if found && negb overwrite then mret tt
  else
    filepath ← os_path_join (data_directory self) (file_name self);
    data ← read_csv filepath;
    smiles ← column_values data smiles_column_name;
    mb ← _smiles_to_mol_list smiles add_hydrogen true make_conformers;
    mol_path ← os_path_join (data_directory self) (Some mol_filename);
    save_json_file mb mol_path.

End PrepareData.

(** The attributes after the three optional arguments were applied. *)
Definition with_arguments (self : dataset)
    (file_name' data_directory' dataset_name' : option string) : dataset :=
  mkDataset (if file_name' is Some _ then file_name' else file_name self)
    (if data_directory' is Some _ then data_directory' else data_directory self)
    (if dataset_name' is Some _ then dataset_name' else dataset_name self)
    (other_attributes self).

Section PrepareDataProofs.

Variable to_mol_block : bool -> bool -> bool -> string -> result string.

(** The run of [prepare_data] up to the test for the mol-json file. *)
Lemma prepare_data_found self w fn dd dn overwrite col mc ah dir :
  data_directory (with_arguments self fn dd dn) = Some dir ->
  is_Some (fs w !! path_join dir mol_filename) -> overwrite = false ->
  prepare_data to_mol_block fn dd dn overwrite col mc ah (self, w)
  = (Ok tt, (with_arguments self fn dd dn, w)).
Proof.
  intros Hdir Hex ->. unfold prepare_data, with_arguments in *.
  destruct self as [f d n o]. simpl in *.
  unfold mbind, M_bind, get_self, set_self, os_path_join, os_path_exists. simpl.
  destruct fn, dd, dn; simplify_eq/=;
    rewrite bool_decide_eq_true_2 by done; reflexivity.
Qed.

Lemma prepare_data_world_changed self w fn dd dn overwrite col mc ah r self2 w2 :
  prepare_data to_mol_block fn dd dn overwrite col mc ah (self, w) = (r, (self2, w2)) ->
  w2 <> w ->
  exists dir, data_directory (with_arguments self fn dd dn) = Some dir
    /\ (fs w !! path_join dir mol_filename = None \/ overwrite = true).
Proof.
  intros Hrun Hw.
  destruct (data_directory (with_arguments self fn dd dn)) as [dir|] eqn:Hdir.
  - exists dir. split; [done|].
    destruct (fs w !! path_join dir mol_filename) eqn:Hf; [|by left].
    destruct overwrite; [by right|].
    rewrite (prepare_data_found self w fn dd dn false col mc ah dir Hdir) in Hrun
      by (rewrite ?Hf; eauto).
    congruence.
  - exfalso. apply Hw. unfold prepare_data, with_arguments in *.
    destruct self as [f d n o]. simpl in *.
    unfold mbind, M_bind, get_self, set_self, os_path_join in Hrun. simpl in Hrun.
    destruct fn, dd, dn; simplify_eq/=; congruence.
Qed.

Lemma prepare_data_computes self w fn dd dn overwrite col mc ah dir fname
    columns c smiles mb :
  data_directory (with_arguments self fn dd dn) = Some dir ->
  file_name (with_arguments self fn dd dn) = Some fname ->
  fs w !! path_join dir mol_filename = None \/ overwrite = true ->
  fs w !! path_join dir fname = Some (CsvFile columns) ->
  list_find (fun c => c.1 = col) columns = Some c -> c.2.2 = smiles ->
  mapM (to_mol_block ah true mc) smiles = Ok mb ->
  prepare_data to_mol_block fn dd dn overwrite col mc ah (self, w)
  = (Ok tt,
     (with_arguments self fn dd dn,
      mkWorld (<[path_join dir mol_filename := JsonFile mb]> (fs w))
        (log w ++ [ReadCsv (path_join dir fname); ConvertSmiles smiles;
                   WriteJson (path_join dir mol_filename)]))).
Proof.
  intros Hdir Hfile Hcond Hcsv Hcol Hsm Hmb.
  assert (Hgate : bool_decide (is_Some (fs w !! path_join dir mol_filename))
                  && negb overwrite = false).
  { destruct Hcond as [Hnone| ->]; [|by rewrite andb_false_r].
    rewrite bool_decide_eq_false_2; [done|]. rewrite Hnone. by intros [? ?]. }
  unfold prepare_data, with_arguments in *.
  destruct self as [f d n o]. destruct w as [wfs wlog]. simpl in *.
  unfold mbind, M_bind, get_self, set_self, os_path_join, os_path_exists. simpl.
  destruct c as [k [cname cvals]]. simpl in Hsm. subst cvals.
  destruct fn, dd, dn; simplify_eq/=;
    rewrite Hgate; unfold read_csv; simpl; rewrite Hcsv; simpl;
    unfold column_values; rewrite Hcol; simpl;
    unfold _smiles_to_mol_list, mbind, M_bind, emit; simpl; rewrite Hmb; simpl;
    unfold save_json_file; simpl; rewrite <- !app_assoc; reflexivity.
Qed.

(** C6. If [mol.json] exists in the dataset's data directory and
    [overwrite] is false, [prepare_data] returns with the dataset's
    attributes set from its arguments and nothing else changed: no csv file
    is read, no smiles converted, no file written.  Only when the file is
    absent or [overwrite] is true does it act on the world, and then it
    reads the csv file, converts the smiles column and writes [mol.json]. *)
Theorem prepare_data_skips_existing self w fn dd dn overwrite col mc ah :
  let self' := with_arguments self fn dd dn in
  (forall dir,
     data_directory self' = Some dir ->
     is_Some (fs w !! path_join dir mol_filename) -> overwrite = false ->
     prepare_data to_mol_block fn dd dn overwrite col mc ah (self, w)
     = (Ok tt, (self', w)))
  /\ other_attributes self' = other_attributes self
  /\ (forall r self2 w2,
        prepare_data to_mol_block fn dd dn overwrite col mc ah (self, w)
          = (r, (self2, w2)) ->
        w2 <> w ->
        exists dir, data_directory self' = Some dir
          /\ (fs w !! path_join dir mol_filename = None \/ overwrite = true))
  /\ (forall dir fname columns c mb,
        data_directory self' = Some dir -> file_name self' = Some fname ->
        fs w !! path_join dir mol_filename = None \/ overwrite = true ->
        fs w !! path_join dir fname = Some (CsvFile columns) ->
        list_find (fun c => c.1 = col) columns = Some c ->
        mapM (to_mol_block ah true mc) c.2.2 = Ok mb ->
        prepare_data to_mol_block fn dd dn overwrite col mc ah (self, w)
        = (Ok tt,
           (self',
            mkWorld (<[path_join dir mol_filename := JsonFile mb]> (fs w))
              (log w ++ [ReadCsv (path_join dir fname); ConvertSmiles c.2.2;
                         WriteJson (path_join dir mol_filename)])))).
Proof.
  intros self'. split; [|split; [|split]].
  - intros dir. apply prepare_data_found.
  - reflexivity.
  - apply prepare_data_world_changed.
  - intros dir fname columns c mb Hdir Hfile Hcond Hcsv Hcol Hmb.
    by eapply prepare_data_computes.
Qed.

End PrepareDataProofs.

(** A data directory that already holds [mol.json], and the same directory
    without it. *)
Lemma prepare_data_skips_existing_witness :
  let to_mol_block := fun (_ _ _ : bool) (sm : string) => Ok ("mol:" +:+ sm) in
  let self := mkDataset None None None ∅ in
  let csv := CsvFile [("smiles", ["CCO"; "C"]); ("exp", ["0.1"; "0.2"])] in
  let fs1 : gmap string file := {[ "data/Lipop.csv" := csv; "data/mol.json" := JsonFile ["old"] ]} in
  let fs0 : gmap string file := {[ "data/Lipop.csv" := csv ]} in
  prepare_data to_mol_block (Some "Lipop.csv") (Some "data") (Some "Lipop")
    false "smiles" true true (self, mkWorld fs1 [])
  = (Ok tt, (mkDataset (Some "Lipop.csv") (Some "data") (Some "Lipop") ∅, mkWorld fs1 []))
  /\ prepare_data to_mol_block (Some "Lipop.csv") (Some "data") (Some "Lipop")
    false "smiles" true true (self, mkWorld fs0 [])
  = (Ok tt, (mkDataset (Some "Lipop.csv") (Some "data") (Some "Lipop") ∅,
             mkWorld (<["data/mol.json" := JsonFile ["mol:CCO"; "mol:C"]]> fs0)
               [ReadCsv "data/Lipop.csv"; ConvertSmiles ["CCO"; "C"];
                WriteJson "data/mol.json"])).
Proof.
  intros to_mol_block self csv fs1 fs0.
  destruct (prepare_data_skips_existing to_mol_block self (mkWorld fs1 [])
              (Some "Lipop.csv") (Some "data") (Some "Lipop") false "smiles" true true)
    as (Hskip & _ & _ & _).
  destruct (prepare_data_skips_existing to_mol_block self (mkWorld fs0 [])
              (Some "Lipop.csv") (Some "data") (Some "Lipop") false "smiles" true true)
    as (_ & _ & _ & Hrun).
  split.
  - apply (Hskip "data"); [reflexivity| |reflexivity].
    exists (JsonFile ["old"]). reflexivity.
  - apply (Hrun "data" "Lipop.csv" [("smiles", ["CCO"; "C"]); ("exp", ["0.1"; "0.2"])]
             (0%nat, ("smiles", ["CCO"; "C"])) ["mol:CCO"; "mol:C"]);
      try reflexivity.
    left. reflexivity.
Defined.


(** *** [read_in_memory] *)

(** What [label_column_name] can be: a string, a list of strings, a slice
    (without step) or anything else; [None] and every other object is given
    by its [str()]. *)
Inductive label_columns : Type :=
  | LabelStr (name : string)
  | LabelList (names : list string)
  | LabelSlice (start stop : option Z)
  | LabelOther (repr : string).

(** The attributes of [MolecularGraphRDKit] that [read_in_memory] reads;
    [Coord] is the type of the coordinates of one molecule. *)
Record molgraph (Coord : Type) : Type := mkMolGraph {
  mg_node_symbol : list string;
  mg_node_coordinates : Coord;
  mg_node_number : list Z;
  mg_edge_number : list (Z * Z) * list Z
}.
Arguments mkMolGraph {Coord} _ _ _ _.
Arguments mg_node_symbol {Coord} _.
Arguments mg_node_coordinates {Coord} _.
Arguments mg_node_number {Coord} _.
Arguments mg_edge_number {Coord} _.

(** The dataset object: the three base attributes, [data_keys], the eight
    attributes that [read_in_memory] assigns and the three more that
    [set_attributes] assigns.  An attribute is [None] until it is assigned;
    [self_length] is the attribute [length], [Feat] the type of a float32
    entry of an attribute array. *)
Record molnet (Coord Feat : Type) : Type := mkMolnet {
  base : dataset;
  data_keys : option (list string);
  node_symbol : option (list (list string));
  node_coordinates : option (list Coord);
  node_number : option (list (list Z));
  graph_size : option (list nat);
  edge_indices : option (list (list (Z * Z)));
  self_length : option nat;
  graph_labels : option (list (list string));
  edge_number : option (list (list Z));
  graph_attributes : option (list (list Feat));
  node_attributes : option (list (list (list Feat)));
  edge_attributes : option (list (list (list Feat)))
}.
Arguments mkMolnet {Coord Feat} _ _ _ _ _ _ _ _ _ _ _ _ _.
Arguments base {Coord Feat} _.
Arguments data_keys {Coord Feat} _.
Arguments node_symbol {Coord Feat} _.
Arguments node_coordinates {Coord Feat} _.
Arguments node_number {Coord Feat} _.
Arguments graph_size {Coord Feat} _.
Arguments edge_indices {Coord Feat} _.
Arguments self_length {Coord Feat} _.
Arguments graph_labels {Coord Feat} _.
Arguments edge_number {Coord Feat} _.
Arguments graph_attributes {Coord Feat} _.
Arguments node_attributes {Coord Feat} _.
Arguments edge_attributes {Coord Feat} _.

(** The object with other base attributes and [data_keys]. *)
Definition with_base {Coord Feat} (self : molnet Coord Feat) (d : dataset)
    (keys : option (list string)) : molnet Coord Feat :=
  mkMolnet d keys (node_symbol self) (node_coordinates self) (node_number self)
    (graph_size self) (edge_indices self) (self_length self) (graph_labels self)
    (edge_number self) (graph_attributes self) (node_attributes self)
    (edge_attributes self).

(** The local lists of the loop of [read_in_memory]. *)
Record accumulator (Coord : Type) : Type := mkAcc {
  atoms : list (list string);
  coords : list Coord;
  number : list (list Z);
  edgind : list (list (Z * Z));
  edges : list (list Z);
  counter_iter : nat;
  graph_labels_acc : list (list string)
}.
Arguments mkAcc {Coord} _ _ _ _ _ _ _.
Arguments atoms {Coord} _.
Arguments coords {Coord} _.
Arguments number {Coord} _.
Arguments edgind {Coord} _.
Arguments edges {Coord} _.
Arguments counter_iter {Coord} _.
Arguments graph_labels_acc {Coord} _.

(** [df[name]] on the columns of a data frame *)
Definition frame_column (data : list (string * list string)) (name : string)
    : result (list string) :=
  match list_find (fun c => c.1 = name) data with
  | Some (_, c) => Ok c.2
  | None => Raise (KeyError name)
  end.

(** The number of rows of a data frame, whose columns have one length. *)
Definition frame_rows (data : list (string * list string)) : nat :=
  match data with [] => 0%nat | c :: _ => length c.2 end.

(** Columns of [n] values each, side by side: the rows of the table. *)
Definition side_by_side (n : nat) (cols : list (list string)) : list (list string) :=
  map (fun i => omap (fun c : list string => c !! i) cols) (seq 0 n).

(** [l[start:stop]] with bounds that may be [None]. *)
Definition slice_opt {A} (start stop : option Z) (l : list A) : list A :=
  slice (default 0 start) (default (Z.of_nat (length l)) stop) l.

(** [graph_labels_all]: one row of label values per line of the csv file. *)
Definition labels_of (data : list (string * list string)) (label_column_name : label_columns)
    : result (list (list string)) :=
  match label_column_name with
  | LabelStr name =>
      c ← frame_column data name;
      Ok (map (fun v => [v]) c)
  | LabelList names =>
      cols ← mapM (frame_column data) names;
      match cols with
      | [] => Raise (ValueError "need at least one array to concatenate")
      | c :: _ =>
          if forallb (fun c' : list string => (length c' =? length c)%nat) cols
          then Ok (side_by_side (length c) cols)
          else Raise (ValueError
                 "all the input array dimensions except for the concatenation axis must match exactly")
      end
  | LabelSlice start stop =>
      Ok (side_by_side (frame_rows data) (slice_opt start stop data.*2))
  | LabelOther repr =>
      Raise (ValueError
        ("ERROR:kgcnn: Column label definition must be list or string, got " +:+ repr))
  end.

Section ReadInMemory.

Context {Coord Feat : Type}.

(** The molecule toolkit: [from_mol_block add_hydrogen x] is
    [MolecularGraphRDKit(add_hydrogen).from_mol_block(x, sanitize=True)],
    [None] when its [mol] is [None]; the toolkit may raise. *)
Variable from_mol_block : bool -> string -> result (option (molgraph Coord)).

(** Computations on the extended dataset object and the world. *)
Definition M2 (A : Type) : Type :=
  molnet Coord Feat * world -> result A * (molnet Coord Feat * world).

#[global] Instance M2_ret : MRet M2 := fun A a s => (Ok a, s).
#[global] Instance M2_bind : MBind M2 := fun A B f m s =>
  match m s with
  | (Ok a, s') => f a s'
  | (Raise e, s') => (Raise e, s')
  end.

(** A computation on the three base attributes, run on the extended object. *)
Definition lift {A} (m : M A) : M2 A := fun s =>
  match m (base s.1, s.2) with
  | (r, (d, w)) => (r, (with_base s.1 d (data_keys s.1), w))
  end.

Definition lift_result {A} (r : result A) : M2 A := fun s => (r, s).

Definition set_data_keys (keys : list string) : M2 unit := fun s =>
  (Ok tt, (with_base s.1 (base s.1) (Some keys), s.2)).

(** Modelled from the spec: [kgcnn.utils.data.load_json_file] is not among
    the sources; it is taken to read the json file at the given path. *)
Definition load_json_file (path : string) : M2 (list string) := fun s =>
  match fs s.2 !! path with
  | Some (JsonFile content) => (Ok content, s)
  | Some _ => (Raise (ValueError "Expecting value: line 1 column 1 (char 0)"), s)
  | None => (Raise (FileNotFoundError path), s)
  end.

(** The loop [for i, x in enumerate(mols)], from index [i] on. *)
Fixpoint read_loop (add_hydrogen has_conformers : bool)
    (graph_labels_all : list (list string)) (i : nat) (mols : list string)
    (a : accumulator Coord) : result (accumulator Coord) :=
  match mols with
  | [] => Ok a
  | x :: mols' =>
      mg ← from_mol_block add_hydrogen x;
      match mg with
      | None => read_loop add_hydrogen has_conformers graph_labels_all (S i) mols' a
      | Some mg =>
          let atoms := atoms a ++ [mg_node_symbol mg] in
          let coords := if has_conformers then coords a ++ [mg_node_coordinates mg]
                        else coords a in
          let number := number a ++ [mg_node_number mg] in
          let temp_edge := mg_edge_number mg in
          let edgind := edgind a ++ [temp_edge.1] in
          let edges := edges a ++ [temp_edge.2] in
          let counter_iter := S (counter_iter a) in
          match graph_labels_all !! i with
          | None => Raise IndexError
          | Some row =>
              read_loop add_hydrogen has_conformers graph_labels_all (S i) mols'
                (mkAcc atoms coords number edgind edges counter_iter
                   (graph_labels_acc a ++ [row]))
          end
      end
  end.

(** The eight assignments after the loop. *)
Definition set_read_attributes (has_conformers : bool) (a : accumulator Coord)
    : M2 unit := fun s =>
  let self := s.1 in
  (Ok tt,
   (mkMolnet (base self) (data_keys self)
      (Some (atoms a))
      (if has_conformers then Some (coords a) else None)
      (Some (number a))
      (Some (map length (atoms a)))
      (Some (edgind a))
      (Some (counter_iter a))
      (Some (graph_labels_acc a))
      (Some (edges a))
      (graph_attributes self) (node_attributes self) (edge_attributes self),
    s.2)).

Definition read_in_memory (file_name' data_directory' dataset_name' : option string)
    (has_conformers : bool) (label_column_name : label_columns) (add_hydrogen : bool)
    : M2 unit :=
  self ← lift get_self;
  let self := if file_name' is Some _
              then mkDataset file_name' (data_directory self) (dataset_name self)
                     (other_attributes self) else self in
  let self := if data_directory' is Some _
              then mkDataset (file_name self) data_directory' (dataset_name self)
                     (other_attributes self) else self in
  let self := if dataset_name' is Some _
              then mkDataset (file_name self) (data_directory self) dataset_name'
                     (other_attributes self) else self in
  _ ← lift (set_self self);
  filepath ← lift (os_path_join (data_directory self) (file_name self));
  data ← lift (read_csv filepath);
  _ ← set_data_keys data.*1;
  graph_labels_all ← lift_result (labels_of data label_column_name);
  mol_path ← lift (os_path_join (data_directory self) (Some mol_filename));
  found ← lift (os_path_exists mol_path);
  if negb found then
    lift_result (Raise (FileNotFoundError
      ("ERROR:kgcnn: Can not load molecules for dataset "
         +:+ default "None" (dataset_name self))))
  else
    mols ← load_json_file mol_path;
    a ← lift_result (read_loop add_hydrogen has_conformers graph_labels_all 0 mols
                       (mkAcc [] [] [] [] [] 0 []));
    set_read_attributes has_conformers a.

(** The molecules of [mols] the toolkit can convert, each with its index
    in [mols], counted from [i]. *)
Definition convertible (add_hydrogen : bool) (i : nat) (mols : list string)
    : list (nat * molgraph Coord) :=
  omap (fun p : nat * string =>
          match from_mol_block add_hydrogen p.2 with
          | Ok (Some mg) => Some (p.1, mg)
          | _ => None
          end)
       (zip (seq i (length mols)) mols).

(** The object with the eight attributes of a list of converted molecules
    and their label rows. *)
Definition loaded_of (has_conformers : bool) (mgs : list (molgraph Coord))
    (rows : list (list string)) (self : molnet Coord Feat) : molnet Coord Feat :=
  mkMolnet (base self) (data_keys self)
    (Some (map mg_node_symbol mgs))
    (if has_conformers then Some (map mg_node_coordinates mgs) else None)
    (Some (map mg_node_number mgs))
    (Some (map (fun mg => length (mg_node_symbol mg)) mgs))
    (Some (map (fun mg => (mg_edge_number mg).1) mgs))
    (Some (length mgs))
    (Some rows)
    (Some (map (fun mg => (mg_edge_number mg).2) mgs))
    (graph_attributes self) (node_attributes self) (edge_attributes self).

End ReadInMemory.

(** A toolkit for examples: a mol-block is its own symbol list, and the
    block ["bad"] cannot be converted. *)
Definition example_toolkit (add_hydrogen : bool) (x : string)
    : result (option (molgraph unit)) :=
  if String.eqb x "bad" then Ok None
  else Ok (Some (mkMolGraph [x] tt [6] ([(0, 0)], [1]))).

(** A dataset object on which no method was called yet. *)
Definition example_dataset : molnet unit Z :=
  mkMolnet (mkDataset None None None ∅) None None None None None None None None None
    None None None.

(** The second of three molecules is skipped; the labels of the first and
    the third are kept. *)
Example read_in_memory_skips :
  let csv := CsvFile [("smiles", ["C"; "?"; "O"]); ("exp", ["0.1"; "0.2"; "0.3"])] in
  let fs0 : gmap string file :=
    {[ "data/Lipop.csv" := csv; "data/mol.json" := JsonFile ["C"; "bad"; "O"] ]} in
  read_in_memory example_toolkit (Some "Lipop.csv") (Some "data") None true
    (LabelStr "exp") true (example_dataset, mkWorld fs0 [])
  = (Ok tt,
     (mkMolnet (mkDataset (Some "Lipop.csv") (Some "data") None ∅)
        (Some ["smiles"; "exp"])
        (Some [["C"]; ["O"]]) (Some [tt; tt]) (Some [[6]; [6]]) (Some [1; 1]%nat)
        (Some [[(0, 0)]; [(0, 0)]]) (Some 2%nat) (Some [["0.1"]; ["0.3"]])
        (Some [[1]; [1]]) None None None,
      mkWorld fs0 [ReadCsv "data/Lipop.csv"])).
Proof. vm_compute. reflexivity. Qed.

(** *** What [read_in_memory] loads *)

Section ReadInMemoryProofs.

Context {Coord Feat : Type}.
Variable from_mol_block : bool -> string -> result (option (molgraph Coord)).

Lemma convertible_cons (ah : bool) (i : nat) (x : string) (mols : list string) :
  convertible from_mol_block ah i (x :: mols)
  = match from_mol_block ah x with
    | Ok (Some mg) => [(i, mg)]
    | _ => []
    end ++ convertible from_mol_block ah (S i) mols.
Proof.
  unfold convertible. simpl.
  destruct (from_mol_block ah x) as [[mg|]|]; reflexivity.
Qed.

(** The loop keeps the convertible molecules, each with the label row of
    its own index in [mols]. *)
Lemma read_loop_convertible (ah hc : bool) (rows : list (list string)) (i : nat)
    (mols : list string) (a : accumulator Coord) :
  Forall (fun x => exists r, from_mol_block ah x = Ok r) mols ->
  (forall p, p ∈ convertible from_mol_block ah i mols -> (p.1 < length rows)%nat) ->
  let conv := convertible from_mol_block ah i mols in
  exists labs,
    Forall2 (fun (p : nat * molgraph Coord) lab => rows !! p.1 = Some lab) conv labs
    /\ read_loop from_mol_block ah hc rows i mols a
       = Ok (mkAcc (atoms a ++ map mg_node_symbol conv.*2)
               (if hc then coords a ++ map mg_node_coordinates conv.*2 else coords a)
               (number a ++ map mg_node_number conv.*2)
               (edgind a ++ map (fun mg => (mg_edge_number mg).1) conv.*2)
               (edges a ++ map (fun mg => (mg_edge_number mg).2) conv.*2)
               (counter_iter a + length conv)
               (graph_labels_acc a ++ labs)).
Proof.
  revert i a. induction mols as [|x mols IH]; intros i a Htot Hlab; simpl.
  - exists []. split; [constructor|]. destruct a, hc; simpl;
      by rewrite ?app_nil_r, ?Nat.add_0_r.
  - apply Forall_cons in Htot as [[r Hr] Htot].
    rewrite convertible_cons in Hlab |- *. rewrite Hr in Hlab |- *. simpl.
    destruct r as [mg|].
    + destruct (lookup_lt_is_Some_2 rows i) as [row Hrow].
      { apply (Hlab (i, mg)). left. }
      rewrite Hrow.
      destruct (IH (S i)
                  (mkAcc (atoms a ++ [mg_node_symbol mg])
                     (if hc then coords a ++ [mg_node_coordinates mg] else coords a)
                     (number a ++ [mg_node_number mg])
                     (edgind a ++ [(mg_edge_number mg).1])
                     (edges a ++ [(mg_edge_number mg).2])
                     (S (counter_iter a)) (graph_labels_acc a ++ [row])) Htot)
        as (labs & Hlabs & Hrun).
      { intros p Hp. apply Hlab. by right. }
      exists (row :: labs). split; [by constructor|].
      rewrite Hrun. simpl. f_equal.
      destruct hc; simpl; rewrite <- !app_assoc; simpl; f_equal; lia.
    + destruct (IH (S i) a Htot) as (labs & Hlabs & Hrun).
      { intros p Hp. by apply Hlab. }
      exists labs. split; [done|]. by rewrite Hrun.
Qed.

(** The loop stops with [IndexError] at the first convertible molecule
    that has no label row. *)
Lemma read_loop_IndexError (ah hc : bool) (rows : list (list string)) (i : nat)
    (mols : list string) (a : accumulator Coord) :
  Forall (fun x => exists r, from_mol_block ah x = Ok r) mols ->
  (exists p, p ∈ convertible from_mol_block ah i mols /\ (length rows <= p.1)%nat) ->
  read_loop from_mol_block ah hc rows i mols a = Raise IndexError.
Proof.
  revert i a. induction mols as [|x mols IH]; intros i a Htot (p & Hp & Hge).
  - by apply elem_of_nil in Hp.
  - apply Forall_cons in Htot as [[r Hr] Htot].
    rewrite convertible_cons, Hr in Hp. simpl. rewrite Hr. simpl.
    destruct r as [mg|]; simpl in Hp.
    + destruct (rows !! i) as [row|] eqn:Hrow; [|done].
      apply elem_of_cons in Hp as [->|Hp].
      * apply lookup_lt_Some in Hrow. simpl in Hge. lia.
      * apply IH; [done|]. eauto.
    + apply IH; [done|]. eauto.
Qed.

(** The run of [read_in_memory] on a data directory with its csv file. *)
Lemma read_in_memory_run (self : molnet Coord Feat) w fn dd dn hc label ah dir fname columns :
  let self' := with_arguments (base self) fn dd dn in
  data_directory self' = Some dir -> file_name self' = Some fname ->
  fs w !! path_join dir fname = Some (CsvFile columns) ->
  let w1 := mkWorld (fs w) (log w ++ [ReadCsv (path_join dir fname)]) in
  let s1 := (with_base self self' (Some columns.*1), w1) in
  read_in_memory from_mol_block fn dd dn hc label ah (self, w)
  = match labels_of columns label with
    | Raise e => (Raise e, s1)
    | Ok rows =>
        match fs w !! path_join dir mol_filename with
        | None =>
            (Raise (FileNotFoundError
               ("ERROR:kgcnn: Can not load molecules for dataset "
                  +:+ default "None" (dataset_name self'))), s1)
        | Some (JsonFile mols) =>
            match read_loop from_mol_block ah hc rows 0 mols (mkAcc [] [] [] [] [] 0 []) with
            | Ok a => set_read_attributes hc a s1
            | Raise e => (Raise e, s1)
            end
        | Some _ => (Raise (ValueError "Expecting value: line 1 column 1 (char 0)"), s1)
        end
    end.
Proof.
  intros self' Hdir Hfile Hcsv w1 s1. subst self' w1 s1.
  unfold read_in_memory, with_arguments in *.
  destruct self as [[f d n o] keys a1 a2 a3 a4 a5 a6 a7 a8 a9 a10 a11]. destruct w as [wfs wlog]. simpl in *.
  unfold mbind, M2_bind, lift, lift_result, get_self, set_self, os_path_join,
    os_path_exists, set_data_keys, load_json_file, with_base. simpl.
  destruct fn, dd, dn; simplify_eq/=;
    unfold read_csv; simpl; rewrite Hcsv; simpl;
    (destruct (labels_of columns label) as [rows|e]; simpl; [|done]);
    (destruct (wfs !! path_join dir mol_filename) as [[| mols |]|] eqn:Hmol; simpl;
     rewrite ?Hmol; simpl; try done;
     by destruct (read_loop from_mol_block _ _ _ _ _ _)).
Qed.

Lemma convertible_index (ah : bool) (i : nat) (mols : list string) p :
  p ∈ convertible from_mol_block ah i mols -> (i <= p.1 < i + length mols)%nat.
Proof.
  revert i. induction mols as [|x mols IH]; intros i Hp.
  - by apply elem_of_nil in Hp.
  - rewrite convertible_cons in Hp. apply elem_of_app in Hp as [Hp|Hp].
    + destruct (from_mol_block ah x) as [[mg|]|]; try by apply elem_of_nil in Hp.
      apply list_elem_of_singleton in Hp as ->. simpl. lia.
    + apply IH in Hp. simpl. lia.
Qed.

(** What the run of [read_in_memory] gives when every convertible mol-block
    has its label row. *)
Lemma read_in_memory_convertible (self : molnet Coord Feat) w fn dd dn hc label ah dir fname
    columns rows mols :
  let self' := with_arguments (base self) fn dd dn in
  let conv := convertible from_mol_block ah 0 mols in
  data_directory self' = Some dir -> file_name self' = Some fname ->
  fs w !! path_join dir fname = Some (CsvFile columns) ->
  labels_of columns label = Ok rows ->
  fs w !! path_join dir mol_filename = Some (JsonFile mols) ->
  Forall (fun x => exists r, from_mol_block ah x = Ok r) mols ->
  (forall p, p ∈ conv -> (p.1 < length rows)%nat) ->
  exists labs,
    read_in_memory from_mol_block fn dd dn hc label ah (self, w)
    = (Ok tt, (loaded_of hc conv.*2 labs (with_base self self' (Some columns.*1)),
               mkWorld (fs w) (log w ++ [ReadCsv (path_join dir fname)])))
    /\ Forall2 (fun (p : nat * molgraph Coord) lab => rows !! p.1 = Some lab) conv labs
    /\ self_length (loaded_of hc conv.*2 labs (with_base self self' (Some columns.*1)))
       = Some (length labs).
Proof.
  intros self' conv Hdir Hfile Hcsv Hrows Hmol Htot Hlab.
  destruct (read_loop_convertible ah hc rows 0 mols (mkAcc [] [] [] [] [] 0 []) Htot Hlab)
    as (labs & Hlabs & Hloop).
  exists labs. split; [|split; [done|]].
  - rewrite (read_in_memory_run self w fn dd dn hc label ah dir fname columns Hdir Hfile Hcsv).
    rewrite Hrows, Hmol, Hloop. fold self' conv.
    unfold set_read_attributes, loaded_of. simpl. do 2 f_equal.
    rewrite (map_map mg_node_symbol length conv.*2).
    replace (length conv.*2) with (length conv) by (by rewrite length_fmap).
    by destruct hc.
  - simpl. f_equal. rewrite length_fmap. by eapply Forall2_length.
Qed.

(** A loop that comes to its end has kept the convertible molecules and
    one label row for each. *)
Lemma read_loop_Ok (ah hc : bool) (rows : list (list string)) (i : nat)
    (mols : list string) (a a' : accumulator Coord) :
  read_loop from_mol_block ah hc rows i mols a = Ok a' ->
  let mgs := (convertible from_mol_block ah i mols).*2 in
  atoms a' = atoms a ++ map mg_node_symbol mgs
  /\ number a' = number a ++ map mg_node_number mgs
  /\ counter_iter a' = (counter_iter a + length mgs)%nat
  /\ exists labs, graph_labels_acc a' = graph_labels_acc a ++ labs
       /\ length labs = length mgs.
Proof.
  revert i a. induction mols as [|x mols IH]; intros i a Hrun; simpl in Hrun.
  - inversion Hrun; subst a'. simpl. rewrite !app_nil_r, Nat.add_0_r.
    split; [done|]. split; [done|]. split; [done|]. exists []. by rewrite app_nil_r.
  - rewrite convertible_cons.
    destruct (from_mol_block ah x) as [[mg|]|] eqn:Hx; simpl in Hrun; [| |done].
    + destruct (rows !! i) as [row|]; [|done].
      destruct (IH (S i) _ Hrun) as (Ha & Hn & Hc & labs & Hl & Hlen).
      simpl in *. rewrite Ha, Hn, Hc, <- !app_assoc.
      split; [done|]. split; [done|]. split; [by rewrite Nat.add_succ_r|].
      exists (row :: labs). rewrite Hl, <- app_assoc. simpl. by rewrite Hlen.
    + simpl. by apply IH.
Qed.

(** What [read_in_memory] has read and assigned when it returns. *)
Lemma read_in_memory_Ok (self s1 : molnet Coord Feat) w w1 fn dd dn hc label ah :
  read_in_memory from_mol_block fn dd dn hc label ah (self, w) = (Ok tt, (s1, w1)) ->
  exists dir mols labs,
    data_directory (base s1) = Some dir
    /\ fs w !! path_join dir mol_filename = Some (JsonFile mols)
    /\ fs w1 = fs w
    /\ let mgs := (convertible from_mol_block ah 0 mols).*2 in
       node_symbol s1 = Some (map mg_node_symbol mgs)
       /\ node_number s1 = Some (map mg_node_number mgs)
       /\ self_length s1 = Some (length mgs)
       /\ graph_labels s1 = Some labs /\ length labs = length mgs.
Proof.
  intros Hrun.
  destruct (data_directory (with_arguments (base self) fn dd dn)) as [dir|] eqn:Hdir;
    [destruct (file_name (with_arguments (base self) fn dd dn)) as [fname|] eqn:Hfile;
     [destruct (fs w !! path_join dir fname) as [[columns| |]|] eqn:Hcsv|]|].
  2-6: exfalso; revert Hrun; unfold read_in_memory, with_arguments in *;
    destruct self as [[f d n o] keys a1 a2 a3 a4 a5 a6 a7 a8 a9 a10 a11];
    destruct w as [wfs wlog]; simpl in *;
    unfold mbind, M2_bind, lift, lift_result, get_self, set_self, os_path_join; simpl;
    destruct fn, dd, dn; simplify_eq/=; unfold read_csv; simpl; rewrite ?Hcsv; done.
  - rewrite (read_in_memory_run self w fn dd dn hc label ah dir fname columns
               Hdir Hfile Hcsv) in Hrun.
    destruct (labels_of columns label) as [rows|]; [|done].
    destruct (fs w !! path_join dir mol_filename) as [[| mols |]|] eqn:Hmol; try done.
    destruct (read_loop from_mol_block ah hc rows 0 mols (mkAcc [] [] [] [] [] 0 []))
      as [a|] eqn:Hloop; [|done].
    destruct (read_loop_Ok ah hc rows 0 mols _ a Hloop) as (Ha & Hn & Hc & labs & Hl & Hlen).
    simpl in *. unfold set_read_attributes in Hrun. simpl in Hrun.
    inversion Hrun; subst s1 w1. simpl.
    exists dir, mols, labs. rewrite Ha, Hn, Hc, Hl. done.
Qed.

(** X17. [read_in_memory] skips the mol-blocks that cannot be converted together
    with their label rows.  With the csv file and [mol.json] in the data
    directory, a toolkit that does not raise and a label row for every
    convertible block, it returns; the molecules loaded are the convertible
    blocks in their order, molecule [k] has the label row of the index its
    block has in [mol.json], all attribute lists have the length assigned
    to [length], and besides reading the csv file the world is unchanged. *)
Theorem read_in_memory_loads (self : molnet Coord Feat) w fn dd dn hc label ah dir fname
    columns rows mols :
  let self' := with_arguments (base self) fn dd dn in
  let conv := convertible from_mol_block ah 0 mols in
  data_directory self' = Some dir -> file_name self' = Some fname ->
  fs w !! path_join dir fname = Some (CsvFile columns) ->
  labels_of columns label = Ok rows ->
  fs w !! path_join dir mol_filename = Some (JsonFile mols) ->
  Forall (fun x => exists r, from_mol_block ah x = Ok r) mols ->
  (forall p, p ∈ conv -> (p.1 < length rows)%nat) ->
  exists labs,
    read_in_memory from_mol_block fn dd dn hc label ah (self, w)
    = (Ok tt, (loaded_of hc conv.*2 labs (with_base self self' (Some columns.*1)),
               mkWorld (fs w) (log w ++ [ReadCsv (path_join dir fname)])))
    /\ Forall2 (fun (p : nat * molgraph Coord) lab => rows !! p.1 = Some lab) conv labs
    /\ self_length (loaded_of hc conv.*2 labs (with_base self self' (Some columns.*1)))
       = Some (length labs).
Proof. apply read_in_memory_convertible. Qed.

(** X18. How [read_in_memory] fails.  A missing csv file raises
    [FileNotFoundError] with only the three base attributes set.  After the
    csv file was read, [data_keys] is set and then: a [label_column_name]
    that is no string, list or slice raises [ValueError]; a missing
    [mol.json] raises [FileNotFoundError]; a convertible mol-block whose
    index has no row in the csv file raises [IndexError].  In each case the
    eight loaded attributes keep their old values. *)
Theorem read_in_memory_errors (self : molnet Coord Feat) w fn dd dn hc label ah dir fname :
  let self' := with_arguments (base self) fn dd dn in
  data_directory self' = Some dir -> file_name self' = Some fname ->
  let run := read_in_memory from_mol_block fn dd dn hc label ah (self, w) in
  (fs w !! path_join dir fname = None ->
     run = (Raise (FileNotFoundError (path_join dir fname)),
            (with_base self self' (data_keys self), w)))
  /\ (forall columns,
        fs w !! path_join dir fname = Some (CsvFile columns) ->
        let s1 := (with_base self self' (Some columns.*1),
                   mkWorld (fs w) (log w ++ [ReadCsv (path_join dir fname)])) in
        (forall repr, label = LabelOther repr ->
           exists msg, run = (Raise (ValueError msg), s1))
        /\ (forall rows, labels_of columns label = Ok rows ->
              fs w !! path_join dir mol_filename = None ->
              exists msg, run = (Raise (FileNotFoundError msg), s1))
        /\ (forall rows mols, labels_of columns label = Ok rows ->
              fs w !! path_join dir mol_filename = Some (JsonFile mols) ->
              Forall (fun x => exists r, from_mol_block ah x = Ok r) mols ->
              (exists p, p ∈ convertible from_mol_block ah 0 mols
                         /\ (length rows <= p.1)%nat) ->
              run = (Raise IndexError, s1))).
Proof.
  intros self' Hdir Hfile run. split.
  - intros Hcsv. subst run self'. unfold read_in_memory, with_arguments in *.
    destruct self as [[f d n o] keys a1 a2 a3 a4 a5 a6 a7 a8 a9 a10 a11]. destruct w as [wfs wlog]. simpl in *.
    unfold mbind, M2_bind, lift, lift_result, get_self, set_self, os_path_join. simpl.
    destruct fn, dd, dn; simplify_eq/=; unfold read_csv; simpl; by rewrite Hcsv.
  - intros columns Hcsv s1. subst run.
    rewrite (read_in_memory_run self w fn dd dn hc label ah dir fname columns Hdir Hfile Hcsv).
    fold self'. split; [|split].
    + intros repr ->. simpl. eauto.
    + intros rows -> ->. eauto.
    + intros rows mols -> -> Htot Hbad.
      by rewrite (read_loop_IndexError ah hc rows 0 mols _ Htot Hbad).
Qed.

End ReadInMemoryProofs.

Lemma with_arguments_None (d : dataset) : with_arguments d None None None = d.
Proof. by destruct d. Qed.

Section PrepareThenRead.

Context {Coord Feat : Type}.
Variable to_mol_block : bool -> bool -> bool -> string -> result string.
Variable from_mol_block : bool -> string -> result (option (molgraph Coord)).

(** [prepare_data] followed by [read_in_memory] on one dataset object. *)
Definition prepare_and_read (file_name' data_directory' dataset_name' : option string)
    (overwrite : bool) (smiles_column_name : string) (make_conformers add_hydrogen : bool)
    (has_conformers : bool) (label_column_name : label_columns)
    : M2 (Coord := Coord) (Feat := Feat) unit :=
  _ ← lift (prepare_data to_mol_block file_name' data_directory' dataset_name'
              overwrite smiles_column_name make_conformers add_hydrogen);
  read_in_memory from_mol_block None None None has_conformers label_column_name add_hydrogen.

(** X19. [read_in_memory] reads what [prepare_data] wrote.  When [prepare_data]
    computes [mol.json] from the smiles column of the csv file and
    [read_in_memory] follows with a label column of the same file, the
    mol-blocks read are the ones written, every mol-block has its label
    row, so no [IndexError] can arise, and molecule [k] gets the label of
    the csv line its smiles came from. *)
Theorem prepare_then_read (self : molnet Coord Feat) w fn dd dn overwrite col mc ah hc name
    dir fname columns c labels mb :
  let self' := with_arguments (base self) fn dd dn in
  let conv := convertible from_mol_block ah 0 mb in
  data_directory self' = Some dir -> file_name self' = Some fname ->
  path_join dir fname <> path_join dir mol_filename ->
  fs w !! path_join dir mol_filename = None \/ overwrite = true ->
  fs w !! path_join dir fname = Some (CsvFile columns) ->
  list_find (fun c => c.1 = col) columns = Some c ->
  frame_column columns name = Ok labels -> length labels = length c.2.2 ->
  mapM (to_mol_block ah true mc) c.2.2 = Ok mb ->
  Forall (fun x => exists r, from_mol_block ah x = Ok r) mb ->
  exists labs,
    prepare_and_read fn dd dn overwrite col mc ah hc (LabelStr name) (self, w)
    = (Ok tt,
       (loaded_of hc conv.*2 labs (with_base self self' (Some columns.*1)),
        mkWorld (<[path_join dir mol_filename := JsonFile mb]> (fs w))
          (log w ++ [ReadCsv (path_join dir fname); ConvertSmiles c.2.2;
                     WriteJson (path_join dir mol_filename);
                     ReadCsv (path_join dir fname)])))
    /\ Forall2 (fun (p : nat * molgraph Coord) lab =>
                  exists v, labels !! p.1 = Some v /\ lab = [v]) conv labs.
Proof.
  intros self' conv Hdir Hfile Hne Hcond Hcsv Hcol Hlabels Hlen Hmb Htot.
  pose proof (prepare_data_computes to_mol_block (base self) w fn dd dn overwrite col mc ah
                dir fname columns c c.2.2 mb Hdir Hfile Hcond Hcsv Hcol eq_refl Hmb) as Hprep.
  set (w1 := mkWorld (<[path_join dir mol_filename := JsonFile mb]> (fs w))
               (log w ++ [ReadCsv (path_join dir fname); ConvertSmiles c.2.2;
                          WriteJson (path_join dir mol_filename)])) in *.
  set (self1 := with_base self self' (data_keys self)).
  assert (Hstep : prepare_and_read fn dd dn overwrite col mc ah hc (LabelStr name) (self, w)
                  = read_in_memory from_mol_block None None None hc (LabelStr name) ah
                      (self1, w1)).
  { unfold prepare_and_read, mbind, M2_bind, lift at 1. simpl. by rewrite Hprep. }
  destruct (read_in_memory_convertible from_mol_block self1 w1 None None None hc (LabelStr name) ah
              dir fname columns (map (fun v => [v]) labels) mb) as (labs & Hrun & Hlabs & _).
  - by rewrite with_arguments_None.
  - by rewrite with_arguments_None.
  - simpl. by rewrite lookup_insert_ne.
  - simpl. by rewrite Hlabels.
  - simpl. by rewrite lookup_insert_eq.
  - done.
  - intros p Hp. apply convertible_index in Hp. rewrite length_map, Hlen.
    rewrite <- (mapM_length _ _ _ Hmb). lia.
  - exists labs. split.
    + rewrite Hstep, Hrun. simpl. rewrite with_arguments_None.
      rewrite <- !app_assoc. done.
    + eapply Forall2_impl; [exact Hlabs|]. intros p lab Hp. cbv beta in Hp.
      rewrite list_lookup_fmap in Hp.
      destruct (labels !! p.1) as [v|]; [|done]. simpl in Hp. inversion Hp. eauto.
Qed.

End PrepareThenRead.

(** Three molecules, the second of which cannot be converted. *)
Lemma read_in_memory_loads_witness :
  let columns := [("smiles", ["C"; "?"; "O"]); ("exp", ["0.1"; "0.2"; "0.3"])] in
  let fs0 : gmap string file :=
    {[ "data/Lipop.csv" := CsvFile columns; "data/mol.json" := JsonFile ["C"; "bad"; "O"] ]} in
  exists labs,
    read_in_memory example_toolkit (Some "Lipop.csv") (Some "data") None true
      (LabelStr "exp") true
      (example_dataset, mkWorld fs0 [])
    = (Ok tt,
       (loaded_of true (convertible example_toolkit true 0 ["C"; "bad"; "O"]).*2 labs
          (with_base example_dataset
             (mkDataset (Some "Lipop.csv") (Some "data") None ∅)
             (Some ["smiles"; "exp"])),
        mkWorld fs0 [ReadCsv "data/Lipop.csv"]))
    /\ length labs = 2%nat.
Proof.
  intros columns fs0.
  destruct (read_in_memory_loads example_toolkit
              example_dataset (mkWorld fs0 [])
              (Some "Lipop.csv") (Some "data") None true (LabelStr "exp") true
              "data" "Lipop.csv" columns [["0.1"]; ["0.2"]; ["0.3"]] ["C"; "bad"; "O"])
    as (labs & Hrun & _ & Hlen).
  - reflexivity.
  - reflexivity.
  - vm_compute. reflexivity.
  - reflexivity.
  - vm_compute. reflexivity.
  - repeat constructor; eexists; vm_compute; reflexivity.
  - intros p Hp. apply convertible_index in Hp. simpl in *. lia.
  - exists labs. split; [exact Hrun|]. vm_compute in Hlen. by injection Hlen.
Defined.

(** A data directory without the csv file. *)
Lemma read_in_memory_errors_witness :
  read_in_memory example_toolkit (Some "Lipop.csv") (Some "data") None true
    (LabelStr "exp") true
    (example_dataset, mkWorld ∅ [])
  = (Raise (FileNotFoundError "data/Lipop.csv"),
     (with_base example_dataset (mkDataset (Some "Lipop.csv") (Some "data") None ∅) None,
      mkWorld ∅ [])).
Proof.
  destruct (read_in_memory_errors example_toolkit
              example_dataset (mkWorld ∅ [])
              (Some "Lipop.csv") (Some "data") None true (LabelStr "exp") true
              "data" "Lipop.csv") as [Hmissing _].
  - reflexivity.
  - reflexivity.
  - apply Hmissing. reflexivity.
Defined.

(** The smiles ["?"] gives a mol-block that cannot be read back: its
    molecule and its label are skipped. *)
Lemma prepare_then_read_witness :
  let to_mol_block := fun (_ _ _ : bool) (sm : string) =>
                        Ok (if String.eqb sm "?" then "bad" else sm) in
  let columns := [("smiles", ["C"; "?"; "O"]); ("exp", ["0.1"; "0.2"; "0.3"])] in
  let fs0 : gmap string file := {[ "data/Lipop.csv" := CsvFile columns ]} in
  exists labs,
    prepare_and_read to_mol_block example_toolkit (Some "Lipop.csv") (Some "data") None
      false "smiles" true true true (LabelStr "exp")
      (example_dataset, mkWorld fs0 [])
    = (Ok tt,
       (loaded_of true (convertible example_toolkit true 0 ["C"; "bad"; "O"]).*2 labs
          (with_base example_dataset
             (mkDataset (Some "Lipop.csv") (Some "data") None ∅)
             (Some ["smiles"; "exp"])),
        mkWorld (<["data/mol.json" := JsonFile ["C"; "bad"; "O"]]> fs0)
          [ReadCsv "data/Lipop.csv"; ConvertSmiles ["C"; "?"; "O"];
           WriteJson "data/mol.json"; ReadCsv "data/Lipop.csv"]))
    /\ Forall2 (fun (p : nat * molgraph unit) lab =>
                  exists v, ["0.1"; "0.2"; "0.3"] !! p.1 = Some v /\ lab = [v])
         (convertible example_toolkit true 0 ["C"; "bad"; "O"]) labs.
Proof.
  intros to_mol_block columns fs0.
  apply (prepare_then_read to_mol_block example_toolkit
           example_dataset (mkWorld fs0 [])
           (Some "Lipop.csv") (Some "data") None false "smiles" true true true "exp"
           "data" "Lipop.csv" columns (0%nat, ("smiles", ["C"; "?"; "O"]))
           ["0.1"; "0.2"; "0.3"] ["C"; "bad"; "O"]).
  - reflexivity.
  - reflexivity.
  - vm_compute. discriminate.
  - left. vm_compute. reflexivity.
  - vm_compute. reflexivity.
  - reflexivity.
  - reflexivity.
  - reflexivity.
  - reflexivity.
  - repeat constructor; eexists; vm_compute; reflexivity.
Defined.

(** *** [set_attributes] *)

(** A value of a one-hot range: a string or an integer. *)
Inductive category : Type :=
  | CatStr (s : string)
  | CatInt (z : Z).

(** A value in a dictionary that identifies an encoder: a string or some
    other value. *)
Inductive dictval (Config : Type) : Type :=
  | DStr (s : string)
  | DOther (c : Config).
Arguments DStr {Config} s.
Arguments DOther {Config} c.

(** An encoder identifier: a dictionary or any other object. *)
Inductive identifier (Obj Config : Type) : Type :=
  | IdDict (d : list (string * dictval Config))
  | IdObject (o : Obj).
Arguments IdDict {Obj Config} d.
Arguments IdObject {Obj Config} o.

(** The three encoder dictionaries after deserialization; a value is an
    encoder object or [None]. *)
Record encoder_dicts (Obj : Type) : Type := mkEncoders {
  encoder_nodes : list (string * option Obj);
  encoder_edges : list (string * option Obj);
  encoder_graph : list (string * option Obj)
}.
Arguments mkEncoders {Obj} _ _ _.
Arguments encoder_nodes {Obj} _.
Arguments encoder_edges {Obj} _.
Arguments encoder_graph {Obj} _.

(** The local lists of the loop of [set_attributes], and the encoders,
    which record the values they find. *)
Record attribute_lists (Coord Feat Obj : Type) : Type := mkLists {
  l_graph_attributes : list (list Feat);
  l_node_attributes : list (list (list Feat));
  l_edge_attributes : list (list (list Feat));
  l_edge_indices : list (list (Z * Z));
  l_node_coordinates : list Coord;
  l_node_symbol : list (list string);
  l_node_number : list (list Z);
  l_encoders : encoder_dicts Obj
}.
Arguments mkLists {Coord Feat Obj} _ _ _ _ _ _ _ _.
Arguments l_graph_attributes {Coord Feat Obj} _.
Arguments l_node_attributes {Coord Feat Obj} _.
Arguments l_edge_attributes {Coord Feat Obj} _.
Arguments l_edge_indices {Coord Feat Obj} _.
Arguments l_node_coordinates {Coord Feat Obj} _.
Arguments l_node_symbol {Coord Feat Obj} _.
Arguments l_node_number {Coord Feat Obj} _.
Arguments l_encoders {Coord Feat Obj} _.

(** [v == s] for a string [s] *)
Definition equals_str {Config} (v : dictval Config) (s : string) : bool :=
  match v with
  | DStr s' => String.eqb s' s
  | DOther _ => false
  end.

(** [d[k]] on a dictionary given by its items. *)
Definition items_get {V} (d : list (string * V)) (k : string) : option V :=
  match list_find (fun kv : string * V => kv.1 = k) d with
  | Some (_, kv) => Some kv.2
  | None => None
  end.

Section SetAttributes.

Context {Coord Feat Obj Config : Type}.

(** The molecule toolkit.  [from_mol_block] is as in [read_in_memory].  With
    [mg] for [MolecularGraphRDKit(add_hydrogen).from_mol_block(x,
    sanitize=True)] and [enc] for the three encoder dictionaries,
    [node_attributes_of add_hydrogen x nodes enc] is
    [np.array(mg.node_attributes(nodes, encoder_nodes), dtype="float32")],
    [edge_attributes_of add_hydrogen x edges enc] is
    [np.array(mg.edge_attributes(edges, encoder_edges)[1], dtype="float32")]
    and [graph_attributes_of add_hydrogen x graph enc] is
    [np.array(mg.graph_attributes(graph, encoder_graph), dtype="float32")],
    each with the encoder dictionaries after the call;
    [edge_indices_of add_hydrogen x] is
    [np.array(mg.edge_indices, dtype="int64")] and [float32] is
    [np.array(_, dtype="float32")] on coordinates.  All of them may raise. *)
Variable from_mol_block : bool -> string -> result (option (molgraph Coord)).
Variable node_attributes_of :
  bool -> string -> list string -> encoder_dicts Obj
  -> result (list (list Feat) * encoder_dicts Obj).
Variable edge_attributes_of :
  bool -> string -> list string -> encoder_dicts Obj
  -> result (list (list Feat) * encoder_dicts Obj).
Variable graph_attributes_of :
  bool -> string -> list string -> encoder_dicts Obj
  -> result (list Feat * encoder_dicts Obj).
Variable edge_indices_of : bool -> string -> result (list (Z * Z)).
Variable float32 : Coord -> result Coord.

(** The encoder class: [OneHotEncoder range add_unknown dtype] is the
    object [OneHotEncoder(range, add_unknown=.., dtype=..)], with [None]
    for a keyword that is not given; [from_config] is
    [OneHotEncoder.from_config].  [has_call o] tells whether the object [o]
    has [__call__], and [format_s o] is ["%s" % o]. *)
Variable OneHotEncoder : list category -> option bool -> option string -> Obj.
Variable from_config : dictval Config -> result Obj.
Variable has_call : Obj -> bool.
Variable format_s : Obj -> result string.

(** [_deserialize_encoder]: a dictionary of another class than
    [OneHotEncoder] falls through both branches, which returns [None]. *)
Definition _deserialize_encoder (encoder_identifier : identifier Obj Config)
    : result (option Obj) :=
  match encoder_identifier with
  | IdDict d =>
      match items_get d "class_name" with
      | None => Raise (KeyError "class_name")
      | Some class_name =>
          if equals_str class_name "OneHotEncoder" then
            match items_get d "config" with
            | None => Raise (KeyError "config")
            | Some config => o ← from_config config; Ok (Some o)
            end
          else Ok None
      end
  | IdObject o =>
      if has_call o then Ok (Some o)
      else
        s ← format_s o;
        Raise (ValueError ("ERROR:kgcnn: Unable to deserialize encoder " +:+ s +:+ " "))
  end.

(** [for key, value in encoder.items(): encoder[key] =
    self._deserialize_encoder(value)] *)
Definition deserialize_items (encoder : list (string * identifier Obj Config))
    : result (list (string * option Obj)) :=
  mapM (fun kv => v ← _deserialize_encoder kv.2; Ok (kv.1, v)) encoder.

(** The default values of the arguments *)
Definition default_nodes : list string :=
  ["Symbol"; "TotalDegree"; "FormalCharge"; "NumRadicalElectrons"; "Hybridization";
   "IsAromatic"; "IsInRing"; "TotalNumHs"; "CIPCode"; "ChiralityPossible"; "ChiralTag"].

Definition default_edges : list string :=
  ["BondType"; "IsAromatic"; "IsConjugated"; "IsInRing"; "Stereo"].

Definition default_graph : list string := ["ExactMolWt"; "NumAtoms"].

Definition default_encoder_nodes : list (string * identifier Obj Config) :=
  [("Symbol",
    IdObject (OneHotEncoder
      (map CatStr ["B"; "C"; "N"; "O"; "F"; "Si"; "P"; "S"; "Cl"; "As"; "Se"; "Br";
                   "Te"; "I"; "At"]) None (Some "str")));
   ("Hybridization", IdObject (OneHotEncoder (map CatInt [2; 3; 4; 5; 6]) None None));
   ("TotalDegree",
    IdObject (OneHotEncoder (map CatInt [0; 1; 2; 3; 4; 5]) (Some false) None));
   ("TotalNumHs",
    IdObject (OneHotEncoder (map CatInt [0; 1; 2; 3; 4]) (Some false) None));
   ("CIPCode",
    IdObject (OneHotEncoder (map CatStr ["R"; "S"]) (Some false) (Some "str")))].

Definition default_encoder_edges : list (string * identifier Obj Config) :=
  [("BondType", IdObject (OneHotEncoder (map CatInt [1; 2; 3; 12]) (Some false) None));
   ("Stereo", IdObject (OneHotEncoder (map CatInt [0; 1; 2; 3]) (Some false) None))].

Definition default_encoder_graph : list (string * identifier Obj Config) := [].

(** The loop [for i, sm in enumerate(mols)]; the index is only printed. *)
Fixpoint attributes_loop (add_hydrogen has_conformers : bool)
    (nodes edges graph : list string) (mols : list string)
    (a : attribute_lists Coord Feat Obj) : result (attribute_lists Coord Feat Obj) :=
  match mols with
  | [] => Ok a
  | sm :: mols' =>
      mg ← from_mol_block add_hydrogen sm;
      match mg with
      | None => attributes_loop add_hydrogen has_conformers nodes edges graph mols' a
      | Some mg =>
          '(na, enc) ← node_attributes_of add_hydrogen sm nodes (l_encoders a);
          let node_attributes := l_node_attributes a ++ [na] in
          '(ea, enc) ← edge_attributes_of add_hydrogen sm edges enc;
          let edge_attributes := l_edge_attributes a ++ [ea] in
          ei ← edge_indices_of add_hydrogen sm;
          let edge_indices := l_edge_indices a ++ [ei] in
          '(ga, enc) ← graph_attributes_of add_hydrogen sm graph enc;
          let graph_attributes := l_graph_attributes a ++ [ga] in
          let node_symbol := l_node_symbol a ++ [mg_node_symbol mg] in
          node_coordinates ←
            (if has_conformers
             then c ← float32 (mg_node_coordinates mg); Ok (l_node_coordinates a ++ [c])
             else Ok (l_node_coordinates a));
          let node_number := l_node_number a ++ [mg_node_number mg] in
          attributes_loop add_hydrogen has_conformers nodes edges graph mols'
            (mkLists graph_attributes node_attributes edge_attributes edge_indices
               node_coordinates node_symbol node_number enc)
      end
  end.

(** The eight assignments after the loop. *)
Definition set_attribute_lists (a : attribute_lists Coord Feat Obj)
    : M2 (Coord := Coord) (Feat := Feat) unit := fun s =>
  let self := s.1 in
  (Ok tt,
   (mkMolnet (base self) (data_keys self)
      (Some (l_node_symbol a))
      (Some (l_node_coordinates a))
      (Some (l_node_number a))
      (Some (map length (l_node_attributes a)))
      (Some (l_edge_indices a))
      (self_length self)
      (graph_labels self)
      (edge_number self)
      (Some (l_graph_attributes a))
      (Some (l_node_attributes a))
      (Some (l_edge_attributes a)),
    s.2)).

(** [set_attributes]; what it prints is not recorded. *)
Definition set_attributes (nodes edges graph : option (list string))
    (encoder_nodes' encoder_edges' encoder_graph'
       : option (list (string * identifier Obj Config)))
    (add_hydrogen has_conformers : bool) : M2 (Coord := Coord) (Feat := Feat) unit :=
  self ← lift get_self;
  mol_path ← lift (os_path_join (data_directory self) (Some mol_filename));
  found ← lift (os_path_exists mol_path);
  if negb found then
    lift_result (Raise (FileNotFoundError
      ("ERROR:kgcnn: Can not load molecules for dataset "
         +:+ default "None" (dataset_name self))))
  else
    mols ← load_json_file mol_path;
    let nodes := default default_nodes nodes in
    let edges := default default_edges edges in
    let graph := default default_graph graph in
    let encoder_nodes' := default default_encoder_nodes encoder_nodes' in
    let encoder_edges' := default default_encoder_edges encoder_edges' in
    let encoder_graph' := default default_encoder_graph encoder_graph' in
    encoder_nodes' ← lift_result (deserialize_items encoder_nodes');
    encoder_edges' ← lift_result (deserialize_items encoder_edges');
    encoder_graph' ← lift_result (deserialize_items encoder_graph');
    a ← lift_result
          (attributes_loop add_hydrogen has_conformers nodes edges graph mols
             (mkLists [] [] [] [] [] [] []
                (mkEncoders encoder_nodes' encoder_edges' encoder_graph')));
    set_attribute_lists a.

End SetAttributes.

(** *** What [set_attributes] assigns *)

Lemma with_base_same {Coord Feat} (self : molnet Coord Feat) :
  with_base self (base self) (data_keys self) = self.
Proof. by destruct self. Qed.

Section SetAttributesProofs.

Context {Coord Feat Obj Config : Type}.
Variable from_mol_block : bool -> string -> result (option (molgraph Coord)).
Variable node_attributes_of :
  bool -> string -> list string -> encoder_dicts Obj
  -> result (list (list Feat) * encoder_dicts Obj).
Variable edge_attributes_of :
  bool -> string -> list string -> encoder_dicts Obj
  -> result (list (list Feat) * encoder_dicts Obj).
Variable graph_attributes_of :
  bool -> string -> list string -> encoder_dicts Obj
  -> result (list Feat * encoder_dicts Obj).
Variable edge_indices_of : bool -> string -> result (list (Z * Z)).
Variable float32 : Coord -> result Coord.
Variable OneHotEncoder : list category -> option bool -> option string -> Obj.
Variable from_config : dictval Config -> result Obj.
Variable has_call : Obj -> bool.
Variable format_s : Obj -> result string.

#[local] Abbreviation attributes_loop' :=
  (attributes_loop from_mol_block node_attributes_of edge_attributes_of
     graph_attributes_of edge_indices_of float32).
#[local] Abbreviation set_attributes' :=
  (set_attributes from_mol_block node_attributes_of edge_attributes_of
     graph_attributes_of edge_indices_of float32 OneHotEncoder from_config has_call
     format_s).

(** A loop that comes to its end has appended one entry per convertible
    mol-block to every list (to the coordinates only with conformers). *)
Lemma attributes_loop_Ok (ah hc : bool) (nodes edges graph : list string) (i : nat)
    (mols : list string) (a a' : attribute_lists Coord Feat Obj) :
  attributes_loop' ah hc nodes edges graph mols a = Ok a' ->
  let mgs := (convertible from_mol_block ah i mols).*2 in
  l_node_symbol a' = l_node_symbol a ++ map mg_node_symbol mgs
  /\ l_node_number a' = l_node_number a ++ map mg_node_number mgs
  /\ exists ga na ea ei nc,
       l_graph_attributes a' = l_graph_attributes a ++ ga
       /\ l_node_attributes a' = l_node_attributes a ++ na
       /\ l_edge_attributes a' = l_edge_attributes a ++ ea
       /\ l_edge_indices a' = l_edge_indices a ++ ei
       /\ l_node_coordinates a' = l_node_coordinates a ++ nc
       /\ length ga = length mgs /\ length na = length mgs
       /\ length ea = length mgs /\ length ei = length mgs
       /\ length nc = (if hc then length mgs else 0%nat).
Proof.
  revert i a. induction mols as [|x mols IH]; intros i a Hrun; simpl in Hrun.
  - inversion Hrun; subst a'. simpl. rewrite !app_nil_r. split; [done|]. split; [done|].
    exists [], [], [], [], []. rewrite !app_nil_r. by destruct hc.
  - rewrite convertible_cons.
    destruct (from_mol_block ah x) as [[mg|]|] eqn:Hx; simpl in Hrun; [| |done].
    + destruct (node_attributes_of ah x nodes (l_encoders a)) as [[na enc1]|];
        simpl in Hrun; [|done].
      destruct (edge_attributes_of ah x edges enc1) as [[ea enc2]|];
        simpl in Hrun; [|done].
      destruct (edge_indices_of ah x) as [ei|]; simpl in Hrun; [|done].
      destruct (graph_attributes_of ah x graph enc2) as [[ga enc3]|];
        simpl in Hrun; [|done].
      destruct hc; simpl in Hrun.
      * destruct (float32 (mg_node_coordinates mg)) as [c|]; simpl in Hrun; [|done].
        destruct (IH (S i) _ Hrun)
          as (Hs & Hn & gas & nas & eas & eis & ncs & H1 & H2 & H3 & H4 & H5 & L1 & L2
              & L3 & L4 & L5).
        simpl in *. rewrite Hs, Hn, <- !app_assoc. split; [done|]. split; [done|].
        exists (ga :: gas), (na :: nas), (ea :: eas), (ei :: eis), (c :: ncs).
        rewrite H1, H2, H3, H4, H5, <- !app_assoc. simpl.
        rewrite L1, L2, L3, L4, L5. done.
      * destruct (IH (S i) _ Hrun)
          as (Hs & Hn & gas & nas & eas & eis & ncs & H1 & H2 & H3 & H4 & H5 & L1 & L2
              & L3 & L4 & L5).
        simpl in *. rewrite Hs, Hn, <- !app_assoc. split; [done|]. split; [done|].
        exists (ga :: gas), (na :: nas), (ea :: eas), (ei :: eis), ncs.
        rewrite H1, H2, H3, H4, H5, <- !app_assoc. simpl.
        rewrite L1, L2, L3, L4. done.
    + simpl. by apply IH.
Qed.

(** The encoders and the lists that the loop is run with and gives. *)
Definition attribute_run (nodes edges graph : option (list string))
    (encoder_nodes' encoder_edges' encoder_graph'
       : option (list (string * identifier Obj Config)))
    (ah hc : bool) (mols : list string) : result (attribute_lists Coord Feat Obj) :=
  en ← deserialize_items from_config has_call format_s
          (default (default_encoder_nodes OneHotEncoder) encoder_nodes');
  ee ← deserialize_items from_config has_call format_s
          (default (default_encoder_edges OneHotEncoder) encoder_edges');
  eg ← deserialize_items from_config has_call format_s
          (default default_encoder_graph encoder_graph');
  attributes_loop' ah hc (default default_nodes nodes) (default default_edges edges)
    (default default_graph graph) mols
    (mkLists [] [] [] [] [] [] [] (mkEncoders en ee eg)).

(** The run of [set_attributes]. *)
Lemma set_attributes_run (self : molnet Coord Feat) w nodes edges graph en ee eg ah hc :
  set_attributes' nodes edges graph en ee eg ah hc (self, w)
  = match data_directory (base self) with
    | None =>
        (Raise (TypeError "expected str, bytes or os.PathLike object, not NoneType"),
         (self, w))
    | Some dir =>
        match fs w !! path_join dir mol_filename with
        | None =>
            (Raise (FileNotFoundError
               ("ERROR:kgcnn: Can not load molecules for dataset "
                  +:+ default "None" (dataset_name (base self)))), (self, w))
        | Some (JsonFile mols) =>
            match attribute_run nodes edges graph en ee eg ah hc mols with
            | Ok a => set_attribute_lists a (self, w)
            | Raise e => (Raise e, (self, w))
            end
        | Some _ =>
            (Raise (ValueError "Expecting value: line 1 column 1 (char 0)"), (self, w))
        end
    end.
Proof.
  unfold set_attributes, attribute_run.
  destruct self as [[f d n o] keys a1 a2 a3 a4 a5 a6 a7 a8 a9 a10 a11].
  destruct w as [wfs wlog].
  unfold mbind at 1 2 3, M2_bind, lift, get_self, os_path_join, os_path_exists,
    with_base. simpl.
  destruct d as [dir|]; simpl; [|done].
  destruct (wfs !! path_join dir mol_filename) as [[| mols |]|] eqn:Hmol; simpl;
    unfold load_json_file, mbind, M2_bind, lift_result; simpl; rewrite ?Hmol; try done.
  destruct (deserialize_items _ _ _ (default _ en)); simpl; [|done].
  destruct (deserialize_items _ _ _ (default _ ee)); simpl; [|done].
  destruct (deserialize_items _ _ _ (default _ eg)); simpl; [|done].
  by destruct (attributes_loop _ _ _ _ _ _ _ _ _ _ _ _ _).
Qed.

(** What [set_attributes] has assigned when it returns. *)
Lemma set_attributes_Ok (self self1 : molnet Coord Feat) w w1 nodes edges graph en ee eg
    ah hc :
  set_attributes' nodes edges graph en ee eg ah hc (self, w) = (Ok tt, (self1, w1)) ->
  exists dir mols ga na ea ei nc,
    data_directory (base self) = Some dir
    /\ fs w !! path_join dir mol_filename = Some (JsonFile mols)
    /\ w1 = w
    /\ let mgs := (convertible from_mol_block ah 0 mols).*2 in
       self1 = mkMolnet (base self) (data_keys self)
                 (Some (map mg_node_symbol mgs)) (Some nc)
                 (Some (map mg_node_number mgs)) (Some (map length na)) (Some ei)
                 (self_length self) (graph_labels self) (edge_number self)
                 (Some ga) (Some na) (Some ea)
       /\ length ga = length mgs /\ length na = length mgs
       /\ length ea = length mgs /\ length ei = length mgs
       /\ length nc = (if hc then length mgs else 0%nat).
Proof.
  rewrite set_attributes_run. intros Hrun.
  destruct (data_directory (base self)) as [dir|]; [|done].
  destruct (fs w !! path_join dir mol_filename) as [[| mols |]|] eqn:Hmol; try done.
  destruct (attribute_run nodes edges graph en ee eg ah hc mols) as [a|] eqn:Ha; [|done].
  unfold attribute_run in Ha.
  destruct (deserialize_items _ _ _ (default _ en)); simpl in Ha; [|done].
  destruct (deserialize_items _ _ _ (default _ ee)); simpl in Ha; [|done].
  destruct (deserialize_items _ _ _ (default _ eg)); simpl in Ha; [|done].
  destruct (attributes_loop_Ok ah hc _ _ _ 0 mols _ a Ha)
    as (Hs & Hn & ga & na & ea & ei & nc & H1 & H2 & H3 & H4 & H5 & L1 & L2 & L3 & L4
        & L5).
  simpl in *. unfold set_attribute_lists in Hrun. simpl in Hrun.
  inversion Hrun; subst self1 w1.
  exists dir, mols, ga, na, ea, ei, nc.
  rewrite Hs, Hn, H1, H2, H3, H4, H5. done.
Qed.

(** X25. When [set_attributes] returns, every list it has assigned has one
    entry for each mol-block of [mol.json] that the toolkit can convert, in
    their order: [node_symbol] and [node_number] are those of the converted
    molecules, [graph_size] holds the lengths of the node attributes, and
    [node_coordinates] is a list also without conformers (the empty one).
    The attributes [length], [graph_labels], [edge_number], [data_keys]
    and the base attributes keep their values, and the world is
    unchanged. *)
Theorem set_attributes_lists (self self1 : molnet Coord Feat) w w1 nodes edges graph
    en ee eg ah hc :
  set_attributes' nodes edges graph en ee eg ah hc (self, w) = (Ok tt, (self1, w1)) ->
  exists dir mols ga na ea ei nc,
    data_directory (base self) = Some dir
    /\ fs w !! path_join dir mol_filename = Some (JsonFile mols)
    /\ w1 = w
    /\ let mgs := (convertible from_mol_block ah 0 mols).*2 in
       self1 = mkMolnet (base self) (data_keys self)
                 (Some (map mg_node_symbol mgs)) (Some nc)
                 (Some (map mg_node_number mgs)) (Some (map length na)) (Some ei)
                 (self_length self) (graph_labels self) (edge_number self)
                 (Some ga) (Some na) (Some ea)
       /\ length ga = length mgs /\ length na = length mgs
       /\ length ea = length mgs /\ length ei = length mgs
       /\ length nc = (if hc then length mgs else 0%nat).
Proof. apply set_attributes_Ok. Qed.

Lemma deserialize_items_uncallable (items : list (string * identifier Obj Config))
    (k : string) (o : Obj) :
  (k, IdObject o) ∈ items -> has_call o = false ->
  exists e, deserialize_items from_config has_call format_s items = Raise e.
Proof.
  intros Hin Hcall. induction items as [|kv items IH]; [by apply elem_of_nil in Hin|].
  unfold deserialize_items in *. simpl.
  destruct (_deserialize_encoder from_config has_call format_s kv.2) as [v|e] eqn:Hd;
    simpl; [|eauto].
  apply elem_of_cons in Hin as [<-|Hin].
  - simpl in Hd. rewrite Hcall in Hd. by destruct (format_s o).
  - destruct (IH Hin) as [e He]. rewrite He. simpl. eauto.
Qed.

(** X26. [set_attributes] assigns all its attributes or none, and never
    touches the world: a call that raises leaves the dataset object as it
    was.  It raises [TypeError] without a data directory and
    [FileNotFoundError] without [mol.json]; and with [mol.json] in place,
    an object in [encoder_nodes] that is neither a dictionary nor callable
    makes the call raise whatever the molecules are. *)
Theorem set_attributes_all_or_nothing (self : molnet Coord Feat) w nodes edges graph
    en ee eg ah hc :
  let run := set_attributes' nodes edges graph en ee eg ah hc (self, w) in
  (exists r s', run = (r, (s', w)) /\ (forall e, r = Raise e -> s' = self))
  /\ (data_directory (base self) = None ->
      exists msg, run = (Raise (TypeError msg), (self, w)))
  /\ (forall dir, data_directory (base self) = Some dir ->
        fs w !! path_join dir mol_filename = None ->
        exists msg, run = (Raise (FileNotFoundError msg), (self, w)))
  /\ (forall dir mols items k o,
        data_directory (base self) = Some dir ->
        fs w !! path_join dir mol_filename = Some (JsonFile mols) ->
        en = Some items -> (k, IdObject o) ∈ items -> has_call o = false ->
        exists e, run = (Raise e, (self, w))).
Proof.
  intros run. subst run. rewrite set_attributes_run. split; [|split; [|split]].
  - destruct (data_directory (base self)) as [dir|]; [|by eauto].
    destruct (fs w !! path_join dir mol_filename) as [[| mols |]|]; try by eauto.
    destruct (attribute_run nodes edges graph en ee eg ah hc mols) as [a|e]; [|by eauto].
    unfold set_attribute_lists. simpl. do 2 eexists. split; [reflexivity|done].
  - intros ->. eauto.
  - intros dir -> ->. eauto.
  - intros dir mols items k o -> -> -> Hin Hcall.
    unfold attribute_run. simpl.
    destruct (deserialize_items_uncallable items k o Hin Hcall) as [e ->]. simpl. eauto.
Qed.

(** X27. The encoder dictionaries after deserialization have the keys of the
    identifiers in their order.  A callable object is its own encoder; a
    dictionary of class [OneHotEncoder] gives [from_config] of its
    [config]; and a dictionary of any other class is not rejected: its
    encoder is [None]. *)
Theorem deserialize_items_encoders (items : list (string * identifier Obj Config))
    (encoders : list (string * option Obj)) :
  deserialize_items from_config has_call format_s items = Ok encoders ->
  Forall2 (fun (kv : string * identifier Obj Config) (ke : string * option Obj) =>
      ke.1 = kv.1
      /\ match kv.2 with
         | IdObject o => has_call o = true /\ ke.2 = Some o
         | IdDict d =>
             exists class_name, items_get d "class_name" = Some class_name
               /\ if equals_str class_name "OneHotEncoder"
                  then exists config o, items_get d "config" = Some config
                         /\ from_config config = Ok o /\ ke.2 = Some o
                  else ke.2 = None
         end)
    items encoders.
Proof.
  revert encoders. induction items as [|[k id] items IH]; intros encoders Hd;
    unfold deserialize_items in *; simpl in Hd.
  - inversion Hd. constructor.
  - destruct (_deserialize_encoder from_config has_call format_s id) as [v|] eqn:Hid;
      simpl in Hd; [|done].
    destruct (mapM _ items) as [rest|] eqn:Hrest; simpl in Hd; [|done].
    inversion Hd; subst encoders. constructor; [|by apply IH].
    simpl. split; [done|]. destruct id as [d|o]; simpl in Hid.
    + destruct (items_get d "class_name") as [cn|]; [|done].
      exists cn. split; [done|].
      destruct (equals_str cn "OneHotEncoder").
      * destruct (items_get d "config") as [c|]; [|done].
        destruct (from_config c) as [o|] eqn:Hc; simpl in Hid; [|done].
        inversion Hid. eauto.
      * by inversion Hid.
    + destruct (has_call o); [by inversion Hid|]. by destruct (format_s o).
Qed.

(** X28. [read_in_memory] and [set_attributes] called with the same
    [add_hydrogen] keep the dataset aligned.  When both return, the labels
    that [read_in_memory] stored and the attributes that [set_attributes]
    made belong to the same molecules: there are as many node attributes as
    labels, namely [length] many, and [set_attributes] has assigned the
    node symbols and node numbers again that [read_in_memory] had read. *)
Theorem read_then_set_attributes (self s1 s2 : molnet Coord Feat) w w1 w2 fn dd dn hc
    label ah nodes edges graph en ee eg hc' :
  read_in_memory from_mol_block fn dd dn hc label ah (self, w) = (Ok tt, (s1, w1)) ->
  set_attributes' nodes edges graph en ee eg ah hc' (s1, w1) = (Ok tt, (s2, w2)) ->
  exists labs na,
    graph_labels s2 = Some labs /\ node_attributes s2 = Some na
    /\ length na = length labs
    /\ self_length s2 = Some (length na)
    /\ graph_size s2 = Some (map length na)
    /\ node_symbol s2 = node_symbol s1
    /\ node_number s2 = node_number s1
    /\ edge_number s2 = edge_number s1.
Proof.
  intros Hread Hset.
  destruct (read_in_memory_Ok from_mol_block self s1 w w1 fn dd dn hc label ah Hread)
    as (dir & mols & labs & Hdir & Hmol & Hfs & Hsym & Hnum & Hlen & Hlabs & Hlabs_len).
  destruct (set_attributes_Ok s1 s2 w1 w2 nodes edges graph en ee eg ah hc' Hset)
    as (dir' & mols' & ga & na & ea & ei & nc & Hdir' & Hmol' & _ & Hs2 & _ & Lna & _).
  rewrite Hdir in Hdir'. inversion Hdir'; subst dir'.
  rewrite Hfs, Hmol in Hmol'. inversion Hmol'; subst mols'.
  exists labs, na. rewrite Hs2. simpl.
  rewrite Hlabs, Hlen, Hsym, Hnum, Lna, Hlabs_len. done.
Qed.

End SetAttributesProofs.

(** A toolkit for examples: every molecule has one node with one feature,
    and an encoder is given by its name. *)
Definition example_attributes (add_hydrogen : bool) (x : string) (names : list string)
    (enc : encoder_dicts string) : result (list (list Z) * encoder_dicts string) :=
  Ok ([[1]], enc).

Definition example_graph_attributes (add_hydrogen : bool) (x : string)
    (names : list string) (enc : encoder_dicts string)
    : result (list Z * encoder_dicts string) :=
  Ok ([1], enc).

Definition example_set_attributes (nodes edges graph : option (list string))
    (encoder_nodes' encoder_edges' encoder_graph'
       : option (list (string * identifier string unit)))
    (add_hydrogen has_conformers : bool) : M2 (Coord := unit) (Feat := Z) unit :=
  set_attributes example_toolkit example_attributes example_attributes
    example_graph_attributes (fun _ _ => Ok [(0, 0)]) (fun c => Ok c)
    (fun _ _ _ => "OneHotEncoder") (fun _ => Ok "OneHotEncoder")
    (String.eqb "OneHotEncoder") (fun o => Ok o)
    nodes edges graph encoder_nodes' encoder_edges' encoder_graph'
    add_hydrogen has_conformers.

(** A dataset object with a data directory, and its [mol.json]. *)
Definition example_directory : molnet unit Z * world :=
  (with_base example_dataset (mkDataset None (Some "data") None ∅) None,
   mkWorld {[ "data/mol.json" := JsonFile ["C"; "bad"; "O"] ]} []).

(** Two of three mol-blocks can be converted. *)
Lemma set_attributes_lists_witness :
  let run := example_set_attributes None None None None None None false false
               example_directory in
  run.1 = Ok tt
  /\ exists na, node_attributes run.2.1 = Some na /\ length na = 2%nat
       /\ node_coordinates run.2.1 = Some [].
Proof.
  intros run. split; [vm_compute; reflexivity|].
  destruct (set_attributes_lists example_toolkit example_attributes example_attributes
              example_graph_attributes (fun _ _ => Ok [(0, 0)]) (fun c => Ok c)
              (fun _ _ _ => "OneHotEncoder") (fun _ : dictval unit => Ok "OneHotEncoder")
              (String.eqb "OneHotEncoder") (fun o => Ok o)
              example_directory.1 run.2.1 example_directory.2 run.2.2
              None None None None None None false false)
    as (dir & mols & ga & na & ea & ei & nc & Hdir & Hmol & _ & Hs & _ & Lna & _ & _ & Lnc).
  - vm_compute. reflexivity.
  - simpl in Hdir. inversion Hdir; subst dir.
    vm_compute in Hmol. inversion Hmol; subst mols.
    exists na. rewrite Hs. simpl. split; [done|]. split; [exact Lna|].
    simpl in Lnc. by destruct nc.
Defined.

(** An encoder by name and a dictionary of a class that is not known. *)
Lemma deserialize_items_encoders_witness :
  Forall2 (fun (kv : string * identifier string unit) (ke : string * option string) =>
      ke.1 = kv.1
      /\ match kv.2 with
         | IdObject o => String.eqb "OneHotEncoder" o = true /\ ke.2 = Some o
         | IdDict d =>
             exists class_name, items_get d "class_name" = Some class_name
               /\ if equals_str class_name "OneHotEncoder"
                  then exists config o, items_get d "config" = Some config
                         /\ Ok "OneHotEncoder" = Ok o /\ ke.2 = Some o
                  else ke.2 = None
         end)
    [("Symbol", IdObject "OneHotEncoder");
     ("Charge", IdDict [("class_name", DStr "MinMaxEncoder")])]
    [("Symbol", Some "OneHotEncoder"); ("Charge", None)].
Proof.
  apply (deserialize_items_encoders (fun _ : dictval unit => Ok "OneHotEncoder")
           (String.eqb "OneHotEncoder") (fun o => Ok o)).
  vm_compute. reflexivity.
Defined.

(** Reading and then making the attributes, both without hydrogens. *)
Lemma read_then_set_attributes_witness :
  let csv := CsvFile [("smiles", ["C"; "?"; "O"]); ("exp", ["0.1"; "0.2"; "0.3"])] in
  let w0 := mkWorld {[ "data/Lipop.csv" := csv;
                       "data/mol.json" := JsonFile ["C"; "bad"; "O"] ]} [] in
  let read := read_in_memory example_toolkit (Some "Lipop.csv") (Some "data") None true
                (LabelStr "exp") false (example_dataset, w0) in
  let run := example_set_attributes None None None None None None false true read.2 in
  exists labs na,
    graph_labels run.2.1 = Some labs /\ node_attributes run.2.1 = Some na
    /\ length na = length labs.
Proof.
  intros csv w0 read run.
  destruct (read_then_set_attributes example_toolkit example_attributes
              example_attributes example_graph_attributes (fun _ _ => Ok [(0, 0)])
              (fun c => Ok c) (fun _ _ _ => "OneHotEncoder")
              (fun _ : dictval unit => Ok "OneHotEncoder")
              (String.eqb "OneHotEncoder") (fun o => Ok o)
              example_dataset read.2.1 run.2.1 w0 read.2.2 run.2.2
              (Some "Lipop.csv") (Some "data") None true (LabelStr "exp") false
              None None None None None None true)
    as (labs & na & Hl & Hn & Hlen & _).
  - vm_compute. reflexivity.
  - vm_compute. reflexivity.
  - exists labs, na. done.
Defined.

(** With the default values of [add_hydrogen], [True] in [read_in_memory]
    and [False] in [set_attributes], a toolkit that converts a mol-block
    only with hydrogens leaves one attribute row for two labels. *)
Example read_then_set_attributes_defaults :
  let toolkit := fun (add_hydrogen : bool) (x : string) =>
    if negb add_hydrogen && String.eqb x "H" then Ok None
    else example_toolkit add_hydrogen x in
  let csv := CsvFile [("smiles", ["C"; "[H]"]); ("exp", ["0.1"; "0.2"])] in
  let w0 := mkWorld {[ "data/Lipop.csv" := csv;
                       "data/mol.json" := JsonFile ["C"; "H"] ]} [] in
  let read := read_in_memory toolkit (Some "Lipop.csv") (Some "data") None true
                (LabelStr "exp") true (example_dataset, w0) in
  let run := set_attributes toolkit example_attributes example_attributes
               example_graph_attributes (fun _ _ => Ok [(0, 0)]) (fun c => Ok c)
               (fun _ _ _ => "OneHotEncoder")
               (fun _ : dictval unit => Ok "OneHotEncoder")
               (String.eqb "OneHotEncoder") (fun o => Ok o)
               None None None None None None false true read.2 in
  run.1 = Ok tt
  /\ graph_labels run.2.1 = Some [["0.1"]; ["0.2"]]
  /\ node_attributes run.2.1 = Some [[[1]]].
Proof. vm_compute. repeat split; reflexivity. Qed.
End MoleculeNet.
(** ** [kgcnn/scaler/scaler.py] *)

Module Scaler.

(** *** Python values *)

(** The values a scaler holds and a json file stores.  A numpy array is
    given by its [tolist()] content; its [dtype] is not modelled. *)
#[local] Set Warnings "-register-all".
Inductive pyval : Type :=
  | PNone
  | PBool (b : bool)
  | PInt (z : Z)
  | PFloat (f : Adj.npfloat)
  | PStr (s : string)
  | PList (l : list pyval)
  | PDict (d : list (string * pyval))
  | PArray (content : pyval).
#[local] Set Warnings "register-all".

(** [np.array(value)] and [ndarray.tolist()] *)
Definition np_array (value : pyval) : pyval :=
  match value with
  | PArray c => PArray c
  | _ => PArray value
  end.

Definition tolist (a : pyval) : pyval :=
  match a with
  | PArray c => c
  | _ => a
  end.

(** Python dictionaries keep the order of insertion: association lists
    with distinct keys. *)
Fixpoint dict_set (d : list (string * pyval)) (k : string) (v : pyval)
    : list (string * pyval) :=
  match d with
  | [] => [(k, v)]
  | (k', v') :: d' =>
      if String.eqb k' k then (k, v) :: d' else (k', v') :: dict_set d' k v
  end.

Fixpoint dict_get (d : list (string * pyval)) (k : string) : option pyval :=
  match d with
  | [] => None
  | (k', v) :: d' => if String.eqb k' k then Some v else dict_get d' k
  end.

(** [d[k]] on any value: a missing key is a [KeyError], subscripting a
    value that is no dictionary a [TypeError]. *)
Definition getitem (v : pyval) (k : string) : result pyval :=
  match v with
  | PDict d =>
      match dict_get d k with Some x => Ok x | None => Raise (KeyError k) end
  | _ => Raise (TypeError "object is not subscriptable")
  end.

(** What [json.dump] accepts: no numpy arrays anywhere. *)
Fixpoint json_ok (v : pyval) : bool :=
  match v with
  | PArray _ => false
  | PList l => forallb json_ok l
  | PDict d => forallb (fun kv => json_ok (snd kv)) d
  | _ => true
  end.

(** *** Paths and files *)

(** [os.path.splitext(p)[0]] on a POSIX path: the extension starts at the
    last dot of the last component, leading dots of that component apart. *)
Fixpoint rfind (c : ascii) (l : list ascii) (i : Z) (last : Z) : Z :=
  match l with
  | [] => last
  | x :: l' => rfind c l' (i + 1) (if Ascii.eqb x c then i else last)
  end.

Definition splitext_root (p : string) : string :=
  let chars := list_ascii_of_string p in
  let sepIndex := rfind "/"%char chars 0 (-1) in
  let dotIndex := rfind "."%char chars 0 (-1) in
  if (dotIndex >? sepIndex)
     && existsb (fun x => negb (Ascii.eqb x "."%char))
          (slice (sepIndex + 1) dotIndex chars)
  then string_of_list_ascii (slice 0 dotIndex chars)
  else p.

(** The json files on disk, each with the value it stores. *)
Abbreviation filesystem := (gmap string pyval).

(** Modelled from the spec: [kgcnn.data.utils.save_json_file] and
    [load_json_file] are not among the sources; they are taken to be
    [json.dump] to and [json.load] from the file at the given path. *)
Definition save_json_file (obj : pyval) (path : string) (fs : filesystem)
    : result filesystem :=
  if json_ok obj then Ok (<[path := obj]> fs)
  else Raise (TypeError "Object of type ndarray is not JSON serializable").

Definition load_json_file (path : string) (fs : filesystem) : result pyval :=
  match fs !! path with
  | Some obj => Ok obj
  | None => Raise (FileNotFoundError path)
  end.

(** *** The scaler object *)

(** A scaler: its class, the three constructor parameters and the
    attributes set by fitting (or by hand). *)
Record scaler : Type := mkScaler {
  class_name : string;
  copy : pyval;
  with_mean : pyval;
  with_std : pyval;
  attributes : gmap string pyval
}.

Definition module_name : string := "kgcnn.scaler.scaler".

(** [__init__(copy=True, with_mean=True, with_std=True)] *)
Definition init (cls : string) : scaler :=
  mkScaler cls (PBool true) (PBool true) (PBool true) ∅.

Definition _attributes_list_sklearn : list string :=
  ["n_features_in_"; "mean_"; "scale_"; "var_"; "feature_names_in_"; "n_samples_seen_"].

(** [get_config]: sklearn's [get_params()], the parameters by name. *)
Definition get_config (self : scaler) : pyval :=
  PDict [("copy", copy self); ("with_mean", with_mean self); ("with_std", with_std self)].

(** [set_config]: sklearn's [set_params] on the entries of [config], which
    sets the named parameters in order and rejects any other name. *)
Fixpoint set_params (self : scaler) (params : list (string * pyval)) : result scaler :=
  match params with
  | [] => Ok self
  | (k, v) :: params' =>
      if String.eqb k "copy" then
        set_params (mkScaler (class_name self) v (with_mean self) (with_std self)
                      (attributes self)) params'
      else if String.eqb k "with_mean" then
        set_params (mkScaler (class_name self) (copy self) v (with_std self)
                      (attributes self)) params'
      else if String.eqb k "with_std" then
        set_params (mkScaler (class_name self) (copy self) (with_mean self) v
                      (attributes self)) params'
      else Raise (ValueError "Invalid parameter for estimator")
  end.

Definition set_config (self : scaler) (config : pyval) : result scaler :=
  match config with
  | PDict params => set_params self params
  | _ => Raise (TypeError "argument must be a mapping")
  end.

(** [get_weights] *)
Definition get_weights (self : scaler) : list (string * pyval) :=
  foldl (fun weight_dict x =>
           match attributes self !! x with
           | Some value =>
               let value_update :=
                 match value with
                 | PNone => value
                 | _ => tolist (np_array value)
                 end in
               dict_set weight_dict x value_update
           | None => weight_dict
           end) [] _attributes_list_sklearn.

(** [set_weights]; the warning for an unknown name is not recorded. *)
Definition set_weights_items (self : scaler) (items : list (string * pyval)) : scaler :=
  foldl (fun self kv =>
           if bool_decide (kv.1 ∈ _attributes_list_sklearn) then
             mkScaler (class_name self) (copy self) (with_mean self) (with_std self)
               (<[kv.1 := np_array kv.2]> (attributes self))
           else self) self items.

Definition set_weights (self : scaler) (weights : pyval) : result scaler :=
  match weights with
  | PDict items => Ok (set_weights_items self items)
  | _ => Raise (AttributeError "items")
  end.

(** [save] and [load] *)
Definition save (self : scaler) (file_path : string) (fs : filesystem)
    : result filesystem :=
  let conf := get_config self in
  let weights := PDict (get_weights self) in
  let full_info := PDict [("class_name", PStr (class_name self));
                          ("module_name", PStr module_name);
                          ("config", conf); ("weights", weights)] in
  save_json_file full_info (splitext_root file_path +:+ ".json") fs.

Definition load (self : scaler) (file_path : string) (fs : filesystem)
    : result scaler :=
  full_info ← load_json_file file_path fs;
  config ← getitem full_info "config";
  self ← set_config self config;
  weights ← getitem full_info "weights";
  set_weights self weights.

(** *** The scaling of sklearn's [StandardScaler] *)

(** Python's truth value of a parameter; an array with several entries has
    none. *)
Definition truthy (v : pyval) : result bool :=
  match v with
  | PNone => Ok false
  | PBool b => Ok b
  | PInt z => Ok (negb (z =? 0))
  | PFloat (Adj.Fin q) => Ok (negb (Qnum q =? 0))
  | PFloat _ => Ok true
  | PStr s => Ok (negb (String.eqb s ""))
  | PList l => Ok (negb (bool_decide (length l = 0%nat)))
  | PDict d => Ok (negb (bool_decide (length d = 0%nat)))
  | PArray _ => Raise (ValueError "The truth value of an array is ambiguous")
  end.

Definition getattr (self : scaler) (name : string) : result pyval :=
  match attributes self !! name with
  | Some v => Ok v
  | None => Raise (AttributeError name)
  end.

Fixpoint ends_with_underscore (s : string) : bool :=
  match s with
  | EmptyString => false
  | String c EmptyString => Ascii.eqb c "_"%char
  | String _ s' => ends_with_underscore s'
  end.

(** sklearn's [check_is_fitted]: some attribute is set whose name ends with
    an underscore and does not start with two. *)
Definition fitted_name (name : string) : bool :=
  ends_with_underscore name && negb (String.prefix "__" name).

Definition check_is_fitted (self : scaler) : result unit :=
  if existsb fitted_name (map_to_list (attributes self)).*1 then Ok tt
  else Raise (ValueError "NotFittedError: this instance is not fitted yet").

(** State-passing methods: the scaler after the call comes with the result. *)
Definition SM (A : Type) : Type := scaler -> result A * scaler.

#[global] Instance SM_ret : MRet SM := fun A a s => (Ok a, s).
#[global] Instance SM_bind : MBind SM := fun A B f m s =>
  match m s with
  | (Ok a, s') => f a s'
  | (Raise e, s') => (Raise e, s')
  end.

Definition delattr (name : string) : SM unit := fun self =>
  match attributes self !! name with
  | Some _ => (Ok tt, mkScaler (class_name self) (copy self) (with_mean self)
                        (with_std self) (delete name (attributes self)))
  | None => (Raise (AttributeError name), self)
  end.

(** sklearn's [_reset]: forget the fitted statistics. *)
Definition sk_reset : SM unit := fun self =>
  match attributes self !! "scale_" with
  | Some _ =>
      (_ ← delattr "scale_"; _ ← delattr "n_samples_seen_";
       _ ← delattr "mean_"; delattr "var_") self
  | None => (Ok tt, self)
  end.

Section Sklearn.

(** The arithmetic of numpy arrays and the statistics of sklearn's
    [partial_fit(X, y, sample_weight)] are taken as given. *)
Variables arr_sub arr_div arr_mul arr_add : pyval -> pyval -> result pyval.
Variable sk_partial_fit : pyval -> pyval -> pyval -> SM unit.

(** sklearn's [transform(X, copy)] and [inverse_transform(X, copy)] on dense
    input. *)
Definition sk_transform (self : scaler) (X copy : pyval) : result pyval :=
  _ ← check_is_fitted self;
  wm ← truthy (with_mean self);
  X ← (if wm : bool then m ← getattr self "mean_"; arr_sub X m else Ok X);
  ws ← truthy (with_std self);
  if ws : bool then sc ← getattr self "scale_"; arr_div X sc else Ok X.

Definition sk_inverse_transform (self : scaler) (X copy : pyval) : result pyval :=
  _ ← check_is_fitted self;
  ws ← truthy (with_std self);
  X ← (if ws : bool then sc ← getattr self "scale_"; arr_mul X sc else Ok X);
  wm ← truthy (with_mean self);
  if wm : bool then m ← getattr self "mean_"; arr_add X m else Ok X.

(** sklearn's [fit(X, y, sample_weight)]: reset, then [partial_fit]. *)
Definition sk_fit (X y sample_weight : pyval) : SM unit :=
  _ ← sk_reset; sk_partial_fit X y sample_weight.

(** *** [StandardScaler] *)

Definition StandardScaler_fit (X y sample_weight atomic_number : pyval) : SM unit :=
  sk_fit X y sample_weight.
Definition StandardScaler_partial_fit (X y sample_weight atomic_number : pyval)
    : SM unit :=
  sk_partial_fit X y sample_weight.
Definition StandardScaler_transform (self : scaler) (X copy atomic_number : pyval)
    : result pyval :=
  sk_transform self X copy.
Definition StandardScaler_inverse_transform (self : scaler)
    (X copy atomic_number : pyval) : result pyval :=
  sk_inverse_transform self X copy.

(** *** [StandardLabelScaler] *)

Definition _assert_has_y (y : pyval) : SM unit := fun self =>
  match y with
  | PNone =>
      (Raise (ValueError ("Require labels in `y` for `" +:+ class_name self
                          +:+ "`. Input must be e.g. 'fit(y=data)'.")), self)
  | _ => (Ok tt, self)
  end.

Definition StandardLabelScaler_partial_fit (y X sample_weight atomic_number : pyval)
    : SM unit :=
  _ ← _assert_has_y y;
  (* just changing order of x, y here *)
  sk_partial_fit y PNone sample_weight.

Definition StandardLabelScaler_fit (y X sample_weight atomic_number : pyval)
    : SM unit :=
  _ ← _assert_has_y y;
  _ ← sk_reset;
  StandardLabelScaler_partial_fit y X sample_weight PNone.

Definition StandardLabelScaler_transform (self : scaler)
    (y X copy atomic_number : pyval) : result pyval :=
  sk_transform self y copy.

Definition StandardLabelScaler_inverse_transform (self : scaler)
    (X y copy atomic_number : pyval) : result pyval :=
  sk_inverse_transform self y copy.

End Sklearn.

(** *** [StandardLabelScaler] scales the labels *)

Section LabelScalerProofs.

Variables arr_sub arr_div arr_mul arr_add : pyval -> pyval -> result pyval.
Variable sk_partial_fit : pyval -> pyval -> pyval -> SM unit.

(** C7. [StandardLabelScaler.fit] and [partial_fit] raise [ValueError] when
    the label argument [y] is [None] and leave the scaler as it was; with a
    [y] they fit on [y] (sklearn's [fit] and [partial_fit] with [y] in the
    place of [X]) whatever [X] is, and [transform] and [inverse_transform]
    scale their [y] argument. *)
Theorem StandardLabelScaler_requires_y (self : scaler)
    (X sample_weight atomic_number copy : pyval) :
  (exists msg,
     StandardLabelScaler_fit sk_partial_fit PNone X sample_weight atomic_number self
     = (Raise (ValueError msg), self))
  /\ (exists msg,
     StandardLabelScaler_partial_fit sk_partial_fit PNone X sample_weight
       atomic_number self
     = (Raise (ValueError msg), self))
  /\ (forall y, y <> PNone ->
        StandardLabelScaler_partial_fit sk_partial_fit y X sample_weight
          atomic_number self
        = sk_partial_fit y PNone sample_weight self
        /\ StandardLabelScaler_fit sk_partial_fit y X sample_weight atomic_number self
        = sk_fit sk_partial_fit y PNone sample_weight self)
  /\ (forall y,
        StandardLabelScaler_transform arr_sub arr_div self y X copy atomic_number
        = sk_transform arr_sub arr_div self y copy
        /\ StandardLabelScaler_inverse_transform arr_mul arr_add self X y copy
             atomic_number
        = sk_inverse_transform arr_mul arr_add self y copy).
Proof.
  split; [|split; [|split]].
  - by eexists.
  - by eexists.
  - intros y Hy.
    assert (Hassert : forall s, _assert_has_y y s = (Ok tt, s))
      by (intros s; destruct y; done).
    split.
    + unfold StandardLabelScaler_partial_fit, mbind, SM_bind. by rewrite Hassert.
    + unfold StandardLabelScaler_fit, StandardLabelScaler_partial_fit, sk_fit,
        mbind, SM_bind.
      rewrite Hassert. destruct (sk_reset self) as [[[]|e] s']; [|done].
      by rewrite Hassert.
  - done.
Qed.

End LabelScalerProofs.

(** A label scaler whose [partial_fit] records the data it was given. *)
Lemma StandardLabelScaler_requires_y_witness :
  let record_fit := fun (X y w : pyval) (s : scaler) =>
    (Ok tt, mkScaler (class_name s) (copy s) (with_mean s) (with_std s)
              (<["mean_" := X]> (attributes s))) in
  let self := init "StandardLabelScaler" in
  let data := PArray (PList [PInt 1; PInt 3]) in
  (exists msg,
     StandardLabelScaler_fit record_fit PNone (PStr "ignored") PNone PNone self
     = (Raise (ValueError msg), self))
  /\ StandardLabelScaler_fit record_fit data (PStr "ignored") PNone PNone self
     = (Ok tt, mkScaler "StandardLabelScaler" (PBool true) (PBool true) (PBool true)
                 {[ "mean_" := data ]}).
Proof.
  intros record_fit self data.
  destruct (StandardLabelScaler_requires_y (fun _ _ => Ok PNone) (fun _ _ => Ok PNone)
              (fun _ _ => Ok PNone) (fun _ _ => Ok PNone) record_fit self
              (PStr "ignored") PNone PNone PNone) as (Hnone & _ & Hfit & _).
  split; [exact Hnone|].
  destruct (Hfit data ltac:(discriminate)) as [_ ->]. reflexivity.
Defined.

(** *** Saving and loading a scaler *)

Example splitext_root_examples :
  splitext_root "example.json" = "example"
  /\ splitext_root "out/scaler.v2/weights" = "out/scaler.v2/weights"
  /\ splitext_root "x.tar.gz" = "x.tar"
  /\ splitext_root "dir/.hidden" = "dir/.hidden"
  /\ splitext_root "scaler" = "scaler".
Proof. repeat split; reflexivity. Qed.

(** What [get_weights] stores for an attribute value. *)
Definition stored (value : pyval) : pyval :=
  match value with
  | PNone => value
  | _ => tolist (np_array value)
  end.

Lemma get_weights_omap (self : scaler) :
  get_weights self
  = omap (fun x => (fun v => (x, stored v)) <$> attributes self !! x)
      _attributes_list_sklearn.
Proof.
  unfold get_weights, _attributes_list_sklearn. simpl.
  destruct (attributes self !! "n_features_in_"), (attributes self !! "mean_"),
    (attributes self !! "scale_"), (attributes self !! "var_"),
    (attributes self !! "feature_names_in_"), (attributes self !! "n_samples_seen_");
    reflexivity.
Qed.

Lemma set_weights_items_config (s : scaler) items :
  class_name (set_weights_items s items) = class_name s
  /\ copy (set_weights_items s items) = copy s
  /\ with_mean (set_weights_items s items) = with_mean s
  /\ with_std (set_weights_items s items) = with_std s.
Proof.
  revert s. induction items as [|kv items IH]; intros s; [done|].
  unfold set_weights_items in *. simpl.
  destruct (bool_decide _); [|apply IH].
  destruct (IH (mkScaler (class_name s) (copy s) (with_mean s) (with_std s)
                  (<[kv.1 := np_array kv.2]> (attributes s)))) as (? & ? & ? & ?).
  done.
Qed.

Lemma set_weights_items_lookup (attrs : gmap string pyval) (names : list string)
    (s : scaler) (x : string) :
  NoDup names -> (forall n, n ∈ names -> n ∈ _attributes_list_sklearn) ->
  attributes (set_weights_items s
                (omap (fun n => (fun v => (n, stored v)) <$> attrs !! n) names)) !! x
  = match (if decide (x ∈ names) then attrs !! x else None) with
    | Some v => Some (np_array (stored v))
    | None => attributes s !! x
    end.
Proof.
  revert s. induction names as [|n names IH]; intros s Hnd Hin.
  - simpl. destruct (decide (x ∈ [])) as [H|_]; [by apply elem_of_nil in H|done].
  - apply NoDup_cons in Hnd as [Hn Hnd].
    assert (Hin' : forall m, m ∈ names -> m ∈ _attributes_list_sklearn)
      by (intros m Hm; apply Hin; by right).
    simpl. destruct (attrs !! n) as [v|] eqn:Hv; simpl.
    + unfold set_weights_items in *. simpl.
      rewrite bool_decide_eq_true_2 by (apply Hin; left).
      rewrite IH by done. simpl.
      destruct (decide (x ∈ names)) as [Hx|Hx].
      * destruct (decide (x ∈ n :: names)) as [_|Hx']; [|by (exfalso; apply Hx'; right)].
        destruct (attrs !! x); [done|].
        rewrite lookup_insert_ne; [done|]. intros ->. done.
      * destruct (decide (x = n)) as [->|Hne].
        -- destruct (decide (n ∈ n :: names)) as [_|Hx']; [|by (exfalso; apply Hx'; left)].
           by rewrite Hv, lookup_insert_eq.
        -- destruct (decide (x ∈ n :: names)) as [Hx'|_].
           { apply elem_of_cons in Hx' as [?|?]; done. }
           by rewrite lookup_insert_ne.
    + rewrite IH by done.
      destruct (decide (x ∈ names)) as [Hx|Hx].
      * destruct (decide (x ∈ n :: names)) as [_|Hx']; [done|by (exfalso; apply Hx'; right)].
      * destruct (decide (x ∈ n :: names)) as [Hx'|_]; [|done].
        apply elem_of_cons in Hx' as [->|?]; [|done]. by rewrite Hv.
Qed.

Lemma attributes_list_NoDup : NoDup _attributes_list_sklearn.
Proof.
  unfold _attributes_list_sklearn.
  repeat (apply NoDup_cons; split;
          [rewrite ?elem_of_cons, elem_of_nil; intros H; repeat destruct H as [H|H];
           discriminate || done|]).
  apply NoDup_nil. done.
Qed.

(** A scaler that [json.dump] can store: its parameters are plain values
    and its fitted attributes are [None], plain values or arrays of plain
    values. *)
Definition storable (self : scaler) : Prop :=
  json_ok (copy self) = true /\ json_ok (with_mean self) = true
  /\ json_ok (with_std self) = true
  /\ forall x v, x ∈ _attributes_list_sklearn -> attributes self !! x = Some v ->
       json_ok (stored v) = true.

(** A fitted scaler: [scale_] is set, and the statistics that the
    parameters switch on are arrays. *)
Definition fitted (self : scaler) : Prop :=
  is_Some (attributes self !! "scale_")
  /\ (truthy (with_mean self) = Ok true ->
      exists c, attributes self !! "mean_" = Some (PArray c))
  /\ (truthy (with_std self) = Ok true ->
      exists c, attributes self !! "scale_" = Some (PArray c)).

Lemma np_array_stored (v : pyval) :
  v <> PNone -> json_ok (stored v) = true -> np_array (stored v) = np_array v.
Proof. intros Hv Hj. destruct v; try done. simpl in *. by destruct v. Qed.

Lemma json_ok_get_weights (self : scaler) :
  storable self -> forallb (fun kv => json_ok (snd kv)) (get_weights self) = true.
Proof.
  intros (_ & _ & _ & Hattrs). rewrite get_weights_omap.
  apply forallb_forall. intros [k v] Hin.
  apply list_elem_of_In, list_elem_of_omap in Hin as (x & Hx & Hkv).
  destruct (attributes self !! x) as [w|] eqn:Hw; [|done].
  simpl in Hkv. inversion Hkv; subst. simpl. by eapply Hattrs.
Qed.

Lemma check_is_fitted_attribute (self : scaler) (k : string) (v : pyval) :
  attributes self !! k = Some v -> fitted_name k = true ->
  check_is_fitted self = Ok tt.
Proof.
  intros Hk Hu. unfold check_is_fitted.
  assert (E : existsb fitted_name (map_to_list (attributes self)).*1 = true).
  { apply existsb_exists. exists k. split; [|done].
    apply list_elem_of_In, list_elem_of_fmap. exists (k, v). split; [done|].
    by apply elem_of_map_to_list. }
  by rewrite E.
Qed.

Section Roundtrip.

Variables arr_sub arr_div arr_mul arr_add : pyval -> pyval -> result pyval.

(** The scaler that [load] builds from what [save] wrote. *)
Lemma load_save (self : scaler) (file_path : string) (fs : filesystem) :
  splitext_root file_path +:+ ".json" = file_path ->
  storable self ->
  exists fs',
    save self file_path fs = Ok fs'
    /\ load (init (class_name self)) file_path fs'
       = Ok (set_weights_items
               (mkScaler (class_name self) (copy self) (with_mean self)
                  (with_std self) ∅)
               (get_weights self)).
Proof.
  intros Hext Hst. pose proof (json_ok_get_weights self Hst) as Hw.
  destruct Hst as (Hc & Hm & Hs & _).
  unfold save, save_json_file. rewrite Hext.
  assert (Hjson : json_ok (PDict [("class_name", PStr (class_name self));
                     ("module_name", PStr module_name);
                     ("config", get_config self);
                     ("weights", PDict (get_weights self))]) = true).
  { simpl. rewrite Hc, Hm, Hs. simpl. by rewrite Hw. }
  rewrite Hjson. eexists. split; [done|].
  unfold load, load_json_file. rewrite lookup_insert_eq. reflexivity.
Qed.

(** C5, amended.  For a scaler that can be stored as json and a file path
    that carries the [.json] extension, [save] followed by [load] on a new
    scaler of the same class restores the parameters [copy], [with_mean] and
    [with_std], and restores every attribute of [_attributes_list_sklearn]
    that the original had with a value other than [None] as the numpy array
    of that value (so an array comes back as it was), and no attribute the
    original did not have; if the original was fitted, the restored
    scaler's [transform] and [inverse_transform] agree with the original's
    on every input. *)
Theorem save_load_restores (self : scaler) (file_path : string) (fs : filesystem) :
  splitext_root file_path +:+ ".json" = file_path ->
  storable self ->
  exists fs' restored,
    save self file_path fs = Ok fs'
    /\ load (init (class_name self)) file_path fs' = Ok restored
    /\ copy restored = copy self
    /\ with_mean restored = with_mean self
    /\ with_std restored = with_std self
    /\ (forall x v, x ∈ _attributes_list_sklearn ->
          attributes self !! x = Some v -> v <> PNone ->
          attributes restored !! x = Some (np_array v))
    /\ (forall x, x ∉ _attributes_list_sklearn \/ attributes self !! x = None ->
          attributes restored !! x = None)
    /\ (fitted self -> forall X cp,
          sk_transform arr_sub arr_div restored X cp
          = sk_transform arr_sub arr_div self X cp
          /\ sk_inverse_transform arr_mul arr_add restored X cp
          = sk_inverse_transform arr_mul arr_add self X cp).
Proof.
  intros Hext Hst.
  destruct (load_save self file_path fs Hext Hst) as (fs' & Hsave & Hload).
  set (s0 := mkScaler (class_name self) (copy self) (with_mean self) (with_std self) ∅)
    in *.
  set (restored := set_weights_items s0 (get_weights self)) in *.
  assert (Hattr : forall x, attributes restored !! x
    = match (if decide (x ∈ _attributes_list_sklearn)
             then attributes self !! x else None) with
      | Some v => Some (np_array (stored v))
      | None => None
      end).
  { intros x. unfold restored. rewrite get_weights_omap.
    rewrite set_weights_items_lookup; [|apply attributes_list_NoDup|done].
    by destruct (if decide _ then _ else _). }
  destruct (set_weights_items_config s0 (get_weights self)) as (_ & Hc & Hm & Hs).
  fold restored in Hc, Hm, Hs. simpl in Hc, Hm, Hs.
  assert (Hsome : forall x v, x ∈ _attributes_list_sklearn ->
            attributes self !! x = Some v -> v <> PNone ->
            attributes restored !! x = Some (np_array v)).
  { intros x v Hx Hv Hne. rewrite Hattr.
    destruct (decide _) as [_|]; [|done]. rewrite Hv. f_equal.
    apply np_array_stored; [done|]. destruct Hst as (_ & _ & _ & Hj). by eapply Hj. }
  assert (Hcheck : fitted self -> check_is_fitted restored = check_is_fitted self).
  { intros ([sc Hsc] & _ & _).
    rewrite (check_is_fitted_attribute self "scale_" sc) by done.
    assert (Hr : is_Some (attributes restored !! "scale_")).
    { rewrite Hattr. destruct (decide _) as [_|N]; [by rewrite Hsc|].
      exfalso. apply N. unfold _attributes_list_sklearn. set_solver. }
    destruct Hr as [v Hv].
    by rewrite (check_is_fitted_attribute restored "scale_" v). }
  assert (Hmean : fitted self -> truthy (with_mean self) = Ok true ->
            getattr restored "mean_" = getattr self "mean_").
  { intros Hf Hwm. destruct (proj1 (proj2 Hf) Hwm) as [c Hc']. unfold getattr.
    rewrite (Hsome "mean_" (PArray c)), Hc';
      [done|unfold _attributes_list_sklearn; set_solver|done|done]. }
  assert (Hscale : fitted self -> truthy (with_std self) = Ok true ->
            getattr restored "scale_" = getattr self "scale_").
  { intros Hf Hws. destruct (proj2 (proj2 Hf) Hws) as [c Hc']. unfold getattr.
    rewrite (Hsome "scale_" (PArray c)), Hc';
      [done|unfold _attributes_list_sklearn; set_solver|done|done]. }
  exists fs', restored.
  split; [exact Hsave|]. split; [exact Hload|].
  split; [exact Hc|]. split; [exact Hm|]. split; [exact Hs|].
  split; [exact Hsome|]. split.
  - intros x [Hx|Hx]; rewrite Hattr.
    + by destruct (decide _).
    + destruct (decide _); by rewrite ?Hx.
  - intros Hfit X cp. split.
    + unfold sk_transform. rewrite (Hcheck Hfit), Hm, Hs.
      destruct (check_is_fitted self); [|done]. simpl.
      destruct (truthy (with_mean self)) as [[]|] eqn:Hwm; [| |done]; simpl.
      * rewrite (Hmean Hfit eq_refl).
        destruct (getattr self "mean_" ≫= _); [|done]. simpl.
        destruct (truthy (with_std self)) as [[]|] eqn:Hws; [| |done]; simpl; [|done].
        by rewrite (Hscale Hfit eq_refl).
      * destruct (truthy (with_std self)) as [[]|] eqn:Hws; [| |done]; simpl; [|done].
        by rewrite (Hscale Hfit eq_refl).
    + unfold sk_inverse_transform. rewrite (Hcheck Hfit), Hm, Hs.
      destruct (check_is_fitted self); [|done]. simpl.
      destruct (truthy (with_std self)) as [[]|] eqn:Hws; [| |done]; simpl.
      * rewrite (Hscale Hfit eq_refl).
        destruct (getattr self "scale_" ≫= _); [|done]. simpl.
        destruct (truthy (with_mean self)) as [[]|] eqn:Hwm; [| |done]; simpl; [|done].
        by rewrite (Hmean Hfit eq_refl).
      * destruct (truthy (with_mean self)) as [[]|] eqn:Hwm; [| |done]; simpl; [|done].
        by rewrite (Hmean Hfit eq_refl).
Qed.

End Roundtrip.

(** *** A fitted scaler on disk *)

(** A [StandardScaler] fitted on five samples of one feature. *)
Definition example_scaler : scaler :=
  mkScaler "StandardScaler" (PBool true) (PBool true) (PBool true)
    (<["n_features_in_" := PInt 1]>
     (<["mean_" := PArray (PList [PFloat (Adj.Fin (1 # 2))])]>
     (<["scale_" := PArray (PList [PFloat (Adj.Fin 2)])]>
     (<["var_" := PArray (PList [PFloat (Adj.Fin 4)])]>
     (<["n_samples_seen_" := PInt 5]> ∅))))).

Lemma example_scaler_storable : storable example_scaler.
Proof.
  repeat split. intros x v Hx Hv.
  unfold _attributes_list_sklearn in Hx.
  repeat (apply elem_of_cons in Hx as [->|Hx]);
    [..|by apply elem_of_nil in Hx];
    vm_compute in Hv; inversion Hv; reflexivity.
Qed.

(** Saved and loaded under a name with the [.json] extension. *)
Lemma save_load_restores_witness :
  exists fs' restored,
    save example_scaler "example.json" ∅ = Ok fs'
    /\ load (init "StandardScaler") "example.json" fs' = Ok restored
    /\ with_mean restored = PBool true
    /\ attributes restored !! "mean_" = Some (PArray (PList [PFloat (Adj.Fin (1 # 2))]))
    /\ attributes restored !! "n_samples_seen_" = Some (PArray (PInt 5)).
Proof.
  destruct (save_load_restores (fun _ _ => Ok PNone) (fun _ _ => Ok PNone)
              (fun _ _ => Ok PNone) (fun _ _ => Ok PNone)
              example_scaler "example.json" ∅)
    as (fs' & restored & Hsave & Hload & _ & Hm & _ & Hattr & _).
  - reflexivity.
  - apply example_scaler_storable.
  - exists fs', restored. split; [exact Hsave|]. split; [exact Hload|].
    split; [exact Hm|]. split.
    + apply (Hattr "mean_" (PArray (PList [PFloat (Adj.Fin (1 # 2))])));
        [unfold _attributes_list_sklearn; set_solver|reflexivity|discriminate].
    + apply (Hattr "n_samples_seen_" (PInt 5));
        [unfold _attributes_list_sklearn; set_solver|reflexivity|discriminate].
Defined.

(** [save] appends [.json] to the path without its extension, [load] opens
    the path as it is: saved and loaded under the name [scaler], the file
    written is [scaler.json] and the file read does not exist. *)
Lemma save_load_without_extension :
  exists fs',
    save example_scaler "scaler" ∅ = Ok fs'
    /\ fs' !! "scaler.json" <> None
    /\ load (init "StandardScaler") "scaler" fs' = Raise (FileNotFoundError "scaler").
Proof.
  eexists. split; [reflexivity|]. split; [|reflexivity].
  vm_compute. discriminate.
Qed.

(** A scaler fitted with [with_mean=False, with_std=False] has [mean_],
    [var_] and [scale_] set to [None]; after [save] and [load] they are
    arrays holding [None]. *)
Example save_load_none_attribute :
  let self := mkScaler "StandardScaler" (PBool true) (PBool false) (PBool false)
                (<["mean_" := PNone]> (<["scale_" := PNone]> ∅)) in
  exists fs' restored,
    save self "example.json" ∅ = Ok fs'
    /\ load (init "StandardScaler") "example.json" fs' = Ok restored
    /\ attributes self !! "scale_" = Some PNone
    /\ attributes restored !! "scale_" = Some (PArray PNone).
Proof. do 2 eexists. repeat split; vm_compute; reflexivity. Qed.


(** *** Loading into any scaler, saving again *)

(** [get_scaling]: [None] without [scale_], else [scale_] as an array with
    a new leading axis. *)
Definition get_scaling (self : scaler) : pyval :=
  match attributes self !! "scale_" with
  | None => PNone
  | Some scale_ =>
      let scale := np_array scale_ in
      PArray (PList [tolist scale])
  end.

(** The dictionary [save] writes. *)
Definition full_info (self : scaler) : pyval :=
  PDict [("class_name", PStr (class_name self)); ("module_name", PStr module_name);
         ("config", get_config self); ("weights", PDict (get_weights self))].

Lemma storable_json_ok (self : scaler) : storable self -> json_ok (full_info self) = true.
Proof.
  intros Hst. pose proof (json_ok_get_weights self Hst) as Hw.
  destruct Hst as (Hc & Hm & Hs & _). simpl. rewrite Hc, Hm, Hs. simpl. by rewrite Hw.
Qed.

(** [load] on the file that [save] wrote, into any scaler. *)
Lemma load_written (self other : scaler) (file_path : string) (fs : filesystem) :
  storable self ->
  save self file_path fs
    = Ok (<[splitext_root file_path +:+ ".json" := full_info self]> fs)
  /\ load other (splitext_root file_path +:+ ".json")
       (<[splitext_root file_path +:+ ".json" := full_info self]> fs)
     = Ok (set_weights_items
             (mkScaler (class_name other) (copy self) (with_mean self) (with_std self)
                (attributes other))
             (get_weights self)).
Proof.
  intros Hst. pose proof (storable_json_ok self Hst) as Hjson. split.
  - unfold save, save_json_file. fold (full_info self). by rewrite Hjson.
  - unfold load, load_json_file. rewrite lookup_insert_eq. reflexivity.
Qed.

Lemma stored_np_array_stored (v : pyval) :
  json_ok (stored v) = true -> stored (np_array (stored v)) = stored v.
Proof. destruct v; try done. simpl. by destruct v. Qed.

Lemma omap_ext_elem {A B} (f g : A -> option B) (l : list A) :
  (forall x, x ∈ l -> f x = g x) -> omap f l = omap g l.
Proof.
  induction l as [|x l IH]; intros E; [done|].
  assert (IH' : omap f l = omap g l) by (apply IH; intros y Hy; apply E; by right).
  assert (Ex : f x = g x) by (apply E; left).
  change (omap f (x :: l)) with (match f x with Some y => y :: omap f l | None => omap f l end).
  change (omap g (x :: l)) with (match g x with Some y => y :: omap g l | None => omap g l end).
  by rewrite Ex, IH'.
Qed.



(** X20. [load] does not look at the class a file was saved from and does not
    clear the scaler it loads into.  After [save] of a storable scaler,
    [load] of the file written, into any scaler [other], returns [other]
    with its class kept, the three parameters replaced by the saved ones,
    every saved attribute replaced by the array of the saved value, and
    every other attribute of [other] left as it was. *)
Theorem load_into_any_scaler (self other : scaler) (file_path : string)
    (fs : filesystem) :
  storable self ->
  exists fs' restored,
    save self file_path fs = Ok fs'
    /\ load other (splitext_root file_path +:+ ".json") fs' = Ok restored
    /\ class_name restored = class_name other
    /\ get_config restored = get_config self
    /\ (forall x v, x ∈ _attributes_list_sklearn -> attributes self !! x = Some v ->
          attributes restored !! x = Some (np_array (stored v)))
    /\ (forall x, x ∉ _attributes_list_sklearn \/ attributes self !! x = None ->
          attributes restored !! x = attributes other !! x).
Proof.
  intros Hst. destruct (load_written self other file_path fs Hst) as [Hsave Hload].
  do 2 eexists. split; [exact Hsave|]. split; [exact Hload|].
  set (s0 := mkScaler (class_name other) (copy self) (with_mean self) (with_std self)
               (attributes other)).
  destruct (set_weights_items_config s0 (get_weights self)) as (Hn & Hc & Hm & Hs).
  assert (Hattr : forall x, attributes (set_weights_items s0 (get_weights self)) !! x
    = match (if decide (x ∈ _attributes_list_sklearn)
             then attributes self !! x else None) with
      | Some v => Some (np_array (stored v))
      | None => attributes other !! x
      end).
  { intros x. rewrite get_weights_omap.
    rewrite set_weights_items_lookup; [done|apply attributes_list_NoDup|done]. }
  split; [exact Hn|]. split.
  - unfold get_config. by rewrite Hc, Hm, Hs.
  - split.
    + intros x v Hx Hv. rewrite Hattr. destruct (decide _); [|done]. by rewrite Hv.
    + intros x [Hx|Hx]; rewrite Hattr.
      * by destruct (decide _).
      * destruct (decide _); by rewrite ?Hx.
Qed.

(** X21. What a scaler reports survives [save] and [load], and saving again
    changes nothing.  For a storable scaler and any file path, [load] of
    the file written into a new scaler of the same class gives a scaler
    with the same [get_config()], [get_weights()] and [get_scaling()], also
    for attributes that are [None]; saving it under the same path writes
    the file that is already there. *)
Theorem save_load_save (self : scaler) (file_path : string) (fs : filesystem) :
  storable self ->
  exists fs' restored,
    save self file_path fs = Ok fs'
    /\ load (init (class_name self)) (splitext_root file_path +:+ ".json") fs'
       = Ok restored
    /\ get_config restored = get_config self
    /\ get_weights restored = get_weights self
    /\ get_scaling restored = get_scaling self
    /\ save restored file_path fs' = Ok fs'.
Proof.
  intros Hst.
  destruct (load_written self (init (class_name self)) file_path fs Hst) as [Hsave Hload].
  do 2 eexists. split; [exact Hsave|]. split; [exact Hload|].
  set (s0 := mkScaler (class_name (init (class_name self))) (copy self) (with_mean self)
               (with_std self) (attributes (init (class_name self)))).
  set (restored := set_weights_items s0 (get_weights self)).
  destruct (set_weights_items_config s0 (get_weights self)) as (Hn & Hc & Hm & Hs).
  fold restored in Hn, Hc, Hm, Hs. simpl in Hn, Hc, Hm, Hs.
  assert (Hattr : forall x, x ∈ _attributes_list_sklearn ->
            attributes restored !! x
            = (fun v => np_array (stored v)) <$> attributes self !! x).
  { intros x Hx. unfold restored. rewrite get_weights_omap.
    rewrite set_weights_items_lookup; [|apply attributes_list_NoDup|done].
    destruct (decide _); [|done]. by destruct (attributes self !! x). }
  assert (Hconf : get_config restored = get_config self).
  { unfold get_config. by rewrite Hc, Hm, Hs. }
  assert (Hw : get_weights restored = get_weights self).
  { rewrite !get_weights_omap. apply omap_ext_elem. intros x Hx.
    rewrite (Hattr x Hx). destruct (attributes self !! x) as [v|] eqn:Hv; [|done].
    simpl. do 2 f_equal. apply stored_np_array_stored.
    destruct Hst as (_ & _ & _ & Hj). by eapply Hj. }
  split; [exact Hconf|]. split; [exact Hw|]. split.
  - unfold get_scaling. rewrite Hattr by (unfold _attributes_list_sklearn; set_solver).
    destruct (attributes self !! "scale_") as [v|] eqn:Hv; [|done]. simpl.
    do 3 f_equal.
    assert (Hj : json_ok (stored v) = true).
    { destruct Hst as (_ & _ & _ & Hj). apply (Hj "scale_"); [|done].
      unfold _attributes_list_sklearn. set_solver. }
    destruct v; try done. simpl in *. by destruct v.
  - unfold save, save_json_file. rewrite Hconf, Hw, Hn.
    fold (full_info self). rewrite (storable_json_ok self Hst).
    by rewrite insert_insert_eq.
Qed.

(** X22. [set_weights] sets attributes of [_attributes_list_sklearn] only: the
    class and the parameters stay, a name outside the list is ignored, an
    attribute that the dictionary does not name is untouched, and a listed
    name gets the array of its value.  Anything but a dictionary has no
    [items] and raises [AttributeError]. *)
Theorem set_weights_frame (self : scaler) (weights : pyval) :
  (forall items, weights = PDict items ->
     exists s',
       set_weights self weights = Ok s'
       /\ class_name s' = class_name self /\ get_config s' = get_config self
       /\ (forall x, x ∉ _attributes_list_sklearn \/ x ∉ items.*1 ->
             attributes s' !! x = attributes self !! x)
       /\ (forall x v, NoDup items.*1 -> (x, v) ∈ items ->
             x ∈ _attributes_list_sklearn ->
             attributes s' !! x = Some (np_array v)))
  /\ ((forall items, weights <> PDict items) ->
      set_weights self weights = Raise (AttributeError "items")).
Proof.
  split.
  - intros items ->. eexists. split; [reflexivity|].
    destruct (set_weights_items_config self items) as (Hn & Hc & Hm & Hs).
    split; [exact Hn|]. split; [unfold get_config; by rewrite Hc, Hm, Hs|].
    clear Hn Hc Hm Hs. split.
    + intros x Hx. revert self. induction items as [|[k v] items IH]; intros self; [done|].
      unfold set_weights_items in *. simpl.
      assert (Hx' : x ∉ _attributes_list_sklearn \/ x ∉ items.*1).
      { destruct Hx as [?|Hx]; [by left|]. right. intros ?. apply Hx. by right. }
      destruct (bool_decide (k ∈ _attributes_list_sklearn)) eqn:Hk; [|by apply IH].
      rewrite (IH Hx'). simpl. apply lookup_insert_ne. intros ->.
      apply bool_decide_eq_true in Hk.
      destruct Hx as [Hx|Hx]; [done|]. apply Hx. simpl. left.
    + intros x v Hnd Hin Hx. revert self.
      induction items as [|[k w] items IH]; intros self.
      { by apply elem_of_nil in Hin. }
      simpl in Hnd. apply NoDup_cons in Hnd as [Hk Hnd].
      unfold set_weights_items in *. simpl.
      apply elem_of_cons in Hin as [E|Hin].
      * inversion E; subst k w. rewrite bool_decide_eq_true_2 by done.
        assert (Hframe : forall s, attributes (foldl (fun self kv =>
                  if bool_decide (kv.1 ∈ _attributes_list_sklearn) then
                    mkScaler (class_name self) (copy self) (with_mean self) (with_std self)
                      (<[kv.1 := np_array kv.2]> (attributes self))
                  else self) s items) !! x = attributes s !! x).
        { clear -Hk. induction items as [|[k w] items IH]; intros s; [done|].
          simpl. assert (Hk' : x ∉ items.*1) by (intros ?; apply Hk; by right).
          destruct (bool_decide _); [|by apply IH].
          rewrite (IH Hk'). simpl. apply lookup_insert_ne. intros ->. apply Hk. left. }
        rewrite Hframe. simpl. apply lookup_insert_eq.
      * destruct (bool_decide _); by apply IH.
  - intros Hne. destruct weights; try done. by destruct (Hne d).
Qed.



(** The fitted scaler, loaded into a label scaler that was fitted on three
    features before: the class stays and the stale [feature_names_in_]
    stays. *)
Lemma load_into_any_scaler_witness :
  let other := mkScaler "StandardLabelScaler" (PBool false) (PBool true) (PBool true)
                 (<["feature_names_in_" := PArray (PList [PStr "a"])]> ∅) in
  exists fs' restored,
    save example_scaler "scaler" ∅ = Ok fs'
    /\ load other "scaler.json" fs' = Ok restored
    /\ class_name restored = "StandardLabelScaler"
    /\ get_config restored = get_config example_scaler
    /\ attributes restored !! "feature_names_in_" = Some (PArray (PList [PStr "a"])).
Proof.
  intros other.
  destruct (load_into_any_scaler example_scaler other "scaler" ∅ example_scaler_storable)
    as (fs' & restored & Hsave & Hload & Hn & Hc & _ & Hkeep).
  exists fs', restored. split; [exact Hsave|]. split; [exact Hload|].
  split; [exact Hn|]. split; [exact Hc|].
  rewrite Hkeep; [reflexivity|]. right. reflexivity.
Defined.

Lemma save_load_save_witness :
  exists fs' restored,
    save example_scaler "scaler" ∅ = Ok fs'
    /\ load (init "StandardScaler") "scaler.json" fs' = Ok restored
    /\ get_weights restored = get_weights example_scaler
    /\ save restored "scaler" fs' = Ok fs'.
Proof.
  destruct (save_load_save example_scaler "scaler" ∅ example_scaler_storable)
    as (fs' & restored & Hsave & Hload & _ & Hw & _ & Hagain).
  exists fs', restored. auto.
Defined.

(** *** [save_weights] *)

(** [save_weights]: the weights as arrays, stored by name in one file.
    [np.savez(path, **weights)] is taken to store the arrays under their
    names in the file at [path]; the warning is not recorded. *)
Definition save_weights (self : scaler) (file_path : string) (fs : filesystem)
    : filesystem :=
  let weights := get_weights self in
  let weights := map (fun kv : string * pyval => (kv.1, np_array kv.2)) weights in
  if (0 <? length weights)%nat
  then <[splitext_root file_path +:+ ".npz" := PDict weights]> fs
  else fs.

Lemma np_array_idemp (v : pyval) : np_array (np_array v) = np_array v.
Proof. by destruct v. Qed.

Lemma set_weights_items_arrays (s : scaler) (items : list (string * pyval)) :
  set_weights_items s (map (fun kv : string * pyval => (kv.1, np_array kv.2)) items)
  = set_weights_items s items.
Proof.
  revert s. induction items as [|kv items IH]; intros s; [done|].
  unfold set_weights_items in *. simpl.
  destruct (bool_decide (kv.1 ∈ _attributes_list_sklearn)); [|apply IH].
  rewrite np_array_idemp. apply IH.
Qed.

Lemma get_weights_restored (self s0 : scaler) :
  (forall x, x ∈ _attributes_list_sklearn -> attributes s0 !! x = None) ->
  (forall x v, x ∈ _attributes_list_sklearn -> attributes self !! x = Some v ->
     json_ok (stored v) = true) ->
  get_weights (set_weights_items s0 (get_weights self)) = get_weights self.
Proof.
  intros Hs0 Hj. rewrite (get_weights_omap self).
  rewrite (get_weights_omap (set_weights_items s0 _)).
  apply omap_ext_elem. intros x Hx.
  rewrite set_weights_items_lookup; [|apply attributes_list_NoDup|done].
  destruct (decide _); [|done].
  destruct (attributes self !! x) as [v|] eqn:Hv; simpl.
  - do 2 f_equal. apply stored_np_array_stored. by eapply Hj.
  - by rewrite Hs0.
Qed.

(** X29. [save_weights] writes no file for a scaler without fitted attributes
    (where [save] writes one); otherwise it writes, at the path with the
    extension replaced by [.npz], one array for each entry of
    [get_weights()], under the same names in the same order, and
    [set_weights] of these arrays into a new scaler of any class gives back
    the same [get_weights()]. *)
Theorem save_weights_set_weights (self : scaler) (file_path cls : string)
    (fs : filesystem) :
  (forall x v, x ∈ _attributes_list_sklearn -> attributes self !! x = Some v ->
     json_ok (stored v) = true) ->
  ((forall x, x ∈ _attributes_list_sklearn -> attributes self !! x = None) ->
   save_weights self file_path fs = fs)
  /\ (forall x, x ∈ _attributes_list_sklearn -> is_Some (attributes self !! x) ->
        exists arrays restored,
          save_weights self file_path fs
          = <[splitext_root file_path +:+ ".npz" := PDict arrays]> fs
          /\ arrays.*1 = (get_weights self).*1
          /\ Forall (fun kv : string * pyval => exists c, kv.2 = PArray c) arrays
          /\ set_weights (init cls) (PDict arrays) = Ok restored
          /\ get_weights restored = get_weights self).
Proof.
  intros Hj. split.
  - intros Hnone. unfold save_weights. rewrite get_weights_omap.
    replace (omap _ _attributes_list_sklearn) with (@nil (string * pyval)); [done|].
    symmetry. rewrite <- (omap_ext_elem (fun _ => None)).
    + reflexivity.
    + intros x Hx. by rewrite (Hnone x Hx).
  - intros x Hx [v Hv].
    exists (map (fun kv : string * pyval => (kv.1, np_array kv.2)) (get_weights self)).
    eexists. split; [|split; [|split; [|split; [reflexivity|]]]].
    + unfold save_weights.
      assert (Hlen : (0 < length (get_weights self))%nat).
      { rewrite get_weights_omap.
        assert (Hin : (x, stored v)
                        ∈ omap (fun n => (fun v => (n, stored v)) <$> attributes self !! n)
                            _attributes_list_sklearn).
        { apply list_elem_of_omap. exists x. split; [done|]. by rewrite Hv. }
        destruct (omap _ _); [by apply elem_of_nil in Hin|simpl; lia]. }
      rewrite length_map. by apply Nat.ltb_lt in Hlen as ->.
    + rewrite <- list_fmap_compose. done.
    + apply Forall_fmap, Forall_forall. intros [k u] _. simpl.
      destruct u; simpl; eauto.
    + simpl. rewrite set_weights_items_arrays.
      apply get_weights_restored; [done|exact Hj].
Qed.

(** A fitted scaler writes its arrays; reading them back restores the
    weights. *)
Lemma save_weights_set_weights_witness :
  exists arrays restored,
    save_weights example_scaler "out/scaler.json" ∅
    = <["out/scaler.npz" := PDict arrays]> ∅
    /\ set_weights (init "StandardLabelScaler") (PDict arrays) = Ok restored
    /\ get_weights restored = get_weights example_scaler.
Proof.
  destruct (save_weights_set_weights example_scaler "out/scaler.json"
              "StandardLabelScaler" ∅) as [_ H].
  - intros x v Hx Hv. unfold _attributes_list_sklearn in Hx.
    repeat (apply elem_of_cons in Hx as [->|Hx]);
      try (vm_compute in Hv; inversion Hv; subst; reflexivity);
      try (vm_compute in Hv; discriminate).
    by apply elem_of_nil in Hx.
  - destruct (H "scale_") as (arrays & restored & Hsave & _ & _ & Hset & Hw).
    + unfold _attributes_list_sklearn. set_solver.
    + vm_compute. eauto.
    + exists arrays, restored. done.
Defined.
End Scaler.
(** ** [training/train_lipop.py] and [training/hyper/hyper_lipop.py] *)

Module TrainLipop.

(** *** Hyper-parameter dictionaries *)

(** The literals of a hyper-parameter file; a float is kept as it is
    written. *)
#[local] Set Warnings "-register-all".
Inductive hval : Type :=
  | HNone
  | HBool (b : bool)
  | HInt (z : Z)
  | HFloat (literal : string)
  | HStr (s : string)
  | HList (l : list hval)
  | HDict (d : list (string * hval)).
#[local] Set Warnings "register-all".

Fixpoint dict_get (d : list (string * hval)) (k : string) : option hval :=
  match d with
  | [] => None
  | (k', v) :: d' => if String.eqb k' k then Some v else dict_get d' k
  end.

(** [d[k]] *)
Definition getitem (d : hval) (k : string) : result hval :=
  match d with
  | HDict items =>
      match dict_get items k with Some v => Ok v | None => Raise (KeyError k) end
  | _ => Raise (TypeError "indices must be integers or slices, not str")
  end.

Fixpoint is_substring (k s : string) : bool :=
  String.prefix k s
  || match s with
     | EmptyString => false
     | String _ s' => is_substring k s'
     end.

(** [k in d] for a string [k]: a key of a dictionary, an element of a list,
    a part of a string. *)
Definition contains (d : hval) (k : string) : result bool :=
  match d with
  | HDict items => Ok (bool_decide (is_Some (dict_get items k)))
  | HList l =>
      Ok (existsb (fun x => match x with HStr s => String.eqb s k | _ => false end) l)
  | HStr s => Ok (is_substring k s)
  | _ => Raise (TypeError "argument is not iterable")
  end.

(** [for x in v] *)
Definition iterate (v : hval) : result (list hval) :=
  match v with
  | HList l => Ok l
  | HDict items => Ok (map (fun kv => HStr kv.1) items)
  | HStr s => Ok (map (fun c => HStr (String c EmptyString)) (list_ascii_of_string s))
  | _ => Raise (TypeError "object is not iterable")
  end.

(** [d.items()] *)
Definition items (d : hval) : result (list (string * hval)) :=
  match d with
  | HDict l => Ok l
  | _ => Raise (AttributeError "items")
  end.

Definition hyper_DMPNN : hval :=
  HDict [
    ("model", HDict [
      ("class_name", HStr "make_model"); ("module_name", HStr "kgcnn.literature.DMPNN");
      ("config", HDict [
        ("name", HStr "DMPNN");
        ("inputs", HList [
          HDict [
            ("shape", HList [HNone; HInt 41]); ("name", HStr "node_attributes");
            ("dtype", HStr "float32"); ("ragged", HBool true)];
          HDict [
            ("shape", HList [HNone; HInt 11]); ("name", HStr "edge_attributes");
            ("dtype", HStr "float32"); ("ragged", HBool true)];
          HDict [
            ("shape", HList [HNone; HInt 2]); ("name", HStr "edge_indices");
            ("dtype", HStr "int64"); ("ragged", HBool true)];
          HDict [
            ("shape", HList [HNone; HInt 1]); ("name", HStr "edge_indices_reverse");
            ("dtype", HStr "int64"); ("ragged", HBool true)]]);
        ("input_embedding", HDict [
          ("node", HDict [("input_dim", HInt 95); ("output_dim", HInt 64)]);
          ("edge", HDict [("input_dim", HInt 5); ("output_dim", HInt 64)])]);
        ("pooling_args", HDict [("pooling_method", HStr "sum")]);
        ("edge_initialize", HDict [("units", HInt 128); ("use_bias", HBool true); ("activation", HStr "relu")]);
        ("edge_dense", HDict [("units", HInt 128); ("use_bias", HBool true); ("activation", HStr "linear")]);
        ("edge_activation", HDict [("activation", HStr "relu")]);
        ("node_dense", HDict [("units", HInt 128); ("use_bias", HBool true); ("activation", HStr "relu")]);
        ("verbose", HInt 10); ("depth", HInt 5); ("dropout", HDict [("rate", HFloat "0.1")]);
        ("output_embedding", HStr "graph");
        ("output_mlp", HDict [
          ("use_bias", HList [HBool true; HBool true; HBool false]);
          ("units", HList [HInt 64; HInt 32; HInt 1]);
          ("activation", HList [HStr "relu"; HStr "relu"; HStr "linear"])])])]);
    ("training", HDict [
      ("fit", HDict [
        ("batch_size", HInt 32); ("epochs", HInt 300); ("validation_freq", HInt 1);
        ("verbose", HInt 2); ("callbacks", HList [])]);
      ("compile", HDict [
        ("optimizer", HDict [
          ("class_name", HStr "Adam");
          ("config", HDict [
            ("lr", HDict [
              ("class_name", HStr "ExponentialDecay");
              ("config", HDict [
                ("initial_learning_rate", HFloat "0.001"); ("decay_steps", HInt 5800);
                ("decay_rate", HFloat "0.5"); ("staircase", HBool false)])])])]);
        ("loss", HStr "mean_absolute_error")]);
      ("cross_validation", HDict [
        ("class_name", HStr "KFold");
        ("config", HDict [("n_splits", HInt 5); ("random_state", HInt 42); ("shuffle", HBool true)])]);
      ("scaler", HDict [
        ("class_name", HStr "StandardScaler");
        ("config", HDict [("with_std", HBool true); ("with_mean", HBool true); ("copy", HBool true)])])]);
    ("data", HDict [
      ("dataset", HDict [
        ("class_name", HStr "LipopDataset");
        ("module_name", HStr "kgcnn.data.datasets.LipopDataset"); ("config", HDict []);
        ("methods", HList [
          HDict [("set_attributes", HDict [])];
          HDict [("map_list", HDict [("method", HStr "set_edge_indices_reverse")])]])]);
      ("data_unit", HStr "")]);
    ("info", HDict [("postfix", HStr ""); ("postfix_file", HStr ""); ("kgcnn_version", HStr "2.0.3")])].

Definition hyper_AttentiveFP : hval :=
  HDict [
    ("model", HDict [
      ("class_name", HStr "make_model"); ("module_name", HStr "kgcnn.literature.AttentiveFP");
      ("config", HDict [
        ("name", HStr "AttentiveFP");
        ("inputs", HList [
          HDict [
            ("shape", HList [HNone; HInt 41]); ("name", HStr "node_attributes");
            ("dtype", HStr "float32"); ("ragged", HBool true)];
          HDict [
            ("shape", HList [HNone; HInt 11]); ("name", HStr "edge_attributes");
            ("dtype", HStr "float32"); ("ragged", HBool true)];
          HDict [
            ("shape", HList [HNone; HInt 2]); ("name", HStr "edge_indices");
            ("dtype", HStr "int64"); ("ragged", HBool true)]]);
        ("input_embedding", HDict [
          ("node_attributes", HDict [("input_dim", HInt 95); ("output_dim", HInt 64)]);
          ("edge_attributes", HDict [("input_dim", HInt 5); ("output_dim", HInt 64)])]);
        ("attention_args", HDict [("units", HInt 200)]); ("depthato", HInt 2);
        ("depthmol", HInt 3); ("dropout", HFloat "0.2"); ("verbose", HInt 10);
        ("output_embedding", HStr "graph");
        ("output_mlp", HDict [
          ("use_bias", HList [HBool true; HBool true]); ("units", HList [HInt 200; HInt 1]);
          ("activation", HList [HStr "kgcnn>leaky_relu"; HStr "linear"])])])]);
    ("training", HDict [
      ("fit", HDict [
        ("batch_size", HInt 200); ("epochs", HInt 200); ("validation_freq", HInt 1);
        ("verbose", HInt 2); ("callbacks", HList [])]);
      ("compile", HDict [
        ("optimizer", HDict [
          ("class_name", HStr "Addons>AdamW");
          ("config", HDict [("lr", HFloat "0.0031622776601683794"); ("weight_decay", HFloat "1e-05")])]);
        ("loss", HStr "mean_absolute_error")]);
      ("cross_validation", HDict [
        ("class_name", HStr "KFold");
        ("config", HDict [("n_splits", HInt 5); ("random_state", HInt 42); ("shuffle", HBool true)])]);
      ("scaler", HDict [
        ("class_name", HStr "StandardScaler");
        ("config", HDict [("with_std", HBool true); ("with_mean", HBool true); ("copy", HBool true)])])]);
    ("data", HDict [
      ("dataset", HDict [
        ("class_name", HStr "LipopDataset");
        ("module_name", HStr "kgcnn.data.datasets.LipopDataset"); ("config", HDict []);
        ("methods", HList [HDict [("set_attributes", HDict [])]])]);
      ("data_unit", HStr "")]);
    ("info", HDict [("postfix", HStr ""); ("postfix_file", HStr ""); ("kgcnn_version", HStr "2.0.3")])].

Definition hyper_PAiNN : hval :=
  HDict [
    ("model", HDict [
      ("class_name", HStr "make_model"); ("module_name", HStr "kgcnn.literature.PAiNN");
      ("config", HDict [
        ("name", HStr "PAiNN");
        ("inputs", HList [
          HDict [
            ("shape", HList [HNone]); ("name", HStr "node_number"); ("dtype", HStr "float32");
            ("ragged", HBool true)];
          HDict [
            ("shape", HList [HNone; HInt 3]); ("name", HStr "node_coordinates");
            ("dtype", HStr "float32"); ("ragged", HBool true)];
          HDict [
            ("shape", HList [HNone; HInt 2]); ("name", HStr "range_indices");
            ("dtype", HStr "int64"); ("ragged", HBool true)]]);
        ("input_embedding", HDict [("node", HDict [("input_dim", HInt 95); ("output_dim", HInt 128)])]);
        ("bessel_basis", HDict [("num_radial", HInt 20); ("cutoff", HFloat "5.0"); ("envelope_exponent", HInt 5)]);
        ("pooling_args", HDict [("pooling_method", HStr "sum")]);
        ("conv_args", HDict [("units", HInt 128); ("cutoff", HNone)]);
        ("update_args", HDict [("units", HInt 128)]); ("depth", HInt 3); ("verbose", HInt 10);
        ("output_embedding", HStr "graph");
        ("output_mlp", HDict [
          ("use_bias", HList [HBool true; HBool true]); ("units", HList [HInt 128; HInt 1]);
          ("activation", HList [HStr "swish"; HStr "linear"])])])]);
    ("training", HDict [
      ("fit", HDict [
        ("batch_size", HInt 32); ("epochs", HInt 250); ("validation_freq", HInt 10);
        ("verbose", HInt 2); ("callbacks", HList [])]);
      ("compile", HDict [
        ("optimizer", HDict [
          ("class_name", HStr "Addons>MovingAverage");
          ("config", HDict [
            ("optimizer", HDict [
              ("class_name", HStr "Adam");
              ("config", HDict [
                ("learning_rate", HDict [
                  ("class_name", HStr "kgcnn>LinearWarmupExponentialDecay");
                  ("config", HDict [
                    ("learning_rate", HFloat "0.0005"); ("warmup_steps", HFloat "30.0");
                    ("decay_steps", HFloat "40000.0"); ("decay_rate", HFloat "0.01")])]);
                ("amsgrad", HBool true)])]);
            ("average_decay", HFloat "0.999")])]);
        ("loss", HStr "mean_absolute_error")]);
      ("cross_validation", HDict [
        ("class_name", HStr "KFold");
        ("config", HDict [("n_splits", HInt 5); ("random_state", HInt 42); ("shuffle", HBool true)])]);
      ("scaler", HDict [
        ("class_name", HStr "StandardScaler");
        ("config", HDict [("with_std", HBool true); ("with_mean", HBool true); ("copy", HBool true)])])]);
    ("data", HDict [
      ("dataset", HDict [
        ("class_name", HStr "LipopDataset");
        ("module_name", HStr "kgcnn.data.datasets.LipopDataset"); ("config", HDict []);
        ("methods", HList [
          HDict [("set_attributes", HDict [])];
          HDict [
            ("map_list", HDict [
              ("method", HStr "set_range"); ("max_distance", HInt 3);
              ("max_neighbours", HInt 10000)])]])]);
      ("data_unit", HStr "")]);
    ("info", HDict [("postfix", HStr ""); ("postfix_file", HStr ""); ("kgcnn_version", HStr "2.0.3")])].

Definition hyper_GIN : hval :=
  HDict [
    ("model", HDict [
      ("class_name", HStr "make_model"); ("module_name", HStr "kgcnn.literature.GIN");
      ("config", HDict [
        ("name", HStr "GIN");
        ("inputs", HList [
          HDict [
            ("shape", HList [HNone; HInt 41]); ("name", HStr "node_attributes");
            ("dtype", HStr "float32"); ("ragged", HBool true)];
          HDict [
            ("shape", HList [HNone; HInt 2]); ("name", HStr "edge_indices");
            ("dtype", HStr "int64"); ("ragged", HBool true)]]);
        ("input_embedding", HDict [("node", HDict [("input_dim", HInt 96); ("output_dim", HInt 64)])]);
        ("depth", HInt 5); ("dropout", HFloat "0.05");
        ("gin_mlp", HDict [
          ("units", HList [HInt 64; HInt 64]); ("use_bias", HBool true);
          ("activation", HList [HStr "relu"; HStr "linear"]); ("use_normalization", HBool true);
          ("normalization_technique", HStr "graph_batch")]);
        ("gin_args", HDict []);
        ("last_mlp", HDict [
          ("use_bias", HBool true); ("units", HList [HInt 64; HInt 32; HInt 1]);
          ("activation", HList [HStr "relu"; HStr "relu"; HStr "linear"])]);
        ("output_embedding", HStr "graph");
        ("output_mlp", HDict [("activation", HStr "linear"); ("units", HInt 1)])])]);
    ("training", HDict [
      ("fit", HDict [
        ("batch_size", HInt 32); ("epochs", HInt 300); ("validation_freq", HInt 1);
        ("verbose", HInt 2); ("callbacks", HList [])]);
      ("compile", HDict [
        ("optimizer", HDict [
          ("class_name", HStr "Adam");
          ("config", HDict [
            ("lr", HDict [
              ("class_name", HStr "ExponentialDecay");
              ("config", HDict [
                ("initial_learning_rate", HFloat "0.001"); ("decay_steps", HInt 5800);
                ("decay_rate", HFloat "0.5"); ("staircase", HBool false)])])])]);
        ("loss", HStr "mean_absolute_error")]);
      ("cross_validation", HDict [
        ("class_name", HStr "KFold");
        ("config", HDict [("n_splits", HInt 5); ("random_state", HInt 42); ("shuffle", HBool true)])]);
      ("scaler", HDict [
        ("class_name", HStr "StandardScaler");
        ("config", HDict [("with_std", HBool true); ("with_mean", HBool true); ("copy", HBool true)])])]);
    ("data", HDict [
      ("dataset", HDict [
        ("class_name", HStr "LipopDataset");
        ("module_name", HStr "kgcnn.data.datasets.LipopDataset"); ("config", HDict []);
        ("methods", HList [HDict [("set_attributes", HDict [])]])]);
      ("data_unit", HStr "")]);
    ("info", HDict [("postfix", HStr ""); ("postfix_file", HStr ""); ("kgcnn_version", HStr "2.0.3")])].

Definition hyper_GAT : hval :=
  HDict [
    ("model", HDict [
      ("class_name", HStr "make_model"); ("module_name", HStr "kgcnn.literature.GAT");
      ("config", HDict [
        ("name", HStr "GAT");
        ("inputs", HList [
          HDict [
            ("shape", HList [HNone; HInt 41]); ("name", HStr "node_attributes");
            ("dtype", HStr "float32"); ("ragged", HBool true)];
          HDict [
            ("shape", HList [HNone; HInt 11]); ("name", HStr "edge_attributes");
            ("dtype", HStr "float32"); ("ragged", HBool true)];
          HDict [
            ("shape", HList [HNone; HInt 2]); ("name", HStr "edge_indices");
            ("dtype", HStr "int64"); ("ragged", HBool true)]]);
        ("input_embedding", HDict [
          ("node", HDict [("input_dim", HInt 95); ("output_dim", HInt 64)]);
          ("edge", HDict [("input_dim", HInt 8); ("output_dim", HInt 64)])]);
        ("attention_args", HDict [
          ("units", HInt 64); ("use_bias", HBool true); ("use_edge_features", HBool true);
          ("use_final_activation", HBool false); ("has_self_loops", HBool true)]);
        ("pooling_nodes_args", HDict [("pooling_method", HStr "sum")]); ("depth", HInt 1);
        ("attention_heads_num", HInt 10); ("attention_heads_concat", HBool false);
        ("verbose", HInt 10); ("output_embedding", HStr "graph");
        ("output_mlp", HDict [
          ("use_bias", HList [HBool true; HBool true; HBool false]);
          ("units", HList [HInt 64; HInt 32; HInt 1]);
          ("activation", HList [HStr "relu"; HStr "relu"; HStr "linear"])])])]);
    ("training", HDict [
      ("fit", HDict [
        ("batch_size", HInt 32); ("epochs", HInt 500); ("validation_freq", HInt 2);
        ("verbose", HInt 2);
        ("callbacks", HList [
          HDict [
            ("class_name", HStr "kgcnn>LinearLearningRateScheduler");
            ("config", HDict [
              ("learning_rate_start", HFloat "0.5e-03"); ("learning_rate_stop", HFloat "1e-05");
              ("epo_min", HInt 250); ("epo", HInt 500); ("verbose", HInt 0)])]])]);
      ("compile", HDict [
        ("optimizer", HDict [("class_name", HStr "Adam"); ("config", HDict [("lr", HFloat "5e-03")])]);
        ("loss", HStr "mean_absolute_error")]);
      ("cross_validation", HDict [
        ("class_name", HStr "KFold");
        ("config", HDict [("n_splits", HInt 5); ("random_state", HInt 42); ("shuffle", HBool true)])]);
      ("scaler", HDict [
        ("class_name", HStr "StandardScaler");
        ("config", HDict [("with_std", HBool true); ("with_mean", HBool true); ("copy", HBool true)])])]);
    ("data", HDict [
      ("dataset", HDict [
        ("class_name", HStr "LipopDataset");
        ("module_name", HStr "kgcnn.data.datasets.LipopDataset"); ("config", HDict []);
        ("methods", HList [HDict [("set_attributes", HDict [])]])]);
      ("data_unit", HStr "")]);
    ("info", HDict [("postfix", HStr ""); ("postfix_file", HStr ""); ("kgcnn_version", HStr "2.0.3")])].

Definition hyper_GATv2 : hval :=
  HDict [
    ("model", HDict [
      ("class_name", HStr "make_model"); ("module_name", HStr "kgcnn.literature.GATv2");
      ("config", HDict [
        ("name", HStr "GATv2");
        ("inputs", HList [
          HDict [
            ("shape", HList [HNone; HInt 41]); ("name", HStr "node_attributes");
            ("dtype", HStr "float32"); ("ragged", HBool true)];
          HDict [
            ("shape", HList [HNone; HInt 11]); ("name", HStr "edge_attributes");
            ("dtype", HStr "float32"); ("ragged", HBool true)];
          HDict [
            ("shape", HList [HNone; HInt 2]); ("name", HStr "edge_indices");
            ("dtype", HStr "int64"); ("ragged", HBool true)]]);
        ("input_embedding", HDict [
          ("node", HDict [("input_dim", HInt 95); ("output_dim", HInt 64)]);
          ("edge", HDict [("input_dim", HInt 8); ("output_dim", HInt 64)])]);
        ("attention_args", HDict [
          ("units", HInt 64); ("use_bias", HBool true); ("use_edge_features", HBool true);
          ("use_final_activation", HBool false); ("has_self_loops", HBool true)]);
        ("pooling_nodes_args", HDict [("pooling_method", HStr "sum")]); ("depth", HInt 4);
        ("attention_heads_num", HInt 10); ("attention_heads_concat", HBool false);
        ("verbose", HInt 10); ("output_embedding", HStr "graph");
        ("output_mlp", HDict [
          ("use_bias", HList [HBool true; HBool true; HBool false]);
          ("units", HList [HInt 64; HInt 32; HInt 1]);
          ("activation", HList [HStr "relu"; HStr "relu"; HStr "linear"])])])]);
    ("training", HDict [
      ("fit", HDict [
        ("batch_size", HInt 32); ("epochs", HInt 500); ("validation_freq", HInt 2);
        ("verbose", HInt 2);
        ("callbacks", HList [
          HDict [
            ("class_name", HStr "kgcnn>LinearLearningRateScheduler");
            ("config", HDict [
              ("learning_rate_start", HFloat "0.5e-03"); ("learning_rate_stop", HFloat "1e-05");
              ("epo_min", HInt 250); ("epo", HInt 500); ("verbose", HInt 0)])]])]);
      ("compile", HDict [
        ("optimizer", HDict [("class_name", HStr "Adam"); ("config", HDict [("lr", HFloat "5e-03")])]);
        ("loss", HStr "mean_absolute_error")]);
      ("cross_validation", HDict [
        ("class_name", HStr "KFold");
        ("config", HDict [("n_splits", HInt 5); ("random_state", HInt 42); ("shuffle", HBool true)])]);
      ("scaler", HDict [
        ("class_name", HStr "StandardScaler");
        ("config", HDict [("with_std", HBool true); ("with_mean", HBool true); ("copy", HBool true)])])]);
    ("data", HDict [
      ("dataset", HDict [
        ("class_name", HStr "LipopDataset");
        ("module_name", HStr "kgcnn.data.datasets.LipopDataset"); ("config", HDict []);
        ("methods", HList [HDict [("set_attributes", HDict [])]])]);
      ("data_unit", HStr "")]);
    ("info", HDict [("postfix", HStr ""); ("postfix_file", HStr ""); ("kgcnn_version", HStr "2.0.3")])].

Definition hyper_Schnet : hval :=
  HDict [
    ("model", HDict [
      ("class_name", HStr "make_model"); ("module_name", HStr "kgcnn.literature.Schnet");
      ("config", HDict [
        ("name", HStr "Schnet");
        ("inputs", HList [
          HDict [
            ("shape", HList [HNone]); ("name", HStr "node_number"); ("dtype", HStr "float32");
            ("ragged", HBool true)];
          HDict [
            ("shape", HList [HNone; HInt 3]); ("name", HStr "node_coordinates");
            ("dtype", HStr "float32"); ("ragged", HBool true)];
          HDict [
            ("shape", HList [HNone; HInt 2]); ("name", HStr "range_indices");
            ("dtype", HStr "int64"); ("ragged", HBool true)]]);
        ("input_embedding", HDict [("node", HDict [("input_dim", HInt 95); ("output_dim", HInt 64)])]);
        ("output_embedding", HStr "graph");
        ("output_mlp", HDict [
          ("use_bias", HList [HBool true; HBool true]); ("units", HList [HInt 64; HInt 1]);
          ("activation", HList [HStr "kgcnn>shifted_softplus"; HStr "linear"])]);
        ("last_mlp", HDict [
          ("use_bias", HList [HBool true; HBool true]); ("units", HList [HInt 128; HInt 64]);
          ("activation", HList [HStr "kgcnn>shifted_softplus"; HStr "kgcnn>shifted_softplus"])]);
        ("interaction_args", HDict [
          ("units", HInt 128); ("use_bias", HBool true);
          ("activation", HStr "kgcnn>shifted_softplus"); ("cfconv_pool", HStr "sum")]);
        ("node_pooling_args", HDict [("pooling_method", HStr "sum")]); ("depth", HInt 4);
        ("gauss_args", HDict [
          ("bins", HInt 20); ("distance", HInt 4); ("offset", HFloat "0.0");
          ("sigma", HFloat "0.4")]);
        ("verbose", HInt 10)])]);
    ("training", HDict [
      ("cross_validation", HDict [
        ("class_name", HStr "KFold");
        ("config", HDict [("n_splits", HInt 5); ("random_state", HInt 42); ("shuffle", HBool true)])]);
      ("scaler", HDict [
        ("class_name", HStr "StandardScaler");
        ("config", HDict [("with_std", HBool true); ("with_mean", HBool true); ("copy", HBool true)])]);
      ("fit", HDict [
        ("batch_size", HInt 32); ("epochs", HInt 800); ("validation_freq", HInt 10);
        ("verbose", HInt 2);
        ("callbacks", HList [
          HDict [
            ("class_name", HStr "kgcnn>LinearLearningRateScheduler");
            ("config", HDict [
              ("learning_rate_start", HFloat "0.0005"); ("learning_rate_stop", HFloat "1e-05");
              ("epo_min", HInt 100); ("epo", HInt 800); ("verbose", HInt 0)])]])]);
      ("compile", HDict [
        ("optimizer", HDict [("class_name", HStr "Adam"); ("config", HDict [("lr", HFloat "0.0005")])]);
        ("loss", HStr "mean_absolute_error")])]);
    ("data", HDict [
      ("dataset", HDict [
        ("class_name", HStr "LipopDataset");
        ("module_name", HStr "kgcnn.data.datasets.LipopDataset"); ("config", HDict []);
        ("methods", HList [
          HDict [("set_attributes", HDict [])];
          HDict [
            ("map_list", HDict [
              ("method", HStr "set_range"); ("max_distance", HInt 4);
              ("max_neighbours", HInt 10000)])]])])]);
    ("info", HDict [("postfix", HStr ""); ("postfix_file", HStr ""); ("kgcnn_version", HStr "2.1.0")])].

(** The dictionary [hyper] of [hyper_lipop.py], one entry per model. *)
Definition hyper_lipop : hval :=
  HDict [("DMPNN", hyper_DMPNN);
         ("AttentiveFP", hyper_AttentiveFP);
         ("PAiNN", hyper_PAiNN);
         ("GIN", hyper_GIN);
         ("GAT", hyper_GAT);
         ("GATv2", hyper_GATv2);
         ("Schnet", hyper_Schnet)].

(** *** The training script *)

(** What the script asks of the dataset, of the model and of keras, in
    order. *)
Inductive event : Type :=
  | SetRange (kwargs : hval)
  | SetEdgeIndicesReversePairs
  | MakeModel (kwargs : hval)
  | Compile (optimizer : hval)
  | Fit (train_index test_index : list nat) (kwargs : list (string * hval)).

Section Script.

(** [dataset.length] of the loaded dataset. *)
Variable data_length : nat.

(** sklearn's [KFold]: [KFold k_fold_info] is the splitter built from the
    keyword arguments [k_fold_info], and [split kf n] are the index pairs
    [(train_index, test_index)] it yields for [n] samples once the loop
    starts to draw from it. *)
Variable splitter : Type.
Variable KFold : hval -> result splitter.
Variable split : splitter -> nat -> result (list (list nat * list nat)).

(** Modelled from the spec: [kgcnn.hyper.datasets.DatasetHyperTraining] is
    not among the sources; hyper-parameters are loaded from Python
    dictionaries, so [get_hyper(model_name)] is taken to be the entry of the
    model in the dictionary [hyper] of the file. *)
Definition get_hyper (hyper_file : hval) (model_name : string) : result hval :=
  getitem hyper_file model_name.

(** One pass of [for train_index, test_index in split_indices]. *)
Definition train_fold (hyper hyper_fit hyper_compile : hval)
    (hyper_fit_additional : list (string * hval))
    (split : list nat * list nat) : result (list event) :=
  let '(train_index, test_index) := split in
  (* make model *)
  model_kwargs ← getitem hyper "model";
  (* select train and test data *)
  model_inputs ← getitem model_kwargs "inputs";
  inputs ← iterate model_inputs;
  is_ragged ← mapM (fun x => getitem x "ragged") inputs;
  (* optimizer, loss and metrics from the serialized hyper-parameter *)
  optimizer ← getitem hyper_compile "optimizer";
  has_loss ← contains hyper_compile "loss";
  loss ← (if has_loss : bool then getitem hyper_compile "loss"
          else Ok (HStr "mean_squared_error"));
  has_metrics ← contains hyper_compile "metrics";
  metrics ← (if has_metrics : bool
             then m ← getitem hyper_compile "metrics"; iterate m else Ok []);
  (* start training *)
  batch_size ← getitem hyper_fit "batch_size";
  callbacks ← getitem hyper_fit "callbacks";
  cbks ← iterate callbacks;
  Ok [MakeModel model_kwargs; Compile optimizer;
      Fit train_index test_index hyper_fit_additional].

(** The script up to the end of the loop over the splits. *)
Definition train_lipop (hyper_file : hval) (model_name : string) : result (list event) :=
  hyper ← get_hyper hyper_file model_name;
  (* loading the dataset *)
  hyper_data ← getitem hyper "data";
  has_range ← contains hyper_data "set_range";
  ev_range ← (if has_range : bool
              then kwargs ← getitem hyper_data "range"; Ok [SetRange kwargs]
              else Ok []);
  has_pairs ← contains hyper_data "set_edge_indices_reverse_pairs";
  let ev_pairs := if has_pairs : bool then [SetEdgeIndicesReversePairs] else [] in
  training ← getitem hyper "training";
  k_fold_info ← getitem training "KFold";
  (* data-set split *)
  kf ← KFold k_fold_info;
  model_kwargs ← getitem hyper "model";
  model_inputs ← getitem model_kwargs "inputs";
  inputs ← iterate model_inputs;
  names ← mapM (fun x => getitem x "name") inputs;
  (* learning rate and epochs *)
  hyper_train ← getitem hyper "training";
  hyper_fit ← getitem hyper_train "fit";
  hyper_compile ← getitem hyper_train "compile";
  fit_items ← items hyper_fit;
  let hyper_fit_additional :=
    filter (fun kv => kv.1 ∉ ["callbacks"; "validation_data"]) fit_items in
  compile_items ← items hyper_compile;
  epo ← getitem hyper_fit "epochs";
  epostep ← getitem hyper_fit "validation_freq";
  split_indices ← split kf data_length;
  folds ← mapM (train_fold hyper hyper_fit hyper_compile hyper_fit_additional)
             split_indices;
  Ok (ev_range ++ ev_pairs ++ concat folds).

End Script.

(** A dictionary in the layout the script reads, with the k-fold
    configuration under [hyper["training"]["KFold"]]. *)
Definition hyper_with_KFold : hval :=
  HDict [("GIN", HDict [
    ("model", HDict [
      ("name", HStr "GIN");
      ("inputs", HList [
        HDict [("shape", HList [HNone; HInt 41]); ("name", HStr "node_attributes");
               ("dtype", HStr "float32"); ("ragged", HBool true)]])]);
    ("training", HDict [
      ("KFold", HDict [("n_splits", HInt 2); ("random_state", HNone); ("shuffle", HBool false)]);
      ("fit", HDict [("batch_size", HInt 32); ("epochs", HInt 10);
                     ("validation_freq", HInt 1); ("callbacks", HList [])]);
      ("compile", HDict [("optimizer", HStr "Adam")])]);
    ("data", HDict []);
    ("info", HDict [])])].

(** An unshuffled two-fold split of four samples. *)
Definition two_fold (kf : hval) (n : nat) : result (list (list nat * list nat)) :=
  Ok [([2; 3], [0; 1]); ([0; 1], [2; 3])]%nat.

Example train_lipop_with_KFold :
  train_lipop 4 hval Ok two_fold hyper_with_KFold "GIN"
  = (model ← getitem hyper_with_KFold "GIN" ≫= fun h => getitem h "model";
     let fit_kwargs := [("batch_size", HInt 32); ("epochs", HInt 10);
                        ("validation_freq", HInt 1)] in
     Ok [MakeModel model; Compile (HStr "Adam"); Fit [2; 3] [0; 1] fit_kwargs;
         MakeModel model; Compile (HStr "Adam"); Fit [0; 1] [2; 3] fit_kwargs]%nat).
Proof. vm_compute. reflexivity. Qed.


(** *** The script on the dictionary of [hyper_lipop.py] *)

(** The models of the dictionary. *)
Definition model_names (hyper_file : hval) : list string :=
  match hyper_file with
  | HDict entries => entries.*1
  | _ => []
  end.

Example model_names_hyper_lipop :
  model_names hyper_lipop
  = ["DMPNN"; "AttentiveFP"; "PAiNN"; "GIN"; "GAT"; "GATv2"; "Schnet"].
Proof. reflexivity. Qed.

(** The k-fold configuration of every model of the file. *)
Definition KFold_5_42 : hval :=
  HDict [("class_name", HStr "KFold");
         ("config", HDict [("n_splits", HInt 5); ("random_state", HInt 42);
                           ("shuffle", HBool true)])].

Section ScriptProofs.

Variable data_length : nat.
Variable splitter : Type.
Variable KFold : hval -> result splitter.
Variable split : splitter -> nat -> result (list (list nat * list nat)).

(** C3 (on the code).  With the dictionary of [hyper_lipop.py] the script
    does not run k-fold training: it stops at
    [hyper["training"]["KFold"]]: for every model of the file the [training]
    dictionary holds the k-fold configuration under [cross_validation] and
    has no entry [KFold], so the look-up raises [KeyError] before a splitter
    or a model is made. *)
Theorem train_lipop_KFold_missing :
  Forall (fun model_name =>
    (exists hyper training,
        get_hyper hyper_lipop model_name = Ok hyper
        /\ getitem hyper "training" = Ok training
        /\ getitem training "cross_validation" = Ok KFold_5_42
        /\ getitem training "KFold" = Raise (KeyError "KFold"))
    /\ train_lipop data_length splitter KFold split hyper_lipop model_name
       = Raise (KeyError "KFold"))
    (model_names hyper_lipop).
Proof.
  repeat constructor; try (do 2 eexists; repeat split; vm_compute; reflexivity);
    vm_compute; reflexivity.
Qed.

Lemma train_fold_events hyper hyper_fit hyper_compile fit_kwargs
    (splits : list (list nat * list nat)) folds model_kwargs :
  getitem hyper "model" = Ok model_kwargs ->
  mapM (train_fold hyper hyper_fit hyper_compile fit_kwargs) splits = Ok folds ->
  exists optimizer,
    folds = map (fun split : list nat * list nat =>
                   [MakeModel model_kwargs; Compile optimizer;
                    Fit split.1 split.2 fit_kwargs]) splits.
Proof.
  intros Hmodel Hfolds. apply mapM_Ok_Forall2 in Hfolds.
  destruct (getitem hyper_compile "optimizer") as [optimizer|e] eqn:Hoptimizer.
  - exists optimizer. induction Hfolds as [|[tr te] evs splits folds Hfold _ IH];
      [done|]. simpl. f_equal; [|exact IH].
    unfold train_fold in Hfold. rewrite Hmodel, Hoptimizer in Hfold.
    simpl in Hfold.
    repeat (apply bind_Ok in Hfold as (? & _ & Hfold)).
    by inversion Hfold.
  - exists HNone. destruct Hfolds as [|[tr te] evs splits folds Hfold _]; [done|].
    exfalso. unfold train_fold in Hfold. rewrite Hmodel in Hfold. simpl in Hfold.
    apply bind_Ok in Hfold as (? & _ & Hfold).
    apply bind_Ok in Hfold as (? & _ & Hfold).
    apply bind_Ok in Hfold as (? & _ & Hfold).
    rewrite Hoptimizer in Hfold. discriminate.
Qed.

(** When the script reaches the end of its loop, the splitter was built from
    [hyper["training"]["KFold"]], and every split made one model from
    [hyper["model"]] that was fitted on the train indices with the test
    indices as validation data. *)
Lemma train_lipop_folds (hyper_file : hval) (model_name : string) (events : list event) :
  train_lipop data_length splitter KFold split hyper_file model_name = Ok events ->
  exists hyper training k_fold_info kf split_indices model_kwargs optimizer fit_kwargs
         prefix,
    get_hyper hyper_file model_name = Ok hyper
    /\ getitem hyper "training" = Ok training
    /\ getitem training "KFold" = Ok k_fold_info
    /\ KFold k_fold_info = Ok kf
    /\ split kf data_length = Ok split_indices
    /\ getitem hyper "model" = Ok model_kwargs
    /\ events = prefix ++
         concat (map (fun split : list nat * list nat =>
                        [MakeModel model_kwargs; Compile optimizer;
                         Fit split.1 split.2 fit_kwargs]) split_indices).
Proof.
  intros H. unfold train_lipop in H.
  apply bind_Ok in H as (hyper & Hhyper & H).
  apply bind_Ok in H as (hyper_data & _ & H).
  apply bind_Ok in H as (has_range & _ & H).
  apply bind_Ok in H as (ev_range & _ & H).
  apply bind_Ok in H as (has_pairs & _ & H).
  apply bind_Ok in H as (training & Htraining & H).
  apply bind_Ok in H as (k_fold_info & Hk & H).
  apply bind_Ok in H as (kf & Hkf & H).
  apply bind_Ok in H as (model_kwargs & Hmodel & H).
  apply bind_Ok in H as (model_inputs & _ & H).
  apply bind_Ok in H as (inputs & _ & H).
  apply bind_Ok in H as (names & _ & H).
  apply bind_Ok in H as (hyper_train & Htrain & H).
  apply bind_Ok in H as (hyper_fit & _ & H).
  apply bind_Ok in H as (hyper_compile & _ & H).
  apply bind_Ok in H as (fit_items & _ & H).
  apply bind_Ok in H as (compile_items & _ & H).
  apply bind_Ok in H as (epo & _ & H).
  apply bind_Ok in H as (epostep & _ & H).
  apply bind_Ok in H as (split_indices & Hsplit & H).
  apply bind_Ok in H as (folds & Hfolds & H).
  inversion H; subst events; clear H.
  set (fit_kwargs := filter (fun kv : string * hval =>
                               kv.1 ∉ ["callbacks"; "validation_data"]) fit_items) in *.
  destruct (train_fold_events _ _ _ _ _ _ _ Hmodel Hfolds) as [optimizer ->].
  exists hyper, training, k_fold_info, kf, split_indices, model_kwargs, optimizer,
    fit_kwargs, (ev_range ++ (if has_pairs then [SetEdgeIndicesReversePairs] else [])).
  repeat split; try done. by rewrite app_assoc.
Qed.

End ScriptProofs.


(** *** The dataset options and the arguments of [fit] *)

Section ScriptExtra.

Variable data_length : nat.
Variable splitter : Type.
Variable KFold : hval -> result splitter.
Variable split : splitter -> nat -> result (list (list nat * list nat)).

(** X23. The script tests for the key [set_range] and then reads the key
    [range]: a [data] dictionary that asks for [set_range] without an entry
    [range] stops the script with [KeyError('range')], before the splitter
    or a model is made. *)
Theorem train_lipop_set_range_without_range (hyper_file : hval) (model_name : string)
    (hyper : hval) (hyper_data : list (string * hval)) :
  get_hyper hyper_file model_name = Ok hyper ->
  getitem hyper "data" = Ok (HDict hyper_data) ->
  is_Some (dict_get hyper_data "set_range") ->
  dict_get hyper_data "range" = None ->
  train_lipop data_length splitter KFold split hyper_file model_name
  = Raise (KeyError "range").
Proof.
  intros Hhyper Hdata Hset Hrange. unfold train_lipop.
  rewrite Hhyper. simpl. rewrite Hdata. simpl.
  rewrite (bool_decide_eq_true_2 _ Hset). by rewrite Hrange.
Qed.

Definition reserved_fit_arguments : list string := ["callbacks"; "validation_data"].

Lemma dict_get_filter (fit_items : list (string * hval)) (k : string) :
  dict_get (filter (fun kv : string * hval => kv.1 ∉ ["callbacks"; "validation_data"])
              fit_items) k
  = if decide (k ∈ reserved_fit_arguments) then None else dict_get fit_items k.
Proof.
  unfold reserved_fit_arguments.
  induction fit_items as [|[k' v] l IH]; simpl.
  - by destruct (decide _).
  - rewrite filter_cons. simpl.
    destruct (decide (k' ∉ ["callbacks"; "validation_data"])) as [Hk'|Hk']; simpl.
    + destruct (String.eqb_spec k' k) as [->|Hne]; [|exact IH].
      by destruct (decide (k ∈ ["callbacks"; "validation_data"])).
    + rewrite IH. destruct (decide (k ∈ ["callbacks"; "validation_data"])); [done|].
      destruct (String.eqb_spec k' k) as [->|Hne]; [|done].
      exfalso. by apply Hk'.
Qed.

Definition is_fit (ev : event) : bool :=
  match ev with Fit _ _ _ => true | _ => false end.
Definition is_make_model (ev : event) : bool :=
  match ev with MakeModel _ => true | _ => false end.

Lemma fold_events_filter (P : event -> bool) (f : list nat * list nat -> list event)
    (splits : list (list nat * list nat)) :
  List.filter P (concat (map f splits)) = concat (map (fun sp => List.filter P (f sp)) splits).
Proof.
  induction splits as [|sp splits IH]; simpl; [done|].
  by rewrite List.filter_app, IH.
Qed.

Lemma concat_map_singleton {A B} (f : A -> B) (l : list A) :
  concat (map (fun x => [f x]) l) = map f l.
Proof. induction l as [|x l IH]; simpl; [done|]. by rewrite IH. Qed.

(** X24. When the script reaches the end of its loop: [fit] was called once for
    each split the splitter gave, in their order, each time on a model made
    for that split; the keyword arguments of every call are the entries of
    [hyper["training"]["fit"]] without [callbacks] and [validation_data],
    which the script passes itself; and that dictionary has the entries
    [epochs] and [validation_freq]. *)
Theorem train_lipop_fit_arguments (hyper_file : hval) (model_name : string)
    (events : list event) :
  train_lipop data_length splitter KFold split hyper_file model_name = Ok events ->
  exists hyper training k_fold_info kf split_indices fit_items fit_kwargs,
    get_hyper hyper_file model_name = Ok hyper
    /\ getitem hyper "training" = Ok training
    /\ getitem training "KFold" = Ok k_fold_info
    /\ KFold k_fold_info = Ok kf
    /\ split kf data_length = Ok split_indices
    /\ getitem training "fit" = Ok (HDict fit_items)
    /\ List.filter is_fit events
       = map (fun sp : list nat * list nat => Fit sp.1 sp.2 fit_kwargs) split_indices
    /\ length (List.filter is_make_model events) = length split_indices
    /\ (forall k, dict_get fit_kwargs k
                  = if decide (k ∈ reserved_fit_arguments) then None
                    else dict_get fit_items k)
    /\ is_Some (dict_get fit_items "epochs")
    /\ is_Some (dict_get fit_items "validation_freq").
Proof.
  intros H. unfold train_lipop in H.
  apply bind_Ok in H as (hyper & Hhyper & H).
  apply bind_Ok in H as (hyper_data & _ & H).
  apply bind_Ok in H as (has_range & _ & H).
  apply bind_Ok in H as (ev_range & Hev & H).
  apply bind_Ok in H as (has_pairs & _ & H).
  apply bind_Ok in H as (training & Htraining & H).
  apply bind_Ok in H as (k_fold_info & Hk & H).
  apply bind_Ok in H as (kf & Hkf & H).
  apply bind_Ok in H as (model_kwargs & Hmodel & H).
  apply bind_Ok in H as (model_inputs & _ & H).
  apply bind_Ok in H as (inputs & _ & H).
  apply bind_Ok in H as (names & _ & H).
  apply bind_Ok in H as (hyper_train & Htrain & H).
  apply bind_Ok in H as (hyper_fit & Hfit & H).
  apply bind_Ok in H as (hyper_compile & _ & H).
  apply bind_Ok in H as (fit_items & Hitems & H).
  apply bind_Ok in H as (compile_items & _ & H).
  apply bind_Ok in H as (epo & Hepo & H).
  apply bind_Ok in H as (epostep & Hstep & H).
  apply bind_Ok in H as (split_indices & Hsplit & H).
  apply bind_Ok in H as (folds & Hfolds & H).
  inversion H; subst events; clear H.
  set (fit_kwargs := filter (fun kv : string * hval =>
                               kv.1 ∉ ["callbacks"; "validation_data"]) fit_items) in *.
  destruct (train_fold_events _ _ _ _ _ _ _ Hmodel Hfolds) as [optimizer ->].
  assert (hyper_train = training) as -> by congruence.
  assert (hyper_fit = HDict fit_items) as ->.
  { destruct hyper_fit; try done. simpl in Hitems. congruence. }
  assert (Hprefix : forall P, (P = is_fit \/ P = is_make_model) ->
            List.filter P (ev_range ++ (if has_pairs then [SetEdgeIndicesReversePairs] else []))
            = []).
  { intros P HP. rewrite List.filter_app.
    assert (List.filter P ev_range = []) as ->.
    { destruct has_range.
      - apply bind_Ok in Hev as (kw & _ & Hev). inversion Hev.
        by destruct HP as [-> | ->].
      - by inversion Hev. }
    destruct has_pairs; [|done]. by destruct HP as [-> | ->]. }
  exists hyper, training, k_fold_info, kf, split_indices, fit_items, fit_kwargs.
  repeat split; try done.
  - rewrite app_assoc, List.filter_app, Hprefix by (by left). simpl.
    rewrite fold_events_filter. simpl.
    apply concat_map_singleton.
  - rewrite app_assoc, List.filter_app, Hprefix by (by right). simpl.
    rewrite fold_events_filter. simpl.
    by rewrite concat_map_singleton, length_map.
  - intros k. apply dict_get_filter.
  - simpl in Hepo. by destruct (dict_get fit_items "epochs").
  - simpl in Hstep. by destruct (dict_get fit_items "validation_freq").
Qed.

End ScriptExtra.

(** The dictionary of the layout the script reads, asking for [set_range]. *)
Lemma train_lipop_set_range_without_range_witness :
  train_lipop 4 hval Ok two_fold
    (HDict [("GIN", HDict [("data", HDict [("set_range", HDict [])])])]) "GIN"
  = Raise (KeyError "range").
Proof.
  apply (train_lipop_set_range_without_range 4 hval Ok two_fold
           (HDict [("GIN", HDict [("data", HDict [("set_range", HDict [])])])]) "GIN"
           (HDict [("data", HDict [("set_range", HDict [])])])
           [("set_range", HDict [])]).
  - reflexivity.
  - reflexivity.
  - eexists. reflexivity.
  - reflexivity.
Defined.

Lemma train_lipop_fit_arguments_witness :
  exists events fit_kwargs,
    train_lipop 4 hval Ok two_fold hyper_with_KFold "GIN" = Ok events
    /\ List.filter is_fit events
       = [Fit [2; 3] [0; 1] fit_kwargs; Fit [0; 1] [2; 3] fit_kwargs]%nat
    /\ dict_get fit_kwargs "callbacks" = None.
Proof.
  destruct (train_lipop_fit_arguments 4 hval Ok two_fold hyper_with_KFold "GIN"
              _ train_lipop_with_KFold)
    as (hyper & training & kfi & kf & sp & fit_items & fit_kwargs
        & _ & _ & _ & _ & Hsp & _ & Hfit & _ & Hkw & _).
  eexists. exists fit_kwargs. split; [exact train_lipop_with_KFold|].
  inversion Hsp; subst sp. split; [exact Hfit|].
  rewrite Hkw. reflexivity.
Defined.
End TrainLipop.
